(* ===== verification/_CoqProject ===== *)
-Q . S2P
Prelude.v
GoErrors.v
Url.v
Effects.v
Quiet.v
Wp.v
Sql.v
Json.v
JsonFacts.v
RepoName.v
Events.v
Uuid.v
Libs.v
Concrete.v
Broker.v
Delivery.v
Outbox.v
OutboxFacts.v
Consumers.v
Saga.v
SagaFacts.v
GitHub.v
GitHubFacts.v
Config.v
Subscription.v
SubscriptionUse.v
SubscriptionApi.v
SubscriptionFacts.v
SubscriptionTheorems.v
Mailer.v
MailerTheorems.v
Dispatcher.v
Notifier.v
NotifierFacts.v
RetryFacts.v
NotifierTheorems.v
Scanner.v
ScannerFacts.v
ScannerTheorems.v
Logging.v
Timers.v
Metrics.v
WatchMetrics.v
Lifecycle.v
Bootstrap.v
BootstrapFacts.v
Migrations.v
Relays.v
Replicas.v
Convergence.v
SagaSystem.v
Redelivery.v
System.v
