(* ===== verification/Prelude.v ===== *)
(** * GitHub Release Notifier: a verification development

    ** The program

    Four Go services, each with its own PostgreSQL database, exchange JSON domain
    events over a NATS JetStream bus.  subscription ([internal/subscription]) has
    the public API and owns repositories and subscriptions; scanner
    ([internal/scanner]) polls GitHub for the watched repositories; notifier
    ([internal/notifier]) sends confirmation and release mails and keeps a read
    model of the subscribers; saga-orchestrator ([internal/saga]) follows each
    subscription until it is confirmed, expired or compensated.  An event leaves a
    service through a transactional outbox, except the scanner's, which publishes
    directly.

    ** How it is modelled

    A fallible Go function is a function into [res] ([GoErrors]); a function with
    effects is a computation of the monad [M D] ([Effects]) over a world that has
    the committed database, the working copy of the open transaction, the
    identity sequences, the relay's nudge channel and the trace of requests made
    to the outside.  What the outside answers (faults of any database call with
    the statement applied or not, clocks, random bytes, SMTP, GitHub, Redis, the bus,
    the peer service, cancellation) is an oracle of class [Env] that every theorem
    quantifies over.  A statement is a function on tables ([Sql]) with the
    constraints of the migrations.  [Wp] is the weakest-precondition calculus the
    proofs use; [Quiet] and [Concrete] give environments and library instances in
    which the witnesses evaluate.

    ** Files and sources

    - Prelude, GoErrors, Url, Effects, Quiet, Wp, Sql: shared vocabulary, errors,
      [net/url], world, transactions ([infrastructure/db/tx.go]), rules, tables.
    - Json, JsonFacts, Events, RepoName, Uuid, Libs, Concrete: [encoding/json] and
      its round trip, the event catalogue and wire format ([shared/events]),
      [shared/github/parse_repo.go], and the interfaces of the uuid, pgx, jwt and
      validation libraries.
    - Broker, Delivery, Outbox, OutboxFacts, Relays, Consumers: publishing and acknowledging
      ([infrastructure/broker]), the deliveries of a consumer, the outbox and its relay ([infrastructure/outbox]),
      several relays with interleaved transactions, the consumer table and the
      decoding prologue of the handlers.
    - Saga, SagaFacts: domain, repository, coordinator, both compensators, consumers.
    - GitHub, GitHubFacts: [shared/github] and [infrastructure/cache].
    - Subscription, SubscriptionUse, SubscriptionApi, SubscriptionFacts,
      SubscriptionTheorems: repositories and rows; use cases, tokens, publishers and
      the clean-up loop; Connect API, compensation server, consumer; their proofs.
    - Mailer, MailerTheorems, Dispatcher: templates and contextual escaping, SMTP
      batches, and the job queue with its goroutine.
    - Notifier, NotifierFacts, RetryFacts, NotifierTheorems: repositories,
      projections, release and confirmation mails, retries, maintenance.
    - Scanner, ScannerFacts, ScannerTheorems: repository, the concurrent fetch
      pass, the watch use case, consumers, the scheduler.
    - Config: [infrastructure/config].  Logging: [infrastructure/logging].  Timers:
      the background loops with the tickers they create from the configuration.
    - Metrics, WatchMetrics: [infrastructure/metrics] and the instrumented operations;
      a watch pass and its fetch pass with every sample they take.
    - Lifecycle, Bootstrap, BootstrapFacts: [internal/bootstrap] and the connecting
      half of [infrastructure/{db,cache,broker}]; a process is a trace of opened and
      closed resources, tasks and servers, down to the mains of [src/cmd].
    - Migrations: the migration scripts over a catalogue, what start-up runs of them
      ([infrastructure/db/db.go]), the SQL of the repositories against the catalogue.
    - Replicas: messages between services (attempted, stored, still to be
      handled) and the argument about the last write to a key.
    - Convergence: the copies of the subscriptions in the scanner and the notifier,
      and the interleaved steps of the three services that keep them.
    - SagaSystem: the steps of the subscription service and the orchestrator.
    - Redelivery: the consumers under repeated deliveries, and what the bus gives up.
    - System: wire format, wiring, poison messages across services.

    Interfaces between components are classes with their laws: [BusPublisher]
    (Broker to Outbox and Scanner), [RepoChecker] and [ReleaseSource] (GitHub to
    Subscription and Scanner), [ReleaseSender] and [ConfirmationSender] (Mailer to
    Notifier), [ReleaseScanner] (the fetch pass to the watch use case), [HasOutbox],
    [Compensator], and [RetryTable], what the retrier needs of a table of failures.  Clients are verified against the class; the implementation is
    shown to be an instance.

    ** What the theorems show

    - Delivery: the relay refines an abstract deliver-then-forget relay, loses no
      message, and empties the outbox in order when nothing fails; relays that share an
      outbox exclude each other and lose and repeat nothing by it; outcomes, marks and
      events commit together or not at all; a handled release is not mailed again.
    - State: each service's consumers and the API refine abstract state machines
      (saga states, subscription contract, read model, watch list) from any database
      state that satisfies the invariant, and preserve it under every fault.
    - Convergence: under any interleaving of requests, relay batches and handled
      messages with any faults, the read model ends as exactly the confirmed
      subscriptions when the messages about a subscription keep their order, and the
      watch list as their numbers when each message takes effect once; without the
      order, which separate consumers do not ensure, it need not.  From every reachable
      state a schedule without faults leads to a state where the copies are exact.  A
      message that the bus gives up after five deliveries spoils its own entry only,
      but that one for good.
    - Redelivery: however often messages are repeated and acknowledgements lost, the
      read model and the sagas end as the messages make them, in order and once each.
    - Sagas across services: every pending subscription has an open saga, or a message
      about it is on its way or was given up; a rollback whose command is still
      in the outbox or on its way is completed by the relay and the consumer alone.
    - Concurrency: a fetch pass, whose goroutines interleave around their requests, ends
      under every schedule; after a fatal answer only requests already in flight are
      made or reported; with a limit other than zero and a context that is not done every
      schedule gives the same observations; mail jobs are sent once, in order, answered to their own caller and drained by a
      shutdown.
    - Accounting: a retry run gives every failed mail the fate that the read model and the
      sender's answer decide, and a row stays only for a reason; maintenance keeps the rest; the counters
      of the API and of the scanner count each request and each repository once, with
      its own result, and change nothing.
    - Edges: wire format, tokens, cached answers and correlation ids survive their
      round trips; poison messages are terminated without effect; mail markup is that
      of the templates; keys guard the protected procedures.
    - Processes: configuration is accepted exactly when complete and readable, has
      the documented defaults, and each numeric field is its variable read within
      64 bits; every service opens, awaits
      and closes what it uses in order, whatever fails, and exits accordingly.
    - Schema: the URL names the table of versions and changes nothing else; from any
      earlier version start-up leads to the schema that the statements of
      the code fit; every migration can be undone and done again; the outbox's migrations
      need their own table of versions.
    - Some theorems state what the code does where the documents say otherwise (the
      clean-up that never removes, redelivered confirmations, the gRPC compensation
      that is lost, a rollback that comes late or from a stale read, cached answers counted as requests,
      intervals and limits of zero,
      a confirmation that the bus gives up).

    ** Bounds and fuel

    [flush_fuel] is one more than the number of messages: each full batch removes
    at least one ([flush_loop_total]).  The fetch pass has fuel five steps per
    repository ([scan_fuel]: check, launch, and the goroutine's own check, request and
    return), which [scan_pass_total] shows to be enough.  JSON and duration parsing recurse on at most
    the length of the text, each step consuming a byte.  A consumer's message has
    [maxDeliver] deliveries, JetStream's own limit.  A list of signals that ends
    is a loop still waiting, so loop theorems cover every prefix of a run.  Go
    integers are 64-bit ([wrap64], [in_int64]); PostgreSQL INTEGER columns overflow with
    an error.

    ** Limits

    One session per database world: the statements of a transaction do not
    interleave with those of another (except those of relays, in [rl_step]); rows
    locked by other sessions are an oracle.  Between the transactions of one operation
    others may run: Subscribe is interleaved part by part in [sys_step] and [saga_step],
    the compensation of a saga in [saga_step] and [saga_history].
    A statement that fails inside a transaction is always returned upwards by the code,
    so the aborted state of a PostgreSQL transaction is not represented.  Where pgx
    reports one fault at the query and another while reading rows, one label is used.
    Mails are sent where they are queued; Dispatcher shows why that is faithful.
    In the fetch pass a call of GetLatestRelease is one step, its cache accesses and its
    request together; between that and the rest of its goroutine the others run.
    Time limits ([context.WithTimeout]) are failures of the environment.
    In [sys_step] one relay publishes, ids of the outbox increase in commit order among
    the announcements of one subscription ([lock_order]: its row lock), and text is UTF-8.  A message that is not settled stays to be handled until the bus
    gives it up, which the steps allow at any time ([SysNotifierGivesUp]).

    ** Not modelled

    JetStream itself (storing and redelivering is what [Delivery] and [sys_step] say of it), generated RPC code and its validation rules, the
    transcoder, the Prometheus and slog back ends, golang-migrate (a class with its
    documented laws), how [net/url] reads what precedes a query (another), the
    durations that histograms observe.  Constructors that only store their arguments,
    the ports the use cases declare and log lines have no definition of their own: a
    component takes what it uses as arguments or from the classes above. *)

From stdpp Require Export prelude gmap strings sorting.

Open Scope Z_scope.

(** ** Machine integers *)

(** Go's [int], [int64] and [time.Duration] are 64-bit two's complement. *)
Definition two63 : Z := 9223372036854775808.
Definition two64 : Z := 18446744073709551616.
Definition wrap64 (z : Z) : Z := (z + two63) mod two64 - two63.
Definition in_int64 (z : Z) : Prop := - two63 <= z < two63.

(** PostgreSQL's [INTEGER] is 32-bit and raises "integer out of range". *)
Definition int32_max : Z := 2147483647.

Lemma wrap64_range z : in_int64 (wrap64 z).
Proof.
  unfold in_int64, wrap64.
  pose proof (Z.mod_pos_bound (z + two63) two64 eq_refl).
  unfold two63, two64 in *. lia.
Qed.

Lemma wrap64_id z : in_int64 z -> wrap64 z = z.
Proof. unfold in_int64, wrap64. intros H. rewrite Z.mod_small; unfold two63, two64 in *; lia. Qed.

Global Instance in_int64_dec z : Decision (in_int64 z).
Proof. unfold in_int64. apply _. Defined.

(** ** Lists *)

Lemma filter_all {A} (P : A -> Prop) `{forall x, Decision (P x)} (l : list A) :
  Forall P l -> filter P l = l.
Proof. induction 1; [done|]. rewrite filter_cons_True; congruence. Qed.

Lemma filter_none {A} (P : A -> Prop) `{forall x, Decision (P x)} (l : list A) :
  Forall (fun x => ~ P x) l -> filter P l = [].
Proof. induction 1; [done|]. rewrite filter_cons_False; done. Qed.

Lemma List_filter_all {A} (p : A -> bool) (l : list A) :
  (forall x, x ∈ l -> p x = true) -> List.filter p l = l.
Proof.
  induction l as [|x l IH]; intros Hp; simpl; [done|]. rewrite Hp by set_solver.
  f_equal. apply IH. set_solver.
Qed.

(** ** Strings *)

(** stdpp blocks the reduction of append; here strings are computed with. *)
#[global] Arguments String.append !_ _ : simpl nomatch.

Lemma string_app_assoc (s t u : string) : (s +:+ t) +:+ u = s +:+ (t +:+ u).
Proof. induction s; simpl; congruence. Qed.
Lemma string_app_nil_r (s : string) : s +:+ "" = s.
Proof. induction s; simpl; congruence. Qed.
Lemma string_length_app (s t : string) :
  String.length (s +:+ t) = (String.length s + String.length t)%nat.
Proof. induction s; simpl; congruence. Qed.

Create Rewrite HintDb str.
#[export] Hint Rewrite string_app_assoc string_app_nil_r string_length_app : str.
