(* ===== verification/GoErrors.v ===== *)
(** * Go error values

    The sentinels the sources declare with [errors.New], the wrapping that
    [fmt.Errorf] with [%w] builds, [errors.Is] and [Error()].  A fallible Go
    function [(T, error)] is a function into [res T]. *)

From S2P Require Import Prelude.

Open Scope string_scope.
Open Scope list_scope.

(** Every error the sources compare with [errors.Is]: their own sentinels
    and those of the libraries they test for. *)
Inductive sentinel :=
| ErrNotFound | ErrAlreadyExists
| ErrRateLimited | ErrUnauthorized | ErrNoRelease | ErrInvalidRepo | ErrRepoNotFound
| ErrExpired | ErrInvalid
| ErrTerminal
| errNoTx
| context_Canceled | context_DeadlineExceeded
| pgx_ErrNoRows | jwt_ErrTokenExpired
| migrate_ErrNoChange | http_ErrServerClosed.

Global Instance sentinel_eq_dec : EqDecision sentinel.
Proof. solve_decision. Defined.

Definition sentinel_text (s : sentinel) : string :=
  match s with
  | ErrNotFound => "not found"
  | ErrAlreadyExists => "already exists"
  | ErrRateLimited => "github API rate limit exceeded"
  | ErrUnauthorized => "github API unauthorized: check GITHUB_TOKEN"
  | ErrNoRelease => "no releases found"
  | ErrInvalidRepo => "invalid repository format, expected owner/repo"
  | ErrRepoNotFound => "repository not found on GitHub"
  | ErrExpired => "confirmation token expired"
  | ErrInvalid => "invalid confirmation token"
  | ErrTerminal => "terminal message error"
  | errNoTx => "eventpublisher: enqueue must run within a transaction"
  | context_Canceled => "context canceled"
  | context_DeadlineExceeded => "context deadline exceeded"
  | pgx_ErrNoRows => "no rows in result set"
  | jwt_ErrTokenExpired => "token is expired"
  | migrate_ErrNoChange => "no change"
  | http_ErrServerClosed => "http: Server closed"
  end.

(** [Wrapf pre e post] is [fmt.Errorf("pre%wpost", e)]; [Wrap2 e1 e2] is
    [fmt.Errorf("%w: %w", e1, e2)]; [Join2 e1 e2] is [errors.Join(e1, e2)]; [ErrText] is an error that wraps nothing
    the sources test for. *)
Inductive error :=
| Sentinel (s : sentinel)
| ErrText (msg : string)
| Wrapf (pre : string) (e : error) (post : string)
| Wrap2 (e1 e2 : error)
| Join2 (e1 e2 : error).

Global Instance error_eq_dec : EqDecision error.
Proof. solve_decision. Defined.

(** [errors.Is(err, target)] for a sentinel target: a walk of the wrap tree. *)
Fixpoint errors_Is (e : error) (target : sentinel) : bool :=
  match e with
  | Sentinel s => bool_decide (s = target)
  | ErrText _ => false
  | Wrapf _ e _ => errors_Is e target
  | Wrap2 e1 e2 | Join2 e1 e2 => errors_Is e1 target || errors_Is e2 target
  end.

Fixpoint Error (e : error) : string :=
  match e with
  | Sentinel s => sentinel_text s
  | ErrText msg => msg
  | Wrapf pre e post => pre +:+ Error e +:+ post
  | Wrap2 e1 e2 => Error e1 +:+ ": " +:+ Error e2
  | Join2 e1 e2 => Error e1 +:+ String (Ascii.ascii_of_nat 10) (Error e2)
  end.

(** [fmt.Errorf("pre: %w", e)] *)
Definition Errorf (pre : string) (e : error) : error := Wrapf (pre +:+ ": ") e "".

(** [errors.Join(e, o)] for an error [e] and a possibly nil [o] *)
Definition errors_Join (e : error) (o : option error) : error :=
  match o with Some e' => Join2 e e' | None => Wrapf "" e "" end.

(** [%q] of a string that needs no escaping (bus subjects, table keys). *)
Definition fmt_q (s : string) : string :=
  String (Ascii.ascii_of_nat 34) s +:+ String (Ascii.ascii_of_nat 34) EmptyString.

Lemma errors_Is_Errorf pre e s : errors_Is (Errorf pre e) s = errors_Is e s.
Proof. done. Qed.

Lemma Error_Errorf_nonempty pre e : Error (Errorf pre e) <> "".
Proof. destruct pre; done. Qed.

(** ** Results *)

Inductive res (A : Type) :=
| Ok (a : A)
| Err (e : error).
Arguments Ok {A} a.
Arguments Err {A} e.

Definition is_ok {A} (r : res A) : bool := match r with Ok _ => true | Err _ => false end.

Definition map_err {A} (f : error -> error) (r : res A) : res A :=
  match r with Ok a => Ok a | Err e => Err (f e) end.

Global Instance res_eq_dec {A} `{EqDecision A} : EqDecision (res A).
Proof. solve_decision. Defined.

Create Rewrite HintDb go.
#[export] Hint Rewrite errors_Is_Errorf : go.
