(* ===== verification/Url.v ===== *)
(** * URLs and their queries: [net/url] as [infrastructure/db/db.go] uses it

    [url.Parse], [URL.Query], [Values.Set], [Values.Encode] and [URL.String].  The
    query is modelled in full, down to the bytes.  What precedes it (scheme,
    user, host and path) and the fragment are read and written back by
    [NetURL]: what their syntax is depends on the Go release.  The limit on the
    number of parameters (10000 by default) is not modelled. *)

From Stdlib Require Import Ascii.
From S2P Require Import Prelude GoErrors.

Open Scope string_scope.
Open Scope list_scope.
Open Scope Z_scope.

(** ** Bytes *)

Definition byte_between (lo hi c : ascii) : bool := Ascii.leb lo c && Ascii.leb c hi.
Definition is_upper (c : ascii) : bool := byte_between "A"%char "Z"%char c.
Definition is_lower (c : ascii) : bool := byte_between "a"%char "z"%char c.
Definition is_digit (c : ascii) : bool := byte_between "0"%char "9"%char c.

(** [shouldEscape] of a query component. *)
Definition shouldEscape (c : ascii) : bool :=
  negb (is_upper c || is_lower c || is_digit c || Ascii.eqb c "-"%char || Ascii.eqb c "_"%char || Ascii.eqb c "."%char || Ascii.eqb c "~"%char).

Definition upperhex (n : nat) : ascii := default "0"%char (String.get n "0123456789ABCDEF").

Definition unhex (c : ascii) : option nat :=
  let n := nat_of_ascii c in
  (if is_digit c then Some (n - 48)
   else if byte_between "a"%char "f"%char c then Some (n - 87)
   else if byte_between "A"%char "F"%char c then Some (n - 55)
   else None)%nat.

Definition hex_byte (h l : nat) : ascii := ascii_of_nat (16 * h + l).

(** [stringContainsCTLByte]. *)
Fixpoint containsCTL (s : string) : bool :=
  match s with
  | EmptyString => false
  | String c s => (nat_of_ascii c <? 32)%nat || (nat_of_ascii c =? 127)%nat || containsCTL s
  end.

Fixpoint contains (c : ascii) (s : string) : bool :=
  match s with EmptyString => false | String c' s => Ascii.eqb c c' || contains c s end.

(** [strings.Cut]: what precedes the first [c], and what follows it. *)
Fixpoint Cut (c : ascii) (s : string) : string * option string :=
  match s with
  | EmptyString => ("", None)
  | String c' s =>
      if Ascii.eqb c c' then ("", Some s) else let '(before, after) := Cut c s in (String c' before, after)
  end.

(** [strings.Split]. *)
Fixpoint Split (c : ascii) (s : string) : list string :=
  match s with
  | EmptyString => [""]
  | String c' s =>
      if Ascii.eqb c c' then "" :: Split c s
      else match Split c s with p :: ps => String c' p :: ps | [] => [] end
  end.

(** ** Escaping a query component *)

Definition escape_byte (c : ascii) : string :=
  if Ascii.eqb c " "%char then "+"
  else if shouldEscape c then
    let n := nat_of_ascii c in
    String "%" (String (upperhex (n / 16)) (String (upperhex (n mod 16)) ""))
  else String c "".

Fixpoint QueryEscape (s : string) : string :=
  match s with EmptyString => "" | String c s => escape_byte c +:+ QueryEscape s end.

Fixpoint QueryUnescape (s : string) : option string :=
  match s with
  | EmptyString => Some ""
  | String c s =>
      if Ascii.eqb c "%"%char then
        match s with
        | String h (String l s) =>
            match unhex h, unhex l with
            | Some h, Some l => String (hex_byte h l) <$> QueryUnescape s
            | _, _ => None
            end
        | _ => None
        end
      else String (if Ascii.eqb c "+"%char then " "%char else c) <$> QueryUnescape s
  end.

Lemma every_byte (p : ascii -> bool) :
  forallb (fun n => p (ascii_of_nat n)) (seq 0 256) = true -> forall c, p c = true.
Proof.
  intros Hp c. rewrite forallb_forall in Hp. rewrite <- (ascii_nat_embedding c). apply Hp, in_seq.
  pose proof (nat_ascii_bounded c). lia.
Qed.

(** One byte at a time: the escaped form reads back. *)
Definition reads_back (c : ascii) : bool :=
  match escape_byte c with
  | String p (String h (String l EmptyString)) =>
      Ascii.eqb p "%"%char &&
      match unhex h, unhex l with Some h, Some l => Ascii.eqb (hex_byte h l) c | _, _ => false end
  | String c' EmptyString => negb (Ascii.eqb c' "%"%char) && Ascii.eqb (if Ascii.eqb c' "+"%char then " "%char else c') c
  | _ => false
  end.

Lemma byte_reads_back c s : QueryUnescape (escape_byte c +:+ s) = String c <$> QueryUnescape s.
Proof.
  assert (reads_back c = true) as Hc by (revert c; apply every_byte; by vm_compute).
  unfold reads_back in Hc. destruct (escape_byte c) as [|p [|h [|l [|? ?]]]]; try done.
  - apply andb_prop in Hc as [Hp%negb_true_iff Hc%Ascii.eqb_eq]. simpl. by rewrite Hp, Hc.
  - apply andb_prop in Hc as [Hp Hc]. simpl. rewrite Hp.
    destruct (unhex h) as [h'|], (unhex l) as [l'|]; try done. by apply Ascii.eqb_eq in Hc as ->.
Qed.

(** Escaping keeps every byte. *)
Lemma QueryUnescape_escape s : QueryUnescape (QueryEscape s) = Some s.
Proof. induction s as [|c s IH]; simpl; [done|]. by rewrite byte_reads_back, IH. Qed.

(** An escaped text has none of the bytes that a query, or a URL, is cut at. *)
Definition structural (c : ascii) : bool :=
  Ascii.eqb c "&"%char || Ascii.eqb c "="%char || Ascii.eqb c ";"%char || Ascii.eqb c "?"%char || Ascii.eqb c "#"%char.

Fixpoint every (p : ascii -> bool) (s : string) : bool :=
  match s with EmptyString => true | String c s => p c && every p s end.

Lemma every_app p s1 s2 : every p (s1 +:+ s2) = every p s1 && every p s2.
Proof. induction s1 as [|c s1 IH]; simpl; [done|]. by rewrite IH, andb_assoc. Qed.

Definition visible (c : ascii) : bool := negb ((nat_of_ascii c <? 32)%nat || (nat_of_ascii c =? 127)%nat).
Definition plain (c : ascii) : bool := negb (structural c) && visible c.

Lemma every_escaped s : every plain (QueryEscape s) = true.
Proof.
  induction s as [|c s IH]; simpl; [done|]. rewrite every_app, IH, andb_true_r. clear.
  revert c. apply (every_byte (fun c => every plain (escape_byte c))). by vm_compute.
Qed.

(** ** Cutting *)

Lemma every_contains p c s : every p s = true -> p c = false -> contains c s = false.
Proof.
  intros Hs Hc. induction s as [|c' s IH]; simpl in *; [done|]. apply andb_prop in Hs as [Hp Hs]. rewrite (IH Hs), orb_false_r.
  destruct (Ascii.eqb_spec c c') as [->|]; [congruence|done].
Qed.

Lemma contains_app c s1 s2 : contains c (s1 +:+ s2) = contains c s1 || contains c s2.
Proof. induction s1 as [|c' s1 IH]; simpl; [done|]. by rewrite IH, orb_assoc. Qed.

Lemma Cut_at c s1 s2 : contains c s1 = false -> Cut c (s1 +:+ String c s2) = (s1, Some s2).
Proof.
  induction s1 as [|c' s1 IH]; simpl; [by rewrite Ascii.eqb_refl|]. intros [Hc Hs]%orb_false_elim. by rewrite Hc, IH.
Qed.

Lemma Cut_none c s : contains c s = false -> Cut c s = (s, None).
Proof. induction s as [|c' s IH]; simpl; [done|]. intros [Hc Hs]%orb_false_elim. by rewrite Hc, IH. Qed.

Lemma Cut_before c s : contains c (fst (Cut c s)) = false.
Proof.
  induction s as [|c' s IH]; simpl; [done|]. destruct (Ascii.eqb c c') eqn:Hc; [done|]. destruct (Cut c s). simpl in *. by rewrite Hc.
Qed.

Lemma Split_plain c s : contains c s = false -> Split c s = [s].
Proof. induction s as [|c' s IH]; simpl; [done|]. intros [Hc Hs]%orb_false_elim. by rewrite Hc, IH. Qed.

Lemma Split_at c s1 s2 : contains c s1 = false -> Split c (s1 +:+ String c s2) = s1 :: Split c s2.
Proof.
  induction s1 as [|c' s1 IH]; simpl; [by rewrite Ascii.eqb_refl|]. intros [Hc Hs]%orb_false_elim. by rewrite Hc, IH.
Qed.

Lemma Split_concat c l :
  l <> [] -> Forall (fun s => contains c s = false) l -> Split c (String.concat (String c "") l) = l.
Proof.
  induction l as [|s l IH]; intros Hl Hf; [done|]. apply Forall_cons in Hf as [Hs Hf].
  destruct l as [|s' l]; [by apply Split_plain|]. change (String.concat (String c "") (s :: s' :: l))
    with (s +:+ String c (String.concat (String c "") (s' :: l))). rewrite Split_at, IH by done. done.
Qed.

(** ** Queries: [url.Values] *)

Notation Values := (gmap string (list string)).

Definition Values_Get (key : string) (m : Values) : string :=
  match m !! key with Some (v :: _) => v | _ => "" end.
Definition Values_Set (key value : string) (m : Values) : Values := <[key := [value]]> m.
Definition Values_Add (m : Values) (kv : string * string) : Values :=
  <[fst kv := default [] (m !! fst kv) ++ [snd kv]]> m.

(** One parameter; one that cannot be read is left out. *)
Definition parse_param (m : Values) (param : string) : Values :=
  if contains ";" param || String.eqb param "" then m
  else
    let '(key, value) := Cut "=" param in
    match QueryUnescape key, QueryUnescape (default "" value) with
    | Some k, Some v => Values_Add m (k, v)
    | _, _ => m
    end.

(** [ParseQuery], as [URL.Query] uses it: without the error. *)
Definition ParseQuery (query : string) : Values := foldl parse_param ∅ (Split "&" query).

(** The parameters of these keys. *)
Definition params (m : Values) (keys : list string) : list (string * string) :=
  flat_map (fun k => map (pair k) (default [] (m !! k))) keys.

Definition key_le (a b : string) : Prop := String.leb a b = true.
Global Instance key_le_dec a b : Decision (key_le a b).
Proof. unfold key_le. apply _. Defined.

Definition sorted_keys (m : Values) : list string := merge_sort key_le (elements (dom m)).

Definition encode_param (kv : string * string) : string := QueryEscape (fst kv) +:+ "=" +:+ QueryEscape (snd kv).

Definition Encode (m : Values) : string := String.concat "&" (map encode_param (params m (sorted_keys m))).

(** *** Round trip *)

Lemma escaped_plain c s : structural c = true -> contains c (QueryEscape s) = false.
Proof. intros Hc. eapply every_contains; [apply every_escaped|]. unfold plain. by rewrite Hc. Qed.

Lemma param_contains c kv : structural c = true -> Ascii.eqb c "="%char = false -> contains c (encode_param kv) = false.
Proof. intros Hc He. unfold encode_param. rewrite !contains_app, !escaped_plain by done. simpl. by rewrite He. Qed.

Lemma parse_encoded m kv : parse_param m (encode_param kv) = Values_Add m kv.
Proof.
  unfold parse_param. rewrite param_contains by done. destruct (String.eqb_spec (encode_param kv) "") as [He|_].
  { apply (f_equal (contains "="%char)) in He. unfold encode_param in He. rewrite !contains_app in He. by destruct (contains _ _). }
  simpl orb. cbv iota. unfold encode_param. change ("=" +:+ ?x) with (String "=" x).
  rewrite Cut_at by by apply escaped_plain. simpl. rewrite !QueryUnescape_escape. by destruct kv.
Qed.

Lemma params_added ps (m : Values) k :
  foldl Values_Add m ps !! k =
  match map snd (List.filter (fun kv => String.eqb (fst kv) k) ps) with [] => m !! k | vs => Some (default [] (m !! k) ++ vs) end.
Proof.
  revert m. induction ps as [|[k' v] ps IH]; intros m; simpl; [done|]. rewrite IH. unfold Values_Add. simpl.
  destruct (String.eqb_spec k' k) as [->|Hne]; simpl; [|by rewrite lookup_insert_ne].
  rewrite lookup_insert_eq. simpl. destruct (map snd _); [done|]. by rewrite <- app_assoc.
Qed.

Lemma params_of m keys k :
  NoDup keys -> map snd (List.filter (fun kv => String.eqb (fst kv) k) (params m keys)) =
  if bool_decide (k ∈ keys) then default [] (m !! k) else [].
Proof.
  induction 1 as [|k' keys Hk _ IH]; simpl; [done|]. rewrite List.filter_app, map_app, IH.
  assert (forall vs, map snd (List.filter (fun kv => String.eqb (fst kv) k) (map (pair k') vs)) = if decide (k' = k) then vs else []) as ->.
  { intros vs. induction vs as [|v vs IHv]; simpl; [by destruct (decide _)|].
    destruct (String.eqb_spec k' k) as [->|Hne]; simpl; rewrite IHv; [by rewrite !decide_True|by rewrite !decide_False]. }
  destruct (decide (k' = k)) as [->|Hne].
  - rewrite (bool_decide_eq_false_2 (k ∈ keys)), bool_decide_eq_true_2 by set_solver. apply app_nil_r.
  - simpl. by rewrite (bool_decide_ext (k ∈ k' :: keys) (k ∈ keys)) by set_solver.
Qed.

Lemma sorted_keys_perm m : sorted_keys m ≡ₚ elements (dom m).
Proof. apply merge_sort_Permutation. Qed.

(** No key without a value. *)
Definition valued (m : Values) : Prop := forall k, m !! k <> Some [].

Lemma ParseQuery_Encode m : valued m -> ParseQuery (Encode m) = m.
Proof.
  intros Hm. unfold ParseQuery, Encode. set (ps := params m (sorted_keys m)).
  assert (foldl parse_param ∅ (Split "&" (String.concat "&" (map encode_param ps))) = foldl Values_Add ∅ ps) as ->.
  { destruct ps as [|p ps']; [done|]. rewrite Split_concat; [|done|apply Forall_map, Forall_true; intros kv; by apply param_contains].
    generalize (p :: ps') as l. clear. intros l. generalize (∅ : Values).
    induction l as [|p l IH]; intros m'; simpl; [done|]. by rewrite parse_encoded, IH. }
  apply map_eq. intros k. unfold ps. rewrite params_added, params_of by (rewrite sorted_keys_perm; apply NoDup_elements).
  specialize (Hm k). assert (k ∈ sorted_keys m <-> is_Some (m !! k)) as Hk by (rewrite sorted_keys_perm, elem_of_elements, elem_of_dom; done).
  case_bool_decide as Hd.
  - apply Hk in Hd as [vs Hl]. rewrite Hl in *. simpl. by destruct vs.
  - rewrite Hk in Hd. by destruct (m !! k); [destruct Hd|].
Qed.

Lemma valued_set key value m : valued m -> valued (Values_Set key value m).
Proof. intros Hm k. unfold Values_Set. destruct (decide (key = k)) as [->|Hne]; [by rewrite lookup_insert_eq|by rewrite lookup_insert_ne]. Qed.

Lemma valued_parsed query : valued (ParseQuery query).
Proof.
  unfold ParseQuery. generalize (Split "&" query) as l. intros l. assert (valued ∅) as Hm by done. revert Hm.
  generalize (∅ : Values). induction l as [|p l IH]; intros m Hm; simpl; [done|]. apply IH. unfold parse_param.
  destruct (_ || _); [done|]. destruct (Cut _ p) as [key value]. destruct (QueryUnescape key) as [k|], (QueryUnescape (default "" value)) as [v|]; try done.
  intros k'. unfold Values_Add. simpl. destruct (decide (k = k')) as [->|Hne]; [|by rewrite lookup_insert_ne].
  rewrite lookup_insert_eq. intros [= He]. by destruct (default [] (m !! k')).
Qed.

(** ** URLs *)

(** What [Parse] and [String] make of the scheme, user, host and path, and of a
    fragment: the form [String] writes, or an error.  That form has none of the
    bytes that [String] escapes there, and is read back as it is. *)
Class NetURL := {
  url_front : string -> option string;
  url_fragment : string -> option string;
  url_front_clean : forall s f, url_front s = Some f ->
    contains "?" f = false /\ contains "#" f = false /\ containsCTL f = false;
  url_front_again : forall s f, url_front s = Some f -> url_front f = Some f;
  url_fragment_again : forall s f, s <> "" -> url_fragment s = Some f -> f <> "" /\ url_fragment f = Some f;
}.

Record URL := { u_front : string; u_ForceQuery : bool; u_RawQuery : string; u_Fragment : string }.

Definition set_RawQuery (q : string) (u : URL) : URL :=
  {| u_front := u_front u; u_ForceQuery := u_ForceQuery u; u_RawQuery := q; u_Fragment := u_Fragment u |}.

Definition Query (u : URL) : Values := ParseQuery (u_RawQuery u).

Section Urls.
Context {N : NetURL}.

Definition parse (rawURL : string) : option URL :=
  if containsCTL rawURL then None
  else
    let '(rest, query) := Cut "?" rawURL in
    f ← url_front rest;
    Some {| u_front := f; u_ForceQuery := bool_decide (query = Some ""); u_RawQuery := default "" query; u_Fragment := "" |}.

(** [url.Parse]. *)
Definition url_Parse (rawURL : string) : option URL :=
  let '(u, frag) := Cut "#" rawURL in
  url ← parse u;
  if bool_decide (default "" frag = "") then Some url
  else
    g ← url_fragment (default "" frag);
    Some {| u_front := u_front url; u_ForceQuery := u_ForceQuery url; u_RawQuery := u_RawQuery url; u_Fragment := g |}.

(** [URL.String]. *)
Definition url_String (u : URL) : string :=
  u_front u +:+
  (if u_ForceQuery u || negb (String.eqb (u_RawQuery u) "") then "?" +:+ u_RawQuery u else "") +:+
  (if String.eqb (u_Fragment u) "" then "" else "#" +:+ u_Fragment u).

(** Replacing the query is reading the rewritten text again. *)
Lemma containsCTL_app s1 s2 : containsCTL (s1 +:+ s2) = containsCTL s1 || containsCTL s2.
Proof. induction s1 as [|c s1 IH]; simpl; [done|]. by rewrite IH, !orb_assoc. Qed.

Lemma every_visible s : every visible s = true -> containsCTL s = false.
Proof.
  induction s as [|c s IH]; simpl; [done|]. intros [Hc Hs]%andb_prop. rewrite (IH Hs), orb_false_r. by apply negb_true_iff.
Qed.

Lemma parsed_parts rawURL u :
  url_Parse rawURL = Some u ->
  url_front (u_front u) = Some (u_front u) /\ (u_Fragment u = "" \/ url_fragment (u_Fragment u) = Some (u_Fragment u)).
Proof.
  unfold url_Parse, parse. destruct (Cut "#" rawURL) as [r frag]. destruct (containsCTL r); [done|].
  destruct (Cut "?" r) as [rest query]. destruct (url_front rest) as [f|] eqn:Hf; [|done]. simpl.
  apply url_front_again in Hf. case_bool_decide as Hg; [intros [= <-]; by split; [|left]|].
  destruct (url_fragment _) as [g|] eqn:Hgf; simpl; [|done]. intros [= <-]. simpl. split; [done|right].
  by apply (url_fragment_again _ _ Hg) in Hgf as [_ ?].
Qed.

Lemma reparse u q :
  url_front (u_front u) = Some (u_front u) -> (u_Fragment u = "" \/ url_fragment (u_Fragment u) = Some (u_Fragment u)) ->
  q <> "" -> contains "#" q = false -> containsCTL q = false ->
  url_Parse (url_String (set_RawQuery q u)) =
    Some {| u_front := u_front u; u_ForceQuery := false; u_RawQuery := q; u_Fragment := u_Fragment u |}.
Proof.
  intros Hf Hg Hq Hh Hc. destruct (url_front_clean _ _ Hf) as (Hf1 & Hf2 & Hf3).
  assert (Cut "#" (url_String (set_RawQuery q u)) =
    (u_front u +:+ String "?" q, if String.eqb (u_Fragment u) "" then None else Some (u_Fragment u))) as Hcut.
  { unfold url_String. simpl. destruct (String.eqb_spec q "") as [|_]; [done|]. rewrite orb_true_r. cbv iota.
    change ("?" +:+ q) with (String "?" q).
    destruct (String.eqb (u_Fragment u) ""); [rewrite string_app_nil_r; apply Cut_none|rewrite <- string_app_assoc; apply Cut_at];
      rewrite contains_app, Hf2; simpl; by rewrite Hh. }
  assert (parse (u_front u +:+ String "?" q) =
    Some {| u_front := u_front u; u_ForceQuery := false; u_RawQuery := q; u_Fragment := "" |}) as Hparse.
  { unfold parse. rewrite containsCTL_app, Hf3. change (containsCTL (String "?" q)) with (containsCTL q). rewrite Hc. simpl orb.
    cbv iota. rewrite Cut_at, Hf by done. simpl. by rewrite bool_decide_eq_false_2 by congruence. }
  unfold url_Parse. rewrite Hcut. rewrite Hparse. simpl. destruct (String.eqb_spec (u_Fragment u) "") as [He|He]; simpl.
  - by rewrite He.
  - rewrite bool_decide_eq_false_2 by done. destruct Hg as [?|Hg]; [done|]. by rewrite Hg.
Qed.
End Urls.

(** *** The text of an encoded query *)

Lemma every_concat p sep l : every p sep = true -> Forall (fun s => every p s = true) l -> every p (String.concat sep l) = true.
Proof.
  intros Hs. induction 1 as [|s l Hp Hl IH]; [done|]. destruct l as [|s' l]; [done|].
  change (String.concat sep (s :: s' :: l)) with (s +:+ sep +:+ String.concat sep (s' :: l)).
  by rewrite !every_app, Hp, Hs, IH.
Qed.

Definition query_byte (c : ascii) : bool := plain c || Ascii.eqb c "&"%char || Ascii.eqb c "="%char.

Lemma every_weaken p q s : (forall c, p c = true -> q c = true) -> every p s = true -> every q s = true.
Proof. intros Hpq. induction s as [|c s IH]; simpl; [done|]. intros [Hc Hs]%andb_prop. by rewrite Hpq, IH. Qed.

Lemma every_encoded m : every query_byte (Encode m) = true.
Proof.
  assert (forall s, every query_byte (QueryEscape s) = true) as Hq.
  { intros s. eapply every_weaken; [|apply every_escaped]. intros c Hc. unfold query_byte. by rewrite Hc. }
  apply every_concat; [done|]. apply Forall_map, Forall_true. intros kv. unfold encode_param. by rewrite !every_app, !Hq.
Qed.

Lemma encoded_clean m : contains "#" (Encode m) = false /\ containsCTL (Encode m) = false.
Proof.
  split; [by eapply every_contains; [apply every_encoded|]|]. apply every_visible. eapply every_weaken; [|apply every_encoded].
  intros c Hc. revert c Hc. assert (forall c, negb (query_byte c) || visible c = true) as Hb by (apply every_byte; by vm_compute).
  intros c Hc. specialize (Hb c). by rewrite Hc in Hb.
Qed.

Lemma encoded_not_empty m key value : m !! key = Some [value] -> Encode m <> "".
Proof.
  intros Hk He. assert (valued m -> ParseQuery (Encode m) = m) as Hm by apply ParseQuery_Encode.
  unfold Encode in He. assert (key ∈ sorted_keys m) as Hin by (rewrite sorted_keys_perm, elem_of_elements, elem_of_dom; by eexists).
  assert ((key, value) ∈ params m (sorted_keys m)) as Hp.
  { unfold params. apply list_elem_of_In, in_flat_map. exists key. split; [by apply list_elem_of_In|]. rewrite Hk. by left. }
  destruct (params m (sorted_keys m)) as [|kv ps]; [by apply elem_of_nil in Hp|].
  apply (f_equal (contains "=")) in He. revert He. destruct ps as [|kv' ps]; simpl; unfold encode_param;
    rewrite ?contains_app; simpl; rewrite ?contains_app; simpl; by rewrite ?orb_true_r.
Qed.
