(* ===== verification/Effects.v ===== *)
(** * Effects: the database, the outside world and the state monad

    A service runs against one PostgreSQL database of type [D] and the
    outside world.  What the outside world answers is the oracle [Env], indexed
    by a tick that every external call advances, so a theorem quantified over
    [Env] covers every behaviour of the database (any call may fail), the
    clocks, the random sources, the broker, SMTP, GitHub, Redis and the peer
    service.  What the service asks of the outside world is the trace.

    The second half models [internal/infrastructure/db/tx.go]: the transaction
    carried in the context, [Within], [FromContext], [Tx]. *)

From S2P Require Import Prelude GoErrors.

Open Scope string_scope.
Open Scope list_scope.
Open Scope Z_scope.

(** ** The outside world *)

(** An e-mail message as handed to the SMTP client. *)
Record Msg := { msg_to : string; msg_subject : string; msg_body : string }.

Global Instance Msg_eq_dec : EqDecision Msg.
Proof. solve_decision. Defined.

(** An HTTP response, as far as the sources read it. *)
Record HttpResponse := {
  resp_status : Z;
  resp_header : string -> string;   (* [resp.Header.Get], "" when absent *)
  resp_body : string + string;      (* [io.ReadAll]: an error or the bytes *)
}.

(** External calls, with what was asked and whether it succeeded. *)
Inductive Ext :=
| XPublish (subject data : string) (ok : bool)     (* JetStream publish *)
| XSmtp (m : Msg) (ok : bool)                      (* SMTP delivery *)
| XHttp (url : string)                             (* GitHub request *)
| XCacheSet (key value : string) (ttl : Z)         (* Redis SET *)
| XCompensate (sagaID sagaType email repoName : string). (* gRPC *)

(** A database call that fails reports a text; [applied] says whether an
    autocommitted statement (or the COMMIT) took effect before the failure was
    reported, e.g. when the connection is lost after the server committed. *)
Record Fault := { fault_msg : string; fault_applied : bool }.

Class Env := {
  env_db : nat -> option Fault;
  env_db_now : nat -> Z;             (* PostgreSQL NOW() *)
  env_locked : nat -> Z -> bool;     (* outbox row locked by another session *)
  env_now : nat -> Z;                (* time.Now(), nanoseconds *)
  env_uuid : nat -> string;          (* 16 random bytes of a fresh UUID *)
  env_rand : nat -> string + string; (* crypto/rand.Read: error or bytes *)
  env_publish : nat -> option string;
  env_dial : nat -> option string;
  env_send : nat -> option string;
  env_done : nat -> option sentinel; (* ctx.Done() wins the select *)
  env_http : nat -> error + HttpResponse;
  env_cache_get : nat -> string + option string;
  env_cache_set : nat -> option string;
  env_compensate : nat -> string + bool;
}.

(** Some call of the database fails; some takes effect and is not answered. *)
Definition db_faults `{Env} : Prop := exists n f, env_db n = Some f.
Definition db_answer_lost `{Env} : Prop := exists n f, env_db n = Some f /\ fault_applied f = true.

(** ** The world a service runs in *)

Record World (D : Type) := MkWorld {
  w_db : D;                  (* committed database *)
  w_tx : option D;           (* working copy of the open transaction *)
  w_txnow : Z;               (* its start time: NOW() inside it *)
  w_seq : gmap string Z;     (* identity sequences, never rolled back *)
  w_tick : nat;              (* external calls so far *)
  w_nudge : bool;            (* the relay's one-slot channel is full *)
  w_trace : list Ext;        (* external requests, oldest first *)
}.
Arguments MkWorld {D} _ _ _ _ _ _ _.
Arguments w_db {D} _.
Arguments w_tx {D} _.
Arguments w_txnow {D} _.
Arguments w_seq {D} _.
Arguments w_tick {D} _.
Arguments w_nudge {D} _.
Arguments w_trace {D} _.

Section Setters.
Context {D : Type}.
Implicit Types w : World D.

Definition set_db (d : D) w : World D :=
  MkWorld d (w_tx w) (w_txnow w) (w_seq w) (w_tick w) (w_nudge w) (w_trace w).
Definition set_tx (t : option D) w : World D :=
  MkWorld (w_db w) t (w_txnow w) (w_seq w) (w_tick w) (w_nudge w) (w_trace w).
Definition set_txnow (t : Z) w : World D :=
  MkWorld (w_db w) (w_tx w) t (w_seq w) (w_tick w) (w_nudge w) (w_trace w).
Definition set_seq (s : gmap string Z) w : World D :=
  MkWorld (w_db w) (w_tx w) (w_txnow w) s (w_tick w) (w_nudge w) (w_trace w).
Definition ticked w : World D :=
  MkWorld (w_db w) (w_tx w) (w_txnow w) (w_seq w) (S (w_tick w)) (w_nudge w) (w_trace w).
Definition set_nudge (b : bool) w : World D :=
  MkWorld (w_db w) (w_tx w) (w_txnow w) (w_seq w) (w_tick w) b (w_trace w).
Definition traced (x : Ext) w : World D :=
  MkWorld (w_db w) (w_tx w) (w_txnow w) (w_seq w) (w_tick w) (w_nudge w) (w_trace w ++ [x]).
End Setters.

(** ** The monad *)

Definition M (D A : Type) : Type := World D -> res A * World D.

Global Instance M_ret {D} : MRet (M D) := fun A a w => (Ok a, w).
Global Instance M_bind {D} : MBind (M D) := fun A B f c w =>
  match c w with
  | (Ok a, w') => f a w'
  | (Err e, w') => (Err e, w')
  end.

Definition fail {D A} (e : error) : M D A := fun w => (Err e, w).

(** [if err != nil { return fmt.Errorf("pre: %w", err) }] *)
Definition wrapping {D A} (pre : string) (c : M D A) : M D A := fun w =>
  let '(r, w') := c w in (map_err (Errorf pre) r, w').

(** [x, err := c]: the error as a value the code inspects. *)
Definition attempt {D A} (c : M D A) : M D (res A) := fun w =>
  let '(r, w') := c w in (Ok r, w').

(** [for _, x := range xs { if err := body(x); err != nil { return err } }] *)
Fixpoint for_each {D A} (xs : list A) (body : A -> M D unit) : M D unit :=
  match xs with
  | [] => mret tt
  | x :: xs => body x ≫= fun _ => for_each xs body
  end.

(** [if err := c; err != nil { log }]: a failure is only logged. *)
Definition logged {D A} (c : M D A) : M D unit := _ ← attempt c; mret tt.

(** What the select of a ticker loop picks. *)
Inductive TickerSignal := TickerFired | ContextDone.

(** [for { select { case <-ctx.Done(): return; case <-ticker.C: tick() } }];
    a list that ends is a loop that is still waiting. *)
Fixpoint ticker_loop {D} (tick : M D unit) (signals : list TickerSignal) : M D unit :=
  match signals with
  | [] | ContextDone :: _ => mret tt
  | TickerFired :: signals => _ ← tick; ticker_loop tick signals
  end.

Section External.
Context {D : Type} `{Env}.

(** Ask the oracle: one external call. *)
Definition oracle {A} (f : nat -> A) : M D A := fun w =>
  (Ok (f (w_tick w)), ticked w).

Definition emit (x : Ext) : M D unit := fun w => (Ok tt, traced x w).

Definition time_Now : M D Z := oracle env_now.
Definition fresh_uuid : M D string := oracle env_uuid.
End External.

(** ** Contexts *)

(** The values the sources keep in a [context.Context]: the open transaction
    ([db.txContextKey]) and the correlation ids of [logging]. *)
Record Ctx := {
  ctx_tx : bool;
  ctx_sagaID : string;
  ctx_scanID : string;
  ctx_requestID : string;
  ctx_protocol : string;
}.

Definition Background : Ctx :=
  {| ctx_tx := false; ctx_sagaID := ""; ctx_scanID := ""; ctx_requestID := ""; ctx_protocol := "" |}.

Definition with_tx (ctx : Ctx) : Ctx :=
  {| ctx_tx := true; ctx_sagaID := ctx_sagaID ctx; ctx_scanID := ctx_scanID ctx;
     ctx_requestID := ctx_requestID ctx; ctx_protocol := ctx_protocol ctx |}.

(** ** Statements *)

(** What PostgreSQL supplies to a statement: NOW(), gen_random_uuid(), the next
    value of the identity sequence of the table it inserts into, and the row
    locks of other sessions. *)
Record SqlCtx := {
  sc_now : Z;
  sc_uuid : string;
  sc_nextval : Z;
  sc_locked : Z -> bool;   (* rows another session holds locked *)
}.

(** A statement either raises an SQL error or returns a result and the new
    database. *)
Definition Stmt (D A : Type) : Type := SqlCtx -> D -> string + (A * D).

Inductive Querier := QPool | QTx.

Section Db.
Context {D : Type} `{Env}.
Implicit Types (ctx : Ctx) (w : World D).

Definition nextval (seq : string) w : Z := default 1 (w_seq w !! seq).

(** The statement context at this moment. *)
Definition sql_ctx (q : Querier) (seq : option string) w : SqlCtx :=
  {| sc_now := match q with QTx => w_txnow w | QPool => env_db_now (w_tick w) end;
     sc_uuid := env_uuid (w_tick w);
     sc_nextval := match seq with Some s => nextval s w | None => 0 end;
     sc_locked := env_locked (w_tick w) |}.

(** The identity sequence advances whether or not a row is kept. *)
Definition advance_seq (seq : option string) w : World D :=
  match seq with
  | Some s => set_seq (<[s := nextval s w + 1]> (w_seq w)) w
  | None => w
  end.

Definition db_of (q : Querier) w : D :=
  match q with QPool => w_db w | QTx => default (w_db w) (w_tx w) end.
Definition put_db (q : Querier) (d : D) w : World D :=
  match q with QPool => set_db d w | QTx => set_tx (Some d) w end.

(** Run one statement on the pool (autocommit) or on the open transaction.
    On a fault the caller sees an error; a pool statement may nevertheless
    have been applied. *)
Definition run {A} (q : Querier) (seq : option string) (st : Stmt D A) : M D A := fun w =>
  let out := st (sql_ctx q seq w) (db_of q w) in
  let w1 := advance_seq seq (ticked w) in
  match env_db (w_tick w), out with
  | None, inl msg => (Err (ErrText msg), w1)
  | None, inr (a, d) => (Ok a, put_db q d w1)
  | Some f, inr (_, d) =>
      (Err (ErrText (fault_msg f)),
       match q with
       | QPool => if fault_applied f then set_db d w1 else w1
       | QTx => w1
       end)
  | Some f, inl _ => (Err (ErrText (fault_msg f)), w1)
  end.

(** *** [internal/infrastructure/db/tx.go] *)

Definition txFromContext (ctx : Ctx) : bool := ctx_tx ctx.

Definition FromContext (ctx : Ctx) : Querier :=
  if txFromContext ctx then QTx else QPool.

Definition Tx (ctx : Ctx) : bool := txFromContext ctx.

Definition pool_Begin : M D unit := fun w =>
  match env_db (w_tick w) with
  | Some f => (Err (ErrText (fault_msg f)), ticked w)
  | None => (Ok tt, set_txnow (env_db_now (w_tick w)) (set_tx (Some (w_db w)) (ticked w)))
  end.

Definition tx_Commit : M D unit := fun w =>
  let applied := set_tx None (set_db (default (w_db w) (w_tx w)) (ticked w)) in
  match env_db (w_tick w) with
  | None => (Ok tt, applied)
  | Some f =>
      (Err (ErrText (fault_msg f)),
       if fault_applied f then applied else set_tx None (ticked w))
  end.

(** [defer func() { _ = tx.Rollback(ctx) }()]: drops the working copy; a
    no-op after the transaction has ended. *)
Definition tx_Rollback w : World D := set_tx None w.

(** [Within].  Where a caller's closure assigns a variable of the enclosing
    function, that variable is the result [A] of [fn]; the callers read it
    only when [Within] returned no error. *)
Definition Within {A} (ctx : Ctx) (fn : Ctx -> M D A) : M D A :=
  if txFromContext ctx then fn ctx else fun w =>
  match wrapping "begin tx" pool_Begin w with
  | (Err e, w1) => (Err e, w1)
  | (Ok _, w1) =>
      match fn (with_tx ctx) w1 with
      | (Err e, w2) => (Err e, tx_Rollback w2)
      | (Ok a, w2) =>
          match wrapping "commit tx" tx_Commit w2 with
          | (Err e, w3) => (Err e, tx_Rollback w3)
          | (Ok _, w3) => (Ok a, tx_Rollback w3)
          end
      end
  end.
End Db.
