(* ===== verification/Quiet.v ===== *)
(** * A quiet outside world

    A concrete oracle in which no call fails, for evaluating the models on
    concrete inputs, and variants with one chosen fault. *)

From S2P Require Import Prelude GoErrors Effects.

Open Scope string_scope.
Open Scope list_scope.
Open Scope Z_scope.

(** 16 bytes that differ from tick to tick (for the first 256 ticks). *)
Definition quiet_uuid (n : nat) : string :=
  String (Ascii.ascii_of_nat n) "0123456789abcde".

Definition quiet_random (n : nat) : string :=
  String (Ascii.ascii_of_nat n) "0123456789abcdefghijklmnopqrstu".

Definition quiet_response : HttpResponse :=
  {| resp_status := 200; resp_header := fun _ => ""; resp_body := inr "" |}.

(** [faults] lists the database calls (by tick) that fail without effect. *)
Definition env_with (faults : list nat) (publish_fails dial_fails send_fails : list nat) : Env := {|
  env_db n := if bool_decide (n ∈ faults) then Some {| fault_msg := "connection reset"; fault_applied := false |} else None;
  env_db_now n := 1000 + Z.of_nat n;
  env_locked _ _ := false;
  env_now n := 1000000000 * (1000 + Z.of_nat n);
  env_uuid := quiet_uuid;
  env_rand n := inr (quiet_random n);
  env_publish n := if bool_decide (n ∈ publish_fails) then Some "nats: timeout" else None;
  env_dial n := if bool_decide (n ∈ dial_fails) then Some "dial tcp: refused" else None;
  env_send n := if bool_decide (n ∈ send_fails) then Some "550 mailbox unavailable" else None;
  env_done _ := None;
  env_http _ := inr quiet_response;
  env_cache_get _ := inr None;
  env_cache_set _ := None;
  env_compensate _ := inr true;
|}.

Definition quiet_env : Env := env_with [] [] [] [].

(** The quiet world with other answers from GitHub, or from the peer service. *)
Definition quiet_http (http : nat -> error + HttpResponse) : Env := {|
  env_db := env_db (Env := quiet_env); env_db_now := env_db_now (Env := quiet_env);
  env_locked := env_locked (Env := quiet_env); env_now := env_now (Env := quiet_env);
  env_uuid := quiet_uuid; env_rand := env_rand (Env := quiet_env);
  env_publish := env_publish (Env := quiet_env); env_dial := env_dial (Env := quiet_env);
  env_send := env_send (Env := quiet_env); env_done := env_done (Env := quiet_env);
  env_http := http; env_cache_get := env_cache_get (Env := quiet_env);
  env_cache_set := env_cache_set (Env := quiet_env); env_compensate := env_compensate (Env := quiet_env);
|}.

(** The quiet world with a database that answers no call. *)
Definition down_env : Env := {|
  env_db _ := Some {| fault_msg := "connection refused"; fault_applied := false |};
  env_db_now := env_db_now (Env := quiet_env);
  env_locked := env_locked (Env := quiet_env); env_now := env_now (Env := quiet_env);
  env_uuid := quiet_uuid; env_rand := env_rand (Env := quiet_env);
  env_publish := env_publish (Env := quiet_env); env_dial := env_dial (Env := quiet_env);
  env_send := env_send (Env := quiet_env); env_done := env_done (Env := quiet_env);
  env_http := env_http (Env := quiet_env); env_cache_get := env_cache_get (Env := quiet_env);
  env_cache_set := env_cache_set (Env := quiet_env); env_compensate := env_compensate (Env := quiet_env);
|}.

Definition quiet_rpc (rpc : nat -> string + bool) : Env := {|
  env_db := env_db (Env := quiet_env); env_db_now := env_db_now (Env := quiet_env);
  env_locked := env_locked (Env := quiet_env); env_now := env_now (Env := quiet_env);
  env_uuid := quiet_uuid; env_rand := env_rand (Env := quiet_env);
  env_publish := env_publish (Env := quiet_env); env_dial := env_dial (Env := quiet_env);
  env_send := env_send (Env := quiet_env); env_done := env_done (Env := quiet_env);
  env_http := env_http (Env := quiet_env); env_cache_get := env_cache_get (Env := quiet_env);
  env_cache_set := env_cache_set (Env := quiet_env); env_compensate := rpc;
|}.

(** A world on a committed database, with nothing done yet. *)
Definition world_of {D} (d : D) : World D := MkWorld d None 0 ∅ 0 false [].
