(* ===== verification/Wp.v ===== *)
(** * Reasoning about effectful code

    A weakest precondition for the monad of [Effects], its rules for each
    primitive, and [TxLocal]: code that runs inside an open transaction and
    touches nothing but its working copy.  [wp_Within] is the rule for a
    transaction: all or nothing. *)

From S2P Require Import Prelude GoErrors Effects.

Definition wp {D A} (c : M D A) (Q : res A -> World D -> Prop) (w : World D) : Prop :=
  Q (fst (c w)) (snd (c w)).

Section Rules.
Context {D : Type} `{Env}.
Implicit Types w : World D.

Lemma wp_ret {A} (a : A) Q w : Q (Ok a) w -> wp (D := D) (mret a) Q w.
Proof. done. Qed.

Lemma wp_fail {A} e (Q : res A -> World D -> Prop) w : Q (Err e) w -> wp (fail e) Q w.
Proof. done. Qed.

Lemma wp_bind {A B} (c : M D A) (f : A -> M D B) Q w :
  wp c (fun r w' => match r with Ok a => wp (f a) Q w' | Err e => Q (Err e) w' end) w ->
  wp (c ≫= f) Q w.
Proof. unfold wp, mbind, M_bind. by destruct (c w) as [[]]. Qed.

Lemma wp_mono {A} (c : M D A) (Q Q' : res A -> World D -> Prop) w :
  (forall r w', Q r w' -> Q' r w') -> wp c Q w -> wp c Q' w.
Proof. unfold wp. auto. Qed.

Lemma wp_wrapping {A} pre (c : M D A) Q w :
  wp c (fun r w' => Q (map_err (Errorf pre) r) w') w -> wp (wrapping pre c) Q w.
Proof. unfold wp, wrapping. by destruct (c w). Qed.

Lemma wp_attempt {A} (c : M D A) Q w :
  wp c (fun r w' => Q (Ok r) w') w -> wp (attempt c) Q w.
Proof. unfold wp, attempt. by destruct (c w). Qed.

Lemma wp_logged {A} (c : M D A) (Q : res unit -> World D -> Prop) w :
  wp c (fun _ w' => Q (Ok tt) w') w -> wp (logged c) Q w.
Proof. intros Hc. by apply wp_bind, wp_attempt. Qed.

(** An invariant of every tick is an invariant of the loop. *)
Lemma wp_ticker_loop (I : World D -> Prop) (tick : M D unit) signals w :
  (forall w, I w -> wp tick (fun r w' => r = Ok tt /\ I w') w) -> I w ->
  wp (ticker_loop tick signals) (fun r w' => r = Ok tt /\ I w') w.
Proof.
  intros Ht. revert w. induction signals as [|[|] signals IH]; intros w Hw; [done| |done].
  apply wp_bind. eapply wp_mono; [|by apply Ht]. by intros r w' [-> Hw']; apply IH.
Qed.

Lemma wp_oracle {A} (f : nat -> A) Q w :
  Q (Ok (f (w_tick w))) (ticked w) -> wp (oracle f) Q w.
Proof. done. Qed.

Lemma wp_emit x Q w : Q (Ok tt) (traced x w) -> wp (D := D) (emit x) Q w.
Proof. done. Qed.

(** A statement: it may fail by a fault (and on the pool may still have been
    applied), raise an SQL error, or succeed. *)
Lemma wp_run {A} q seq (st : Stmt D A) Q w :
  let out := st (sql_ctx q seq w) (db_of q w) in
  let w1 := advance_seq seq (ticked w) in
  (forall f, env_db (w_tick w) = Some f ->
     Q (Err (ErrText (fault_msg f))) w1 /\
     (forall a d, q = QPool -> fault_applied f = true -> out = inr (a, d) ->
        Q (Err (ErrText (fault_msg f))) (set_db d w1))) ->
  (env_db (w_tick w) = None ->
     match out with
     | inl msg => Q (Err (ErrText msg)) w1
     | inr (a, d) => Q (Ok a) (put_db q d w1)
     end) ->
  wp (run q seq st) Q w.
Proof.
  simpl. intros Hf Hok. unfold wp, run.
  destruct (env_db (w_tick w)) as [f|] eqn:Hdb.
  - destruct (Hf f eq_refl) as [H1 H2].
    destruct (st _ _) as [msg|[a d]] eqn:Hst; [done|].
    destruct q; [|done]. destruct (fault_applied f) eqn:Ha; [|done]. simpl. eauto.
  - specialize (Hok eq_refl). by destruct (st _ _) as [msg|[a d]].
Qed.

(** A transaction.  The body starts from the committed database; when it
    fails, or BEGIN fails, or COMMIT fails without effect, the committed
    database is what the body left untouched; otherwise the whole working
    copy is committed. *)
Lemma wp_Within_why {A} ctx (fn : Ctx -> M D A) Q w :
  txFromContext ctx = false ->
  (forall f, env_db (w_tick w) = Some f ->
     Q (Err (Errorf "begin tx" (ErrText (fault_msg f)))) (ticked w)) ->
  (let w1 := set_txnow (env_db_now (w_tick w)) (set_tx (Some (w_db w)) (ticked w)) in
   wp (fn (with_tx ctx)) (fun r w2 =>
     match r with
     | Err e => Q (Err e) (set_tx None w2)
     | Ok a =>
         Q (Ok a) (set_tx None (set_db (default (w_db w2) (w_tx w2)) (ticked w2))) /\
         (db_answer_lost -> forall msg, Q (Err (Errorf "commit tx" (ErrText msg)))
            (set_tx None (set_db (default (w_db w2) (w_tx w2)) (ticked w2)))) /\
         (db_faults -> forall msg, Q (Err (Errorf "commit tx" (ErrText msg))) (set_tx None (ticked w2)))
     end) w1) ->
  wp (Within ctx fn) Q w.
Proof.
  intros Hctx Hbegin Hbody. unfold wp, Within in *. rewrite Hctx.
  unfold wrapping, pool_Begin.
  destruct (env_db (w_tick w)) as [f|]; [by apply Hbegin|]. simpl in *.
  destruct (fn (with_tx ctx) _) as [[a|e] w2]; simpl in *; [|done].
  destruct Hbody as (Hok & Happ & Hrb). unfold tx_Commit.
  destruct (env_db (w_tick w2)) as [[msg [|]]|] eqn:Hf; simpl; auto; [apply Happ|apply Hrb]; by eexists _, _.
Qed.

Lemma wp_Within {A} ctx (fn : Ctx -> M D A) Q w :
  txFromContext ctx = false ->
  (forall f, env_db (w_tick w) = Some f ->
     Q (Err (Errorf "begin tx" (ErrText (fault_msg f)))) (ticked w)) ->
  (let w1 := set_txnow (env_db_now (w_tick w)) (set_tx (Some (w_db w)) (ticked w)) in
   wp (fn (with_tx ctx)) (fun r w2 =>
     match r with
     | Err e => Q (Err e) (set_tx None w2)
     | Ok a =>
         Q (Ok a) (set_tx None (set_db (default (w_db w2) (w_tx w2)) (ticked w2))) /\
         (forall msg, Q (Err (Errorf "commit tx" (ErrText msg)))
            (set_tx None (set_db (default (w_db w2) (w_tx w2)) (ticked w2)))) /\
         (forall msg, Q (Err (Errorf "commit tx" (ErrText msg))) (set_tx None (ticked w2)))
     end) w1) ->
  wp (Within ctx fn) Q w.
Proof.
  intros Hctx Hbegin Hbody. apply wp_Within_why; [done..|]. cbv zeta in *. eapply wp_mono; [|exact Hbody].
  intros [a|e] w2; [|done]. intros (? & ? & ?). auto.
Qed.
End Rules.

(** ** Transaction-local code *)

(** [c], run inside an open transaction, changes only the working copy (and
    the sequences, the tick, ...): the committed database stays. *)
Class TxLocal {D A} (c : M D A) : Prop :=
  tx_local : forall w, is_Some (w_tx w) ->
    w_db (snd (c w)) = w_db w /\ is_Some (w_tx (snd (c w))).

Section TxLocal.
Context {D : Type} `{Env}.

Global Instance txl_ret {A} (a : A) : TxLocal (D := D) (mret a).
Proof. intros w Hw. done. Qed.

Global Instance txl_fail {A} e : TxLocal (D := D) (A := A) (fail e).
Proof. intros w Hw. done. Qed.

Global Instance txl_bind {A B} (c : M D A) (f : A -> M D B) :
  TxLocal c -> (forall a, TxLocal (f a)) -> TxLocal (c ≫= f).
Proof.
  intros Hc Hf w Hw. unfold mbind, M_bind. destruct (Hc w Hw) as [Hdb Htx].
  destruct (c w) as [[a|e] w']; simpl in *; [|done].
  destruct (Hf a w' Htx) as [-> ?]. done.
Qed.

Global Instance txl_wrapping {A} pre (c : M D A) : TxLocal c -> TxLocal (wrapping pre c).
Proof. intros Hc w Hw. unfold wrapping. specialize (Hc w Hw). by destruct (c w). Qed.

Global Instance txl_attempt {A} (c : M D A) : TxLocal c -> TxLocal (attempt c).
Proof. intros Hc w Hw. unfold attempt. specialize (Hc w Hw). by destruct (c w). Qed.

Global Instance txl_oracle {A} (f : nat -> A) : TxLocal (D := D) (oracle f).
Proof. intros w Hw. done. Qed.

Global Instance txl_run {A} seq (st : Stmt D A) : TxLocal (run QTx seq st).
Proof.
  intros w Hw. unfold run. destruct (env_db _); destruct (st _ _) as [?|[? ?]], seq; done || (split; done).
Qed.

Global Instance txl_for_each {A} (xs : list A) (body : A -> M D unit) :
  (forall x, TxLocal (body x)) -> TxLocal (for_each xs body).
Proof. intros Hb. induction xs; simpl; apply _. Qed.

Global Instance txl_if {A} (b : bool) (c1 c2 : M D A) :
  TxLocal c1 -> TxLocal c2 -> TxLocal (if b then c1 else c2).
Proof. by destruct b. Qed.

(** [fn], run in a fresh transaction on database [d], succeeds and leaves the
    working copy [d']. *)
Definition tx_outcome {A} (fn : M D A) (d d' : D) : Prop :=
  exists w1 a w2, w_db w1 = d /\ w_tx w1 = Some d /\ fn w1 = (Ok a, w2) /\ w_tx w2 = Some d'.

(** The transaction rule for local bodies: the committed database either
    stays as it was or becomes exactly what a successful run of the body
    computed, and it is the latter whenever [Within] succeeds. *)
Lemma Within_atomic {A} ctx (fn : Ctx -> M D A) (w : World D) :
  txFromContext ctx = false -> w_tx w = None -> TxLocal (fn (with_tx ctx)) ->
  wp (Within ctx fn) (fun r w' =>
    w_tx w' = None /\
    (tx_outcome (fn (with_tx ctx)) (w_db w) (w_db w') \/
     (w_db w' = w_db w /\ exists e, r = Err e))) w.
Proof.
  intros Hctx Htx Hloc. apply wp_Within; [done|intros f _; simpl; eauto 10|].
  cbv zeta. unfold wp at 1.
  set (w1 := set_txnow _ _).
  assert (is_Some (w_tx w1)) as Hw1 by (simpl; eauto).
  destruct (Hloc w1 Hw1) as [Hdb Htx2].
  destruct (fn (with_tx ctx) w1) as [[a|e] w2] eqn:Hfn; simpl in *; [|eauto 10].
  destruct Htx2 as [d' Hd']. rewrite Hd'. simpl.
  assert (tx_outcome (fn (with_tx ctx)) (w_db w) d') by (exists w1, a, w2; done).
  split_and!; eauto 10.
Qed.
End TxLocal.

(** ** Framing *)

(** Every run of [c] relates its first and last world by [R]. *)
Class Frames {D A} (R : relation (World D)) (c : M D A) : Prop := frames : forall w, R w (snd (c w)).

Section Frames.
Context {D : Type} (R : relation (World D)) `{!PreOrder R}.

Global Instance frames_ret {A} (a : A) : Frames R (mret a).
Proof. intros w. simpl. reflexivity. Qed.

Global Instance frames_fail {A} e : Frames (A := A) R (fail e).
Proof. intros w. simpl. reflexivity. Qed.

Global Instance frames_bind {A B} (c : M D A) (f : A -> M D B) :
  Frames R c -> (forall a, Frames R (f a)) -> Frames R (c ≫= f).
Proof.
  intros Hc Hf w. specialize (Hc w). unfold mbind, M_bind.
  destruct (c w) as [[a|e] w']; simpl in *; [|done]. etrans; [exact Hc|apply Hf].
Qed.

Global Instance frames_wrapping {A} pre (c : M D A) : Frames R c -> Frames R (wrapping pre c).
Proof. intros Hc w. specialize (Hc w). unfold wrapping. by destruct (c w). Qed.

Global Instance frames_attempt {A} (c : M D A) : Frames R c -> Frames R (attempt c).
Proof. intros Hc w. specialize (Hc w). unfold attempt. by destruct (c w). Qed.

Global Instance frames_if {A} (b : bool) (c1 c2 : M D A) :
  Frames R c1 -> Frames R c2 -> Frames R (if b then c1 else c2).
Proof. by destruct b. Qed.

Global Instance frames_sum {A B C} (x : A + B) (f : A -> M D C) (g : B -> M D C) :
  (forall a, Frames R (f a)) -> (forall b, Frames R (g b)) ->
  Frames R (match x with inl a => f a | inr b => g b end).
Proof. by destruct x. Qed.

Global Instance frames_option {A C} (x : option A) (f : A -> M D C) (g : M D C) :
  (forall a, Frames R (f a)) -> Frames R g -> Frames R (match x with Some a => f a | None => g end).
Proof. by destruct x. Qed.

Global Instance frames_res {A C} (x : res A) (f : A -> M D C) (g : error -> M D C) :
  (forall a, Frames R (f a)) -> (forall e, Frames R (g e)) ->
  Frames R (match x with Ok a => f a | Err e => g e end).
Proof. by destruct x. Qed.

Global Instance frames_pair {A B C} (x : A * B) (f : A -> B -> M D C) :
  (forall a b, Frames R (f a b)) -> Frames R (let '(a, b) := x in f a b).
Proof. by destruct x. Qed.

Global Instance frames_for_each {A} (xs : list A) (body : A -> M D unit) :
  (forall x, Frames R (body x)) -> Frames R (for_each xs body).
Proof. intros Hb. induction xs; simpl; apply _. Qed.

Lemma frames_wp {A} (c : M D A) w : Frames R c -> wp c (fun _ w' => R w w') w.
Proof. intros Hc. apply Hc. Qed.
End Frames.

(** ** Statements, summarised *)

Section Summaries.
Context {D : Type} `{Env}.
Implicit Types w : World D.

(** What a statement leaves alone. *)
Definition quiet_step w w' : Prop := w_trace w' = w_trace w /\ w_nudge w' = w_nudge w.

(** An autocommitted statement: it fails without effect (a fault or an SQL
    error), or takes effect and succeeds, or takes effect and its success is not
    reported. *)
Lemma wp_run_pool_why {A} seq (st : Stmt D A) (Q : res A -> World D -> Prop) w :
  (forall msg w', db_faults \/ (exists sc, st sc (w_db w) = inl msg) ->
     quiet_step w w' -> w_tx w' = w_tx w -> w_db w' = w_db w -> Q (Err (ErrText msg)) w') ->
  (forall sc a d w', st sc (w_db w) = inr (a, d) -> quiet_step w w' -> w_tx w' = w_tx w -> w_db w' = d ->
     Q (Ok a) w' /\ (db_answer_lost -> forall msg, Q (Err (ErrText msg)) w')) ->
  wp (run QPool seq st) Q w.
Proof.
  intros Hfail Hok. apply wp_run; simpl.
  - intros f Hf. split; [apply Hfail; [left; by eexists _, _|by destruct seq..]|].
    intros a d _ Ha Hst. eapply Hok; [exact Hst|by destruct seq..|by eexists _, _].
  - intros _. destruct (st _ _) as [msg|[a d]] eqn:Hst; [apply Hfail; [right; eauto|by destruct seq..]|].
    eapply Hok; [exact Hst|by destruct seq..].
Qed.

Lemma wp_run_pool {A} seq (st : Stmt D A) (Q : res A -> World D -> Prop) w :
  (forall msg w', quiet_step w w' -> w_tx w' = w_tx w -> w_db w' = w_db w -> Q (Err (ErrText msg)) w') ->
  (forall sc a d w', st sc (w_db w) = inr (a, d) -> quiet_step w w' -> w_tx w' = w_tx w -> w_db w' = d ->
     Q (Ok a) w' /\ forall msg, Q (Err (ErrText msg)) w') ->
  wp (run QPool seq st) Q w.
Proof.
  intros Hfail Hok. apply wp_run_pool_why; [intros msg w' _; apply Hfail|].
  intros sc a d w' Hst ? ? ?. destruct (Hok sc a d w') as [? ?]; auto.
Qed.

(** A query on the pool. *)
Lemma wp_query_pool {A} seq (st : Stmt D A) (f : D -> A) (Q : res A -> World D -> Prop) w :
  (forall sc d, st sc d = inr (f d, d)) ->
  (forall w', quiet_step w w' -> w_tx w' = w_tx w -> w_db w' = w_db w ->
     Q (Ok (f (w_db w))) w' /\ forall msg, Q (Err (ErrText msg)) w') ->
  wp (run QPool seq st) Q w.
Proof.
  intros Hst HQ. apply wp_run_pool.
  - intros msg w' ? ? ?. by apply HQ.
  - intros sc a d w' Hst' ? ? ?. rewrite Hst in Hst'. injection Hst' as <- <-. by apply HQ.
Qed.

(** A statement in a transaction works on the working copy only. *)
Lemma wp_run_tx {A} seq (st : Stmt D A) (Q : res A -> World D -> Prop) w d0 :
  w_tx w = Some d0 ->
  (forall msg w', quiet_step w w' -> w_tx w' = Some d0 -> w_db w' = w_db w -> Q (Err (ErrText msg)) w') ->
  (forall sc a d w', st sc d0 = inr (a, d) -> quiet_step w w' -> w_tx w' = Some d -> w_db w' = w_db w ->
     Q (Ok a) w') ->
  wp (run QTx seq st) Q w.
Proof.
  intros Htx Hfail Hok. apply wp_run; simpl; rewrite Htx; simpl.
  - intros f _. split; [|done]. apply Hfail; by destruct seq.
  - intros _. destruct (st _ _) as [msg|[a d]] eqn:Hst; [apply Hfail; by destruct seq|].
    eapply Hok; [exact Hst|by destruct seq..].
Qed.

(** A transaction, summarised: nothing happens to the database, or a
    successful run of the body is committed; only the body acts on the
    outside world.  [Within] succeeds only in the second case. *)
Lemma wp_tx_why {A} ctx (fn : Ctx -> M D A) (Q : res A -> World D -> Prop) w :
  txFromContext ctx = false ->
  (forall msg w', quiet_step w w' -> w_tx w' = None -> w_db w' = w_db w ->
     Q (Err (Errorf "begin tx" (ErrText msg))) w') ->
  (forall w1, quiet_step w w1 -> w_tx w1 = Some (w_db w) -> w_db w1 = w_db w ->
   wp (fn (with_tx ctx)) (fun r w2 =>
     match r with
     | Err e => forall w', quiet_step w2 w' -> w_tx w' = None -> w_db w' = w_db w2 -> Q (Err e) w'
     | Ok a => forall w', quiet_step w2 w' -> w_tx w' = None ->
         (w_db w' = default (w_db w2) (w_tx w2) ->
            Q (Ok a) w' /\ (db_answer_lost -> forall msg, Q (Err (Errorf "commit tx" (ErrText msg))) w')) /\
         (w_db w' = w_db w2 -> forall msg, Q (Err (Errorf "commit tx" (ErrText msg))) w')
     end) w1) ->
  w_tx w = None -> wp (Within ctx fn) Q w.
Proof.
  intros Hctx Hbegin Hbody Htx. apply wp_Within_why; [done|intros f _; by apply Hbegin|].
  cbv zeta. eapply wp_mono; [|by apply Hbody].
  intros [a|e] w2 Hq; [|by apply Hq].
  split_and!; [|intros Hl msg|intros msg].
  - by edestruct (Hq (set_tx None (set_db (default (w_db w2) (w_tx w2)) (ticked w2)))) as [[] _].
  - edestruct (Hq (set_tx None (set_db (default (w_db w2) (w_tx w2)) (ticked w2)))) as [[_ Ha] _]; [done..|by apply Ha].
  - by edestruct (Hq (set_tx None (ticked w2))) as [_ ?]; auto.
Qed.

Lemma wp_tx {A} ctx (fn : Ctx -> M D A) (Q : res A -> World D -> Prop) w :
  txFromContext ctx = false ->
  (forall msg w', quiet_step w w' -> w_tx w' = None -> w_db w' = w_db w ->
     Q (Err (Errorf "begin tx" (ErrText msg))) w') ->
  (forall w1, quiet_step w w1 -> w_tx w1 = Some (w_db w) -> w_db w1 = w_db w ->
   wp (fn (with_tx ctx)) (fun r w2 =>
     match r with
     | Err e => forall w', quiet_step w2 w' -> w_tx w' = None -> w_db w' = w_db w2 -> Q (Err e) w'
     | Ok a => forall w', quiet_step w2 w' -> w_tx w' = None ->
         (w_db w' = default (w_db w2) (w_tx w2) ->
            Q (Ok a) w' /\ forall msg, Q (Err (Errorf "commit tx" (ErrText msg))) w') /\
         (w_db w' = w_db w2 -> forall msg, Q (Err (Errorf "commit tx" (ErrText msg))) w')
     end) w1) ->
  w_tx w = None -> wp (Within ctx fn) Q w.
Proof.
  intros Hctx Hbegin Hbody Htx. apply wp_tx_why; [done..| |done]. intros w1 Hq1 Htx1 Hdb1.
  eapply wp_mono; [|by apply Hbody]. intros [a|e] w2 Hq; [|exact Hq]. intros w' H1 H2.
  destruct (Hq w' H1 H2) as [Ha Hb]. split; [|exact Hb]. intros Hdb. destruct (Ha Hdb) as [? ?]. auto.
Qed.
End Summaries.

(** ** What a transaction's body does *)

(** [c], inside an open transaction, touches nothing but the working copy, and
    when it succeeds with [a] it takes the copy from [d] to some [d'] with
    [R d a d']. *)
Definition tx_does {D A} (c : M D A) (R : D -> A -> D -> Prop) : Prop :=
  forall w d0, w_tx w = Some d0 ->
    wp c (fun r w' => quiet_step w w' /\ w_db w' = w_db w /\
      match r with Ok a => exists d', w_tx w' = Some d' /\ R d0 a d' | Err _ => True end) w.

Section TxDoes.
Context {D : Type} `{Env}.

Lemma quiet_step_trans (w1 w2 w3 : World D) : quiet_step w1 w2 -> quiet_step w2 w3 -> quiet_step w1 w3.
Proof. intros [? ?] [? ?]. split; congruence. Qed.

Lemma tx_does_ret {A} (a : A) : tx_does (D := D) (mret a) (fun d x d' => x = a /\ d' = d).
Proof. intros w d0 Htx. apply wp_ret. split_and!; [done..|eauto]. Qed.

Lemma tx_does_fail {A} e R : tx_does (D := D) (A := A) (fail e) R.
Proof. intros w d0 Htx. apply wp_fail. done. Qed.

Lemma tx_does_mono {A} (c : M D A) (R R' : D -> A -> D -> Prop) :
  (forall d a d', R d a d' -> R' d a d') -> tx_does c R -> tx_does c R'.
Proof.
  intros Hm Hc w d0 Htx. eapply wp_mono; [|by apply Hc].
  intros r w' (? & ? & Hr). split_and!; [done..|]. destruct r; [|done]. naive_solver.
Qed.

Lemma tx_does_bind {A B} (c : M D A) (f : A -> M D B) R (S : A -> D -> B -> D -> Prop) :
  tx_does c R -> (forall a, tx_does (f a) (S a)) ->
  tx_does (c ≫= f) (fun d b d' => exists a d1, R d a d1 /\ S a d1 b d').
Proof.
  intros Hc Hf w d0 Htx. apply wp_bind. eapply wp_mono; [|by apply Hc].
  intros [a|e] w1 (Hq1 & Hdb1 & Hr); [|done]. destruct Hr as (d1 & Htx1 & HR).
  eapply wp_mono; [|by apply Hf]. intros r w2 (Hq2 & Hdb2 & Hr2).
  split_and!; [by eapply quiet_step_trans|congruence|].
  destruct r; [|done]. naive_solver.
Qed.

Lemma tx_does_wrapping {A} pre (c : M D A) R : tx_does c R -> tx_does (wrapping pre c) R.
Proof.
  intros Hc w d0 Htx. apply wp_wrapping. eapply wp_mono; [|by apply Hc]. by intros [] w'.
Qed.

Lemma tx_does_run {A} seq (st : Stmt D A) :
  tx_does (run QTx seq st) (fun d a d' => exists sc, st sc d = inr (a, d')).
Proof.
  intros w d0 Htx. eapply wp_run_tx; [done|eauto|].
  intros sc a d w' Hst Hq Htx' Hdb. eauto 10.
Qed.

(** A loop: a chain of working copies, one link per element. *)
Inductive chain {A} (R : A -> D -> D -> Prop) : list A -> D -> D -> Prop :=
| chain_nil d : chain R [] d d
| chain_cons x xs d1 d2 d3 : R x d1 d2 -> chain R xs d2 d3 -> chain R (x :: xs) d1 d3.

Lemma tx_does_for_each {A} (xs : list A) (body : A -> M D unit) (R : A -> D -> D -> Prop) :
  (forall x, tx_does (body x) (fun d _ d' => R x d d')) ->
  tx_does (for_each xs body) (fun d _ d' => chain R xs d d').
Proof.
  intros Hb. induction xs as [|x xs IH]; simpl.
  - eapply tx_does_mono; [|apply tx_does_ret]. intros d ? d' [_ ->]. constructor.
  - eapply tx_does_mono; [|apply tx_does_bind; [apply Hb|intros ?; exact IH]].
    intros d ? d' (_ & d1 & ? & ?). by econstructor.
Qed.

(** All or nothing: after [Within] the committed database is as before, and
    an error is reported, or the body's effect is committed as a whole. *)
Lemma wp_Within_does {A} ctx (fn : Ctx -> M D A) R (Q : res A -> World D -> Prop) w :
  txFromContext ctx = false -> w_tx w = None -> tx_does (fn (with_tx ctx)) R ->
  (forall e w', quiet_step w w' -> w_tx w' = None -> w_db w' = w_db w -> Q (Err e) w') ->
  (forall a w', quiet_step w w' -> w_tx w' = None -> R (w_db w) a (w_db w') ->
     Q (Ok a) w' /\ forall e, Q (Err e) w') ->
  wp (Within ctx fn) Q w.
Proof.
  intros Hctx Htx Hfn Hnone Hall. apply wp_tx; [done|by intros; apply Hnone| |done].
  intros w1 Hq1 Htx1 Hdb1. eapply wp_mono; [|by apply Hfn]. intros r w2 (Hq2 & Hdb2 & Hr).
  assert (quiet_step w w2) as Hq by by eapply quiet_step_trans.
  destruct r as [a|e]; intros w3 Hq3 Htx3; [|intros Hdb3].
  - destruct Hr as (d' & Htx2 & HR). rewrite Htx2. simpl. split; intros Hdb3.
    + destruct (Hall a w3) as [? ?]; [by eapply quiet_step_trans|done|by rewrite Hdb3|]. auto.
    + intros msg. apply Hnone; [by eapply quiet_step_trans|done|congruence].
  - apply Hnone; [by eapply quiet_step_trans|done|congruence].
Qed.
End TxDoes.

(** ** Loops *)

(** What code changes and what it asks of the outside world. *)
Definition obs {D} (w : World D) : D * list Ext := (w_db w, w_trace w).

(** A loop over rows whose steps relate these. *)
Lemma wp_for_each_chain {D A} (I : World D -> Prop) (R : A -> D * list Ext -> D * list Ext -> Prop) xs body (w : World D) :
  (forall x w, x ∈ xs -> I w -> wp (body x) (fun r w' => r = Ok tt /\ I w' /\ R x (obs w) (obs w')) w) ->
  I w -> wp (for_each xs body) (fun r w' => r = Ok tt /\ I w' /\ chain R xs (obs w) (obs w')) w.
Proof.
  revert w. induction xs as [|x xs IH]; simpl; intros w Hb Hw.
  - apply wp_ret. split_and!; [done..|constructor].
  - apply wp_bind. eapply wp_mono; [|apply Hb; [by left|done]]. intros r w1 (-> & Hw1 & H1).
    eapply wp_mono; [|apply IH; [intros x' w' Hx'; apply Hb; by right|done]]. intros r w2 (-> & Hw2 & H2). split_and!; [done..|by econstructor].
Qed.

Lemma chain_app {D A} (R : A -> D -> D -> Prop) xs ys d1 d2 d3 :
  chain R xs d1 d2 -> chain R ys d2 d3 -> chain R (xs ++ ys) d1 d3.
Proof. induction 1; simpl; [done|]. intros. econstructor; eauto. Qed.

Lemma chain_map {D A B} (g : A -> B) (R : B -> D -> D -> Prop) xs d d' :
  chain (fun x => R (g x)) xs d d' -> chain R (map g xs) d d'.
Proof. induction 1; simpl; econstructor; eauto. Qed.

(** ** Automation *)

(** One step of symbolic execution: a structural rule or a primitive. *)
Ltac wp_step :=
  lazymatch goal with
  | |- wp (mret _) _ _ => apply wp_ret
  | |- wp (fail _) _ _ => apply wp_fail
  | |- wp (mbind _ _) _ _ => apply wp_bind
  | |- wp (wrapping _ _) _ _ => apply wp_wrapping
  | |- wp (attempt _) _ _ => apply wp_attempt
  | |- wp (oracle _) _ _ => apply wp_oracle
  | |- wp (emit _) _ _ => apply wp_emit
  end; cbv beta iota.
Ltac wp_steps := repeat wp_step.
