(* ===== verification/Sql.v ===== *)
(** * Tables

    The fragment of SQL the repositories use, on a table given as the list of
    its rows: [SELECT ... WHERE], [UPDATE ... WHERE], [DELETE ... WHERE],
    [INSERT], unique constraints and [ORDER BY].  A [SELECT] without [ORDER BY]
    lists rows in insertion order here; theorems about such a query are stated
    up to the order of rows or hold for every order. *)

From S2P Require Import Prelude.

Section Table.
Context {R : Type}.
Implicit Types (t : list R) (p : R -> bool) (r : R).

Definition select_where p t : list R := List.filter p t.
Definition delete_where p t : list R := List.filter (fun r => negb (p r)) t.
Definition update_where p (f : R -> R) t : list R :=
  map (fun r => if p r then f r else r) t.
(** [commandTag.RowsAffected()] of a DELETE or UPDATE. *)
Definition rows_matching p t : Z := Z.of_nat (length (select_where p t)).
Definition insert_row r t : list R := t ++ [r].
Definition exists_where p t : bool := existsb p t.

(** A unique constraint on the columns [key]. *)
Definition unique_on {K} (key : R -> K) t : Prop := NoDup (map key t).

Definition key_is {K} `{EqDecision K} (key : R -> K) (k : K) : R -> bool :=
  fun r => bool_decide (key r = k).

(** [ORDER BY key]: ties keep insertion order. *)
Fixpoint order_insert (key : R -> Z) r t : list R :=
  match t with
  | [] => [r]
  | r' :: t' => if key r' <=? key r then r' :: order_insert key r t' else r :: t
  end.
Definition order_by (key : R -> Z) t : list R := foldl (fun acc r => order_insert key r acc) [] t.

(** ** Lemmas *)

Lemma elem_of_select p t r : r ∈ select_where p t <-> r ∈ t /\ p r = true.
Proof. unfold select_where. rewrite !list_elem_of_In, filter_In. tauto. Qed.

Lemma elem_of_delete p t r : r ∈ delete_where p t <-> r ∈ t /\ p r = false.
Proof.
  unfold delete_where. rewrite !list_elem_of_In, filter_In, negb_true_iff. tauto.
Qed.

Lemma elem_of_update p f t r :
  r ∈ update_where p f t <->
  exists r0, r0 ∈ t /\ r = if p r0 then f r0 else r0.
Proof.
  unfold update_where. rewrite list_elem_of_In, in_map_iff.
  setoid_rewrite list_elem_of_In. split; intros (r0 & ? & ?); eauto.
Qed.

Lemma elem_of_insert_row r0 t r : r ∈ insert_row r0 t <-> r ∈ t \/ r = r0.
Proof. unfold insert_row. set_solver. Qed.

Lemma exists_where_true p t : exists_where p t = true <-> exists r, r ∈ t /\ p r = true.
Proof.
  unfold exists_where. rewrite existsb_exists.
  setoid_rewrite list_elem_of_In. done.
Qed.

Lemma exists_where_false p t : exists_where p t = false <-> forall r, r ∈ t -> p r = false.
Proof.
  split.
  - intros Hf r Hr. destruct (p r) eqn:Hp; [|done].
    assert (exists_where p t = true) by (apply exists_where_true; eauto). congruence.
  - intros Hall. destruct (exists_where p t) eqn:He; [|done].
    apply exists_where_true in He as (r & Hr & Hp). rewrite Hall in Hp; done.
Qed.

Lemma select_where_none p t : exists_where p t = false -> select_where p t = [].
Proof.
  unfold exists_where, select_where. induction t as [|r t IH]; simpl; [done|].
  intros [-> ?]%orb_false_iff. auto.
Qed.

Lemma delete_where_none p t : exists_where p t = false -> delete_where p t = t.
Proof.
  unfold exists_where, delete_where. induction t as [|r t IH]; simpl; [done|].
  intros [-> ?]%orb_false_iff. simpl. f_equal. auto.
Qed.

Lemma update_where_none p f t : exists_where p t = false -> update_where p f t = t.
Proof.
  unfold exists_where, update_where. induction t as [|r t IH]; simpl; [done|].
  intros [-> ?]%orb_false_iff. f_equal. auto.
Qed.

Lemma delete_where_le p t : (length (delete_where p t) <= length t)%nat.
Proof. unfold delete_where. induction t as [|r t IH]; simpl; [done|]. destruct (p r); simpl; lia. Qed.

Lemma delete_where_shrinks p t :
  exists_where p t = true -> (length (delete_where p t) < length t)%nat.
Proof.
  induction t as [|r t IH]; simpl; [done|]. pose proof (delete_where_le p t) as Hle.
  unfold delete_where in *. simpl. destruct (p r); simpl; [lia|]. intros Hex%IH. lia.
Qed.

Lemma rows_matching_pos p t : 0 < rows_matching p t <-> exists_where p t = true.
Proof.
  unfold rows_matching. split.
  - intros Hlt. destruct (exists_where p t) eqn:He; [done|].
    rewrite select_where_none in Hlt by done. simpl in Hlt. lia.
  - intros (r & Hr & Hp)%exists_where_true.
    destruct (select_where p t) eqn:Hs; simpl; [|lia].
    assert (r ∈ select_where p t) as Hin by by apply elem_of_select.
    rewrite Hs in Hin. set_solver.
Qed.

Lemma select_singleton p t r :
  NoDup t -> r ∈ t -> (forall r', r' ∈ t -> p r' = true <-> r' = r) -> select_where p t = [r].
Proof.
  unfold select_where. intros Hnd. induction Hnd as [|r0 t Hr0 Hnd IH]; [set_solver|]. intros Hr Hp.
  simpl. destruct (p r0) eqn:H0.
  - apply Hp in H0 as ->; [|set_solver]. f_equal. apply select_where_none, exists_where_false.
    intros r' Hr'. destruct (p r') eqn:Hpr; [|done]. apply Hp in Hpr as ->; [done|set_solver].
  - apply IH; [|set_solver]. apply elem_of_cons in Hr as [<-|]; [|done].
    assert (p r = true) by (apply Hp; set_solver). congruence.
Qed.

Lemma select_key_absent {K} `{EqDecision K} (key : R -> K) t k r :
  select_where (key_is key k) t = [] -> r ∈ t -> key r = k -> False.
Proof.
  intros Hnil Hr Hk. assert (r ∈ select_where (key_is key k) t) as Hin.
  { apply elem_of_select. split; [done|]. unfold key_is. by rewrite bool_decide_eq_true_2. }
  rewrite Hnil in Hin. set_solver.
Qed.

Section Unique.
Context {K : Type} `{EqDecision K} (key : R -> K).

Lemma unique_on_delete p t : unique_on key t -> unique_on key (delete_where p t).
Proof.
  unfold unique_on, delete_where. induction t as [|r t IH]; simpl; [done|].
  rewrite NoDup_cons. intros [Hr Ht]. destruct (p r); simpl; [auto|].
  rewrite NoDup_cons. split; [|auto].
  rewrite list_elem_of_In, in_map_iff in *. intros (r' & Hk & Hin).
  apply Hr. exists r'. rewrite filter_In in Hin. tauto.
Qed.

Lemma unique_on_update p f t :
  (forall r, r ∈ t -> key (f r) = key r) -> unique_on key t -> unique_on key (update_where p f t).
Proof.
  intros Hf. unfold unique_on, update_where. rewrite map_map.
  intros Hu. erewrite map_ext_in; [exact Hu|].
  intros r Hr. simpl. destruct (p r); [apply Hf, list_elem_of_In, Hr|done].
Qed.

Lemma unique_on_insert r t :
  unique_on key t -> exists_where (key_is key (key r)) t = false -> unique_on key (insert_row r t).
Proof.
  unfold unique_on, insert_row. intros Hu Hf. rewrite map_app. simpl.
  rewrite NoDup_app. split; [done|]. split.
  - intros k Hk Hk'. apply list_elem_of_singleton in Hk' as ->.
    rewrite list_elem_of_In, in_map_iff in Hk. destruct Hk as (r' & Hk & Hin).
    rewrite exists_where_false in Hf. specialize (Hf r' (proj2 (list_elem_of_In _ _) Hin)).
    unfold key_is in Hf. rewrite Hk, bool_decide_eq_true_2 in Hf; done.
  - apply NoDup_singleton.
Qed.

Lemma unique_on_eq t r1 r2 :
  unique_on key t -> r1 ∈ t -> r2 ∈ t -> key r1 = key r2 -> r1 = r2.
Proof.
  unfold unique_on. induction t as [|r t IH]; simpl; [set_solver|].
  rewrite NoDup_cons. intros [Hr Ht] H1 H2 Hk.
  assert (forall r', r' ∈ t -> key r' <> key r) as Hne.
  { intros r' Hr' Hk'. apply Hr. rewrite <- Hk', list_elem_of_In.
    apply in_map, list_elem_of_In, Hr'. }
  apply elem_of_cons in H1 as [->|H1]; apply elem_of_cons in H2 as [->|H2]; auto.
  - by destruct (Hne r2 H2).
  - by destruct (Hne r1 H1).
Qed.

Lemma unique_on_NoDup t : unique_on key t -> NoDup t.
Proof. apply NoDup_fmap_1. Qed.

(** Giving the row selected by one key a new value of another key, when no
    other row has that value. *)
Lemma unique_on_rekey {K'} `{EqDecision K'} (key' : R -> K') f k v t :
  (forall r, key (f r) = v) -> unique_on key t -> unique_on key' t ->
  exists_where (fun r => negb (key_is key' k r) && key_is key v r) t = false ->
  unique_on key (update_where (key_is key' k) f t).
Proof.
  intros Hf. unfold unique_on, update_where. induction t as [|r t IH]; simpl; [done|].
  rewrite !NoDup_cons. intros [Hr Ht] [Hr' Ht'] Hex. apply orb_false_iff in Hex as [Hne Hex].
  split; [|auto]. intros Hin. rewrite map_map in Hin. apply list_elem_of_fmap in Hin as (r2 & He & Hr2).
  rewrite exists_where_false in Hex. specialize (Hex r2 Hr2). unfold key_is in *.
  assert (key' r2 <> key' r) as Hkk.
  { intros Hq. apply Hr'. rewrite <- Hq. by apply list_elem_of_fmap_2. }
  assert (key r2 <> key r) as Hkr.
  { intros Hq. apply Hr. rewrite <- Hq. by apply list_elem_of_fmap_2. }
  destruct (bool_decide_reflect (key' r = k)) as [Hk|Hk], (bool_decide_reflect (key' r2 = k)) as [Hk2|Hk2];
    simpl in *; [congruence| | |congruence].
  - rewrite Hf in He. by rewrite bool_decide_eq_false in Hex.
  - rewrite Hf in He. by rewrite bool_decide_eq_false in Hne.
Qed.

(** With a unique key, a lookup by the key finds at most one row. *)
Lemma select_unique t k :
  unique_on key t ->
  select_where (key_is key k) t = [] \/
  exists r, select_where (key_is key k) t = [r] /\ r ∈ t /\ key r = k.
Proof.
  unfold unique_on, select_where. induction t as [|r t IH]; simpl; [by left|].
  rewrite NoDup_cons. intros [Hr Ht].
  assert (forall r', key_is key k r' = bool_decide (key r' = k)) as Hdef by done.
  rewrite Hdef. destruct (bool_decide_reflect (key r = k)) as [Hk|Hk].
  - right. exists r. split; [|set_solver].
    f_equal. apply select_where_none. apply exists_where_false.
    intros r' Hr'. rewrite Hdef. apply bool_decide_eq_false. intros Hk'.
    apply Hr. rewrite Hk, <- Hk', list_elem_of_In. by apply in_map, list_elem_of_In.
  - destruct (IH Ht) as [->|(r' & -> & ? & ?)]; [by left|].
    right. exists r'. set_solver.
Qed.
End Unique.

Lemma order_insert_perm (key : R -> Z) r t : order_insert key r t ≡ₚ r :: t.
Proof.
  induction t as [|r' t IH]; simpl; [done|].
  destruct (key r' <=? key r); [|done]. rewrite IH. constructor.
Qed.

Lemma order_by_perm (key : R -> Z) t : order_by key t ≡ₚ t.
Proof.
  unfold order_by. cut (forall acc, foldl (fun acc r => order_insert key r acc) acc t ≡ₚ acc ++ t).
  { intros Hc. apply (Hc []). }
  induction t as [|r t IH]; intros acc; simpl; [by rewrite app_nil_r|].
  rewrite IH, order_insert_perm. simpl. by rewrite Permutation_middle.
Qed.

Lemma order_insert_sorted (key : R -> Z) r t :
  Sorted (fun a b => key a <= key b) t -> Sorted (fun a b => key a <= key b) (order_insert key r t).
Proof.
  induction t as [|r' t IH]; simpl; intros Hs; [repeat constructor|].
  destruct (Z.leb_spec (key r') (key r)).
  - inversion Hs as [|? ? Hs' Hhd]; subst. constructor; [auto|].
    destruct t as [|r'' t]; simpl; [by constructor|].
    inversion Hhd; subst. destruct (key r'' <=? key r); by constructor.
  - constructor; [done|constructor; lia].
Qed.

Lemma order_by_sorted (key : R -> Z) t : Sorted (fun a b => key a <= key b) (order_by key t).
Proof.
  unfold order_by.
  cut (forall acc, Sorted (fun a b => key a <= key b) acc ->
       Sorted (fun a b => key a <= key b) (foldl (fun acc r => order_insert key r acc) acc t)).
  { intros Hc. apply Hc. constructor. }
  induction t as [|r t IH]; intros acc Hacc; simpl; [done|].
  by apply IH, order_insert_sorted.
Qed.

Lemma order_insert_greatest (key : R -> Z) r t :
  (forall r', r' ∈ t -> key r' <= key r) -> order_insert key r t = t ++ [r].
Proof.
  induction t as [|r' t IH]; simpl; [done|]. intros Hall.
  destruct (Z.leb_spec (key r') (key r)) as [_|Hgt]; [f_equal; apply IH; set_solver|].
  specialize (Hall r' ltac:(set_solver)). lia.
Qed.

Lemma order_insert_split (key : R -> Z) r t :
  exists l1 l2, t = l1 ++ l2 /\ order_insert key r t = l1 ++ r :: l2 /\ forall x, head l2 = Some x -> key r < key x.
Proof.
  induction t as [|r' t IH]; simpl; [by exists [], []|]. destruct (Z.leb_spec (key r') (key r)).
  - destruct IH as (l1 & l2 & -> & -> & Hl). by exists (r' :: l1), l2.
  - exists [], (r' :: t). split_and!; [done..|]. by intros x [= <-].
Qed.

(** A new row comes before the rows with greater keys. *)
Lemma order_by_insert (key : R -> Z) r t :
  exists l1 l2, order_by key t = l1 ++ l2 /\ order_by key (t ++ [r]) = l1 ++ r :: l2 /\
    forall x, x ∈ l2 -> key r < key x.
Proof.
  destruct (order_insert_split key r (order_by key t)) as (l1 & l2 & He & Hi & Hl). exists l1, l2.
  split_and!; [done|unfold order_by at 1; by rewrite foldl_app|]. intros x Hx.
  pose proof (order_by_sorted key t) as Hs. rewrite He in Hs.
  destruct l2 as [|y l2]; [by apply elem_of_nil in Hx|]. pose proof (Hl y eq_refl).
  apply Sorted_StronglySorted in Hs; [|by intros ????; lia]. apply StronglySorted_app in Hs as (_ & _ & Hs).
  apply elem_of_cons in Hx as [->|Hx]; [done|]. inversion Hs as [|? ? _ Hy]; subst. rewrite Forall_forall in Hy.
  specialize (Hy x Hx). lia.
Qed.

Lemma order_insert_least (key : R -> Z) r t :
  (forall r', r' ∈ t -> key r < key r') -> order_insert key r t = r :: t.
Proof.
  destruct t as [|r' t]; simpl; [done|]. intros Hall.
  destruct (Z.leb_spec (key r') (key r)) as [Hle|_]; [|done].
  specialize (Hall r' ltac:(set_solver)). lia.
Qed.

Lemma delete_order_insert (key : R -> Z) p r t :
  StronglySorted (fun a b => key a <= key b) t ->
  delete_where p (order_insert key r t) =
  if p r then delete_where p t else order_insert key r (delete_where p t).
Proof.
  unfold delete_where. induction 1 as [|r' t Hs IH Hall]; simpl.
  - by destruct (p r).
  - destruct (Z.leb_spec (key r') (key r)) as [Hle|Hgt]; simpl.
    + rewrite IH. destruct (p r), (p r'); simpl; try done.
      destruct (Z.leb_spec (key r') (key r)); [done|lia].
    + destruct (p r); simpl; [done|]. destruct (p r') eqn:Hp'; simpl.
      * symmetry. apply order_insert_least. intros r'' Hr''.
        apply list_elem_of_In, filter_In in Hr'' as [Hin _].
        rewrite Forall_forall in Hall. apply list_elem_of_In in Hin. specialize (Hall _ Hin). lia.
      * destruct (Z.leb_spec (key r') (key r)); [lia|done].
Qed.

(** Deleting rows and sorting commute. *)
Lemma order_by_delete (key : R -> Z) p t :
  order_by key (delete_where p t) = delete_where p (order_by key t).
Proof.
  unfold order_by.
  cut (forall acc, Sorted (fun a b => key a <= key b) acc ->
    foldl (fun acc r => order_insert key r acc) (delete_where p acc) (delete_where p t) =
    delete_where p (foldl (fun acc r => order_insert key r acc) acc t)).
  { intros Hc. apply (Hc []). constructor. }
  induction t as [|r t IH]; intros acc Hacc; [done|].
  assert (StronglySorted (fun a b => key a <= key b) acc) as Hss.
  { apply Sorted_StronglySorted; [|done]. intros x y z ? ?. lia. }
  simpl. rewrite <- IH by (by apply order_insert_sorted).
  rewrite delete_order_insert by done.
  unfold delete_where at 2. simpl. by destruct (p r).
Qed.

Lemma delete_take {K} `{EqDecision K} (key : R -> K) n t :
  unique_on key t ->
  delete_where (fun r => bool_decide (key r ∈ map key (take n t))) t = drop n t.
Proof.
  unfold unique_on, delete_where. revert n. induction t as [|r t IH]; intros n Hu; [by rewrite drop_nil|].
  simpl in Hu. apply NoDup_cons in Hu as [Hr Hu].
  destruct n as [|n]; simpl.
  - f_equal. specialize (IH 0%nat Hu). by rewrite take_0, drop_0 in IH.
  - rewrite bool_decide_eq_true_2 by set_solver. simpl. rewrite <- IH by done.
    apply filter_ext_in. intros r' Hr'. f_equal. apply bool_decide_ext.
    rewrite elem_of_cons. split; [|by right]. intros [He|?]; [|done].
    destruct Hr. rewrite <- He. by apply list_elem_of_In, in_map.
Qed.
End Table.

(** ** A table with a unique key, as a map *)

Section TableMap.
Context {R K A : Type} `{Countable K} (key : R -> K) (val : R -> A).
Implicit Types (t : list R) (k : K).

Definition table_map t : gmap K A := list_to_map (map (fun r => (key r, val r)) t).

Lemma table_map_cons r t : table_map (r :: t) = <[key r := val r]> (table_map t).
Proof. done. Qed.

Lemma table_map_lookup t k v :
  unique_on key t -> table_map t !! k = Some v <-> exists r, r ∈ t /\ key r = k /\ val r = v.
Proof.
  intros Hu. unfold table_map. set (kvs := map _ t).
  assert (NoDup (kvs.*1)) as Hnd by (unfold unique_on in Hu; unfold kvs; by rewrite map_map).
  etrans; [symmetry; exact (elem_of_list_to_map (M := gmap K) kvs k v Hnd)|]. unfold kvs.
  rewrite list_elem_of_fmap. split.
  - intros (r & [= -> ->] & Hr). eauto.
  - intros (r & Hr & <- & <-). eauto.
Qed.

Lemma table_map_absent k t : exists_where (key_is key k) t = false -> table_map t !! k = None.
Proof.
  intros Hf. rewrite exists_where_false in Hf. apply not_elem_of_list_to_map_1. rewrite map_map.
  intros (r & -> & Hr)%list_elem_of_fmap. specialize (Hf r Hr). unfold key_is in Hf.
  simpl in Hf. by rewrite bool_decide_eq_true_2 in Hf.
Qed.

Lemma unique_on_cons_absent r t :
  unique_on key (r :: t) -> exists_where (key_is key (key r)) t = false /\ unique_on key t.
Proof.
  unfold unique_on. simpl. rewrite NoDup_cons. intros [Hr Ht]. split; [|done].
  apply exists_where_false. intros r' Hr'. apply bool_decide_eq_false_2. intros He.
  apply Hr. rewrite <- He. by apply list_elem_of_fmap_2.
Qed.

Lemma table_map_insert r t :
  exists_where (key_is key (key r)) t = false ->
  table_map (insert_row r t) = <[key r := val r]> (table_map t).
Proof.
  induction t as [|r' t IH]; intros Hf; [done|].
  simpl in Hf. apply orb_false_iff in Hf as [Hne%bool_decide_eq_false Hf].
  change (insert_row r (r' :: t)) with (r' :: insert_row r t).
  rewrite !table_map_cons, IH by done. by rewrite insert_insert_ne.
Qed.

Lemma table_map_update k p (f : R -> R) (g : A -> A) t :
  (forall r, p r = true -> key (f r) = key r) ->
  (forall r, val (if p r then f r else r) = g (val r)) ->
  unique_on key t ->
  table_map (update_where (fun r => key_is key k r && p r) f t) = alter g k (table_map t).
Proof.
  intros Hk Hv. induction t as [|r t IH]; intros Hu; [done|].
  apply unique_on_cons_absent in Hu as [Hr Hu].
  change (update_where ?q f (r :: t)) with ((if q r then f r else r) :: update_where q f t).
  cbv beta. rewrite !table_map_cons, IH by done. specialize (Hv r).
  assert (key_is key k r = bool_decide (key r = k)) as -> by done.
  destruct (bool_decide_reflect (key r = k)) as [<-|Hne]; simpl.
  - rewrite alter_insert_eq, alter_id' by by apply table_map_absent.
    rewrite <- Hv. specialize (Hk r). destruct (p r); [|done]. by rewrite Hk.
  - by rewrite alter_insert_ne by done.
Qed.

Lemma table_map_set k (f : R -> R) v t :
  (forall r, key r = k -> key (f r) = k) -> (forall r, val (f r) = v) ->
  unique_on key t -> exists_where (key_is key k) t = true ->
  table_map (update_where (key_is key k) f t) = <[k := v]> (table_map t).
Proof.
  intros Hk Hv. induction t as [|r t IH]; intros Hu Hex; [done|].
  apply unique_on_cons_absent in Hu as [Hr Hu].
  change (update_where ?q f (r :: t)) with ((if q r then f r else r) :: update_where q f t).
  simpl in Hex. assert (key_is key k r = bool_decide (key r = k)) as He by done.
  rewrite He in Hex |- *. rewrite !table_map_cons.
  destruct (bool_decide_reflect (key r = k)) as [<-|Hne]; simpl in Hex.
  - by rewrite Hv, Hk, update_where_none, insert_insert_eq.
  - rewrite IH by done. by rewrite insert_insert_ne.
Qed.

Lemma table_map_delete k t :
  table_map (delete_where (key_is key k) t) = delete k (table_map t).
Proof.
  unfold delete_where. induction t as [|r t IH]; [symmetry; apply (delete_empty (M := gmap K))|]. simpl.
  assert (key_is key k r = bool_decide (key r = k)) as -> by done.
  rewrite table_map_cons. destruct (bool_decide_reflect (key r = k)) as [<-|Hne]; simpl.
  - by rewrite IH, delete_insert_eq.
  - by rewrite table_map_cons, IH, delete_insert_ne.
Qed.
End TableMap.

Create HintDb sql discriminated.
#[export] Hint Resolve unique_on_delete unique_on_insert : sql.
