(* ===== verification/Json.v ===== *)
(** * encoding/json, as the events and the GitHub client use it

    Strings are byte sequences.  [quote] is the encoder's string rendering
    (HTML-safe escaping, U+FFFD for invalid UTF-8, U+2028/2029 escaped);
    [parse_value] is the scanner and decoder for one JSON value.  Struct
    values are flat: a field is a string, an [int] or a [[]string].
    [encode_struct] and [decode_struct] are [json.Marshal] and the decoder with
    or without [DisallowUnknownFields] on such structs. *)

From S2P Require Import Prelude.
From Stdlib Require Import Ascii.

Open Scope string_scope.
Open Scope list_scope.
Open Scope Z_scope.

Definition byte (c : ascii) : Z := Z.of_N (N_of_ascii c).
Definition chr (z : Z) : ascii := ascii_of_N (Z.to_N z).
Definition in_range (lo hi z : Z) : bool := (lo <=? z) && (z <=? hi).
Definition str1 (z : Z) : string := String (chr z) "".

(** ** UTF-8 *)

Definition cont (c : ascii) : bool := in_range 128 191 (byte c).

(** The valid multi-byte rune at the head of [s] and the rest
    ([utf8.DecodeRune] for a first byte >= 0x80). *)
Definition next_rune (s : string) : option (string * string) :=
  match s with
  | String a (String b s2) =>
      if in_range 194 223 (byte a) then
        if cont b then Some (String a (String b ""), s2) else None
      else match s2 with
      | String c s3 =>
          if in_range 224 239 (byte a) then
            if in_range (if byte a =? 224 then 160 else 128)
                        (if byte a =? 237 then 159 else 191) (byte b) && cont c
            then Some (String a (String b (String c "")), s3) else None
          else match s3 with
          | String d s4 =>
              if in_range 240 244 (byte a) &&
                 in_range (if byte a =? 240 then 144 else 128)
                          (if byte a =? 244 then 143 else 191) (byte b) &&
                 cont c && cont d
              then Some (String a (String b (String c (String d ""))), s4) else None
          | "" => None
          end
      | "" => None
      end
  | _ => None
  end.

Inductive rune := RAscii (c : ascii) | RMulti (bytes : string) | RBad.

(** [s] cut into runes; every invalid byte is one [RBad]. *)
Fixpoint runes_fuel (fuel : nat) (s : string) : list rune :=
  match fuel, s with
  | S k, String c s' =>
      if byte c <? 128 then RAscii c :: runes_fuel k s'
      else match next_rune s with
           | Some (r, rest) => RMulti r :: runes_fuel k rest
           | None => RBad :: runes_fuel k s'
           end
  | _, _ => []
  end.
Definition runes (s : string) : list rune := runes_fuel (String.length s) s.

Definition rune_ok (r : rune) : bool := match r with RBad => false | _ => true end.
Definition valid_utf8 (s : string) : bool := forallb rune_ok (runes s).

(** [utf8.EncodeRune] *)
Definition encode_rune (cp : Z) : string :=
  if cp <? 128 then str1 cp
  else if cp <? 2048 then str1 (192 + cp / 64) +:+ str1 (128 + cp mod 64)
  else if in_range 55296 57343 cp || (1114111 <? cp) then
    str1 239 +:+ str1 191 +:+ str1 189
  else if cp <? 65536 then
    str1 (224 + cp / 4096) +:+ str1 (128 + cp / 64 mod 64) +:+ str1 (128 + cp mod 64)
  else str1 (240 + cp / 262144) +:+ str1 (128 + cp / 4096 mod 64) +:+
       str1 (128 + cp / 64 mod 64) +:+ str1 (128 + cp mod 64).

Definition replacement : string := encode_rune 65533.

(** ** Encoding strings *)

Definition hex_digit (z : Z) : ascii := chr (if z <? 10 then 48 + z else 87 + z).

Definition backslash : ascii := chr 92.
Definition dquote : ascii := chr 34.

Definition esc (c : ascii) : string := String backslash (String c "").

Definition escape_ascii (c : ascii) : string :=
  let b := byte c in
  if (b =? 34) || (b =? 92) then esc c
  else if b =? 8 then esc "b" else if b =? 12 then esc "f"
  else if b =? 10 then esc "n" else if b =? 13 then esc "r" else if b =? 9 then esc "t"
  else if (b <? 32) || (b =? 60) || (b =? 62) || (b =? 38) then
    String backslash (String "u" (String "0" (String "0"
      (String (hex_digit (b / 16)) (String (hex_digit (b mod 16)) "")))))
  else String c "".

Definition line_sep : string := encode_rune 8232.
Definition para_sep : string := encode_rune 8233.

Definition escape_rune (r : rune) : string :=
  match r with
  | RAscii c => escape_ascii c
  | RMulti s =>
      if String.eqb s line_sep then String backslash "u2028"
      else if String.eqb s para_sep then String backslash "u2029"
      else s
  | RBad => String backslash "ufffd"
  end.

Definition concat_map {A} (f : A -> string) (l : list A) : string :=
  foldr (fun a acc => f a +:+ acc) "" l.

Definition quote (s : string) : string :=
  String dquote (concat_map escape_rune (runes s) +:+ String dquote "").

(** ** Integers *)

Definition digit (z : Z) : ascii := chr (48 + z).
Definition is_digit (c : ascii) : bool := in_range 48 57 (byte c).

Fixpoint print_digits (fuel : nat) (z : Z) (acc : string) : string :=
  match fuel with
  | O => acc
  | S k =>
      let acc' := String (digit (z mod 10)) acc in
      if z / 10 =? 0 then acc' else print_digits k (z / 10) acc'
  end.

(** [strconv.Itoa] for a 64-bit [int]: 19 digits suffice. *)
Definition print_int (z : Z) : string :=
  if z <? 0 then String "-" (print_digits 20 (- z) "") else print_digits 20 z "".

Fixpoint span_digits (s : string) : string * string :=
  match s with
  | String c s' =>
      if is_digit c then let '(d, r) := span_digits s' in (String c d, r) else ("", s)
  | "" => ("", "")
  end.

Fixpoint eval_digits (acc : Z) (s : string) : Z :=
  match s with
  | String c s' => eval_digits (acc * 10 + (byte c - 48)) s'
  | "" => acc
  end.

(** [strconv.ParseInt(lit, 10, 64)] *)
Definition parse_int64 (lit : string) : option Z :=
  let '(neg, body) :=
    match lit with
    | String c s => if byte c =? 45 then (true, s) else if byte c =? 43 then (false, s) else (false, lit)
    | "" => (false, "")
    end in
  let '(d, r) := span_digits body in
  if String.eqb d "" || negb (String.eqb r "") then None
  else let z := if neg then - eval_digits 0 d else eval_digits 0 d in
       if bool_decide (in_int64 z) then Some z else None.

(** ** Decoding *)

#[local] Set Warnings "-register-all".
Inductive json :=
| JNull
| JBool (b : bool)
| JNum (lit : string)
| JStr (s : string)
| JArr (l : list json)
| JObj (l : list (string * json)).

Definition hex_value (c : ascii) : option Z :=
  let b := byte c in
  if in_range 48 57 b then Some (b - 48)
  else if in_range 97 102 b then Some (b - 87)
  else if in_range 65 70 b then Some (b - 55)
  else None.

(** Four hexadecimal digits ([getu4] after the backslash and the u). *)
Definition getu4 (s : string) : option (Z * string) :=
  match s with
  | String a (String b (String c (String d rest))) =>
      match hex_value a, hex_value b, hex_value c, hex_value d with
      | Some a, Some b, Some c, Some d => Some (((a * 16 + b) * 16 + c) * 16 + d, rest)
      | _, _, _, _ => None
      end
  | _ => None
  end.

Definition simple_escape (c : ascii) : option ascii :=
  let b := byte c in
  if (b =? 34) || (b =? 92) || (b =? 47) then Some c
  else if b =? 98 then Some (chr 8) else if b =? 102 then Some (chr 12)
  else if b =? 110 then Some (chr 10) else if b =? 114 then Some (chr 13)
  else if b =? 116 then Some (chr 9) else None.

Definition is_surrogate (cp : Z) : bool := in_range 55296 57343 cp.

(** [utf16.DecodeRune], [None] for an invalid pair. *)
Definition utf16_decode (r1 r2 : Z) : option Z :=
  if in_range 55296 56319 r1 && in_range 56320 57343 r2
  then Some ((r1 - 55296) * 1024 + (r2 - 56320) + 65536) else None.

(** The rune of a unicode escape whose first unit is [cp], and what is left. *)
Definition unicode_escape (cp : Z) (rest : string) : string * string :=
  if is_surrogate cp then
    match rest with
    | String b (String u rest') =>
        if (byte b =? 92) && (byte u =? 117) then
          match getu4 rest' with
          | Some (cp2, rest'') =>
              match utf16_decode cp cp2 with
              | Some full => (encode_rune full, rest'')
              | None => (replacement, rest)
              end
          | None => (replacement, rest)
          end
        else (replacement, rest)
    | _ => (replacement, rest)
    end
  else (encode_rune cp, rest).

(** A string literal after its opening quote: the unquoted bytes and the rest. *)
Fixpoint parse_string (fuel : nat) (s : string) : option (string * string) :=
  match fuel, s with
  | S k, String c s' =>
      let prepend (p : string) (r : option (string * string)) :=
        match r with Some (t, rest) => Some (p +:+ t, rest) | None => None end in
      if byte c =? 34 then Some ("", s')
      else if byte c =? 92 then
        match s' with
        | String e s2 =>
            match simple_escape e with
            | Some d => prepend (String d "") (parse_string k s2)
            | None =>
                if byte e =? 117 then
                  match getu4 s2 with
                  | Some (cp, s3) =>
                      let '(r, s4) := unicode_escape cp s3 in prepend r (parse_string k s4)
                  | None => None
                  end
                else None
            end
        | "" => None
        end
      else if byte c <? 32 then None
      else if byte c <? 128 then prepend (String c "") (parse_string k s')
      else match next_rune s with
           | Some (r, rest) => prepend r (parse_string k rest)
           | None => prepend replacement (parse_string k s')
           end
  | _, _ => None
  end.

Definition is_space (c : ascii) : bool :=
  (byte c =? 32) || (byte c =? 9) || (byte c =? 13) || (byte c =? 10).

Fixpoint skip_space (s : string) : string :=
  match s with String c s' => if is_space c then skip_space s' else s | "" => "" end.

(** A number literal of the JSON grammar. *)
Definition parse_frac (s : string) : option (string * string) :=
  match s with
  | String "." s' =>
      let '(d, r) := span_digits s' in
      if String.eqb d "" then None else Some (String "." d, r)
  | _ => Some ("", s)
  end.
Definition parse_exp (s : string) : option (string * string) :=
  match s with
  | String e s' =>
      if (byte e =? 101) || (byte e =? 69) then
        let '(sg, s2) := match s' with
          | String c t => if (byte c =? 43) || (byte c =? 45) then (String c "", t) else ("", s')
          | "" => ("", "") end in
        let '(d, r) := span_digits s2 in
        if String.eqb d "" then None else Some (String e (sg +:+ d), r)
      else Some ("", s)
  | "" => Some ("", "")
  end.
Definition parse_int_part (s : string) : string * string :=
  match s with String "0" t => ("0", t) | _ => span_digits s end.
Definition parse_number (s : string) : option (string * string) :=
  let '(sg, s1) := match s with
    | String c t => if byte c =? 45 then (String c "", t) else ("", s) | "" => ("", "") end in
  let '(i, s2) := parse_int_part s1 in
  if String.eqb i "" then None else
  match parse_frac s2 with
  | Some (f, s3) =>
      match parse_exp s3 with
      | Some (e, s4) => Some (sg +:+ i +:+ f +:+ e, s4)
      | None => None
      end
  | None => None
  end.

Definition strip (p s : string) : option string :=
  if String.prefix p s then Some (String.substring (String.length p) (String.length s - String.length p) s) else None.

(** The decoder refuses more than 10000 nested arrays and objects. *)
Definition maxNestingDepth : Z := 10000.

(** The elements of an array and the members of an object, up to and including
    the closing bracket, given the parser of a nested value. *)
Section Nested.
Variable pv : string -> option (json * string).

Fixpoint parse_elements (n : nat) (s : string) : option (list json * string) :=
  match n with
  | O => None
  | S n =>
    match pv s with
    | None => None
    | Some (v, s1) =>
      match skip_space s1 with
      | String "," s2 =>
        match parse_elements n s2 with Some (vs, s3) => Some (v :: vs, s3) | None => None end
      | String "]" s2 => Some ([v], s2)
      | _ => None
      end
    end
  end.

Fixpoint parse_members (n : nat) (s : string) : option (list (string * json) * string) :=
  match n, skip_space s with
  | S n, String c s0 =>
    if byte c =? 34 then
      match parse_string (String.length s0) s0 with
      | None => None
      | Some (key, s1) =>
        match skip_space s1 with
        | String ":" s2 =>
          match pv s2 with
          | None => None
          | Some (v, s3) =>
            match skip_space s3 with
            | String "," s4 =>
              match parse_members n s4 with
              | Some (kvs, s5) => Some ((key, v) :: kvs, s5) | None => None end
            | String "}" s4 => Some ([(key, v)], s4)
            | _ => None
            end
          end
        | _ => None
        end
      end
    else None
  | _, _ => None
  end.
End Nested.

(** One JSON value (leading space skipped), with the rest of the input. *)
Fixpoint parse_value (fuel : nat) (depth : Z) (s : string) : option (json * string) :=
  match fuel with
  | O => None
  | S k =>
    match skip_space s with
    | "" => None
    | String c s' =>
      if byte c =? 123 then
        if maxNestingDepth <=? depth then None else
        match skip_space s' with
        | String "}" r => Some (JObj [], r)
        | r => match parse_members (parse_value k (depth + 1)) k r with Some (kvs, r') => Some (JObj kvs, r') | None => None end
        end
      else if byte c =? 91 then
        if maxNestingDepth <=? depth then None else
        match skip_space s' with
        | String "]" r => Some (JArr [], r)
        | r => match parse_elements (parse_value k (depth + 1)) k r with Some (vs, r') => Some (JArr vs, r') | None => None end
        end
      else if byte c =? 34 then
        match parse_string (String.length s') s' with Some (t, r) => Some (JStr t, r) | None => None end
      else if (byte c =? 45) || is_digit c then
        match parse_number (String c s') with Some (t, r) => Some (JNum t, r) | None => None end
      else match strip "true" (String c s'), strip "false" (String c s'), strip "null" (String c s') with
        | Some r, _, _ => Some (JBool true, r)
        | _, Some r, _ => Some (JBool false, r)
        | _, _, Some r => Some (JNull, r)
        | _, _, _ => None
        end
    end
  end.

(** [json.NewDecoder(r).Decode]: the first value; what follows is not read. *)
Definition decode_first (data : string) : option json :=
  match parse_value (S (String.length data)) 0 data with Some (v, _) => Some v | None => None end.

(** [json.Unmarshal]: the whole input is one value. *)
Definition decode_all (data : string) : option json :=
  match parse_value (S (String.length data)) 0 data with
  | Some (v, rest) => if String.eqb (skip_space rest) "" then Some v else None
  | None => None
  end.

(** ** Structs *)

Inductive fval := FStr (s : string) | FInt (z : Z) | FStrs (l : list string).

Global Instance fval_eq_dec : EqDecision fval.
Proof. solve_decision. Defined.

(** A struct field: its JSON name, [omitempty], and its zero value. *)
Record field := { f_json : string; f_omitempty : bool; f_zero : fval }.

Definition fval_kind_eqb (a b : fval) : bool :=
  match a, b with FStr _, FStr _ | FInt _, FInt _ | FStrs _, FStrs _ => true | _, _ => false end.

Definition fval_empty (v : fval) : bool :=
  match v with FStr s => String.eqb s "" | FInt z => z =? 0 | FStrs l => bool_decide (l = []) end.

Fixpoint join (sep : string) (l : list string) : string :=
  match l with
  | [] => ""
  | [x] => x
  | x :: l => x +:+ sep +:+ join sep l
  end.

Definition encode_fval (v : fval) : string :=
  match v with
  | FStr s => quote s
  | FInt z => print_int z
  | FStrs l => "[" +:+ join "," (map quote l) +:+ "]"
  end.

(** The members [json.Marshal] writes: fields in order, empty ones with
    [omitempty] left out. *)
Definition encode_members (fs : list field) (vs : list fval) : list (string * fval) :=
  map (fun fv => (f_json (fst fv), snd fv))
    (List.filter (fun fv => negb (f_omitempty (fst fv) && fval_empty (snd fv))) (zip fs vs)).

Definition encode_member (kv : string * fval) : string :=
  quote (fst kv) +:+ ":" +:+ encode_fval (snd kv).

Definition encode_struct (fs : list field) (vs : list fval) : string :=
  "{" +:+ join "," (map encode_member (encode_members fs vs)) +:+ "}".

(** Case folding of a member name: ASCII letters to upper case, and the two
    non-ASCII runes that fold to ASCII letters (U+017F to S, U+212A to K). *)
Definition upper (c : ascii) : ascii := if in_range 97 122 (byte c) then chr (byte c - 32) else c.
Definition lower (c : ascii) : ascii := if in_range 65 90 (byte c) then chr (byte c + 32) else c.
Definition fold_rune (r : rune) : string :=
  match r with
  | RAscii c => String (upper c) ""
  | RMulti s =>
      if String.eqb s (encode_rune 383) then "S"
      else if String.eqb s (encode_rune 8490) then "K" else s
  | RBad => replacement
  end.
Definition fold_name (s : string) : string := concat_map fold_rune (runes s).

Fixpoint find_index {A} (p : A -> bool) (l : list A) : option nat :=
  match l with
  | [] => None
  | x :: l => if p x then Some O else S <$> find_index p l
  end.

(** The field a member name denotes: an exact match, else a folded one. *)
Definition lookup_field (fs : list field) (key : string) : option nat :=
  match find_index (fun f => String.eqb (f_json f) key) fs with
  | Some i => Some i
  | None => find_index (fun f => String.eqb (fold_name (f_json f)) (fold_name key)) fs
  end.

(** Elements of a [[]string]: a null keeps what the slot holds. *)
Fixpoint decode_strings (old : list string) (l : list json) : option (list string) :=
  match l with
  | [] => Some []
  | v :: l =>
      let prev := default "" (head old) in
      match (match v with JStr s => Some s | JNull => Some prev | _ => None end),
            decode_strings (tail old) l with
      | Some s, Some ss => Some (s :: ss)
      | _, _ => None
      end
  end.

(** Decode a value into a slot; [None] is an UnmarshalTypeError. *)
Definition decode_fval (old : fval) (v : json) : option fval :=
  match old, v with
  | FStr _, JStr s => Some (FStr s)
  | FInt _, JNum lit => FInt <$> parse_int64 lit
  | FStrs l, JArr vs => FStrs <$> decode_strings l vs
  | FStrs _, JNull => Some (FStrs [])
  | _, JNull => Some old
  | _, _ => None
  end.

(** The members in order, later ones overwriting earlier ones.  An unknown
    member is an error when [strict] ([DisallowUnknownFields]), else skipped. *)
Fixpoint decode_members (strict : bool) (fs : list field) (cur : list fval)
    (kvs : list (string * json)) : option (list fval) :=
  match kvs with
  | [] => Some cur
  | (key, v) :: kvs =>
      match lookup_field fs key with
      | None => if strict then None else decode_members strict fs cur kvs
      | Some i =>
          match cur !! i with
          | None => None
          | Some old =>
              match decode_fval old v with
              | None => None
              | Some new => decode_members strict fs (<[i := new]> cur) kvs
              end
          end
      end
  end.

(** Decode into a zero struct.  JSON null leaves it zero. *)
Definition decode_struct (strict : bool) (fs : list field) (v : json) : option (list fval) :=
  match v with
  | JObj kvs => decode_members strict fs (map f_zero fs) kvs
  | JNull => Some (map f_zero fs)
  | _ => None
  end.

Example decode_example :
  let fs := [{| f_json := "tag"; f_omitempty := false; f_zero := FStr "" |};
             {| f_json := "n"; f_omitempty := false; f_zero := FInt 0 |};
             {| f_json := "e"; f_omitempty := true; f_zero := FStrs [] |}] in
  (decode_first (encode_struct fs [FStr ("v1<" +:+ String dquote ""); FInt (-120); FStrs ["x"; "y"]])
     ≫= decode_struct true fs)
  = Some [FStr ("v1<" +:+ String dquote ""); FInt (-120); FStrs ["x"; "y"]].
Proof. vm_compute. reflexivity. Qed.
