(* ===== verification/JsonFacts.v ===== *)
(** * Round trip of the JSON model

    What [encode_struct] writes, [decode_first] followed by [decode_struct]
    reads back, for structs whose strings are valid UTF-8 and whose integers
    fit an [int]. *)

From S2P Require Import Prelude Json.
From Stdlib Require Import Ascii.

Open Scope string_scope.
Open Scope list_scope.
Open Scope Z_scope.

#[local] Arguments next_rune : simpl never.
#[local] Arguments parse_int_part : simpl never.
#[local] Arguments replacement : simpl never.

Definition rune_bytes (r : rune) : string :=
  match r with RAscii c => String c "" | RMulti s => s | RBad => "" end.

(** A rune as [runes] produces it. *)
Definition rune_good (r : rune) : Prop :=
  match r with
  | RAscii c => byte c < 128
  | RMulti s => (exists c t, s = String c t /\ 128 <= byte c) /\ forall t, next_rune (s +:+ t) = Some (s, t)
  | RBad => False
  end.

Lemma next_rune_spec s r rest :
  next_rune s = Some (r, rest) ->
  s = r +:+ rest /\ forall t, next_rune (r +:+ t) = Some (r, t).
Proof.
  unfold next_rune. intros Hn.
  repeat (case_match; try discriminate); simplify_eq; split; try done; intros t; simpl;
    repeat match goal with E : _ = _ :> bool |- _ => rewrite E; clear E end; done.
Qed.


Lemma runes_fuel_valid fuel s :
  (String.length s <= fuel)%nat -> forallb rune_ok (runes_fuel fuel s) = true ->
  Forall rune_good (runes_fuel fuel s) /\ s = concat_map rune_bytes (runes_fuel fuel s).
Proof.
  revert s. induction fuel as [|k IH]; intros [|c s] Hlen Hok; simpl in *; try lia; [by repeat constructor..|].
  destruct (Z.ltb_spec (byte c) 128) as [Hc|Hc]; simpl in *.
  - destruct (IH s) as [H1 H2]; [lia|done|]. split; [by constructor|congruence].
  - destruct (next_rune (String c s)) as [[r rest]|] eqn:Hn; simpl in *; [|done].
    pose proof Hn as Hn'. apply next_rune_spec in Hn as [Heq Hall].
    assert (exists t, r = String c t) as [t ->].
    { unfold next_rune in Hn'. repeat (case_match; try discriminate); simplify_eq; eauto. }
    simpl in Heq. simplify_eq.
    autorewrite with str in Hlen.
    destruct (IH rest) as [H1 H2]; [lia|done|]. split.
    + constructor; [|done]. split; [eauto|done].
    + simpl. by rewrite <- H2.
Qed.

Lemma valid_utf8_runes s :
  valid_utf8 s = true -> Forall rune_good (runes s) /\ s = concat_map rune_bytes (runes s).
Proof. intros. by apply runes_fuel_valid. Qed.

(** Runes written one after another are valid text. *)
Lemma good_runes_valid rs k :
  Forall rune_good rs -> (String.length (concat_map rune_bytes rs) <= k)%nat ->
  forallb rune_ok (runes_fuel k (concat_map rune_bytes rs)) = true.
Proof.
  intros Hg. revert k. induction Hg as [|r rs Hr _ IH]; intros k Hk; [by destruct k|]. simpl in *.
  autorewrite with str in Hk. destruct r as [c|s|]; [| |done].
  - destruct k as [|k]; simpl in *; [lia|]. unfold rune_good in Hr. destruct (Z.ltb_spec (byte c) 128); [|lia]. simpl.
    apply IH. lia.
  - destruct Hr as [(c & t & -> & Hc) Hn]. destruct k as [|k]; simpl in *; [lia|].
    destruct (Z.ltb_spec (byte c) 128); [lia|]. specialize (Hn (concat_map rune_bytes rs)). simpl in Hn. rewrite Hn. simpl.
    apply IH. lia.
Qed.

Lemma concat_map_app {A} (f : A -> string) l1 l2 : concat_map f (l1 ++ l2) = concat_map f l1 +:+ concat_map f l2.
Proof. induction l1 as [|x l1 IH]; simpl; [done|]. by rewrite IH, string_app_assoc. Qed.

Lemma valid_utf8_app s t : valid_utf8 s = true -> valid_utf8 t = true -> valid_utf8 (s +:+ t) = true.
Proof.
  intros [Hs Es]%valid_utf8_runes [Ht Et]%valid_utf8_runes. unfold valid_utf8, runes.
  rewrite Es at 2. rewrite Et at 2. rewrite <- concat_map_app. apply good_runes_valid; [by apply Forall_app|].
  rewrite concat_map_app. by rewrite <- Es, <- Et.
Qed.

Definition prepend (p : string) (r : option (string * string)) : option (string * string) :=
  match r with Some (t, rest) => Some (p +:+ t, rest) | None => None end.

Lemma parse_escape_ascii k c t :
  byte c < 128 ->
  parse_string (S k) (escape_ascii c +:+ t) = prepend (String c "") (parse_string k t).
Proof.
  destruct c as [[] [] [] [] [] [] [] []]; intros Hc; try (by exfalso; revert Hc);
    vm_compute in Hc; try discriminate Hc; reflexivity.
Qed.

Lemma parse_escape_multi k s t :
  rune_good (RMulti s) ->
  parse_string (S k) (escape_rune (RMulti s) +:+ t) = prepend s (parse_string k t).
Proof.
  intros [(c & s' & -> & Hc) Hn]. unfold escape_rune.
  destruct (String.eqb_spec (String c s') line_sep) as [->|_]; [reflexivity|].
  destruct (String.eqb_spec (String c s') para_sep) as [->|_]; [reflexivity|].
  specialize (Hn t).
  cbn [parse_string String.append]. cbn [String.append] in Hn. rewrite Hn.
  rewrite (proj2 (Z.eqb_neq (byte c) 34)) by lia.
  rewrite (proj2 (Z.eqb_neq (byte c) 92)) by lia.
  rewrite (proj2 (Z.ltb_ge (byte c) 32)) by lia.
  rewrite (proj2 (Z.ltb_ge (byte c) 128)) by lia. done.
Qed.

Lemma parse_escape_runes rs k t :
  Forall rune_good rs ->
  parse_string (length rs + k) (concat_map escape_rune rs +:+ t) =
  prepend (concat_map rune_bytes rs) (parse_string k t).
Proof.
  induction 1 as [|r rs Hr _ IH].
  - simpl. by destruct (parse_string k t) as [[]|].
  - change (parse_string (S (length rs + k)) ((escape_rune r +:+ concat_map escape_rune rs) +:+ t) =
      prepend (rune_bytes r +:+ concat_map rune_bytes rs) (parse_string k t)).
    rewrite string_app_assoc.
    assert (forall u, parse_string (S (length rs + k)) (escape_rune r +:+ u)
                      = prepend (rune_bytes r) (parse_string (length rs + k) u)) as ->.
    { intros u. destruct r as [c|s|]; [by apply parse_escape_ascii|by apply parse_escape_multi|done]. }
    rewrite IH. destruct (parse_string k t) as [[]|]; simpl; [|done].
    by autorewrite with str.
Qed.

(** More fuel than needed changes nothing. *)
Lemma parse_string_mono k k' s r :
  parse_string k s = Some r -> (k <= k')%nat -> parse_string k' s = Some r.
Proof.
  revert k' s r. induction k as [|k IH]; intros [|k'] s r Hp Hle; try done; [lia|].
  simpl in *. destruct s as [|c s']; [done|].
  assert (forall p u r, prepend p (parse_string k u) = Some r ->
                        prepend p (parse_string k' u) = Some r) as Hpre.
  { intros p u r' Hu. destruct (parse_string k u) as [x|] eqn:E; [|done].
    rewrite (IH k' _ _ E) by lia. done. }
  revert Hp. unfold prepend in Hpre.
  destruct (byte c =? 34); [done|]. destruct (byte c =? 92).
  - destruct s' as [|e s2]; [done|]. destruct (simple_escape e) as [d|]; [exact (Hpre (String d "") _ _)|].
    destruct (byte e =? 117); [|done]. destruct (getu4 s2) as [[cp s3]|]; [|done].
    destruct (unicode_escape cp s3). apply Hpre.
  - destruct (byte c <? 32); [done|]. destruct (byte c <? 128); [exact (Hpre (String c "") _ _)|].
    destruct (next_rune (String c s')) as [[]|]; [apply Hpre|exact (Hpre replacement _ _)].
Qed.

(** Every rune takes at least one byte, escaped or not. *)
Lemma length_escape_runes rs :
  Forall rune_good rs -> (length rs <= String.length (concat_map escape_rune rs))%nat.
Proof.
  induction 1 as [|r rs Hr _ IH]; simpl; [lia|].
  rewrite string_length_app.
  cut (1 <= String.length (escape_rune r))%nat; [lia|].
  destruct r as [c|s|]; simpl in Hr; [| |done].
  - unfold escape_rune, escape_ascii. repeat case_match; simpl; lia.
  - destruct Hr as [(c & t & -> & _) _]. unfold escape_rune. repeat case_match; simpl; lia.
Qed.

(** [quote] then [parse_string] is the identity on valid UTF-8. *)
Lemma parse_quote s t :
  valid_utf8 s = true ->
  exists body, quote s +:+ t = String dquote body /\
    parse_string (String.length body) body = Some (s, t).
Proof.
  intros [Hg Hs]%valid_utf8_runes. unfold quote. simpl.
  eexists. split; [done|].
  rewrite string_app_assoc. simpl.
  apply parse_string_mono with (length (runes s) + 1)%nat.
  - rewrite parse_escape_runes by done. simpl. rewrite <- Hs. by autorewrite with str.
  - rewrite string_length_app. pose proof (length_escape_runes _ Hg). simpl. lia.
Qed.

(** ** Integers *)

Lemma byte_digit z : 0 <= z < 10 -> byte (digit z) = 48 + z.
Proof.
  intros Hz. unfold byte, digit, chr. rewrite N_ascii_embedding; lia.
Qed.

Lemma print_digits_spec fuel z acc :
  0 <= z < 10 ^ Z.of_nat fuel -> (0 < fuel)%nat ->
  exists d, print_digits fuel z acc = d +:+ acc /\
    (exists c d', d = String c d' /\ is_digit c = true /\ (z <> 0 -> c <> "0"%char) /\ (z = 0 -> d = "0")) /\
    (forall t, span_digits (d +:+ t) = (d +:+ fst (span_digits t), snd (span_digits t))) /\
    (forall a, exists p, 0 <= p /\ eval_digits a d = a * 10 ^ p + z).
Proof.
  revert z acc. induction fuel as [|k IH]; intros z acc Hz Hf; [lia|].
  assert (0 <= z mod 10 < 10) as Hmod by (apply Z.mod_pos_bound; lia).
  pose proof (Z.div_mod z 10 ltac:(lia)) as Hdm.
  assert (is_digit (digit (z mod 10)) = true) as Hdig.
  { unfold is_digit, in_range. rewrite byte_digit by done. lia. }
  simpl. destruct (Z.eqb_spec (z / 10) 0) as [H0|H0].
  - exists (String (digit (z mod 10)) ""). split_and!; [done| | |].
    + assert (z = z mod 10) as Hz10 by lia. rewrite <- Hz10 in *.
      eexists _, _. split_and!; [done|done| |by intros ->].
      intros Hnz Heq. apply (f_equal byte) in Heq. rewrite byte_digit in Heq by done.
      change (byte "0") with 48 in Heq. lia.
    + intros t. simpl. rewrite Hdig. by destruct (span_digits t).
    + intros a. exists 1. split; [lia|]. simpl. rewrite byte_digit by done. lia.
  - assert (0 <= z / 10 < 10 ^ Z.of_nat k).
    { rewrite Nat2Z.inj_succ, Z.pow_succ_r in Hz by lia. split; [apply Z.div_pos; lia|].
      apply Z.div_lt_upper_bound; lia. }
    destruct (decide (k = 0%nat)) as [->|Hk]; [simpl in *; lia|].
    destruct (IH (z / 10) (String (digit (z mod 10)) acc)) as (d & -> & Hne & Hspan & Heval); [done|lia|].
    exists (d +:+ String (digit (z mod 10)) ""). split_and!.
    + by autorewrite with str.
    + destruct Hne as (c & d' & -> & Hc & Hnz & _). eexists _, _. split_and!; [done|done|auto|lia].
    + intros t. rewrite string_app_assoc, Hspan. simpl. rewrite Hdig.
      destruct (span_digits t); simpl. by autorewrite with str.
    + intros a. destruct (Heval a) as (p & Hp & He).
      assert (forall s a b, eval_digits a (s +:+ String b "") = eval_digits a s * 10 + (byte b - 48)) as Happ.
      { induction s as [|c s IHs]; intros a' b; simpl; [done|apply IHs]. }
      exists (p + 1). split; [lia|]. rewrite Happ, He, byte_digit by done.
      rewrite Z.pow_add_r by lia. lia.
Qed.

Definition delim (t : string) : Prop :=
  match t with "" => True | String c _ => c = ","%char \/ c = "]"%char \/ c = "}"%char end.

Lemma span_digits_delim t : delim t -> span_digits t = ("", t).
Proof. destruct t as [|c t]; [done|]. by intros [-> | [-> | ->]]. Qed.

Lemma parse_frac_exp_delim t : delim t -> parse_frac t = Some ("", t) /\ parse_exp t = Some ("", t).
Proof. destruct t as [|c t]; [done|]. by intros [-> | [-> | ->]]. Qed.

Lemma match_zero_ne {T} c s (x : string -> T) (y : T) :
  c <> "0"%char -> match String c s with String "0" t => x t | _ => y end = y.
Proof. destruct c as [[] [] [] [] [] [] [] []]; done. Qed.

(** The digits of a natural number below 10^20, scanned and evaluated. *)
Lemma scan_digits_spec z :
  0 <= z < 10 ^ 20 ->
  exists c d, print_digits 20 z "" = String c d /\ is_digit c = true /\
    span_digits (String c d) = (String c d, "") /\ eval_digits 0 (String c d) = z /\
    forall t, delim t ->
      parse_int_part (String c (d +:+ t)) = (String c d, t).
Proof.
  intros Hz. destruct (print_digits_spec 20 z "" Hz ltac:(lia)) as (d0 & -> & Hhd & Hspan & Heval).
  rewrite string_app_nil_r. destruct Hhd as (c & d & -> & Hc & Hnz & Hz0).
  exists c, d. split_and!; [done|done| | |].
  - specialize (Hspan ""). rewrite string_app_nil_r in Hspan. simpl in Hspan.
    by rewrite string_app_nil_r in Hspan.
  - destruct (Heval 0) as (p & _ & ->). lia.
  - intros t Ht. destruct (decide (z = 0)) as [H0|H0].
    + specialize (Hz0 H0). by simplify_eq.
    + unfold parse_int_part. rewrite match_zero_ne by auto. specialize (Hspan t).
      rewrite (span_digits_delim t Ht) in Hspan. simpl in Hspan.
      by rewrite string_app_nil_r in Hspan.
Qed.

Lemma is_digit_not_sign c : is_digit c = true -> (byte c =? 45) = false /\ (byte c =? 43) = false.
Proof. unfold is_digit, in_range. lia. Qed.

Lemma parse_number_print z t :
  in_int64 z -> delim t -> parse_number (print_int z +:+ t) = Some (print_int z, t).
Proof.
  intros Hz Ht. unfold in_int64, two63 in Hz. unfold print_int.
  destruct (parse_frac_exp_delim t Ht) as [Hf He].
  destruct (Z.ltb_spec z 0) as [Hneg|Hpos].
  - destruct (scan_digits_spec (- z)) as (c & d & -> & Hc & _ & _ & Hscan); [lia|].
    unfold parse_number. simpl. rewrite Hscan by done. simpl.
    rewrite Hf, He. simpl. by rewrite string_app_nil_r.
  - destruct (scan_digits_spec z) as (c & d & -> & Hc & _ & _ & Hscan); [lia|].
    destruct (is_digit_not_sign c Hc) as [H45 _].
    unfold parse_number. simpl. rewrite H45, Hscan by done.
    simpl. rewrite Hf, He. by rewrite !string_app_nil_r.
Qed.

Lemma parse_int64_print z : in_int64 z -> parse_int64 (print_int z) = Some z.
Proof.
  intros Hz. assert (- two63 <= z < two63) as Hz' by done. unfold two63 in Hz'. unfold print_int.
  destruct (Z.ltb_spec z 0) as [Hneg|Hpos].
  - destruct (scan_digits_spec (- z)) as (c & d & -> & Hc & Hsp & Hev & _); [lia|].
    unfold parse_int64. cbv beta iota. change (byte "-" =? 45) with true. cbv iota.
    rewrite Hsp. simpl String.eqb. cbv iota beta. rewrite Hev. simpl.
    rewrite Z.opp_involutive. by rewrite bool_decide_eq_true_2.
  - destruct (scan_digits_spec z) as (c & d & -> & Hc & Hsp & Hev & _); [lia|].
    destruct (is_digit_not_sign c Hc) as [H45 H43].
    unfold parse_int64. rewrite H45, H43, Hsp. simpl String.eqb. cbv iota beta. rewrite Hev. simpl.
    by rewrite bool_decide_eq_true_2.
Qed.

(** ** Values *)

Definition fval_ok (v : fval) : bool :=
  match v with
  | FStr s => valid_utf8 s
  | FInt z => bool_decide (in_int64 z)
  | FStrs l => forallb valid_utf8 l
  end.

(** What the parser makes of an encoded field value. *)
Definition fval_json (v : fval) : json :=
  match v with
  | FStr s => JStr s
  | FInt z => JNum (print_int z)
  | FStrs l => JArr (map JStr l)
  end.

#[local] Arguments parse_string : simpl never.
#[local] Arguments parse_number : simpl never.

Lemma parse_value_quote k d s t :
  valid_utf8 s = true -> parse_value (S k) d (quote s +:+ t) = Some (JStr s, t).
Proof.
  intros Hs. destruct (parse_quote s t Hs) as (body & -> & Hp). simpl. by rewrite Hp.
Qed.

Lemma print_int_head z : in_int64 z ->
  exists c s, print_int z = String c s /\ ((byte c =? 45) || is_digit c) = true.
Proof.
  intros Hz. unfold in_int64, two63 in Hz. unfold print_int. destruct (Z.ltb_spec z 0).
  - eexists _, _. split; [done|done].
  - destruct (scan_digits_spec z) as (c & d & -> & Hc & _); [lia|].
    exists c, d. split; [done|]. rewrite Hc. by rewrite orb_true_r.
Qed.

Lemma number_head c : ((byte c =? 45) || is_digit c) = true ->
  is_space c = false /\ (byte c =? 123) = false /\ (byte c =? 91) = false /\ (byte c =? 34) = false.
Proof. unfold is_digit, in_range, is_space. lia. Qed.

Lemma parse_value_int k d z t :
  in_int64 z -> delim t -> parse_value (S k) d (print_int z +:+ t) = Some (JNum (print_int z), t).
Proof.
  intros Hz Ht. pose proof (parse_number_print z t Hz Ht) as Hp.
  destruct (print_int_head z Hz) as (c & s & Heq & Hc). rewrite Heq in *.
  destruct (number_head c Hc) as (H1 & H2 & H3 & H4). simpl in *.
  rewrite H1, H2, H3, H4, Hc, Hp. done.
Qed.

Lemma parse_elements_quote (pv : string -> option (json * string)) l n t :
  (forall s u, s ∈ l -> pv (quote s +:+ u) = Some (JStr s, u)) ->
  l <> [] -> (length l <= n)%nat ->
  parse_elements pv n (join "," (map quote l) +:+ "]" +:+ t) = Some (map JStr l, t).
Proof.
  intros Hpv. revert n. induction l as [|s l IH]; intros [|n] Hne Hn; simpl in Hn; try lia; [done..|].
  destruct l as [|s' l].
  - cbn [parse_elements join map]. rewrite Hpv by set_solver. done.
  - change (join "," (map quote (s :: s' :: l))) with (quote s +:+ "," +:+ join "," (map quote (s' :: l))).
    rewrite !string_app_assoc. cbn [parse_elements].
    rewrite Hpv by set_solver. simpl skip_space. cbv iota.
    rewrite IH; [done|set_solver|done|simpl in *; lia].
Qed.

Lemma join_quote_head l t : l <> [] ->
  exists body, join "," (map quote l) +:+ t = String dquote body.
Proof. destruct l as [|s [|s' l]]; [done| |]; intros _; simpl; eauto. Qed.

Lemma length_join l : (length l <= String.length (join "," (map quote l)))%nat.
Proof.
  induction l as [|s l IH]; [simpl; lia|]. destruct l as [|s' l]; [unfold quote; simpl; lia|].
  change (join "," (map quote (s :: s' :: l))) with (quote s +:+ "," +:+ join "," (map quote (s' :: l))).
  rewrite !string_length_app. simpl in *. lia.
Qed.

Lemma parse_value_fval k v t :
  fval_ok v = true -> delim t -> (String.length (encode_fval v) <= k)%nat ->
  parse_value (S k) 1 (encode_fval v +:+ t) = Some (fval_json v, t).
Proof.
  intros Hok Ht Hk. destruct v as [s|z|l]; simpl in Hok.
  - by apply parse_value_quote.
  - apply parse_value_int; [|done]. by apply bool_decide_eq_true in Hok.
  - unfold encode_fval in *. rewrite !string_length_app in Hk. simpl in Hk.
    destruct (decide (l = [])) as [->|Hne]; [done|].
    destruct (join_quote_head l ("]" +:+ t) Hne) as [body Hb].
    pose proof (length_join l) as Hl. destruct k as [|k]; [lia|].
    assert (parse_elements (parse_value (S k) 2) (S k) (String dquote body) = Some (map JStr l, t)) as He.
    { rewrite <- Hb. apply parse_elements_quote; [|done|lia]. intros s u Hs. apply parse_value_quote.
      rewrite forallb_forall in Hok. by apply Hok, list_elem_of_In. }
    rewrite !string_app_assoc, Hb. revert He. generalize (S k). intros n He.
    change (match parse_elements (parse_value n 2) n (String dquote body) with
            | Some (vs, r') => Some (JArr vs, r') | None => None end = Some (JArr (map JStr l), t)).
    by rewrite He.
Qed.

(** ** Structs *)

Lemma encode_fval_head v : fval_ok v = true ->
  exists c s, encode_fval v = String c s.
Proof.
  destruct v as [s|z|l]; simpl; [by eauto| |by eauto].
  intros Hz%bool_decide_eq_true. destruct (print_int_head z Hz) as (c & s & -> & _). eauto.
Qed.

Lemma parse_members_encode kvs k n t :
  Forall (fun kv => valid_utf8 (fst kv) = true /\ fval_ok (snd kv) = true /\
                    (String.length (encode_fval (snd kv)) <= k)%nat) kvs ->
  kvs <> [] -> (length kvs <= n)%nat ->
  parse_members (parse_value (S k) 1) n (join "," (map encode_member kvs) +:+ "}" +:+ t)
  = Some (map (fun kv => (fst kv, fval_json (snd kv))) kvs, t).
Proof.
  intros Hall. revert n. induction Hall as [|[key v] kvs (Hkey & Hv & Hlen) Hall IH];
    intros [|n] Hne Hn; simpl in Hn; try lia; [done..|].
  simpl fst in *. simpl snd in *.
  assert (forall u, delim u -> exists body,
    encode_member (key, v) +:+ u = String dquote body /\
    exists u', parse_string (String.length body) body = Some (key, String ":" u') /\
      parse_value (S k) 1 u' = Some (fval_json v, u)) as Hm.
  { intros u Hu. unfold encode_member. simpl fst. simpl snd.
    destruct (parse_quote key (":" +:+ encode_fval v +:+ u) Hkey) as (body & Hq & Hp).
    exists body. rewrite !string_app_assoc, Hq. split; [done|].
    exists (encode_fval v +:+ u). split; [done|]. by apply parse_value_fval. }
  destruct kvs as [|kv' kvs].
  - cbn [map join]. destruct (Hm ("}" +:+ t)) as (body & -> & u' & Hp & Hpv); [simpl; auto|].
    cbn [parse_members]. simpl skip_space. cbv iota beta.
    change (byte dquote =? 34) with true. cbv iota. rewrite Hp. simpl skip_space. cbv iota.
    rewrite Hpv. done.
  - change (join "," (map encode_member ((key, v) :: kv' :: kvs)))
      with (encode_member (key, v) +:+ "," +:+ join "," (map encode_member (kv' :: kvs))).
    rewrite !string_app_assoc.
    destruct (Hm ("," +:+ join "," (map encode_member (kv' :: kvs)) +:+ "}" +:+ t))
      as (body & -> & u' & Hp & Hpv); [simpl; auto|].
    cbn [parse_members]. simpl skip_space. cbv iota beta.
    change (byte dquote =? 34) with true. cbv iota. rewrite Hp. simpl skip_space. cbv iota.
    rewrite Hpv. cbn [skip_space String.append]. change (is_space ",") with false. cbv iota.
    rewrite IH; [done|done|simpl in *; lia].
Qed.

(** A struct type: distinct member names, zero values that are empty. *)
Definition schema_ok (fs : list field) : bool :=
  forallb (fun f => valid_utf8 (f_json f) && fval_empty (f_zero f)) fs &&
  bool_decide (NoDup (map f_json fs)).

(** A value of it: one value of the right kind per field. *)
Definition struct_ok (fs : list field) (vs : list fval) : Prop :=
  Forall2 (fun f v => fval_kind_eqb (f_zero f) v = true /\ fval_ok v = true) fs vs.

Lemma decode_strings_quote old l : decode_strings old (map JStr l) = Some l.
Proof. revert old. induction l as [|s l IH]; intros old; simpl; [done|]. by rewrite IH. Qed.

Lemma decode_fval_json zero v :
  fval_kind_eqb zero v = true -> fval_ok v = true -> decode_fval zero (fval_json v) = Some v.
Proof.
  destruct zero, v; simpl; try done; intros _ Hok.
  - apply bool_decide_eq_true in Hok. by rewrite parse_int64_print.
  - by rewrite decode_strings_quote.
Qed.

Lemma fval_empty_eq a b :
  fval_kind_eqb a b = true -> fval_empty a = true -> fval_empty b = true -> a = b.
Proof.
  destruct a, b; simpl; try done; intros _.
  - intros ->%String.eqb_eq ->%String.eqb_eq. done.
  - intros ->%Z.eqb_eq ->%Z.eqb_eq. done.
  - intros ->%bool_decide_eq_true ->%bool_decide_eq_true. done.
Qed.

Lemma find_index_exact (f : field) fs1 fs2 :
  f_json f ∉ map f_json fs1 ->
  find_index (fun g => String.eqb (f_json g) (f_json f)) (fs1 ++ f :: fs2) = Some (length fs1).
Proof.
  induction fs1 as [|g fs1 IH]; simpl; intros Hni.
  - by rewrite String.eqb_refl.
  - apply not_elem_of_cons in Hni as [Hne Hni].
    destruct (String.eqb_spec (f_json g) (f_json f)) as [Heq|_]; [congruence|].
    by rewrite IH.
Qed.

Lemma decode_members_encode strict fs1 fs2 vs1 vs2 :
  NoDup (map f_json (fs1 ++ fs2)) -> length fs1 = length vs1 ->
  Forall (fun f => fval_empty (f_zero f) = true) fs2 -> struct_ok fs2 vs2 ->
  decode_members strict (fs1 ++ fs2) (vs1 ++ map f_zero fs2)
    (map (fun kv => (fst kv, fval_json (snd kv))) (encode_members fs2 vs2))
  = Some (vs1 ++ vs2).
Proof.
  intros Hnd Hlen Hz Hok. revert fs1 vs1 Hnd Hlen.
  induction Hok as [|f v fs2 vs2 [Hk Hv] Hok IH]; intros fs1 vs1 Hnd Hlen; [by simpl|].
  inversion Hz as [|? ? Hzf Hz']; subst.
  assert (f_json f ∉ map f_json fs1) as Hni.
  { rewrite map_app, NoDup_app in Hnd. destruct Hnd as (_ & Hd & _).
    intros Hin. apply (Hd _ Hin). simpl. set_solver. }
  specialize (IH Hz' (fs1 ++ [f]) (vs1 ++ [v])). rewrite <- !app_assoc in IH. simpl in IH.
  specialize (IH Hnd ltac:(rewrite !length_app; simpl; lia)).
  unfold encode_members in *. simpl.
  destruct (f_omitempty f && fval_empty v) eqn:Hom; simpl.
  - apply andb_true_iff in Hom as [_ Hev]. rewrite (fval_empty_eq _ _ Hk Hzf Hev). done.
  - unfold lookup_field. rewrite find_index_exact by done.
    rewrite Hlen at 1. rewrite lookup_app_r, Nat.sub_diag by lia. simpl.
    rewrite decode_fval_json by done.
    rewrite Hlen, insert_app_r_alt, Nat.sub_diag by lia. done.
Qed.

(** The members [encode_members] writes are well formed. *)
Lemma encode_members_ok fs vs :
  schema_ok fs = true -> struct_ok fs vs ->
  Forall (fun kv => valid_utf8 (fst kv) = true /\ fval_ok (snd kv) = true) (encode_members fs vs).
Proof.
  intros [Hf _]%andb_true_iff Hok. rewrite forallb_forall in Hf.
  assert (Forall (fun f => valid_utf8 (f_json f) = true) fs) as Hu.
  { apply Forall_forall. intros f Hin%list_elem_of_In. by apply Hf, andb_true_iff in Hin as [? _]. }
  clear Hf. unfold encode_members.
  induction Hok as [|f v fs vs [_ Hv] Hok IH]; simpl; [constructor|].
  inversion Hu; subst. destruct (f_omitempty f && fval_empty v); simpl; [auto|].
  constructor; auto.
Qed.

Lemma length_join_in x l : x ∈ l -> (String.length x <= String.length (join "," l))%nat.
Proof.
  induction l as [|y l IH]; [set_solver|]. intros Hx.
  destruct l as [|z l].
  - simpl. apply list_elem_of_singleton in Hx as ->. done.
  - change (join "," (y :: z :: l)) with (y +:+ "," +:+ join "," (z :: l)).
    rewrite !string_length_app. apply elem_of_cons in Hx as [->|Hx]; [lia|]. specialize (IH Hx). lia.
Qed.

Lemma length_join_count l :
  Forall (fun x => (1 <= String.length x)%nat) l -> (length l <= String.length (join "," l))%nat.
Proof.
  induction 1 as [|y l Hy _ IH]; [simpl; lia|]. destruct l as [|z l]; [simpl in *; lia|].
  change (join "," (y :: z :: l)) with (y +:+ "," +:+ join "," (z :: l)).
  rewrite !string_length_app. simpl in *. lia.
Qed.

Lemma parse_encode_struct fs vs :
  schema_ok fs = true -> struct_ok fs vs ->
  parse_value (S (String.length (encode_struct fs vs))) 0 (encode_struct fs vs) =
  Some (JObj (map (fun kv => (fst kv, fval_json (snd kv))) (encode_members fs vs)), "").
Proof.
  intros Hs Hok. pose proof (encode_members_ok fs vs Hs Hok) as Hm.
  unfold encode_struct. set (kvs := encode_members fs vs) in *.
  destruct (decide (kvs = [])) as [->|Hne]; [done|].
  set (body := join "," (map encode_member kvs)).
  assert (1 <= String.length body)%nat as Hb1.
  { destruct kvs as [|[] kvs']; [done|]. pose proof (length_join_in (encode_member (s, f))
      (map encode_member ((s, f) :: kvs')) ltac:(simpl; set_solver)) as Hl.
    unfold body. etrans; [|exact Hl]. unfold encode_member, quote. simpl. lia. }
  rewrite !string_length_app. simpl String.length.
  replace (S (1 + (String.length body + 1))) with (S (S (S (String.length body)))) by lia.
  assert (parse_members (parse_value (S (S (String.length body))) 1) (S (S (String.length body)))
    (body +:+ "}" +:+ "") = Some (map (fun kv => (fst kv, fval_json (snd kv))) kvs, "")) as Hp.
  { apply parse_members_encode; [|done|].
    - apply Forall_forall. intros kv Hkv. rewrite Forall_forall in Hm.
      destruct (Hm _ Hkv). split_and!; [done..|].
      pose proof (length_join_in (encode_member kv) (map encode_member kvs)
        ltac:(apply list_elem_of_In, in_map, list_elem_of_In, Hkv)) as Hl.
      unfold encode_member in Hl at 1. rewrite !string_length_app in Hl. unfold body. lia.
    - pose proof (length_join_count (map encode_member kvs)) as Hl. rewrite length_map in Hl.
      unfold body. etrans; [apply Hl|lia].
      apply Forall_forall. intros x Hx. apply list_elem_of_In, in_map_iff in Hx as (kv & <- & _).
      unfold encode_member, quote. simpl. lia. }
  assert (exists b, body +:+ "}" +:+ "" = String dquote b) as [b Hb].
  { unfold body. destruct kvs as [|? [|? ?]]; [done| |]; simpl; eauto. }
  rewrite Hb in Hp. change ("}" +:+ "") with "}" in Hb. rewrite Hb.
  revert Hp. generalize (S (S (String.length body))). intros n Hp.
  change (match parse_members (parse_value n 1) n (String dquote b) with
          | Some (kvs, r') => Some (JObj kvs, r') | None => None end
     = Some (JObj (map (fun kv => (fst kv, fval_json (snd kv))) kvs), "")).
  by rewrite Hp.
Qed.

(** The round trips, through a [Decoder] and through [json.Unmarshal]. *)
Lemma struct_roundtrip strict fs vs :
  schema_ok fs = true -> struct_ok fs vs ->
  (decode_first (encode_struct fs vs) ≫= decode_struct strict fs) = Some vs /\
  (decode_all (encode_struct fs vs) ≫= decode_struct strict fs) = Some vs.
Proof.
  intros Hs Hok. unfold decode_first, decode_all. rewrite parse_encode_struct by done. simpl.
  apply andb_true_iff in Hs as [Hf Hnd]. apply bool_decide_eq_true in Hnd.
  enough (decode_members strict fs (map f_zero fs)
    (map (fun kv => (fst kv, fval_json (snd kv))) (encode_members fs vs)) = Some vs) by done.
  apply (decode_members_encode strict [] fs [] vs); [done|done| |done].
  rewrite forallb_forall in Hf. apply Forall_forall.
  intros f Hin%list_elem_of_In. by apply Hf, andb_true_iff in Hin as [_ ?].
Qed.
