(* ===== verification/RepoName.v ===== *)
(** * Repository names: [internal/shared/github/parse_repo.go]

    The pattern [^[A-Za-z0-9_.-]+/[A-Za-z0-9_.-]+$] (also the event
    validator's [reponame]) and [ParseRepo]. *)

From S2P Require Import Prelude GoErrors Json JsonFacts.
From Stdlib Require Import Ascii.

Open Scope string_scope.
Open Scope list_scope.
Open Scope Z_scope.

(** The class [[A-Za-z0-9_.-]]. *)
Definition repo_char (c : ascii) : bool :=
  in_range 65 90 (byte c) || in_range 97 122 (byte c) || in_range 48 57 (byte c) ||
  (byte c =? 95) || (byte c =? 46) || (byte c =? 45).

Definition slash : ascii := "/".

Fixpoint all_chars (p : ascii -> bool) (s : string) : bool :=
  match s with String c s => p c && all_chars p s | "" => true end.

(** [[class]+$]: at least one character, all in the class. *)
Definition class_plus (s : string) : bool := negb (String.eqb s "") && all_chars repo_char s.

(** The matcher, reading left to right: the owner part, the slash, the rest. *)
Fixpoint match_owner (seen : bool) (s : string) : bool :=
  match s with
  | "" => false
  | String c s' =>
      if repo_char c then match_owner true s'
      else seen && bool_decide (c = slash) && class_plus s'
  end.
Definition repoRegex (s : string) : bool := match_owner false s.

(** [strings.SplitN(s, "/", 2)] *)
Fixpoint split_slash (s : string) : string * option string :=
  match s with
  | "" => ("", None)
  | String c s' =>
      if bool_decide (c = slash) then ("", Some s')
      else let '(a, b) := split_slash s' in (String c a, b)
  end.
Definition SplitN2 (s : string) : list string :=
  match split_slash s with (a, None) => [a] | (a, Some b) => [a; b] end.

Definition ParseRepo (repo : string) : res (string * string) :=
  if negb (repoRegex repo) then Err (Sentinel ErrInvalidRepo)
  else match SplitN2 repo with
       | [owner; name] => Ok (owner, name)
       | _ => Err (ErrText "index out of range")
       end.

(** ** Correctness *)

Lemma repo_char_not_slash c : repo_char c = true -> c <> slash.
Proof. intros Hc ->. done. Qed.

Lemma all_chars_app p s t : all_chars p (s +:+ t) = all_chars p s && all_chars p t.
Proof. induction s as [|c s IH]; simpl; [done|]. by rewrite IH, andb_assoc. Qed.

Lemma match_owner_spec seen s :
  match_owner seen s = true <->
  exists o n, s = o +:+ String slash n /\ (seen = true \/ o <> "") /\
    all_chars repo_char o = true /\ class_plus n = true.
Proof.
  revert seen. induction s as [|c s IH]; intros seen; simpl.
  - split; [done|]. intros (o & n & He & _). by destruct o.
  - destruct (repo_char c) eqn:Hc.
    + rewrite IH. split.
      * intros (o & n & -> & _ & Ho & Hn). exists (String c o), n.
        split_and!; [done|by right| |done]. simpl. by rewrite Hc.
      * intros ([|c' o] & n & He & _ & Ho & Hn); simpl in He; simplify_eq; try done.
        exists o, n. simpl in Ho. apply andb_true_iff in Ho as [_ ?]. eauto.
    + rewrite !andb_true_iff, bool_decide_eq_true. split.
      * intros [[-> ->] Hn]. exists "", s. eauto.
      * intros ([|c' o] & n & He & Hs & Ho & Hn); simpl in He; simplify_eq; [|simpl in Ho; by rewrite Hc in Ho].
        destruct Hs; done.
Qed.

Lemma split_slash_owner o n :
  all_chars repo_char o = true -> split_slash (o +:+ String slash n) = (o, Some n).
Proof.
  induction o as [|c o IH]; simpl; intros Ho.
  - done.
  - apply andb_true_iff in Ho as [Hc Ho]. rewrite IH by done.
    rewrite bool_decide_eq_false_2; [done|]. by apply repo_char_not_slash.
Qed.

(** [ParseRepo] characterised: it accepts exactly [owner/name] with both parts
    non-empty and in the class, and returns them. *)
Lemma ParseRepo_iff repo owner name :
  ParseRepo repo = Ok (owner, name) <->
  repo = owner +:+ String slash name /\ class_plus owner = true /\ class_plus name = true.
Proof.
  unfold ParseRepo, repoRegex, SplitN2. split.
  - destruct (match_owner false repo) eqn:Hm; [|done]. simpl.
    apply match_owner_spec in Hm as (o & n & -> & [|Hne] & Ho & Hn); [done|].
    rewrite split_slash_owner by done. intros [= <- <-]. split_and!; [done| |done].
    unfold class_plus. rewrite Ho. by destruct o.
  - intros (-> & [Ho1 Ho2]%andb_true_iff & Hn).
    assert (match_owner false (owner +:+ String slash name) = true) as ->.
    { apply match_owner_spec. exists owner, name. split_and!; [done| |done|done].
      right. intros ->. done. }
    simpl. by rewrite split_slash_owner.
Qed.

Lemma repoRegex_iff s :
  repoRegex s = true <->
  exists o n, s = o +:+ String slash n /\ class_plus o = true /\ class_plus n = true.
Proof.
  unfold repoRegex. rewrite match_owner_spec. unfold class_plus at 2. split.
  - intros (o & n & -> & [|Hne] & Ho & Hn); [done|]. exists o, n. rewrite Ho. by destruct o.
  - intros (o & n & -> & [Ho1 Ho2]%andb_true_iff & Hn). exists o, n.
    split_and!; [done| |done|done]. right. by intros ->.
Qed.

(** [ParseRepo] fails only with [ErrInvalidRepo], and exactly when the pattern
    does not match: the slice index after [SplitN] is always in range. *)
Lemma ParseRepo_error repo e :
  ParseRepo repo = Err e -> e = Sentinel ErrInvalidRepo /\ repoRegex repo = false.
Proof.
  unfold ParseRepo. destruct (repoRegex repo) eqn:Hm; simpl; [|by intros [= <-]].
  apply repoRegex_iff in Hm as (o & n & -> & [_ Ho]%andb_true_iff & _).
  unfold SplitN2. by rewrite split_slash_owner.
Qed.
