(* ===== verification/Events.v ===== *)
(** * Domain events: [internal/shared/events]

    Streams, subjects and payloads ([events.go]), their JSON form and their
    validation ([marshal.go]).  The validator library's [uuid], [email] and
    [url] checks are parameters; [reponame] is the sources' own pattern. *)

From S2P Require Import Prelude GoErrors Json JsonFacts RepoName.

Open Scope string_scope.
Open Scope list_scope.
Open Scope Z_scope.

(** ** Streams and subjects *)

Definition StreamSubscriptions : string := "SUBSCRIPTIONS".
Definition StreamReleases : string := "RELEASES".
Definition StreamNotifications : string := "NOTIFICATIONS".
Definition StreamSagas : string := "SAGAS".

Definition SubjectSubscriptionPending : string := "subscriptions.pending".
Definition SubjectSubscriptionConfirmed : string := "subscriptions.confirmed".
Definition SubjectSubscriptionRemoved : string := "subscriptions.removed".
Definition SubjectSubscriptionExpired : string := "subscriptions.expired".
Definition SubjectReleaseDetected : string := "releases.detected".
Definition SubjectReleaseNotified : string := "releases.notified".
Definition SubjectNotificationConfirmationSent : string := "notifications.confirmation.sent".
Definition SubjectNotificationConfirmationFailed : string := "notifications.confirmation.failed".
Definition SubjectNotificationConfirmationDead : string := "notifications.confirmation.dead".
Definition SubjectNotificationReleaseSent : string := "notifications.release.sent".
Definition SubjectNotificationReleaseFailed : string := "notifications.release.failed".
Definition SubjectNotificationReleaseDead : string := "notifications.release.dead".
Definition SubjectSagaCompensate : string := "saga.compensate".

Definition SubjectsSubscriptions : list string :=
  [SubjectSubscriptionPending; SubjectSubscriptionConfirmed;
   SubjectSubscriptionRemoved; SubjectSubscriptionExpired].
Definition SubjectsReleases : list string := [SubjectReleaseDetected; SubjectReleaseNotified].
Definition SubjectsNotifications : list string :=
  [SubjectNotificationConfirmationSent; SubjectNotificationConfirmationFailed;
   SubjectNotificationConfirmationDead; SubjectNotificationReleaseSent;
   SubjectNotificationReleaseFailed; SubjectNotificationReleaseDead].
Definition SubjectsSagas : list string := [SubjectSagaCompensate].

(** ** Validation tags *)

(** The checks of go-playground/validator that the tags name. *)
Class Validators := {
  v_uuid : string -> bool;
  v_email : string -> bool;
  v_url : string -> bool;
}.

Inductive tag := Required | VUuid | VEmail | VRepoName | VUrl | VGte0 | VDiveEmail.

(** One tag on one field value.  [VDiveEmail] is [omitempty,dive,email]. *)
Definition check_tag `{Validators} (t : tag) (v : fval) : bool :=
  match t, v with
  | Required, v => negb (fval_empty v)
  | VUuid, FStr s => v_uuid s
  | VEmail, FStr s => v_email s
  | VRepoName, FStr s => repoRegex s
  | VUrl, FStr s => v_url s
  | VGte0, FInt z => 0 <=? z
  | VDiveEmail, FStrs l => forallb v_email l
  | _, _ => false
  end.

Record fieldspec := { fs_field : field; fs_tags : list tag }.

Definition fld (name : string) (omit : bool) (zero : fval) (tags : list tag) : fieldspec :=
  {| fs_field := {| f_json := name; f_omitempty := omit; f_zero := zero |}; fs_tags := tags |}.

(** A struct type that can be an event payload: its fields with their tags,
    and its values as the list of field values. *)
Class Event (T : Type) := {
  ev_type : string;
  ev_specs : list fieldspec;
  ev_values : T -> list fval;
  ev_build : list fval -> option T;
  ev_build_values : forall e, ev_build (ev_values e) = Some e;
  ev_schema_ok : schema_ok (map fs_field ev_specs) = true;
  ev_kinds : forall e, Forall2 (fun s v => fval_kind_eqb (f_zero (fs_field s)) v = true) ev_specs (ev_values e);
}.

#[local] Ltac solve_event :=
  first [ intros []; reflexivity | vm_compute; reflexivity | intros []; repeat constructor ].

(** ** Payloads *)

Record SubscriptionPending := {
  sp_SagaID : string;
  sp_Email : string;
  sp_RepoName : string;
  sp_ConfirmURL : string;
}.

Global Instance SubscriptionPending_eq_dec : EqDecision SubscriptionPending.
Proof. solve_decision. Defined.

#[export] Instance SubscriptionPending_event : Event SubscriptionPending := {|
  ev_type := "events.SubscriptionPending";
  ev_specs :=
    [fld "sagaID" false (FStr "") [Required; VUuid];
     fld "email" false (FStr "") [Required; VEmail];
     fld "repoName" false (FStr "") [Required; VRepoName];
     fld "confirmURL" false (FStr "") [Required; VUrl]];
  ev_values e := [FStr (sp_SagaID e); FStr (sp_Email e); FStr (sp_RepoName e); FStr (sp_ConfirmURL e)];
  ev_build vs := match vs with
    | [FStr x0; FStr x1; FStr x2; FStr x3] =>
        Some {| sp_SagaID := x0; sp_Email := x1; sp_RepoName := x2; sp_ConfirmURL := x3 |}
    | _ => None end;
  ev_build_values := ltac:(solve_event);
  ev_schema_ok := ltac:(solve_event);
  ev_kinds := ltac:(solve_event);
|}.

Record SubscriptionConfirmed := {
  sc_SagaID : string;
  sc_Email : string;
  sc_RepoName : string;
  sc_UnsubToken : string;
}.

Global Instance SubscriptionConfirmed_eq_dec : EqDecision SubscriptionConfirmed.
Proof. solve_decision. Defined.

#[export] Instance SubscriptionConfirmed_event : Event SubscriptionConfirmed := {|
  ev_type := "events.SubscriptionConfirmed";
  ev_specs :=
    [fld "sagaID" false (FStr "") [Required; VUuid];
     fld "email" false (FStr "") [Required; VEmail];
     fld "repoName" false (FStr "") [Required; VRepoName];
     fld "unsubToken" false (FStr "") [Required]];
  ev_values e := [FStr (sc_SagaID e); FStr (sc_Email e); FStr (sc_RepoName e); FStr (sc_UnsubToken e)];
  ev_build vs := match vs with
    | [FStr x0; FStr x1; FStr x2; FStr x3] =>
        Some {| sc_SagaID := x0; sc_Email := x1; sc_RepoName := x2; sc_UnsubToken := x3 |}
    | _ => None end;
  ev_build_values := ltac:(solve_event);
  ev_schema_ok := ltac:(solve_event);
  ev_kinds := ltac:(solve_event);
|}.

Record SubscriptionRemoved := {
  sr_SagaID : string;
  sr_Email : string;
  sr_RepoName : string;
}.

Global Instance SubscriptionRemoved_eq_dec : EqDecision SubscriptionRemoved.
Proof. solve_decision. Defined.

#[export] Instance SubscriptionRemoved_event : Event SubscriptionRemoved := {|
  ev_type := "events.SubscriptionRemoved";
  ev_specs :=
    [fld "sagaID" false (FStr "") [Required; VUuid];
     fld "email" false (FStr "") [Required; VEmail];
     fld "repoName" false (FStr "") [Required; VRepoName]];
  ev_values e := [FStr (sr_SagaID e); FStr (sr_Email e); FStr (sr_RepoName e)];
  ev_build vs := match vs with
    | [FStr x0; FStr x1; FStr x2] =>
        Some {| sr_SagaID := x0; sr_Email := x1; sr_RepoName := x2 |}
    | _ => None end;
  ev_build_values := ltac:(solve_event);
  ev_schema_ok := ltac:(solve_event);
  ev_kinds := ltac:(solve_event);
|}.

Record SubscriptionExpired := {
  se_SagaID : string;
  se_Email : string;
  se_RepoName : string;
}.

Global Instance SubscriptionExpired_eq_dec : EqDecision SubscriptionExpired.
Proof. solve_decision. Defined.

#[export] Instance SubscriptionExpired_event : Event SubscriptionExpired := {|
  ev_type := "events.SubscriptionExpired";
  ev_specs :=
    [fld "sagaID" false (FStr "") [Required; VUuid];
     fld "email" false (FStr "") [Required; VEmail];
     fld "repoName" false (FStr "") [Required; VRepoName]];
  ev_values e := [FStr (se_SagaID e); FStr (se_Email e); FStr (se_RepoName e)];
  ev_build vs := match vs with
    | [FStr x0; FStr x1; FStr x2] =>
        Some {| se_SagaID := x0; se_Email := x1; se_RepoName := x2 |}
    | _ => None end;
  ev_build_values := ltac:(solve_event);
  ev_schema_ok := ltac:(solve_event);
  ev_kinds := ltac:(solve_event);
|}.

Record ReleaseDetected := {
  rd_SagaID : string;
  rd_RepoName : string;
  rd_Tag : string;
  rd_ReleaseURL : string;
}.

Global Instance ReleaseDetected_eq_dec : EqDecision ReleaseDetected.
Proof. solve_decision. Defined.

#[export] Instance ReleaseDetected_event : Event ReleaseDetected := {|
  ev_type := "events.ReleaseDetected";
  ev_specs :=
    [fld "sagaID" false (FStr "") [Required; VUuid];
     fld "repoName" false (FStr "") [Required; VRepoName];
     fld "tag" false (FStr "") [Required];
     fld "releaseURL" false (FStr "") [Required; VUrl]];
  ev_values e := [FStr (rd_SagaID e); FStr (rd_RepoName e); FStr (rd_Tag e); FStr (rd_ReleaseURL e)];
  ev_build vs := match vs with
    | [FStr x0; FStr x1; FStr x2; FStr x3] =>
        Some {| rd_SagaID := x0; rd_RepoName := x1; rd_Tag := x2; rd_ReleaseURL := x3 |}
    | _ => None end;
  ev_build_values := ltac:(solve_event);
  ev_schema_ok := ltac:(solve_event);
  ev_kinds := ltac:(solve_event);
|}.

Record ReleaseNotified := {
  rn_SagaID : string;
  rn_RepoName : string;
  rn_Tag : string;
  rn_SentCount : Z;
  rn_FailedEmails : list string;
}.

Global Instance ReleaseNotified_eq_dec : EqDecision ReleaseNotified.
Proof. solve_decision. Defined.

#[export] Instance ReleaseNotified_event : Event ReleaseNotified := {|
  ev_type := "events.ReleaseNotified";
  ev_specs :=
    [fld "sagaID" false (FStr "") [Required; VUuid];
     fld "repoName" false (FStr "") [Required; VRepoName];
     fld "tag" false (FStr "") [Required];
     fld "sentCount" false (FInt 0) [VGte0];
     fld "failedEmails" true (FStrs []) [VDiveEmail]];
  ev_values e := [FStr (rn_SagaID e); FStr (rn_RepoName e); FStr (rn_Tag e); FInt (rn_SentCount e); FStrs (rn_FailedEmails e)];
  ev_build vs := match vs with
    | [FStr x0; FStr x1; FStr x2; FInt x3; FStrs x4] =>
        Some {| rn_SagaID := x0; rn_RepoName := x1; rn_Tag := x2; rn_SentCount := x3; rn_FailedEmails := x4 |}
    | _ => None end;
  ev_build_values := ltac:(solve_event);
  ev_schema_ok := ltac:(solve_event);
  ev_kinds := ltac:(solve_event);
|}.

Record NotificationConfirmationSent := {
  ncs_SagaID : string;
  ncs_Email : string;
}.

Global Instance NotificationConfirmationSent_eq_dec : EqDecision NotificationConfirmationSent.
Proof. solve_decision. Defined.

#[export] Instance NotificationConfirmationSent_event : Event NotificationConfirmationSent := {|
  ev_type := "events.NotificationConfirmationSent";
  ev_specs :=
    [fld "sagaID" false (FStr "") [Required; VUuid];
     fld "email" false (FStr "") [Required; VEmail]];
  ev_values e := [FStr (ncs_SagaID e); FStr (ncs_Email e)];
  ev_build vs := match vs with
    | [FStr x0; FStr x1] =>
        Some {| ncs_SagaID := x0; ncs_Email := x1 |}
    | _ => None end;
  ev_build_values := ltac:(solve_event);
  ev_schema_ok := ltac:(solve_event);
  ev_kinds := ltac:(solve_event);
|}.

Record NotificationConfirmationFailed := {
  ncf_SagaID : string;
  ncf_Email : string;
  ncf_Reason : string;
}.

Global Instance NotificationConfirmationFailed_eq_dec : EqDecision NotificationConfirmationFailed.
Proof. solve_decision. Defined.

#[export] Instance NotificationConfirmationFailed_event : Event NotificationConfirmationFailed := {|
  ev_type := "events.NotificationConfirmationFailed";
  ev_specs :=
    [fld "sagaID" false (FStr "") [Required; VUuid];
     fld "email" false (FStr "") [Required; VEmail];
     fld "reason" false (FStr "") [Required]];
  ev_values e := [FStr (ncf_SagaID e); FStr (ncf_Email e); FStr (ncf_Reason e)];
  ev_build vs := match vs with
    | [FStr x0; FStr x1; FStr x2] =>
        Some {| ncf_SagaID := x0; ncf_Email := x1; ncf_Reason := x2 |}
    | _ => None end;
  ev_build_values := ltac:(solve_event);
  ev_schema_ok := ltac:(solve_event);
  ev_kinds := ltac:(solve_event);
|}.

Record NotificationConfirmationDead := {
  ncd_SagaID : string;
  ncd_Email : string;
  ncd_Reason : string;
}.

Global Instance NotificationConfirmationDead_eq_dec : EqDecision NotificationConfirmationDead.
Proof. solve_decision. Defined.

#[export] Instance NotificationConfirmationDead_event : Event NotificationConfirmationDead := {|
  ev_type := "events.NotificationConfirmationDead";
  ev_specs :=
    [fld "sagaID" false (FStr "") [Required; VUuid];
     fld "email" false (FStr "") [Required; VEmail];
     fld "reason" false (FStr "") [Required]];
  ev_values e := [FStr (ncd_SagaID e); FStr (ncd_Email e); FStr (ncd_Reason e)];
  ev_build vs := match vs with
    | [FStr x0; FStr x1; FStr x2] =>
        Some {| ncd_SagaID := x0; ncd_Email := x1; ncd_Reason := x2 |}
    | _ => None end;
  ev_build_values := ltac:(solve_event);
  ev_schema_ok := ltac:(solve_event);
  ev_kinds := ltac:(solve_event);
|}.

Record NotificationReleaseSent := {
  nrs_SagaID : string;
  nrs_RepoName : string;
  nrs_Tag : string;
  nrs_Email : string;
}.

Global Instance NotificationReleaseSent_eq_dec : EqDecision NotificationReleaseSent.
Proof. solve_decision. Defined.

#[export] Instance NotificationReleaseSent_event : Event NotificationReleaseSent := {|
  ev_type := "events.NotificationReleaseSent";
  ev_specs :=
    [fld "sagaID" false (FStr "") [Required; VUuid];
     fld "repoName" false (FStr "") [Required; VRepoName];
     fld "tag" false (FStr "") [Required];
     fld "email" false (FStr "") [Required; VEmail]];
  ev_values e := [FStr (nrs_SagaID e); FStr (nrs_RepoName e); FStr (nrs_Tag e); FStr (nrs_Email e)];
  ev_build vs := match vs with
    | [FStr x0; FStr x1; FStr x2; FStr x3] =>
        Some {| nrs_SagaID := x0; nrs_RepoName := x1; nrs_Tag := x2; nrs_Email := x3 |}
    | _ => None end;
  ev_build_values := ltac:(solve_event);
  ev_schema_ok := ltac:(solve_event);
  ev_kinds := ltac:(solve_event);
|}.

Record NotificationReleaseFailed := {
  nrf_SagaID : string;
  nrf_RepoName : string;
  nrf_Tag : string;
  nrf_Email : string;
  nrf_Reason : string;
}.

Global Instance NotificationReleaseFailed_eq_dec : EqDecision NotificationReleaseFailed.
Proof. solve_decision. Defined.

#[export] Instance NotificationReleaseFailed_event : Event NotificationReleaseFailed := {|
  ev_type := "events.NotificationReleaseFailed";
  ev_specs :=
    [fld "sagaID" false (FStr "") [Required; VUuid];
     fld "repoName" false (FStr "") [Required; VRepoName];
     fld "tag" false (FStr "") [Required];
     fld "email" false (FStr "") [Required; VEmail];
     fld "reason" false (FStr "") [Required]];
  ev_values e := [FStr (nrf_SagaID e); FStr (nrf_RepoName e); FStr (nrf_Tag e); FStr (nrf_Email e); FStr (nrf_Reason e)];
  ev_build vs := match vs with
    | [FStr x0; FStr x1; FStr x2; FStr x3; FStr x4] =>
        Some {| nrf_SagaID := x0; nrf_RepoName := x1; nrf_Tag := x2; nrf_Email := x3; nrf_Reason := x4 |}
    | _ => None end;
  ev_build_values := ltac:(solve_event);
  ev_schema_ok := ltac:(solve_event);
  ev_kinds := ltac:(solve_event);
|}.

Record NotificationReleaseDead := {
  nrd_SagaID : string;
  nrd_RepoName : string;
  nrd_Tag : string;
  nrd_Email : string;
  nrd_Reason : string;
}.

Global Instance NotificationReleaseDead_eq_dec : EqDecision NotificationReleaseDead.
Proof. solve_decision. Defined.

#[export] Instance NotificationReleaseDead_event : Event NotificationReleaseDead := {|
  ev_type := "events.NotificationReleaseDead";
  ev_specs :=
    [fld "sagaID" false (FStr "") [Required; VUuid];
     fld "repoName" false (FStr "") [Required; VRepoName];
     fld "tag" false (FStr "") [Required];
     fld "email" false (FStr "") [Required; VEmail];
     fld "reason" false (FStr "") [Required]];
  ev_values e := [FStr (nrd_SagaID e); FStr (nrd_RepoName e); FStr (nrd_Tag e); FStr (nrd_Email e); FStr (nrd_Reason e)];
  ev_build vs := match vs with
    | [FStr x0; FStr x1; FStr x2; FStr x3; FStr x4] =>
        Some {| nrd_SagaID := x0; nrd_RepoName := x1; nrd_Tag := x2; nrd_Email := x3; nrd_Reason := x4 |}
    | _ => None end;
  ev_build_values := ltac:(solve_event);
  ev_schema_ok := ltac:(solve_event);
  ev_kinds := ltac:(solve_event);
|}.

Record SagaCompensate := {
  sgc_SagaID : string;
  sgc_SagaType : string;
  sgc_Email : string;
  sgc_RepoName : string;
}.

Global Instance SagaCompensate_eq_dec : EqDecision SagaCompensate.
Proof. solve_decision. Defined.

#[export] Instance SagaCompensate_event : Event SagaCompensate := {|
  ev_type := "events.SagaCompensate";
  ev_specs :=
    [fld "sagaID" false (FStr "") [Required; VUuid];
     fld "sagaType" false (FStr "") [Required];
     fld "email" false (FStr "") [Required; VEmail];
     fld "repoName" false (FStr "") [Required; VRepoName]];
  ev_values e := [FStr (sgc_SagaID e); FStr (sgc_SagaType e); FStr (sgc_Email e); FStr (sgc_RepoName e)];
  ev_build vs := match vs with
    | [FStr x0; FStr x1; FStr x2; FStr x3] =>
        Some {| sgc_SagaID := x0; sgc_SagaType := x1; sgc_Email := x2; sgc_RepoName := x3 |}
    | _ => None end;
  ev_build_values := ltac:(solve_event);
  ev_schema_ok := ltac:(solve_event);
  ev_kinds := ltac:(solve_event);
|}.

(** ** [marshal.go] *)

Section Marshal.
Context `{Validators} {T : Type} `{Event T}.

(** [eventValidator.Struct(e)] *)
Definition validate (e : T) : bool :=
  forallb (fun '(s, v) => forallb (fun t => check_tag t v) (fs_tags s)) (zip ev_specs (ev_values e)).

Definition ev_fields : list field := map fs_field ev_specs.

(** [json.Marshal(e)] *)
Definition encode_event (e : T) : string := encode_struct ev_fields (ev_values e).

Definition Marshal (e : T) : res string :=
  if validate e then Ok (encode_event e)
  else Err (Errorf ("validate event " +:+ ev_type) (ErrText "validation failed")).

Definition Unmarshal (data : string) : res T :=
  match (decode_first data ≫= decode_struct true ev_fields) ≫= ev_build with
  | None => Err (Errorf ("unmarshal event " +:+ ev_type) (ErrText "json error"))
  | Some e =>
      if validate e then Ok e
      else Err (Errorf ("validate event " +:+ ev_type) (ErrText "validation failed"))
  end.

(** The strings of the event survive JSON: valid UTF-8, and an [int]. *)
Definition encodable (e : T) : bool := forallb fval_ok (ev_values e).

Lemma event_struct_ok e : encodable e = true -> struct_ok ev_fields (ev_values e).
Proof.
  unfold encodable, struct_ok, ev_fields. intros Hok. pose proof (ev_kinds e) as Hk.
  induction Hk as [|s v ss vs Hk _ IH]; simpl in *; [constructor|].
  apply andb_true_iff in Hok as [? ?]. constructor; auto.
Qed.

Lemma Unmarshal_encode e :
  validate e = true -> encodable e = true ->
  Unmarshal (encode_event e) = Ok e.
Proof.
  intros Hv Hok. unfold Unmarshal, encode_event.
  destruct (struct_roundtrip true ev_fields (ev_values e) ev_schema_ok (event_struct_ok e Hok)) as [Hr _].
  rewrite Hr. simpl. rewrite ev_build_values. by rewrite Hv.
Qed.

Lemma Marshal_Ok e data :
  Marshal e = Ok data <-> validate e = true /\ data = encode_event e.
Proof. unfold Marshal. destruct (validate e); naive_solver. Qed.

Lemma Marshal_Unmarshal e data :
  encodable e = true -> Marshal e = Ok data -> Unmarshal data = Ok e.
Proof. intros Hok [Hv ->]%Marshal_Ok. by apply Unmarshal_encode. Qed.

Lemma Unmarshal_valid data e : Unmarshal data = Ok e -> validate e = true.
Proof. unfold Unmarshal. repeat case_match; naive_solver. Qed.
End Marshal.
