(* ===== verification/Uuid.v ===== *)
(** * UUIDs: the interface of github.com/google/uuid

    A [uuid.UUID] is its 16 bytes.  [Parse] and [String] belong to the library,
    so they are parameters; [UUIDLib] carries what the sources rely on:
    [String] prints a form that [Parse] reads back and that the validator's
    [uuid] tag accepts. *)

From S2P Require Import Prelude GoErrors Json JsonFacts Events.

Open Scope string_scope.
Open Scope list_scope.
Open Scope Z_scope.

Definition UUID : Type := string.

Definition is_uuid (u : UUID) : bool := (String.length u =? 16)%nat.

Class UUIDLib `{Validators} := {
  uuid_Parse : string -> string + UUID;
  uuid_String : UUID -> string;
  uuid_Parse_String : forall u, is_uuid u = true -> uuid_Parse (uuid_String u) = inr u;
  uuid_Parse_length : forall s u, uuid_Parse s = inr u -> is_uuid u = true;
  uuid_String_valid : forall u, is_uuid u = true -> v_uuid (uuid_String u) = true;
  uuid_String_nonempty : forall u, uuid_String u <> "";
  uuid_String_json : forall u, is_uuid u = true -> fval_ok (FStr (uuid_String u)) = true;
}.

(** [id, err := uuid.Parse(s)] with the error wrapped. *)
Definition parse_uuid `{UUIDLib} (pre s : string) : res UUID :=
  match uuid_Parse s with
  | inl msg => Err (Errorf pre (ErrText msg))
  | inr u => Ok u
  end.

(** ** Hexadecimal strings ([encoding/hex]) *)

(** [hex.EncodeToString] *)
Fixpoint hex_EncodeToString (s : string) : string :=
  match s with
  | EmptyString => ""
  | String c s =>
      String (hex_digit (byte c / 16)) (String (hex_digit (byte c mod 16)) (hex_EncodeToString s))
  end.

Fixpoint hex_decode (s : string) : option string :=
  match s with
  | EmptyString => Some ""
  | String a (String b s) =>
      match hex_value a, hex_value b, hex_decode s with
      | Some x, Some y, Some t => Some (String (chr (16 * x + y)) t)
      | _, _, _ => None
      end
  | _ => None
  end.

Lemma hex_byte c :
  hex_value (hex_digit (byte c / 16)) = Some (byte c / 16) /\
  hex_value (hex_digit (byte c mod 16)) = Some (byte c mod 16) /\
  chr (16 * (byte c / 16) + byte c mod 16) = c /\
  rune_ok (RAscii (hex_digit (byte c / 16))) = true /\
  byte (hex_digit (byte c / 16)) < 128 /\ byte (hex_digit (byte c mod 16)) < 128.
Proof. destruct c as [[] [] [] [] [] [] [] []]; by vm_compute. Qed.

(** Hex strings decode to the bytes they encode: encoding loses nothing. *)
Lemma hex_decode_encode s : hex_decode (hex_EncodeToString s) = Some s.
Proof.
  induction s as [|c s IH]; simpl; [done|].
  destruct (hex_byte c) as (-> & -> & Hc & _). by rewrite IH, Hc.
Qed.

Lemma hex_length s : String.length (hex_EncodeToString s) = (2 * String.length s)%nat.
Proof. induction s as [|c s IH]; simpl; [done|]. rewrite IH. lia. Qed.

Lemma valid_utf8_cons c s : byte c < 128 -> valid_utf8 (String c s) = valid_utf8 s.
Proof. intros Hc. unfold valid_utf8, runes. simpl. by destruct (Z.ltb_spec (byte c) 128); [|lia]. Qed.

Lemma hex_valid_utf8 s : valid_utf8 (hex_EncodeToString s) = true.
Proof.
  induction s as [|c s IH]; [done|]. simpl. destruct (hex_byte c) as (_ & _ & _ & _ & H1 & H2).
  by rewrite !valid_utf8_cons.
Qed.
