(* ===== verification/Libs.v ===== *)
(** * Interfaces of third-party libraries: pgx row collection and golang-jwt

    [PgxLib] is [pgx.RowToStructByName]: the row's columns and the struct's db
    tags must be the same names.  [JwtLib] signs and verifies HS256 tokens.
    The laws state what the libraries document. *)

From S2P Require Import Prelude GoErrors Json JsonFacts.

Open Scope string_scope.
Open Scope list_scope.
Open Scope Z_scope.

(** ** pgx *)

Class PgxLib := {
  (** [None]: every column has its field and every field its column. *)
  row_to_struct_by_name : list string -> list string -> option string;
  by_name_match : forall cols tags, cols ≡ₚ tags -> row_to_struct_by_name cols tags = None;
  by_name_missing : forall cols tags t, t ∈ tags -> t ∉ cols ->
    is_Some (row_to_struct_by_name cols tags);
}.

Section Collect.
Context {P : PgxLib} {A : Type}.

(** [pgx.CollectRows(rows, pgx.RowToStructByName[T])] on the rows of a query
    with columns [cols]: the conversion is tried on each row, so an empty
    result never fails. *)
Definition CollectRows (cols tags : list string) (rows : list A) : res (list A) :=
  match rows, row_to_struct_by_name cols tags with
  | [], _ => Ok []
  | _, None => Ok rows
  | _, Some msg => Err (ErrText msg)
  end.

Lemma CollectRows_match cols tags rows : cols ≡ₚ tags -> CollectRows cols tags rows = Ok rows.
Proof. intros Hp. unfold CollectRows. rewrite by_name_match by done. by destruct rows. Qed.

(** [pgx.CollectExactlyOneRow] *)
Definition CollectExactlyOneRow (cols tags : list string) (rows : list A) : res A :=
  match rows with
  | [] => Err (Sentinel pgx_ErrNoRows)
  | r :: rest =>
      match row_to_struct_by_name cols tags with
      | Some msg => Err (ErrText msg)
      | None => match rest with [] => Ok r | _ => Err (ErrText "too many rows in result set") end
      end
  end.
End Collect.

#[export] Instance simple_pgx : PgxLib.
Proof.
  refine {| row_to_struct_by_name cols tags :=
              if bool_decide (tags ⊆ cols) then None else Some "struct doesn't have corresponding row field" |}.
  - intros cols tags Hp. rewrite bool_decide_eq_true_2; [done|]. intros x. by rewrite Hp.
  - intros cols tags t Ht Hn. rewrite bool_decide_eq_false_2; [by eexists|]. intros Hs. by apply Hn, Hs.
Defined.

(** ** JWT *)

(** [jwtClaims] with its registered claims, times in whole seconds. *)
Record jwtClaims := {
  jc_Repo : string;
  jc_Subject : string;
  jc_IssuedAt : Z;
  jc_ExpiresAt : Z;
}.

Global Instance jwtClaims_eq_dec : EqDecision jwtClaims.
Proof. solve_decision. Defined.

Definition claims_utf8 (c : jwtClaims) : bool := valid_utf8 (jc_Repo c) && valid_utf8 (jc_Subject c).

Class JwtLib := {
  (** [jwt.NewWithClaims(HS256, claims).SignedString(secret)] *)
  jwt_Sign : string -> jwtClaims -> string + string;
  (** [jwt.ParseWithClaims] restricted to HS256, at time [now] in nanoseconds. *)
  jwt_Parse : string -> Z -> string -> error + jwtClaims;
  (** A signed token verifies with the same secret strictly before it expires. *)
  jwt_Parse_Sign : forall secret c tok now,
    jwt_Sign secret c = inr tok -> claims_utf8 c = true -> now < jc_ExpiresAt c * 1000000000 ->
    jwt_Parse secret now tok = inr c;
  (** From its expiry on it is refused as expired. *)
  jwt_Parse_expired : forall secret c tok now,
    jwt_Sign secret c = inr tok -> claims_utf8 c = true -> jc_ExpiresAt c * 1000000000 <= now ->
    exists e, jwt_Parse secret now tok = inl e /\ errors_Is e jwt_ErrTokenExpired = true;
}.
