(* ===== verification/Concrete.v ===== *)
(** * Concrete instances of the library interfaces

    Simple functions that satisfy [Validators], [UUIDLib] and [JwtLib], for evaluating
    the models on concrete inputs. *)

From Stdlib Require Import Ascii.
From S2P Require Import Prelude GoErrors Json JsonFacts Events Uuid Libs.

Open Scope string_scope.
Open Scope list_scope.
Open Scope Z_scope.

Fixpoint has_char (c : Ascii.ascii) (s : string) : bool :=
  match s with
  | EmptyString => false
  | String a s => Ascii.eqb a c || has_char c s
  end.

(** The hexadecimal form of 16 bytes. *)
Definition simple_v_uuid (s : string) : bool :=
  match hex_decode s with Some u => is_uuid u && String.eqb (hex_EncodeToString u) s | None => false end.

#[export] Instance simple_validators : Validators := {|
  v_uuid := simple_v_uuid;
  v_email s := has_char "@"%char s;
  v_url s := has_char ":"%char s;
|}.

Definition simple_uuid_Parse (s : string) : string + UUID :=
  match hex_decode s with
  | Some u => if is_uuid u then inr u else inl "invalid UUID length"
  | None => inl "invalid UUID format"
  end.

#[export] Instance simple_uuid : UUIDLib.
Proof.
  refine {| uuid_Parse := simple_uuid_Parse; uuid_String u := if is_uuid u then hex_EncodeToString u else "-" |}.
  - intros u Hu. rewrite Hu. unfold simple_uuid_Parse. by rewrite hex_decode_encode, Hu.
  - intros s u. unfold simple_uuid_Parse. destruct (hex_decode s) as [u'|]; [|done].
    destruct (is_uuid u') eqn:Hu; congruence.
  - intros u Hu. rewrite Hu. unfold v_uuid, simple_validators, simple_v_uuid.
    by rewrite hex_decode_encode, Hu, String.eqb_refl.
  - intros u. destruct (is_uuid u) eqn:Hu; [|done]. unfold is_uuid in Hu. by destruct u.
  - intros u Hu. rewrite Hu. apply hex_valid_utf8.
Defined.

Lemma simple_uuid_inv s : v_uuid s = true -> exists u, is_uuid u = true /\ s = hex_EncodeToString u.
Proof.
  unfold v_uuid. simpl. unfold simple_v_uuid. destruct (hex_decode s) as [u|]; [|done].
  intros [Hu <-%String.eqb_eq]%andb_true_iff. by exists u.
Qed.

Lemma simple_uuid_utf8 s : v_uuid s = true -> valid_utf8 s = true.
Proof. intros (u & _ & ->)%simple_uuid_inv. apply hex_valid_utf8. Qed.

Lemma simple_uuid_parses s : v_uuid s = true -> exists u, uuid_Parse s = inr u.
Proof.
  intros (u & Hu & ->)%simple_uuid_inv. exists u. simpl. unfold simple_uuid_Parse. by rewrite hex_decode_encode, Hu.
Qed.

(** A token is the secret and the claims, in hexadecimal. *)
Fixpoint strip_prefix (p s : string) : option string :=
  match p, s with
  | EmptyString, _ => Some s
  | String a p, String b s => if Ascii.eqb a b then strip_prefix p s else None
  | _, _ => None
  end.

Lemma strip_prefix_app p s : strip_prefix p (p +:+ s) = Some s.
Proof. induction p as [|a p IH]; simpl; [by destruct s|]. by rewrite Ascii.eqb_refl. Qed.

Definition claim_fields : list field :=
  [{| f_json := "repo"; f_omitempty := false; f_zero := FStr "" |};
   {| f_json := "sub"; f_omitempty := false; f_zero := FStr "" |};
   {| f_json := "iat"; f_omitempty := false; f_zero := FInt 0 |};
   {| f_json := "exp"; f_omitempty := false; f_zero := FInt 0 |}].

Definition claim_values (c : jwtClaims) : list fval :=
  [FStr (jc_Repo c); FStr (jc_Subject c); FInt (jc_IssuedAt c); FInt (jc_ExpiresAt c)].

Definition simple_Sign (secret : string) (c : jwtClaims) : string + string :=
  if bool_decide (in_int64 (jc_IssuedAt c)) && bool_decide (in_int64 (jc_ExpiresAt c))
  then inr (hex_EncodeToString (secret +:+ encode_struct claim_fields (claim_values c))) else inl "time out of range".

Definition simple_Parse (secret : string) (now : Z) (tok : string) : error + jwtClaims :=
  match ((hex_decode tok ≫= strip_prefix secret) ≫= decode_all) ≫= decode_struct false claim_fields with
  | Some [FStr repo; FStr sub; FInt iat; FInt exp] =>
      if now <? exp * 1000000000
      then inr {| jc_Repo := repo; jc_Subject := sub; jc_IssuedAt := iat; jc_ExpiresAt := exp |}
      else inl (Sentinel jwt_ErrTokenExpired)
  | _ => inl (ErrText "token is malformed")
  end.

Lemma simple_Parse_Sign secret c tok now :
  simple_Sign secret c = inr tok -> claims_utf8 c = true ->
  simple_Parse secret now tok =
    if now <? jc_ExpiresAt c * 1000000000 then inr c else inl (Sentinel jwt_ErrTokenExpired).
Proof.
  unfold simple_Sign. destruct (_ && _) eqn:Hb; [|done]. intros [= <-] [Hr Hs]%andb_true_iff.
  apply andb_true_iff in Hb as [Hi He]. unfold simple_Parse. rewrite hex_decode_encode. simpl. rewrite strip_prefix_app. simpl.
  destruct (struct_roundtrip false claim_fields (claim_values c)) as [_ Hrt];
    [done|repeat constructor; done|]. simpl in Hrt. rewrite Hrt. by destruct c.
Qed.

Lemma simple_Sign_utf8 secret c tok : simple_Sign secret c = inr tok -> valid_utf8 tok = true.
Proof. unfold simple_Sign. destruct (_ && _); [|done]. intros [= <-]. apply hex_valid_utf8. Qed.

#[export] Instance simple_jwt : JwtLib.
Proof.
  refine {| jwt_Sign := simple_Sign; jwt_Parse := simple_Parse |}.
  - intros secret c tok now Hs Hu Hn. rewrite (simple_Parse_Sign secret c) by done.
    by destruct (Z.ltb_spec now (jc_ExpiresAt c * 1000000000)); [|lia].
  - intros secret c tok now Hs Hu Hn. rewrite (simple_Parse_Sign secret c) by done.
    destruct (Z.ltb_spec now (jc_ExpiresAt c * 1000000000)); [lia|]. by eexists.
Defined.
