(* ===== verification/Broker.v ===== *)
(** * The event bus: [internal/infrastructure/broker/broker.go]

    Publishing a message and acknowledging a consumed one.  [BusPublisher] is
    the interface the outbox relay and the scanner's publisher rely on. *)

From S2P Require Import Prelude GoErrors Effects Wp.

Open Scope string_scope.
Open Scope list_scope.
Open Scope Z_scope.

Definition Terminal (err : error) : error := Wrap2 (Sentinel ErrTerminal) err.

Definition maxDeliver : Z := 5.
Definition ackWait : Z := 90 * 1000000000.

(** [type Handler func(ctx, data) error] *)
Definition Handler (D : Type) : Type := Ctx -> string -> M D unit.

(** What the broker is told about a delivered message. *)
Inductive AckKind := Ack | Term | Nak.

Global Instance AckKind_eq_dec : EqDecision AckKind.
Proof. solve_decision. Defined.

Section Broker.
Context {D : Type} `{Env}.

(** [(c *Conn) Publish] *)
Definition Conn_Publish (ctx : Ctx) (subject data : string) : M D unit :=
  r ← oracle env_publish;
  _ ← emit (XPublish subject data (match r with None => true | Some _ => false end));
  match r with
  | Some msg => fail (Errorf ("publish to " +:+ fmt_q subject) (ErrText msg))
  | None => mret tt
  end.

(** [(c *Conn) dispatch]: the handler's result decides the acknowledgement. *)
Definition dispatch (ctx : Ctx) (handler : Handler D) (data : string) : M D AckKind :=
  r ← attempt (handler ctx data);
  match r with
  | Ok _ => mret Ack
  | Err e => if errors_Is e ErrTerminal then mret Term else mret Nak
  end.

(** The handler asks for redelivery. *)
Definition retryable {A} (r : res A) : bool :=
  match r with Ok _ => false | Err e => negb (errors_Is e ErrTerminal) end.

Lemma wp_dispatch ctx (handler : Handler D) data (Q : res unit -> World D -> Prop) w :
  wp (handler ctx data) Q w ->
  wp (dispatch ctx handler data) (fun a w' => exists r ack, Q r w' /\ a = Ok ack /\ (ack = Nak <-> retryable r = true)) w.
Proof.
  intros Hh. unfold dispatch. wp_steps. eapply wp_mono; [|exact Hh]. intros [a|e] w' Hq; simpl.
  - wp_steps. by exists (Ok a), Ack.
  - destruct (errors_Is e ErrTerminal) eqn:Ht; wp_steps; eexists (Err e), _; (split_and!; [done..|]);
      unfold retryable; by rewrite Ht.
Qed.
End Broker.

(** ** The publisher interface *)

(** A publisher leaves the database alone, asks the bus for exactly one
    publication and reports whether it was accepted. *)
Class BusPublisher (D : Type) := {
  Publish : Ctx -> string -> string -> M D unit;
  Publish_spec : forall ctx subject data w,
    wp (Publish ctx subject data) (fun r w' =>
      w_db w' = w_db w /\ w_tx w' = w_tx w /\ w_txnow w' = w_txnow w /\ w_seq w' = w_seq w /\
      w_nudge w' = w_nudge w /\
      w_trace w' = w_trace w ++ [XPublish subject data (is_ok r)]) w;
}.

Section Instances.
Context {D : Type} `{Env}.

Lemma Conn_Publish_spec ctx subject data (w : World D) :
  wp (Conn_Publish ctx subject data) (fun r w' =>
    w_db w' = w_db w /\ w_tx w' = w_tx w /\ w_txnow w' = w_txnow w /\ w_seq w' = w_seq w /\
    w_nudge w' = w_nudge w /\
    w_trace w' = w_trace w ++ [XPublish subject data (is_ok r)]) w.
Proof. unfold Conn_Publish. wp_steps. destruct (env_publish (w_tick w)); wp_steps; done. Qed.

#[export] Instance Conn_BusPublisher : BusPublisher D :=
  {| Publish := Conn_Publish; Publish_spec := Conn_Publish_spec |}.
End Instances.
