(* ===== verification/Delivery.v ===== *)
(** * Deliveries: what [broker.go] asks of a JetStream consumer

    [Consume] creates a durable consumer of one subject with explicit
    acknowledgement, one message outstanding and a limit of deliveries.  The bus
    hands such a consumer its messages in stream order, each again and again until
    it is settled or the limit is reached; a message that reaches the limit is
    given up.  An acknowledgement may get lost: [ack] only logs that it could not
    be sent.  The bus of this file is what JetStream documents of that
    configuration; [dispatch] is the code's. *)

From S2P Require Import Prelude GoErrors Effects Wp Broker.

Open Scope string_scope.
Open Scope list_scope.
Open Scope Z_scope.

(** The [jetstream.ConsumerConfig] that [Consume] sends. *)
Record ConsumerConfig := {
  cc_Durable : string;
  cc_FilterSubject : string;
  cc_AckWait : Z;
  cc_MaxAckPending : Z;
  cc_MaxDeliver : Z;
}.

Definition consumer_config (durable subject : string) : ConsumerConfig := {|
  cc_Durable := durable; cc_FilterSubject := subject; cc_AckWait := ackWait;
  cc_MaxAckPending := 1; cc_MaxDeliver := maxDeliver |}.

(** The message is settled: the handler's verdict is final, and the bus has
    heard of it. *)
Definition settles (a : AckKind) (heard : bool) : bool := heard && negb (bool_decide (a = Nak)).

Lemma settles_final a heard : settles a heard = true -> a <> Nak.
Proof. by destruct a, heard. Qed.

Lemma settles_nak heard : settles Nak heard = false.
Proof. by destruct heard. Qed.

(** What has become of a message: its deliveries, and whether it was settled;
    otherwise it was given up. *)
Record Outcome := { oc_deliveries : nat; oc_settled : bool }.

(** At most [n] deliveries, and given up only after that many. *)
Definition within_limit (n : nat) (o : Outcome) : Prop :=
  (oc_deliveries o <= n)%nat /\ (oc_settled o = true -> 0 < oc_deliveries o)%nat /\
  (oc_settled o = false -> oc_deliveries o = n).

Section Deliveries.
Context {D : Type} {E : Env}.
(** Whether the bus hears the acknowledgement that is sent at this time. *)
Variable heard : nat -> bool.

Definition delivery (ctx : Ctx) (handler : Handler D) (data : string) : M D bool :=
  a ← dispatch ctx handler data;
  h ← oracle heard;
  mret (settles a h).

(** At most [n] more deliveries of one message. *)
Fixpoint deliveries (n : nat) (ctx : Ctx) (handler : Handler D) (data : string) : M D Outcome :=
  match n with
  | O => mret {| oc_deliveries := 0; oc_settled := false |}
  | S n =>
      s ← delivery ctx handler data;
      if s : bool then mret {| oc_deliveries := 1; oc_settled := true |}
      else o ← deliveries n ctx handler data;
           mret {| oc_deliveries := S (oc_deliveries o); oc_settled := oc_settled o |}
  end.

(** The messages of the consumer's subject, one after the other. *)
Fixpoint consume (cfg : ConsumerConfig) (ctx : Ctx) (handler : Handler D) (msgs : list string) : M D (list Outcome) :=
  match msgs with
  | [] => mret []
  | data :: msgs =>
      o ← deliveries (Z.to_nat (cc_MaxDeliver cfg)) ctx handler data;
      os ← consume cfg ctx handler msgs;
      mret (o :: os)
  end.

(** ** Rules *)

(** A world property that the asking of the bus does not affect. *)
Class Untimed (I : World D -> Prop) := untimed : forall w, I w -> I (ticked w).

(** Deliveries of one message, with what holds between them ([I]) and what a
    final verdict brings about ([S]). *)
Lemma wp_deliveries (I S : World D -> Prop) `{Untimed I, Untimed S} n ctx (handler : Handler D) data w :
  (forall w, I w -> wp (handler ctx data) (fun r w' => I w' /\ (retryable r = false -> S w')) w) ->
  I w ->
  wp (deliveries n ctx handler data) (fun r w' => exists o, r = Ok o /\ I w' /\ (oc_settled o = true -> S w') /\
    within_limit n o) w.
Proof.
  intros Hh. revert w. induction n as [|n IH]; intros w Hw; simpl.
  { apply wp_ret. eexists. by split_and!. }
  unfold delivery. do 2 apply wp_bind. eapply wp_mono; [|by eapply wp_dispatch, Hh].
  intros x w1 (r & a & [HI HS] & -> & Ha). wp_steps.
  assert (settles a (heard (w_tick w1)) = true -> S w1) as Hset.
  { unfold settles. intros [_ Hn%negb_true_iff%bool_decide_eq_false]%andb_prop. apply HS. apply not_true_iff_false.
    intros Hr. by apply Hn, Ha. }
  destruct (settles a (heard (w_tick w1))).
  - apply wp_ret. eexists. split_and!; [done|by apply untimed|intros _; by apply untimed, Hset|split_and!; simpl; [lia..|done]].
  - apply wp_bind. eapply wp_mono; [|apply IH; by apply untimed]. intros r' w2 (o & -> & ? & ? & ? & ? & ?). apply wp_ret.
    eexists. split_and!; [done|done|done|split_and!; simpl; [lia..|auto]].
Qed.
End Deliveries.

(** ** Redelivery of idempotent effects *)

(** The messages that took effect. *)
Fixpoint chosen {A} (taken : list bool) (l : list A) : list A :=
  match taken, l with
  | t :: taken, x :: l => if t : bool then x :: chosen taken l else chosen taken l
  | _, _ => []
  end.

Section Once.
Context {D X : Type} {E : Env} (heard : nat -> bool) (inv : D -> Prop) (view : D -> X) (effect : string -> X -> X).
Context (ctx : Ctx) (handler : Handler D).

(** The handler has its effect or, asking for redelivery, none. *)
Hypothesis handler_effect : forall data w, w_tx w = None -> inv (w_db w) ->
  wp (handler ctx data) (fun r w' => w_tx w' = None /\ inv (w_db w') /\
    ((view (w_db w') = view (w_db w) /\ retryable r = true) \/ view (w_db w') = effect data (view (w_db w)))) w.
Hypothesis effect_idem : forall data x, effect data (effect data x) = effect data x.

Lemma wp_deliveries_once n data w :
  w_tx w = None -> inv (w_db w) ->
  wp (deliveries heard n ctx handler data) (fun r w' => exists o t, r = Ok o /\ w_tx w' = None /\ inv (w_db w') /\
    within_limit n o /\ (oc_settled o = true -> t = true) /\
    view (w_db w') = if t : bool then effect data (view (w_db w)) else view (w_db w)) w.
Proof.
  intros Htx Hi. set (x := view (w_db w)).
  set (I := fun w : World D => w_tx w = None /\ inv (w_db w) /\ (view (w_db w) = x \/ view (w_db w) = effect data x)).
  set (S := fun w : World D => view (w_db w) = effect data x).
  assert (Untimed I) by by intros w'. assert (Untimed S) by by intros w'.
  eapply wp_mono; [|apply (wp_deliveries heard I S); [|by split_and!; [| |left]]].
  - intros r w' (o & -> & (Htx' & Hi' & Hv) & HS & Ho). destruct Hv as [Hv|Hv].
    + destruct (oc_settled o) eqn:Hs; [exists o, true|exists o, false]; rewrite ?Hs.
      * split_and!; [done..|]. by apply HS.
      * by split_and!.
    + exists o, true. by split_and!.
  - intros w' (Htx' & Hi' & Hv). eapply wp_mono; [|by apply handler_effect]. intros r w2 (Htx2 & Hi2 & Hr).
    unfold I, S. destruct Hr as [[Hr Hret]|Hr]; rewrite Hr.
    + split; [done|]. by rewrite Hret.
    + destruct Hv as [->| ->]; rewrite ?effect_idem; (split; [by split_and!; [| |right]|done]).
Qed.

(** Whatever is lost on the way, the messages of a consumer are what has taken
    effect, in order and once each, but for some that were given up. *)
Lemma consume_once cfg msgs w :
  w_tx w = None -> inv (w_db w) ->
  wp (consume heard cfg ctx handler msgs) (fun r w' => exists os taken, r = Ok os /\ w_tx w' = None /\ inv (w_db w') /\
    length os = length msgs /\ Forall (within_limit (Z.to_nat (cc_MaxDeliver cfg))) os /\
    Forall2 (fun o t => oc_settled o = true -> t = true) os taken /\
    view (w_db w') = foldl (fun x data => effect data x) (view (w_db w)) (chosen taken msgs)) w.
Proof.
  revert w. induction msgs as [|data msgs IH]; intros w Htx Hi; simpl.
  { apply wp_ret. exists [], []. by split_and!. }
  apply wp_bind. eapply wp_mono; [|by apply wp_deliveries_once]. intros r w1 (o & t & -> & Htx1 & Hi1 & Ho & Hot & Hv1).
  apply wp_bind. eapply wp_mono; [|by apply IH]. intros r w2 (os & taken & -> & Htx2 & Hi2 & Hl & Hos & Hot2 & Hv2).
  apply wp_ret. exists (o :: os), (t :: taken). split_and!; simpl; [done..|lia|by constructor|by constructor|].
  rewrite Hv2, Hv1. by destruct t.
Qed.
End Once.
