(* ===== verification/Outbox.v ===== *)
(** * The transactional outbox: [internal/infrastructure/outbox]

    [Enqueue] inserts an event into the service's own database inside the open
    transaction; the relay publishes committed messages in id order and deletes
    what it published.  A service's database gives access to its
    [outbox_messages] table through [HasOutbox]. *)

From S2P Require Import Prelude GoErrors Effects Wp Sql Json Events Broker.

Open Scope string_scope.
Open Scope list_scope.
Open Scope Z_scope.

(** A row of [outbox_messages]. *)
Record OutboxRow := {
  om_id : Z;
  om_subject : string;
  om_payload : string;
  om_created_at : Z;
}.

Global Instance OutboxRow_eq_dec : EqDecision OutboxRow.
Proof. solve_decision. Defined.

(** The outbox table inside a service's database. *)
Class HasOutbox (D : Type) := {
  outbox : D -> list OutboxRow;
  set_outbox : list OutboxRow -> D -> D;
  outbox_set : forall l d, outbox (set_outbox l d) = l;
  set_outbox_set : forall l l' d, set_outbox l (set_outbox l' d) = set_outbox l d;
  set_outbox_same : forall d, set_outbox (outbox d) d = d;
}.

Definition outbox_seq : string := "outbox_messages".

(** The largest BIGINT. *)
Definition bigint_max : Z := two63 - 1.

(** [message] of [relay.go]. *)
Record message := { m_id : Z; m_subject : string; m_payload : string }.

Definition to_message (r : OutboxRow) : message :=
  {| m_id := om_id r; m_subject := om_subject r; m_payload := om_payload r |}.

Section Enqueue.
Context {D : Type} {E : Env} {HO : HasOutbox D}.

(** INSERT INTO outbox_messages (subject, payload) VALUES ($1, $2) *)
Definition insert_outbox_stmt (subject payload : string) : Stmt D unit := fun sc d =>
  if bigint_max <? sc_nextval sc then inl "nextval: reached maximum value of sequence"
  else if exists_where (key_is om_id (sc_nextval sc)) (outbox d) then inl "duplicate key value"
  else inr (tt, set_outbox (insert_row
    {| om_id := sc_nextval sc; om_subject := subject; om_payload := payload;
       om_created_at := sc_now sc |} (outbox d)) d).

Definition Enqueue (subject payload : string) : M D unit :=
  wrapping ("enqueue outbox message to " +:+ fmt_q subject)
    (run QTx (Some outbox_seq) (insert_outbox_stmt subject payload)).

(** The publishers' generic [enqueue]: refuse outside a transaction,
    validate and marshal, insert. *)
Definition enqueue `{Validators} {T : Type} `{Event T} (ctx : Ctx) (subject : string) (ev : T) : M D unit :=
  if negb (Tx ctx) then fail (Sentinel errNoTx)
  else match Marshal ev with
       | Err e => fail (Errorf ("marshal " +:+ subject) e)
       | Ok data => Enqueue subject data
       end.

(** The outbox row an enqueued event becomes. *)
Definition outbox_row {T : Type} `{Event T} (id : Z) (subject : string) (ev : T) (at_ : Z) : OutboxRow :=
  {| om_id := id; om_subject := subject; om_payload := encode_event ev;
     om_created_at := at_ |}.

(** Enqueueing in a transaction either fails and leaves the working copy, or
    appends one row with a fresh id. *)
Lemma wp_enqueue `{Validators} {T : Type} `{Event T} ctx subject (ev : T)
    (Q : res unit -> World D -> Prop) w d0 :
  ctx_tx ctx = true -> w_tx w = Some d0 ->
  (forall e w', (validate ev = true -> errors_Is e ErrTerminal = false) ->
     quiet_step w w' -> w_tx w' = Some d0 -> w_db w' = w_db w -> Q (Err e) w') ->
  (forall id at_ w', validate ev = true -> exists_where (key_is om_id id) (outbox d0) = false ->
     quiet_step w w' -> w_db w' = w_db w ->
     w_tx w' = Some (set_outbox (outbox d0 ++ [outbox_row id subject ev at_]) d0) -> Q (Ok tt) w') ->
  wp (enqueue ctx subject ev) Q w.
Proof.
  intros Hctx Htx Hfail Hok. unfold enqueue, Tx, txFromContext. rewrite Hctx. simpl.
  unfold Marshal. destruct (validate ev) eqn:Hv; simpl; [|by apply wp_fail, Hfail].
  unfold Enqueue. apply wp_wrapping. eapply wp_run_tx; [done| |].
  - intros msg w' ? ? ?. by apply Hfail.
  - intros sc [] d w' Hst ? Htx' ?. unfold insert_outbox_stmt in Hst.
    destruct (bigint_max <? sc_nextval sc); [done|].
    destruct (exists_where _ _) eqn:Hex; [done|]. injection Hst as <-. eapply Hok; eauto.
Qed.

(** [d'] is [d] with one more outbox message, carrying [ev]. *)
Definition enqueued `{Validators} {T : Type} `{Event T} (subject : string) (ev : T) (d d' : D) : Prop :=
  validate ev = true /\ exists id at_, exists_where (key_is om_id id) (outbox d) = false /\
    d' = set_outbox (outbox d ++ [outbox_row id subject ev at_]) d.

(** An outbox row that carries [ev] on [subject]. *)
Definition carries {T : Type} `{Event T} (subject : string) (ev : T) (r : OutboxRow) : Prop :=
  exists id at_, r = outbox_row id subject ev at_.

Lemma enqueued_carries `{Validators} {T : Type} `{Event T} subject (ev : T) d d' :
  enqueued subject ev d d' -> exists row, carries subject ev row /\ d' = set_outbox (outbox d ++ [row]) d.
Proof. intros (_ & id & at_ & _ & ->). eexists. split; [by exists id, at_|done]. Qed.

Lemma enqueue_does `{Validators} {T : Type} `{Event T} ctx subject (ev : T) :
  ctx_tx ctx = true -> tx_does (enqueue ctx subject ev) (fun d _ d' => enqueued subject ev d d').
Proof.
  intros Hctx w d0 Htx. eapply wp_enqueue; [done..| |].
  - intros e w' _ Hq _ Hdb. done.
  - intros id at_ w' Hv Hf Hq Hdb Htx'. split_and!; [done..|]. eexists. split; [done|].
    split; [done|]. eauto.
Qed.

(** [(r *Relay) Notify]: a non-blocking send on a channel of capacity one. *)
Definition Notify : M D unit := fun w => (Ok tt, set_nudge true w).
End Enqueue.

(** ** The relay *)

Section Relay.
Context {D : Type} {E : Env} {HO : HasOutbox D} {BP : BusPublisher D}.
Variable batchSize : Z.

(** SELECT id, subject, payload FROM outbox_messages
    ORDER BY id LIMIT $1 FOR UPDATE SKIP LOCKED *)
Definition select_locked_stmt : Stmt D (list OutboxRow) := fun sc d =>
  if batchSize <? 0 then inl "LIMIT must not be negative"
  else inr (take (Z.to_nat batchSize)
              (select_where (fun r => negb (sc_locked sc (om_id r))) (order_by om_id (outbox d))), d).

Definition selectLocked : M D (list message) :=
  rows ← wrapping "select outbox messages" (run QTx None select_locked_stmt);
  mret (map to_message rows).

(** The ids published before the first failure, and that failure. *)
Fixpoint publishAll (ctx : Ctx) (ids : list Z) (messages : list message) : M D (list Z * option error) :=
  match messages with
  | [] => mret (ids, None)
  | m :: ms =>
      r ← attempt (Publish ctx (m_subject m) (m_payload m));
      match r with
      | Err e => mret (ids, Some (Errorf ("publish outbox message " +:+ print_int (m_id m) +:+ " to " +:+ fmt_q (m_subject m)) e))
      | Ok _ => publishAll ctx (ids ++ [m_id m]) ms
      end
  end.

(** DELETE FROM outbox_messages WHERE id = ANY($1) *)
Definition delete_published_stmt (ids : list Z) : Stmt D unit := fun _ d =>
  inr (tt, set_outbox (delete_where (fun r => bool_decide (om_id r ∈ ids)) (outbox d)) d).

(** [flushBatch] between [Begin] and the deferred [Rollback]. *)
Definition flushBatch_body (ctx : Ctx) : M D (Z * option error) :=
  messages ← selectLocked;
  if bool_decide (messages = []) then mret (0, None) else
  '(ids, publishErr) ← publishAll ctx [] messages;
  if bool_decide (ids = []) then mret (0, publishErr) else
  _ ← wrapping "delete published messages" (run QTx None (delete_published_stmt ids));
  _ ← wrapping "commit outbox tx" tx_Commit;
  mret (Z.of_nat (length ids), publishErr).

(** [(r *Relay) flushBatch]: the published count and the error. *)
Definition flushBatch (ctx : Ctx) : M D (Z * option error) := fun w =>
  match wrapping "begin outbox tx" pool_Begin w with
  | (Err e, w1) => (Ok (0, Some e), w1)
  | (Ok _, w1) =>
      match flushBatch_body ctx w1 with
      | (Err e, w2) => (Ok (0, Some e), tx_Rollback w2)
      | (Ok r, w2) => (Ok r, tx_Rollback w2)
      end
  end.

(** [(r *Relay) flush]: batches until one is not full.  [None]: out of fuel. *)
Fixpoint flush_loop (fuel : nat) (ctx : Ctx) (w : World D) : option (res unit * World D) :=
  match fuel with
  | O => None
  | S k =>
      match flushBatch ctx w with
      | (Err e, w') | (Ok (_, Some e), w') => Some (Err e, w')
      | (Ok (published, None), w') =>
          if published <? batchSize then Some (Ok tt, w') else flush_loop k ctx w'
      end
  end.

(** One more than the number of messages is always enough ([flush_loop_total]). *)
Definition flush_fuel (w : World D) : nat := S (length (outbox (w_db w))).

(** [Run]'s loop over what its select picks: a tick or a nudge flushes, and a
    failed flush is only logged; ctx.Done() ends the loop. *)
Inductive RelaySignal := SigTick | SigNudge | SigDone.

Definition tryFlush (ctx : Ctx) (w : World D) : option (World D) :=
  snd <$> flush_loop (flush_fuel w) ctx w.

Fixpoint Run (signals : list RelaySignal) (ctx : Ctx) (w : World D) : option (World D) :=
  match signals with
  | [] => Some w
  | SigDone :: _ => Some w
  | SigTick :: s => tryFlush ctx w ≫= Run s ctx
  | SigNudge :: s =>   (* selectable only when the channel holds a token *)
      if w_nudge w then tryFlush ctx (set_nudge false w) ≫= Run s ctx else Run s ctx w
  end.
End Relay.
