(* ===== verification/OutboxFacts.v ===== *)
(** * The outbox relay: refinement and delivery guarantees

    The relay of [Outbox] refines the abstract relay [relay_step]: a message
    is delivered to the bus while it is pending, and forgotten only after it
    was delivered.  From the abstract relay follow at-least-once delivery and
    the absence of invented messages; from the concrete one termination of
    [flush], its completeness in a fault-free run and the order of messages. *)

From S2P Require Import Prelude GoErrors Effects Wp Sql Json Events Broker Outbox Quiet.

Open Scope string_scope.
Open Scope list_scope.
Open Scope Z_scope.

(** ** The abstract relay *)

(** The messages still to deliver and those the bus accepted, in order. *)
Record AbsRelay := { pending : list OutboxRow; delivered : list OutboxRow }.

Inductive relay_step : AbsRelay -> AbsRelay -> Prop :=
| relay_deliver (l acc : list OutboxRow) r :
    r ∈ l ->
    relay_step {| pending := l; delivered := acc |} {| pending := l; delivered := acc ++ [r] |}
| relay_forget (l acc : list OutboxRow) (ids : list Z) :
    (forall r, r ∈ l -> om_id r ∈ ids -> r ∈ acc) ->
    relay_step {| pending := l; delivered := acc |}
               {| pending := delete_where (fun r => bool_decide (om_id r ∈ ids)) l; delivered := acc |}.

(** What every run of the abstract relay keeps, relative to its start. *)
Definition relay_inv (l0 : list OutboxRow) (s : AbsRelay) : Prop :=
  (forall r, r ∈ l0 -> r ∈ pending s \/ r ∈ delivered s) /\
  (forall r, r ∈ pending s -> r ∈ l0) /\
  (forall r, r ∈ delivered s -> r ∈ l0).

Lemma relay_inv_step l0 s s' : relay_step s s' -> relay_inv l0 s -> relay_inv l0 s'.
Proof.
  destruct 1 as [l acc r Hr|l acc ids Hids]; intros (Hl & Hp & Hd); simpl in *.
  - split_and!; simpl; [intros r' Hr'; destruct (Hl r' Hr'); set_solver|done|set_solver].
  - split_and!; simpl; [|intros r' [? _]%elem_of_delete; auto|done].
    intros r' Hr'. destruct (Hl r' Hr') as [Hin|]; [|by right].
    destruct (decide (om_id r' ∈ ids)) as [|Hni]; [right; auto|left].
    apply elem_of_delete. by rewrite bool_decide_eq_false_2.
Qed.

Lemma relay_inv_steps l0 s s' : rtc relay_step s s' -> relay_inv l0 s -> relay_inv l0 s'.
Proof. induction 1; eauto using relay_inv_step. Qed.

Lemma relay_deliver_all l acc rs :
  rs ⊆ l -> rtc relay_step {| pending := l; delivered := acc |} {| pending := l; delivered := acc ++ rs |}.
Proof.
  revert acc. induction rs as [|r rs IH]; intros acc Hrs; [by rewrite app_nil_r|].
  eapply rtc_l; [apply (relay_deliver l acc r); set_solver|].
  rewrite (cons_middle r acc rs), (app_assoc acc). apply IH. set_solver.
Qed.

(** The abstract relay may always start with some deliveries behind it. *)
Lemma relay_step_frame acc0 s s' :
  relay_step s s' ->
  relay_step {| pending := pending s; delivered := acc0 ++ delivered s |}
             {| pending := pending s'; delivered := acc0 ++ delivered s' |}.
Proof.
  destruct 1 as [l acc r Hr|l acc ids Hids]; simpl.
  - rewrite app_assoc. by constructor.
  - constructor. set_solver.
Qed.

Lemma relay_steps_frame acc0 s s' :
  rtc relay_step s s' ->
  rtc relay_step {| pending := pending s; delivered := acc0 ++ delivered s |}
                 {| pending := pending s'; delivered := acc0 ++ delivered s' |}.
Proof. induction 1; eauto using rtc, relay_step_frame. Qed.

(** ** What a trace shows of the deliveries *)

Definition accepted (tr : list Ext) : list (string * string) :=
  omap (fun x => match x with XPublish s d true => Some (s, d) | _ => None end) tr.

Definition wire (r : OutboxRow) : string * string := (om_subject r, om_payload r).

Definition pub (ok : bool) (r : OutboxRow) : Ext := XPublish (om_subject r) (om_payload r) ok.

Lemma accepted_app tr1 tr2 : accepted (tr1 ++ tr2) = accepted tr1 ++ accepted tr2.
Proof. apply omap_app. Qed.

Lemma accepted_pub rs : accepted (map (pub true) rs) = map wire rs.
Proof. induction rs as [|r rs IH]; simpl; [done|]. by rewrite <- IH. Qed.

(** The requests of one batch: the accepted messages in order, then at most one
    refused one. *)
Definition batch_trace (sent : list OutboxRow) (refused : option OutboxRow) : list Ext :=
  map (pub true) sent ++ match refused with Some r => [pub false r] | None => [] end.

Lemma accepted_batch sent refused : accepted (batch_trace sent refused) = map wire sent.
Proof.
  unfold batch_trace. rewrite accepted_app, accepted_pub.
  destruct refused; simpl; by rewrite app_nil_r.
Qed.

Section Relay.
Context {D : Type} {E : Env} {HO : HasOutbox D} {BP : BusPublisher D}.
Variable batchSize : Z.
Implicit Types w : World D.

(** What the relay's calls leave alone. *)
Definition same_world w w' : Prop :=
  w_db w' = w_db w /\ w_tx w' = w_tx w /\ w_txnow w' = w_txnow w /\
  w_seq w' = w_seq w /\ w_nudge w' = w_nudge w.

Lemma publishAll_spec ctx ids rows w :
  wp (publishAll ctx ids (map to_message rows)) (fun r w' =>
    same_world w w' /\
    exists sent refused rest err,
      rows = sent ++ rest /\
      r = Ok (ids ++ map om_id sent, err) /\
      w_trace w' = w_trace w ++ batch_trace sent refused /\
      match refused with
      | None => rest = [] /\ err = None
      | Some m => head rest = Some m /\ is_Some err
      end) w.
Proof.
  revert ids w. induction rows as [|r rows IH]; intros ids w; simpl.
  - wp_steps. split; [done|]. exists [], None, [], None. by rewrite !app_nil_r.
  - wp_steps. eapply wp_mono; [|apply Publish_spec].
    intros [[]|e] w1 (Hdb & Htx & Hnow & Hseq & Hn & Htr); simpl in *.
    + eapply wp_mono; [|apply IH]. clear IH.
      intros res w2 ((? & ? & ? & ? & ?) & sent & refused & rest & err & -> & -> & Htr2 & Hend).
      split; [unfold same_world; split_and!; congruence|].
      exists (r :: sent), refused, rest, err. split_and!; [done| |rewrite Htr2, Htr|done].
      * by rewrite <- app_assoc.
      * by rewrite <- app_assoc.
    + wp_steps. split; [done|]. exists [], (Some r), (r :: rows), (Some (Errorf
        ("publish outbox message " +:+ print_int (om_id r) +:+ " to " +:+ fmt_q (om_subject r)) e)).
      by rewrite !app_nil_r.
Qed.

(** The batch the relay selects from database [d] when [locked] are the rows
    other sessions hold. *)
Definition batch (locked : Z -> bool) (d : D) : list OutboxRow :=
  take (Z.to_nat batchSize)
    (select_where (fun r => negb (locked (om_id r))) (order_by om_id (outbox d))).

Lemma batch_subset locked d : batch locked d ⊆ outbox d.
Proof.
  intros r Hr. apply elem_of_take in Hr as (i & Hr & _).
  apply list_elem_of_lookup_2, elem_of_select in Hr as [Hr _]. by rewrite order_by_perm in Hr.
Qed.

(** The database after the published rows [sent] were deleted. *)
Definition without (sent : list OutboxRow) (d : D) : D :=
  set_outbox (delete_where (fun r => bool_decide (om_id r ∈ map om_id sent)) (outbox d)) d.

(** The publications tried are a prefix of the batch, whose rows are not locked
    by another session; without a refusal they are all of it, or none. *)
Definition batch_tried (locked : Z -> bool) (sent : list OutboxRow) (refused : option OutboxRow) (d : D) : Prop :=
  sent ++ option_list refused `prefix_of` batch locked d /\
  (refused = None -> sent = [] \/ sent = batch locked d) /\ (exists n, locked = env_locked n).

(** What one batch does, whatever the database and the bus answer: it
    publishes a prefix of the selected batch, then either keeps the database
    or deletes exactly what it published; it reports a count only after the
    deletion is committed. *)
Definition batch_post (w : World D) (r : res (Z * option error)) (w' : World D) : Prop :=
  w_tx w' = None /\ w_nudge w' = w_nudge w /\
  exists locked sent refused,
    sent `prefix_of` batch locked (w_db w) /\
    w_trace w' = w_trace w ++ batch_trace sent refused /\ batch_tried locked sent refused (w_db w) /\
    ((w_db w' = w_db w /\ exists err, r = Ok (0, err)) \/
     (w_db w' = without sent (w_db w) /\ sent <> [] /\
      ((exists err, r = Ok (Z.of_nat (length sent), err)) \/ exists e, r = Ok (0, Some e)))).

Lemma batch_post_idle w w' r :
  w_tx w' = None -> w_nudge w' = w_nudge w -> w_db w' = w_db w -> w_trace w' = w_trace w ->
  (exists err, r = Ok (0, err)) -> batch_post w r w'.
Proof.
  intros Htx Hn Hdb Htr Hr. split_and!; [done..|].
  exists (env_locked 0), [], None.
  split_and!; [apply prefix_nil|by rewrite Htr, app_nil_r|split_and!; [apply prefix_nil|by left|by eexists]|auto].
Qed.

(** The part of a batch after publishing: DELETE, COMMIT. *)
Lemma flushBatch_tail w w3 locked sent refused err :
  w_db w3 = w_db w -> w_tx w3 = Some (w_db w) -> w_nudge w3 = w_nudge w ->
  sent `prefix_of` batch locked (w_db w) ->
  w_trace w3 = w_trace w ++ batch_trace sent refused ->
  batch_tried locked sent refused (w_db w) ->
  wp (if bool_decide (map om_id sent = []) then mret (0, err) else
      _ ← wrapping "delete published messages" (run QTx None (delete_published_stmt (map om_id sent)));
      _ ← wrapping "commit outbox tx" tx_Commit;
      mret (Z.of_nat (length (map om_id sent)), err))
    (fun r w2 => match r with
      | Err e => batch_post w (Ok (0, Some e)) (tx_Rollback w2)
      | Ok r => batch_post w (Ok r) (tx_Rollback w2) end) w3.
Proof.
  intros Hdb Htx Hn Hpre Htr Href.
  assert (forall w2 r, w_tx w2 = None -> w_nudge w2 = w_nudge w -> w_trace w2 = w_trace w3 ->
    w_db w2 = w_db w -> (exists e, r = Ok (0, e)) -> batch_post w r w2) as Hkeep.
  { intros w2 r ? ? Ht ? ?. split_and!; [done..|]. exists locked, sent, refused.
    rewrite Ht. split_and!; auto. }
  case_bool_decide as Hids; [wp_steps; apply Hkeep; eauto|].
  assert (sent <> []) as Hsent by (by intros ->).
  wp_steps. apply wp_run.
  { intros f _. split; [|done]. apply Hkeep; eauto. }
  intros _. simpl. wp_steps. unfold wp, tx_Commit. simpl. rewrite Htx, length_map. simpl.
  assert (forall w2 r, w_tx w2 = None -> w_nudge w2 = w_nudge w -> w_trace w2 = w_trace w3 ->
    w_db w2 = without sent (w_db w) ->
    (exists err, r = Ok (Z.of_nat (length sent), err)) \/ (exists e, r = Ok (0, Some e)) -> batch_post w r w2) as Hdel.
  { intros w2 r ? ? Ht ? Hr. split_and!; [done..|]. exists locked, sent, refused.
    rewrite Ht. split_and!; auto. }
  destruct (env_db _) as [[msg [|]]|]; simpl; [apply Hdel|apply Hkeep|apply Hdel]; eauto.
Qed.

Lemma flushBatch_spec ctx w : w_tx w = None -> wp (flushBatch batchSize ctx) (batch_post w) w.
Proof.
  intros Htx. unfold wp, flushBatch, wrapping, pool_Begin.
  destruct (env_db (w_tick w)) as [f|]; simpl; [apply batch_post_idle; eauto|].
  set (w1 := set_txnow _ _).
  cut (wp (flushBatch_body batchSize ctx) (fun r w2 => match r with
        | Err e => batch_post w (Ok (0, Some e)) (tx_Rollback w2)
        | Ok r => batch_post w (Ok r) (tx_Rollback w2) end) w1).
  { unfold wp. by destruct (flushBatch_body batchSize ctx w1) as [[]]. }
  unfold flushBatch_body, selectLocked. wp_steps. apply wp_run.
  { intros f _. split; [|done]. apply batch_post_idle; eauto. }
  intros _. unfold select_locked_stmt at 1.
  destruct (batchSize <? 0); [apply batch_post_idle; eauto|]. simpl. wp_steps.
  fold (batch (env_locked (S (w_tick w))) (w_db w)).
  set (rows := batch _ _). case_bool_decide as Hrows.
  { wp_steps. apply batch_post_idle; eauto. }
  wp_steps. eapply wp_mono; [|apply publishAll_spec].
  intros r w3 ((Hdb & Htx3 & _ & _ & Hn) & sent & refused & rest & err & Hs & -> & Htr & Hend).
  simpl in *. eapply flushBatch_tail; eauto.
  - by exists rest.
  - split_and!; fold rows; [rewrite Hs|intros ->; right; destruct Hend as [-> _]; by rewrite Hs, app_nil_r|by eexists].
    apply prefix_app. destruct refused as [m|]; [|apply prefix_nil].
    destruct rest as [|m' rest]; [naive_solver|]. destruct Hend as [[= ->] _]. by apply prefix_cons, prefix_nil.
Qed.

(** *** Refinement *)

Definition abs (w : World D) : AbsRelay := {| pending := outbox (w_db w); delivered := [] |}.

(** [w] leads to [w'] by abstract relay steps that account for every message
    the bus accepted in between. *)
Definition relayed w w' : Prop :=
  exists tr acc,
    w_trace w' = w_trace w ++ tr /\ accepted tr = map wire acc /\
    rtc relay_step (abs w) {| pending := outbox (w_db w'); delivered := acc |}.

Lemma relayed_refl w w' :
  w_db w' = w_db w -> w_trace w' = w_trace w -> relayed w w'.
Proof. intros Hdb Htr. exists [], []. unfold abs. rewrite Htr, Hdb, app_nil_r. split_and!; done. Qed.

Lemma relayed_trans w1 w2 w3 : relayed w1 w2 -> relayed w2 w3 -> relayed w1 w3.
Proof.
  intros (tr1 & acc1 & Ht1 & Ha1 & Hs1) (tr2 & acc2 & Ht2 & Ha2 & Hs2).
  exists (tr1 ++ tr2), (acc1 ++ acc2). split_and!.
  - by rewrite Ht2, Ht1, app_assoc.
  - by rewrite accepted_app, map_app, Ha1, Ha2.
  - etrans; [exact Hs1|]. apply (relay_steps_frame acc1) in Hs2. simpl in Hs2.
    by rewrite app_nil_r in Hs2.
Qed.

Lemma prefix_batch_subset locked d sent :
  sent `prefix_of` batch locked d -> sent ⊆ outbox d.
Proof.
  intros [rest Heq] r Hr. apply (batch_subset locked). rewrite Heq. set_solver.
Qed.

Lemma batch_relayed w r w' :
  unique_on om_id (outbox (w_db w)) -> batch_post w r w' ->
  relayed w w' /\ w_tx w' = None /\ unique_on om_id (outbox (w_db w')).
Proof.
  intros Hu (Htx & _ & locked & sent & refused & Hpre & Htr & _ & Hdb).
  pose proof (prefix_batch_subset _ _ _ Hpre) as Hsub.
  assert (rtc relay_step (abs w) {| pending := outbox (w_db w); delivered := sent |}) as Hdel
    by (apply (relay_deliver_all _ []); done).
  destruct Hdb as [[Hdb _]|(Hdb & _ & _)]; rewrite Hdb.
  - split_and!; [|done..]. exists (batch_trace sent refused), sent.
    rewrite Hdb, accepted_batch. done.
  - unfold without. rewrite outbox_set. split_and!; [|done|by apply unique_on_delete].
    exists (batch_trace sent refused), sent.
    rewrite Hdb, accepted_batch. unfold without. rewrite outbox_set. split_and!; [done..|].
    eapply rtc_r; [exact Hdel|]. constructor. intros x Hx [y [Hid Hy]]%list_elem_of_fmap.
    by rewrite (unique_on_eq om_id (outbox (w_db w)) x y) by auto.
Qed.

(** A batch loses no message: what leaves the outbox was accepted by the bus. *)
Lemma batch_keeps w r w' row :
  unique_on om_id (outbox (w_db w)) -> w_trace w = [] -> batch_post w r w' -> row ∈ outbox (w_db w) ->
  row ∈ outbox (w_db w') \/ wire row ∈ accepted (w_trace w').
Proof.
  intros Hu Ht (_ & _ & locked & sent & refused & Hpre & Htr & _ & Hdb) Hrow. rewrite Ht in Htr.
  destruct Hdb as [[-> _]|(-> & _ & _)]; [by left|]. unfold without. rewrite outbox_set, elem_of_delete.
  case_bool_decide as Hin; [right|by left]. apply list_elem_of_fmap in Hin as (x & Hid & Hx). rewrite Htr. simpl.
  rewrite accepted_batch. apply list_elem_of_fmap. exists x. split; [|done]. f_equal.
  apply (unique_on_eq om_id (outbox (w_db w))); [done..|by eapply prefix_batch_subset|done].
Qed.

Lemma flush_relayed fuel ctx w r w' :
  unique_on om_id (outbox (w_db w)) -> w_tx w = None ->
  flush_loop batchSize fuel ctx w = Some (r, w') ->
  relayed w w' /\ w_tx w' = None /\ unique_on om_id (outbox (w_db w')).
Proof.
  revert w. induction fuel as [|k IH]; intros w Hu Htx; simpl; [done|].
  pose proof (flushBatch_spec ctx w Htx) as Hb. unfold wp in Hb.
  destruct (flushBatch batchSize ctx w) as [rb w1]. apply batch_relayed in Hb as (H12 & Htx1 & Hu1); [|done].
  simpl in *. destruct rb as [[n [e|]]|e]; try (intros [= <- <-]; done).
  destruct (n <? batchSize); [intros [= <- <-]; done|].
  intros (H23 & ? & ?)%IH; [|done..]. split_and!; [by eapply relayed_trans|done..].
Qed.

Lemma Run_relayed signals ctx w w' :
  unique_on om_id (outbox (w_db w)) -> w_tx w = None ->
  Run batchSize signals ctx w = Some w' ->
  relayed w w' /\ w_tx w' = None /\ unique_on om_id (outbox (w_db w')).
Proof.
  assert (forall w1 w2, unique_on om_id (outbox (w_db w1)) -> w_tx w1 = None ->
    tryFlush batchSize ctx w1 = Some w2 ->
    relayed w1 w2 /\ w_tx w2 = None /\ unique_on om_id (outbox (w_db w2))) as Htry.
  { intros w1 w2 ? ? Ht. unfold tryFlush in Ht.
    apply fmap_Some in Ht as [[r w3] [Hf ->]]. by eapply flush_relayed. }
  revert w. induction signals as [|[] s IH]; intros w Hu Htx; simpl;
    try (intros [= <-]; split_and!; [by apply relayed_refl|done..]).
  - intros (w1 & Ht & Hr)%bind_Some. apply Htry in Ht as (? & ? & ?); [|done..].
    apply IH in Hr as (? & ? & ?); [|done..]. split_and!; [by eapply relayed_trans|done..].
  - destruct (w_nudge w); [|by apply IH].
    intros (w1 & Ht & Hr)%bind_Some. apply Htry in Ht as (? & ? & ?); [|done..].
    apply IH in Hr as (? & ? & ?); [|done..]. split_and!; [by eapply relayed_trans|done..].
Qed.

(** *** Termination *)

Lemma without_shrinks sent d :
  sent <> [] -> sent ⊆ outbox d -> (length (outbox (without sent d)) < length (outbox d))%nat.
Proof.
  intros Hne Hsub. unfold without. rewrite outbox_set.
  destruct sent as [|r sent]; [done|]. apply delete_where_shrinks.
  apply exists_where_true. exists r. split; [set_solver|]. by rewrite bool_decide_eq_true_2 by set_solver.
Qed.

Lemma flush_loop_total fuel ctx w :
  0 < batchSize -> w_tx w = None -> (length (outbox (w_db w)) < fuel)%nat ->
  is_Some (flush_loop batchSize fuel ctx w).
Proof.
  intros Hbs. revert w. induction fuel as [|k IH]; intros w Htx Hlen; [lia|]. simpl.
  pose proof (flushBatch_spec ctx w Htx) as Hb. unfold wp in Hb.
  destruct (flushBatch batchSize ctx w) as [rb w1].
  destruct Hb as (Htx1 & _ & locked & sent & refused & Hpre & _ & _ & Hdb). simpl in *.
  destruct rb as [[n [e|]]|e]; [eauto| |eauto].
  destruct (Z.ltb_spec n batchSize); [eauto|]. apply IH; [done|].
  destruct Hdb as [[_ [err Hr]]|(Hdb & Hne & _)]; [injection Hr; lia|].
  rewrite Hdb. pose proof (without_shrinks sent (w_db w) Hne (prefix_batch_subset _ _ _ Hpre)). lia.
Qed.

Lemma Run_total signals ctx w :
  0 < batchSize -> unique_on om_id (outbox (w_db w)) -> w_tx w = None ->
  is_Some (Run batchSize signals ctx w).
Proof.
  intros Hbs.
  assert (forall w1, unique_on om_id (outbox (w_db w1)) -> w_tx w1 = None -> exists w2,
    tryFlush batchSize ctx w1 = Some w2 /\ w_tx w2 = None /\ unique_on om_id (outbox (w_db w2))) as Htry.
  { intros w1 Hu1 Htx1. destruct (flush_loop_total (flush_fuel w1) ctx w1) as [[r w2] Hf];
      [done..|unfold flush_fuel; lia|].
    exists w2. unfold tryFlush. rewrite Hf. split; [done|].
    by apply flush_relayed in Hf as (_ & ? & ?). }
  revert w. induction signals as [|[] s IH]; intros w Hu Htx; simpl; [eauto| | |eauto].
  - destruct (Htry w) as (w2 & -> & ? & ?); [done..|]. simpl. auto.
  - destruct (w_nudge w); [|auto].
    destruct (Htry (set_nudge false w)) as (w2 & -> & ? & ?); [done..|]. simpl. auto.
Qed.

(** *** Completeness *)

Section Faultless.
Hypothesis no_faults : forall n, env_db n = None.
Hypothesis no_locks : forall n id, env_locked n id = false.
Hypothesis bus_up : forall ctx s d (w : World D), is_ok (fst (Publish ctx s d w)) = true.
Hypothesis batch_pos : 0 < batchSize.

Definition due (d : D) : list OutboxRow := order_by om_id (outbox d).

Lemma batch_due locked d : (forall id, locked id = false) -> batch locked d = take (Z.to_nat batchSize) (due d).
Proof.
  intros Hl. unfold batch, select_where. f_equal. apply List_filter_all.
  intros r _. by rewrite Hl.
Qed.

Lemma publishAll_up ctx ids rows w :
  wp (publishAll ctx ids (map to_message rows)) (fun r w' =>
    same_world w w' /\ r = Ok (ids ++ map om_id rows, None) /\
    w_trace w' = w_trace w ++ map (pub true) rows) w.
Proof.
  revert ids w. induction rows as [|r rows IH]; intros ids w; simpl.
  - wp_steps. by rewrite !app_nil_r.
  - wp_steps. pose proof (Publish_spec ctx (om_subject r) (om_payload r) w) as Hp.
    pose proof (bus_up ctx (om_subject r) (om_payload r) w) as Hup. unfold wp in *. simpl.
    destruct (Publish ctx (om_subject r) (om_payload r) w) as [[[]|e] w1]; [|done].
    simpl in *. destruct Hp as (? & ? & ? & ? & ? & Htr).
    destruct (IH (ids ++ [om_id r]) w1) as ((? & ? & ? & ? & ?) & -> & ->).
    split_and!; [unfold same_world; split_and!; congruence| |].
    + by rewrite <- app_assoc.
    + by rewrite Htr, <- app_assoc.
Qed.

Lemma flushBatch_up ctx w :
  w_tx w = None ->
  let b := take (Z.to_nat batchSize) (due (w_db w)) in
  wp (flushBatch batchSize ctx) (fun r w' =>
    w_tx w' = None /\ r = Ok (Z.of_nat (length b), None) /\
    w_db w' = without b (w_db w) /\ w_trace w' = w_trace w ++ map (pub true) b) w.
Proof.
  intros Htx b. unfold wp, flushBatch, wrapping, pool_Begin. rewrite no_faults. simpl.
  set (w1 := set_txnow _ _).
  cut (wp (flushBatch_body batchSize ctx) (fun r w2 =>
         r = Ok (Z.of_nat (length b), None) /\ w_db w2 = without b (w_db w) /\
         w_trace w2 = w_trace w ++ map (pub true) b) w1).
  { unfold wp. destruct (flushBatch_body batchSize ctx w1) as [[]]; simpl; naive_solver. }
  unfold flushBatch_body, selectLocked. wp_steps. apply wp_run; [by intros f; rewrite no_faults|].
  intros _. unfold select_locked_stmt at 1. destruct (Z.ltb_spec batchSize 0); [lia|]. simpl. wp_steps.
  fold (batch (env_locked (S (w_tick w))) (w_db w)). rewrite batch_due by auto. fold b.
  case_bool_decide as Hb.
  { apply map_eq_nil in Hb. rewrite Hb. wp_steps. simpl. rewrite app_nil_r. split_and!; [done| |done].
    unfold without. rewrite delete_where_none; [by rewrite set_outbox_same|].
    by apply exists_where_false. }
  wp_steps. eapply wp_mono; [|apply publishAll_up].
  intros r w3 ((Hdb & Htx3 & _ & _ & _) & -> & Htr). simpl in *.
  rewrite bool_decide_eq_false_2; [|destruct b; [done|done]].
  wp_steps. apply wp_run; [by intros f; rewrite no_faults|]. intros _. simpl. wp_steps.
  unfold wp, tx_Commit. simpl. rewrite no_faults, Htx3, length_map. simpl. done.
Qed.

Lemma due_without n d :
  unique_on om_id (outbox d) -> due (without (take n (due d)) d) = drop n (due d).
Proof.
  intros Hu. unfold due, without. rewrite outbox_set, order_by_delete. apply delete_take.
  unfold unique_on in *. by rewrite order_by_perm.
Qed.

Lemma flush_loop_up fuel ctx w :
  unique_on om_id (outbox (w_db w)) -> w_tx w = None -> (length (outbox (w_db w)) < fuel)%nat ->
  exists w', flush_loop batchSize fuel ctx w = Some (Ok tt, w') /\
    outbox (w_db w') = [] /\ w_trace w' = w_trace w ++ map (pub true) (due (w_db w)).
Proof.
  revert w. induction fuel as [|k IH]; intros w Hu Htx Hlen; [lia|]. simpl.
  pose proof (flushBatch_up ctx w Htx) as Hb. unfold wp in Hb. simpl in Hb.
  destruct (flushBatch batchSize ctx w) as [rb w1]. simpl in Hb. destruct Hb as (Htx1 & -> & Hdb & Htr).
  pose proof (due_without (Z.to_nat batchSize) (w_db w) Hu) as Hdue. rewrite <- Hdb in Hdue.
  assert (length (due (w_db w)) = length (outbox (w_db w))) as Hl
    by (unfold due; by rewrite order_by_perm).
  assert (length (due (w_db w1)) = length (outbox (w_db w1))) as Hl1
    by (unfold due; by rewrite order_by_perm).
  rewrite length_take, Hl. destruct (Z.ltb_spec (Z.of_nat (Z.to_nat batchSize `min` length (outbox (w_db w)))%nat) batchSize).
  - rewrite take_ge in Htr by lia. exists w1. split_and!; [done| |done].
    rewrite drop_ge in Hdue by lia. rewrite Hdue in Hl1. by apply nil_length_inv.
  - rewrite Hdue, length_drop in Hl1. destruct (IH w1) as (w' & -> & Hemp & Htr'); [|done|lia|].
    { rewrite Hdb. unfold without. rewrite outbox_set. by apply unique_on_delete. }
    exists w'. split_and!; [done..|].
    by rewrite Htr', Htr, Hdue, <- app_assoc, <- map_app, take_drop.
Qed.
End Faultless.
End Relay.

(** ** The relay's guarantees *)

Section Guarantees.
Context {D : Type} {E : Env} {HO : HasOutbox D} {BP : BusPublisher D}.

(** C1: The relay's loop refines the abstract relay: whatever ticks, nudges,
    database faults, foreign row locks and bus failures it meets, each run
    is a sequence of abstract steps in which a message is delivered while it
    is pending and forgotten only after it was delivered, and the messages
    the bus accepted are exactly the abstract deliveries, in that order. *)
Theorem Run_refines batchSize signals ctx (w w' : World D) :
  unique_on om_id (outbox (w_db w)) -> w_tx w = None ->
  Run batchSize signals ctx w = Some w' ->
  exists tr acc,
    w_trace w' = w_trace w ++ tr /\ accepted tr = map wire acc /\
    rtc relay_step {| pending := outbox (w_db w); delivered := [] |}
                   {| pending := outbox (w_db w'); delivered := acc |}.
Proof. intros Hu Htx Hrun. by destruct (Run_relayed batchSize signals ctx w w' Hu Htx Hrun). Qed.

(** C2: At-least-once delivery: with a positive batch size the relay's loop always
    returns, whatever fails, and afterwards every message that was in the
    outbox is still there or was accepted by the bus; nothing is published
    that was not in the outbox, and no message appears in it. *)
Theorem relay_at_least_once batchSize signals ctx (w : World D) :
  0 < batchSize -> unique_on om_id (outbox (w_db w)) -> w_tx w = None ->
  exists w' tr,
    Run batchSize signals ctx w = Some w' /\ w_trace w' = w_trace w ++ tr /\
    (forall r, r ∈ outbox (w_db w) -> r ∈ outbox (w_db w') \/ wire r ∈ accepted tr) /\
    (forall m, m ∈ accepted tr -> exists r, r ∈ outbox (w_db w) /\ wire r = m) /\
    (forall r, r ∈ outbox (w_db w') -> r ∈ outbox (w_db w)).
Proof.
  intros Hbs Hu Htx. destruct (Run_total batchSize signals ctx w) as [w' Hrun]; [done..|].
  destruct (Run_relayed batchSize signals ctx w w' Hu Htx Hrun) as ((tr & acc & Htr & Hacc & Hs) & _).
  apply (relay_inv_steps (outbox (w_db w))) in Hs as (Hl & Hp & Hd);
    [|unfold relay_inv, abs; simpl; set_solver]. simpl in *.
  exists w', tr. rewrite Hacc. split_and!; [done..| | |done].
  - intros r Hr. destruct (Hl r Hr); [by left|right]. by apply list_elem_of_fmap_2.
  - intros m (r & -> & Hr)%list_elem_of_fmap. eauto.
Qed.

(** C13: Completeness and order: when nothing fails and no row is locked, one
    [flush] publishes every message of the outbox exactly once, in increasing
    id order, and leaves the outbox empty, however many batches that takes. *)
Theorem flush_complete batchSize ctx (w : World D) :
  (forall n, env_db n = None) -> (forall n id, env_locked n id = false) ->
  (forall ctx s d (w : World D), is_ok (fst (Publish ctx s d w)) = true) ->
  0 < batchSize -> unique_on om_id (outbox (w_db w)) -> w_tx w = None ->
  exists w' sorted,
    flush_loop batchSize (flush_fuel w) ctx w = Some (Ok tt, w') /\
    outbox (w_db w') = [] /\
    w_trace w' = w_trace w ++ map (pub true) sorted /\
    sorted ≡ₚ outbox (w_db w) /\ Sorted (fun a b => om_id a <= om_id b) sorted.
Proof.
  intros Hf Hl Hb Hbs Hu Htx.
  destruct (flush_loop_up batchSize Hf Hl Hb Hbs (flush_fuel w) ctx w) as (w' & ? & ? & ?);
    [done..|unfold flush_fuel; lia|].
  exists w', (due (w_db w)). split_and!; [done..| |]; unfold due; [apply order_by_perm|apply order_by_sorted].
Qed.
End Guarantees.

(** ** Witnesses: an outbox of three messages, batches of two *)

#[export] Instance list_HasOutbox : HasOutbox (list OutboxRow) := {|
  outbox l := l; set_outbox l _ := l;
  outbox_set _ _ := eq_refl; set_outbox_set _ _ _ := eq_refl; set_outbox_same _ := eq_refl
|}.

Definition row3 (id : Z) : OutboxRow :=
  {| om_id := id; om_subject := "saga.compensate"; om_payload := "{}"; om_created_at := 0 |}.
Definition rows3 : list OutboxRow := [row3 3; row3 1; row3 2].

(** The second publication is refused, the first DELETE and a later SELECT
    fail: the first message is delivered twice. *)
Definition faulty : Env := env_with [4%nat; 12%nat] [3%nat] [] [].

Definition faulty_bus : BusPublisher (list OutboxRow) := Conn_BusPublisher (H := faulty).
Definition quiet_bus : BusPublisher (list OutboxRow) := Conn_BusPublisher (H := quiet_env).

Lemma rows3_unique : unique_on om_id rows3.
Proof. unfold unique_on. simpl. repeat constructor; set_solver. Qed.

Lemma Run_refines_witness :
  exists w', Run (E := faulty) (BP := faulty_bus) 2 [SigTick; SigNudge; SigTick; SigDone] Background (world_of rows3) = Some w' /\
    map om_id (outbox (w_db w')) = [3] /\
    exists tr acc, w_trace w' = [] ++ tr /\ accepted tr = map wire acc /\
      rtc relay_step {| pending := rows3; delivered := [] |}
                     {| pending := outbox (w_db w'); delivered := acc |}.
Proof.
  eexists. split; [vm_compute; reflexivity|]. split; [reflexivity|].
  refine (Run_refines (E := faulty) (BP := faulty_bus) 2 [SigTick; SigNudge; SigTick; SigDone]
    Background (world_of rows3) _ rows3_unique eq_refl _).
  vm_compute. reflexivity.
Defined.

Lemma relay_at_least_once_witness :
  exists w' tr,
    Run (E := faulty) (BP := faulty_bus) 2 [SigTick; SigTick] Background (world_of rows3) = Some w' /\
    w_trace w' = [] ++ tr /\
    (forall r, r ∈ rows3 -> r ∈ outbox (w_db w') \/ wire r ∈ accepted tr) /\
    (forall m, m ∈ accepted tr -> exists r, r ∈ rows3 /\ wire r = m) /\
    (forall r, r ∈ outbox (w_db w') -> r ∈ rows3).
Proof.
  refine (relay_at_least_once (E := faulty) (BP := faulty_bus) 2 [SigTick; SigTick] Background
    (world_of rows3) _ _ _);
    [lia|exact rows3_unique|reflexivity].
Defined.

Lemma flush_complete_witness :
  exists w' sorted,
    flush_loop (E := quiet_env) (BP := quiet_bus) 2 4 Background (world_of rows3) = Some (Ok tt, w') /\
    outbox (w_db w') = [] /\ w_trace w' = [] ++ map (pub true) sorted /\
    sorted ≡ₚ rows3 /\ Sorted (fun a b => om_id a <= om_id b) sorted.
Proof.
  refine (flush_complete (E := quiet_env) (BP := quiet_bus) 2 Background (world_of rows3) _ _ _ _ _ _);
    [reflexivity..|lia|exact rows3_unique|reflexivity].
Defined.
