(* ===== verification/Consumers.v ===== *)
(** * Wiring of event consumers: [internal/bootstrap/bootstrap.go]

    [ConsumerSpec], the table of [EnsureEventStreams], and the decoding
    prologue every event handler starts with.  [wp_decoded] and
    [decoded_garbage] are the rules the services' handlers share. *)

From S2P Require Import Prelude GoErrors Effects Wp Events Broker.

Open Scope string_scope.
Open Scope list_scope.
Open Scope Z_scope.

Record ConsumerSpec (D : Type) := {
  cs_Stream : string;
  cs_Durable : string;
  cs_Subject : string;
  cs_Handler : Handler D;
}.
Arguments cs_Stream {D} _.
Arguments cs_Durable {D} _.
Arguments cs_Subject {D} _.
Arguments cs_Handler {D} _.

(** The streams every service ensures before consuming. *)
Definition event_streams : list (string * list string) :=
  [(StreamSubscriptions, SubjectsSubscriptions); (StreamReleases, SubjectsReleases);
   (StreamNotifications, SubjectsNotifications); (StreamSagas, SubjectsSagas)].

(** ** The prologue of a handler *)

Section Decoded.
Context {D : Type} {V : Validators} {T : Type} {ET : Event T}.

(** [ev, err := events.Unmarshal[T](data); if err != nil { return broker.Terminal(err) }] *)
Definition decoded (data : string) (k : T -> M D unit) : M D unit :=
  match Unmarshal (T := T) data with
  | Err e => fail (Terminal e)
  | Ok ev => k ev
  end.

(** A handler is verified by verifying what follows its decoding. *)
Lemma wp_decoded data (k : T -> M D unit) Q w :
  (forall e, Unmarshal (T := T) data = Err e -> Q (Err (Terminal e)) w) ->
  (forall ev, Unmarshal (T := T) data = Ok ev -> validate ev = true -> wp (k ev) Q w) ->
  wp (decoded data k) Q w.
Proof.
  intros He Hk. unfold decoded. destruct (Unmarshal data) as [ev|e] eqn:Hu.
  - eapply Hk; [done|]. by eapply Unmarshal_valid.
  - by apply wp_fail, He.
Qed.

(** A poison message is terminated and changes nothing. *)
Lemma decoded_garbage `{Env} ctx (h : Handler D) data k w :
  h ctx data = decoded data k -> (forall ev, Unmarshal (T := T) data <> Ok ev) ->
  dispatch ctx h data w = (Ok Term, w).
Proof.
  intros Hh Hu. unfold dispatch, mbind, M_bind, attempt. rewrite Hh. unfold decoded.
  destruct (Unmarshal data) as [ev|e]; [by destruct (Hu ev)|]. done.
Qed.
End Decoded.

(** [logging.WithSagaID] *)
Definition WithSagaID (ctx : Ctx) (id : string) : Ctx :=
  {| ctx_tx := ctx_tx ctx; ctx_sagaID := id; ctx_scanID := ctx_scanID ctx;
     ctx_requestID := ctx_requestID ctx; ctx_protocol := ctx_protocol ctx |}.

(** [logging.WithScanID] *)
Definition WithScanID (ctx : Ctx) (id : string) : Ctx :=
  {| ctx_tx := ctx_tx ctx; ctx_sagaID := ctx_sagaID ctx; ctx_scanID := id;
     ctx_requestID := ctx_requestID ctx; ctx_protocol := ctx_protocol ctx |}.
