(* ===== verification/Saga.v ===== *)
(** * The saga orchestrator: [internal/saga]

    The Subscribe saga's state machine ([domain]), its table ([repository]),
    the coordinator's reactions to events ([usecase/coordinator]), the two
    compensators behind one interface, and the event consumer. *)

From S2P Require Import Prelude GoErrors Effects Wp Sql Json Events Uuid Broker Outbox Consumers.

Open Scope string_scope.
Open Scope list_scope.
Open Scope Z_scope.

(** ** [domain] *)

Notation SagaType := string (only parsing).
Definition SagaTypeSubscribe : SagaType := "subscribe".

Inductive State :=
| StatePending | StateConfirmationSent | StateCompleted | StateCompensated | StateExpired.

Global Instance State_eq_dec : EqDecision State.
Proof. solve_decision. Defined.

Definition state_string (s : State) : string :=
  match s with
  | StatePending => "pending"
  | StateConfirmationSent => "confirmation_sent"
  | StateCompleted => "completed"
  | StateCompensated => "compensated"
  | StateExpired => "expired"
  end.

Record Saga := {
  sg_ID : UUID;
  sg_Type : SagaType;
  sg_State : State;
  sg_Email : string;
  sg_RepoName : string;
  sg_CreatedAt : Z;
  sg_UpdatedAt : Z;
}.

Global Instance Saga_eq_dec : EqDecision Saga.
Proof. solve_decision. Defined.

(** The map literal; Go iterates a map in no particular order, and the result
    of [SourceStates] is used as a set. *)
Definition allowedTransitions : list (State * list State) :=
  [(StatePending, [StateConfirmationSent; StateCompleted; StateCompensated; StateExpired]);
   (StateConfirmationSent, [StateCompleted; StateCompensated; StateExpired])].

Definition SourceStates (to : State) : list State :=
  flat_map (fun '(from, targets) =>
    flat_map (fun t => if bool_decide (t = to) then [from] else []) targets) allowedTransitions.

(** ** The database of the service *)

Record SagaDB := { sagas : list Saga; saga_outbox : list OutboxRow }.

Definition set_sagas (l : list Saga) (d : SagaDB) : SagaDB :=
  {| sagas := l; saga_outbox := saga_outbox d |}.

#[export] Instance SagaDB_HasOutbox : HasOutbox SagaDB.
Proof.
  refine {| outbox := saga_outbox;
            set_outbox l d := {| sagas := sagas d; saga_outbox := l |} |}; intros; by destruct d.
Defined.

(** The row's key: UNIQUE (type, email, repo_name). *)
Definition saga_key (s : Saga) : SagaType * string * string :=
  (sg_Type s, sg_Email s, sg_RepoName s).

Definition moved (to : State) (now : Z) (s : Saga) : Saga :=
  {| sg_ID := sg_ID s; sg_Type := sg_Type s; sg_State := to; sg_Email := sg_Email s;
     sg_RepoName := sg_RepoName s; sg_CreatedAt := sg_CreatedAt s; sg_UpdatedAt := now |}.

(** ** [adapter/repository] *)

Module SagaRepository.
Section Repository.
Context {E : Env} {V : Validators} {U : UUIDLib}.

(** INSERT ... ON CONFLICT (type, email, repo_name) DO UPDATE
    SET id = EXCLUDED.id, state = EXCLUDED.state, updated_at = now() *)
Definition start_stmt (s : Saga) : Stmt SagaDB unit := fun sc d =>
  let hit := key_is saga_key (saga_key s) in
  if exists_where hit (sagas d) then
    if exists_where (fun r => negb (hit r) && key_is sg_ID (sg_ID s) r) (sagas d)
    then inl "duplicate key value violates unique constraint sagas_pkey"
    else inr (tt, set_sagas (update_where hit
      (fun r => {| sg_ID := sg_ID s; sg_Type := sg_Type r; sg_State := StatePending;
                   sg_Email := sg_Email r; sg_RepoName := sg_RepoName r;
                   sg_CreatedAt := sg_CreatedAt r; sg_UpdatedAt := sc_now sc |}) (sagas d)) d)
  else if exists_where (key_is sg_ID (sg_ID s)) (sagas d)
  then inl "duplicate key value violates unique constraint sagas_pkey"
  else inr (tt, set_sagas (insert_row
    {| sg_ID := sg_ID s; sg_Type := sg_Type s; sg_State := StatePending; sg_Email := sg_Email s;
       sg_RepoName := sg_RepoName s; sg_CreatedAt := sc_now sc; sg_UpdatedAt := sc_now sc |} (sagas d)) d).

Definition Start (ctx : Ctx) (s : Saga) : M SagaDB unit :=
  wrapping "start saga" (run (FromContext ctx) None (start_stmt s)).

Definition sourceStrings (to : State) : list string := map state_string (SourceStates to).

(** UPDATE sagas SET state = $2, updated_at = now() WHERE ... AND state = ANY($3) *)
Definition transition_stmt (sel : Saga -> bool) (to : State) : Stmt SagaDB Z := fun sc d =>
  let p s := sel s && bool_decide (state_string (sg_State s) ∈ sourceStrings to) in
  inr (rows_matching p (sagas d), set_sagas (update_where p (moved to (sc_now sc)) (sagas d)) d).

Definition TransitionByID (ctx : Ctx) (id : UUID) (to : State) : M SagaDB bool :=
  n ← wrapping ("transition saga " +:+ uuid_String id +:+ " -> " +:+ state_string to)
        (run (FromContext ctx) None (transition_stmt (key_is sg_ID id) to));
  mret (0 <? n).

Definition TransitionByEmailRepo (ctx : Ctx) (t : SagaType) (email repoName : string) (to : State)
    : M SagaDB bool :=
  n ← wrapping ("transition saga (" +:+ email +:+ ", " +:+ repoName +:+ ") -> " +:+ state_string to)
        (run (FromContext ctx) None (transition_stmt (key_is saga_key (t, email, repoName)) to));
  mret (0 <? n).

(** QueryRow(...).Scan: the first row, or [pgx.ErrNoRows]. *)
Definition get_stmt (id : UUID) : Stmt SagaDB (option Saga) := fun _ d =>
  inr (head (select_where (key_is sg_ID id) (sagas d)), d).

Definition Get (ctx : Ctx) (id : UUID) : M SagaDB (option Saga) :=
  wrapping ("get saga " +:+ uuid_String id) (run (FromContext ctx) None (get_stmt id)).
End Repository.
End SagaRepository.

(** ** [usecase/coordinator] *)

(** What the coordinator expects of a compensator. *)
Class Compensator := { comp_Compensate : Ctx -> Saga -> M SagaDB unit }.

Module Coordinator.
Import SagaRepository.
Section Coordinator.
Context {E : Env} {V : Validators} {U : UUIDLib} {C : Compensator}.

(** The saga passed to [Start] has an empty State and zero times, which [Start]
    does not read. *)
Definition OnPending (ctx : Ctx) (sagaID email repoName : string) : M SagaDB unit :=
  match parse_uuid "parse saga id" sagaID with
  | Err e => fail e
  | Ok id => Start ctx {| sg_ID := id; sg_Type := SagaTypeSubscribe; sg_State := StatePending;
                          sg_Email := email; sg_RepoName := repoName;
                          sg_CreatedAt := 0; sg_UpdatedAt := 0 |}
  end.

Definition OnConfirmationSent (ctx : Ctx) (sagaID : string) : M SagaDB unit :=
  match parse_uuid "parse saga id" sagaID with
  | Err e => fail e
  | Ok id => _ ← TransitionByID ctx id StateConfirmationSent; mret tt
  end.

Definition OnConfirmed (ctx : Ctx) (email repoName : string) : M SagaDB unit :=
  _ ← TransitionByEmailRepo ctx SagaTypeSubscribe email repoName StateCompleted; mret tt.

Definition OnExpired (ctx : Ctx) (email repoName : string) : M SagaDB unit :=
  _ ← TransitionByEmailRepo ctx SagaTypeSubscribe email repoName StateExpired; mret tt.

Definition OnConfirmationDead (ctx : Ctx) (sagaID : string) : M SagaDB unit :=
  match parse_uuid "parse saga id" sagaID with
  | Err e => fail e
  | Ok id =>
      saga ← Get ctx id;
      match saga with
      | None => mret tt
      | Some s =>
          match sg_State s with
          | StateCompleted | StateExpired | StateCompensated => mret tt
          | StatePending | StateConfirmationSent => comp_Compensate ctx s
          end
      end
  end.
End Coordinator.
End Coordinator.

(** ** [adapter/eventpublisher] and the compensators *)

Module Compensators.
Import SagaRepository.
Section Compensators.
Context {E : Env} {V : Validators} {U : UUIDLib}.

(** [(p *Publisher) Compensate] *)
Definition Publisher_Compensate (ctx : Ctx) (ev : SagaCompensate) : M SagaDB unit :=
  enqueue ctx SubjectSagaCompensate ev.

Definition compensate_event (saga : Saga) : SagaCompensate :=
  {| sgc_SagaID := uuid_String (sg_ID saga); sgc_SagaType := sg_Type saga;
     sgc_Email := sg_Email saga; sgc_RepoName := sg_RepoName saga |}.

(** [(n *NATSCompensator) Compensate] *)
Definition NATSCompensator_Compensate (ctx : Ctx) (saga : Saga) : M SagaDB unit :=
  _ ← Within ctx (fun txCtx =>
        _ ← TransitionByID txCtx (sg_ID saga) StateCompensated;
        Publisher_Compensate txCtx (compensate_event saga));
  Notify.

(** [(c *Client) Compensate] of [adapter/compensationclient] *)
Definition Client_Compensate (ctx : Ctx) (sagaID sagaType email repoName : string) : M SagaDB bool :=
  r ← oracle env_compensate;
  _ ← emit (XCompensate sagaID sagaType email repoName);
  match r with
  | inl msg => fail (Errorf "compensate rpc" (ErrText msg))
  | inr rolledBack => mret rolledBack
  end.

(** [(g *GRPCCompensator) Compensate] *)
Definition GRPCCompensator_Compensate (ctx : Ctx) (saga : Saga) : M SagaDB unit :=
  _ ← TransitionByID ctx (sg_ID saga) StateCompensated;
  _ ← Client_Compensate ctx (uuid_String (sg_ID saga)) (sg_Type saga) (sg_Email saga) (sg_RepoName saga);
  mret tt.

Definition NATSCompensator : Compensator := {| comp_Compensate := NATSCompensator_Compensate |}.
Definition GRPCCompensator : Compensator := {| comp_Compensate := GRPCCompensator_Compensate |}.

(** [bootstrap/saga/coordinator.go]: the transport picks the compensator. *)
Definition transportGRPC : string := "grpc".
Definition newCoordinator (compensateTransport : string) : Compensator :=
  if String.eqb compensateTransport transportGRPC then GRPCCompensator else NATSCompensator.
End Compensators.
End Compensators.

(** ** [adapter/eventconsumer] *)

Module SagaConsumer.
Import Coordinator.
Section Consumer.
Context {E : Env} {V : Validators} {U : UUIDLib} {C : Compensator}.

Definition HandlePending : Handler SagaDB := fun ctx data =>
  decoded data (fun ev : SubscriptionPending =>
    OnPending (WithSagaID ctx (sp_SagaID ev)) (sp_SagaID ev) (sp_Email ev) (sp_RepoName ev)).

Definition HandleConfirmationSent : Handler SagaDB := fun ctx data =>
  decoded data (fun ev : NotificationConfirmationSent =>
    OnConfirmationSent (WithSagaID ctx (ncs_SagaID ev)) (ncs_SagaID ev)).

Definition HandleConfirmationDead : Handler SagaDB := fun ctx data =>
  decoded data (fun ev : NotificationConfirmationDead =>
    OnConfirmationDead (WithSagaID ctx (ncd_SagaID ev)) (ncd_SagaID ev)).

Definition HandleConfirmed : Handler SagaDB := fun ctx data =>
  decoded data (fun ev : SubscriptionConfirmed =>
    OnConfirmed (WithSagaID ctx (sc_SagaID ev)) (sc_Email ev) (sc_RepoName ev)).

Definition HandleExpired : Handler SagaDB := fun ctx data =>
  decoded data (fun ev : SubscriptionExpired =>
    OnExpired (WithSagaID ctx (se_SagaID ev)) (se_Email ev) (se_RepoName ev)).

(** [bootstrap/saga/consumers.go] *)
Definition startConsumers : list (ConsumerSpec SagaDB) :=
  [{| cs_Stream := StreamSubscriptions; cs_Durable := "saga-subscription-pending";
      cs_Subject := SubjectSubscriptionPending; cs_Handler := HandlePending |};
   {| cs_Stream := StreamSubscriptions; cs_Durable := "saga-subscription-confirmed";
      cs_Subject := SubjectSubscriptionConfirmed; cs_Handler := HandleConfirmed |};
   {| cs_Stream := StreamSubscriptions; cs_Durable := "saga-subscription-expired";
      cs_Subject := SubjectSubscriptionExpired; cs_Handler := HandleExpired |};
   {| cs_Stream := StreamNotifications; cs_Durable := "saga-notification-confirmation-sent";
      cs_Subject := SubjectNotificationConfirmationSent; cs_Handler := HandleConfirmationSent |};
   {| cs_Stream := StreamNotifications; cs_Durable := "saga-notification-confirmation-dead";
      cs_Subject := SubjectNotificationConfirmationDead; cs_Handler := HandleConfirmationDead |}].
End Consumer.
End SagaConsumer.
