(* ===== verification/SagaFacts.v ===== *)
(** * The saga orchestrator refines its state machine

    The abstract saga table maps (type, email, repo) to a saga id and a state,
    and [saga_spec] says what each event does to it.  [coordinator_refines_spec]
    shows that the coordinator implements it for every behaviour of the
    database and every compensator that meets [CompensatorSpec]; both of the
    sources' compensators do.  The NATS compensator is moreover atomic. *)

From S2P Require Import Prelude GoErrors Effects Wp Sql Json JsonFacts Events Uuid Broker Outbox Consumers Saga Quiet.
From S2P Require Import Concrete.
Import SagaRepository Coordinator Compensators SagaConsumer.

Open Scope string_scope.
Open Scope list_scope.
Open Scope Z_scope.

(** ** The abstract state machine *)

Notation SagaKey := (string * string * string)%type.
Notation SagaMap := (gmap SagaKey (UUID * State)).

Definition abs_sagas (l : list Saga) : SagaMap :=
  table_map saga_key (fun s => (sg_ID s, sg_State s)) l.

(** The events the orchestrator consumes. *)
Inductive SagaMsg :=
| MPending (sagaID email repo : string)
| MConfirmationSent (sagaID : string)
| MConfirmationDead (sagaID : string)
| MConfirmed (email repo : string)
| MExpired (email repo : string).

Definition terminal (s : State) : bool :=
  match s with StateCompleted | StateCompensated | StateExpired => true | _ => false end.

(** The saga's life: pending, then maybe sent, then one terminal state. *)
Definition may_move (from to : State) : bool :=
  match from, to with
  | StatePending, StateConfirmationSent => true
  | (StatePending | StateConfirmationSent), (StateCompleted | StateCompensated | StateExpired) => true
  | _, _ => false
  end.

Definition advance (to : State) (v : UUID * State) : UUID * State :=
  if may_move (snd v) to then (fst v, to) else v.

Definition advance_id (id : UUID) (to : State) (m : SagaMap) : SagaMap :=
  (fun v => if bool_decide (fst v = id) then advance to v else v) <$> m.

Section Spec.
Context {V : Validators} {U : UUIDLib}.

Definition saga_spec (msg : SagaMsg) (m : SagaMap) : SagaMap :=
  match msg with
  | MPending sagaID email repo =>
      match uuid_Parse sagaID with
      | inr id => <[(SagaTypeSubscribe, email, repo) := (id, StatePending)]> m
      | inl _ => m
      end
  | MConfirmationSent sagaID =>
      match uuid_Parse sagaID with inr id => advance_id id StateConfirmationSent m | inl _ => m end
  | MConfirmationDead sagaID =>
      match uuid_Parse sagaID with inr id => advance_id id StateCompensated m | inl _ => m end
  | MConfirmed email repo => alter (advance StateCompleted) (SagaTypeSubscribe, email, repo) m
  | MExpired email repo => alter (advance StateExpired) (SagaTypeSubscribe, email, repo) m
  end.
End Spec.

(** *** The transition table *)

Lemma SourceStates_spec from to : from ∈ SourceStates to <-> may_move from to = true.
Proof.
  split.
  - destruct to; vm_compute SourceStates; rewrite ?elem_of_cons, ?elem_of_nil; intros H;
      repeat destruct H as [->|H]; done.
  - destruct from, to; try done; intros _; vm_compute SourceStates; rewrite ?elem_of_cons; auto.
Qed.

Global Instance state_string_inj : Inj (=) (=) state_string.
Proof. intros [] []; done. Qed.

Lemma sourceStrings_spec from to :
  bool_decide (state_string from ∈ sourceStrings to) = may_move from to.
Proof.
  unfold sourceStrings. destruct (may_move from to) eqn:Hm.
  - apply bool_decide_eq_true_2. apply list_elem_of_fmap_2. by apply SourceStates_spec.
  - apply bool_decide_eq_false_2. intros (s & ->%(inj _) & Hs)%list_elem_of_fmap.
    apply SourceStates_spec in Hs. congruence.
Qed.

(** ** The table as a map *)

Definition transition (sel : Saga -> bool) (to : State) (now : Z) (l : list Saga) : list Saga :=
  update_where (fun s => sel s && may_move (sg_State s) to) (moved to now) l.

Lemma transition_keys sel to now l : map saga_key (transition sel to now l) = map saga_key l.
Proof.
  unfold transition, update_where. rewrite map_map. apply map_ext.
  intros s. by destruct (sel s && _).
Qed.

Lemma transition_ids sel to now l : map sg_ID (transition sel to now l) = map sg_ID l.
Proof.
  unfold transition, update_where. rewrite map_map. apply map_ext.
  intros s. by destruct (sel s && _).
Qed.

Lemma abs_sagas_lookup l k v :
  unique_on saga_key l ->
  abs_sagas l !! k = Some v <-> exists s, s ∈ l /\ saga_key s = k /\ (sg_ID s, sg_State s) = v.
Proof. apply table_map_lookup. Qed.

Lemma abs_sagas_cons s l : abs_sagas (s :: l) = <[saga_key s := (sg_ID s, sg_State s)]> (abs_sagas l).
Proof. done. Qed.

Lemma abs_transition_id id to now l :
  abs_sagas (transition (key_is sg_ID id) to now l) = advance_id id to (abs_sagas l).
Proof.
  unfold advance_id. induction l as [|s l IH]; [done|].
  change (transition (key_is sg_ID id) to now (s :: l)) with
    ((if key_is sg_ID id s && may_move (sg_State s) to then moved to now s else s)
       :: transition (key_is sg_ID id) to now l).
  rewrite !abs_sagas_cons, IH, fmap_insert. unfold key_is, advance. simpl.
  destruct (bool_decide (sg_ID s = id)); simpl; [|done].
  by destruct (may_move (sg_State s) to).
Qed.

Lemma abs_transition_key k to now l :
  unique_on saga_key l ->
  abs_sagas (transition (key_is saga_key k) to now l) = alter (advance to) k (abs_sagas l).
Proof.
  apply (table_map_update _ _ k (fun s => may_move (sg_State s) to)); [done|].
  intros s. unfold advance. simpl. by destruct (may_move (sg_State s) to).
Qed.

(** ** The table's invariant *)

Section Refinement.
Context {E : Env} {V : Validators} {U : UUIDLib}.
Implicit Types (w : World SagaDB) (d : SagaDB).

(** The compensation command of the saga passes validation. *)
Definition saga_wf (s : Saga) : Prop :=
  is_uuid (sg_ID s) = true /\ validate (compensate_event s) = true.

Definition saga_inv d : Prop :=
  unique_on sg_ID (sagas d) /\ unique_on saga_key (sagas d) /\ Forall saga_wf (sagas d).

Lemma saga_wf_moved to now s : saga_wf s -> saga_wf (moved to now s).
Proof. done. Qed.

Lemma saga_inv_transition sel to now d :
  saga_inv d -> saga_inv (set_sagas (transition sel to now (sagas d)) d).
Proof.
  intros (Hid & Hk & Hwf). unfold saga_inv, unique_on, set_sagas. simpl.
  rewrite transition_ids, transition_keys. split_and!; [done..|].
  apply Forall_forall. intros s (s0 & Hs0 & ->)%elem_of_update.
  rewrite Forall_forall in Hwf. specialize (Hwf s0 Hs0).
  by destruct (_ && _); [apply saga_wf_moved|].
Qed.

Lemma saga_inv_sagas d d' : saga_inv d -> sagas d' = sagas d -> saga_inv d'.
Proof. unfold saga_inv. by intros ? ->. Qed.

(** *** Statements *)

Lemma transition_stmt_eq sel to sc d :
  transition_stmt sel to sc d =
  inr (rows_matching (fun s => sel s && may_move (sg_State s) to) (sagas d),
       set_sagas (transition sel to (sc_now sc) (sagas d)) d).
Proof.
  unfold transition_stmt, transition, rows_matching, select_where, update_where.
  do 2 f_equal; [do 2 f_equal; apply filter_ext|f_equal; apply map_ext]; intros s;
    by rewrite sourceStrings_spec.
Qed.

(** What [Start] makes of the table. *)
Lemma start_stmt_spec s sc d d' :
  saga_inv d -> saga_wf s -> start_stmt s sc d = inr (tt, d') ->
  saga_inv d' /\ saga_outbox d' = saga_outbox d /\
  abs_sagas (sagas d') = <[saga_key s := (sg_ID s, StatePending)]> (abs_sagas (sagas d)).
Proof.
  intros (Hid & Hk & Hwf) Hs. unfold start_stmt.
  destruct (exists_where (key_is saga_key (saga_key s)) (sagas d)) eqn:Hhit.
  - destruct (exists_where (fun r => negb _ && _) _) eqn:Hdup; [done|]. intros [= <-].
    unfold saga_inv, set_sagas. simpl.
    set (f := fun r => _). split_and!; [|by apply unique_on_update| |done|by apply table_map_set].
    + by apply (unique_on_rekey sg_ID saga_key f (saga_key s) (sg_ID s)).
    + apply Forall_forall. intros r (r0 & Hr0 & ->)%elem_of_update.
      rewrite Forall_forall in Hwf. specialize (Hwf r0 Hr0).
      unfold key_is. destruct (bool_decide_reflect (saga_key r0 = saga_key s)) as [Heq|]; [|done].
      unfold saga_key in Heq. injection Heq as Ht He Hr. unfold f, saga_wf, compensate_event. simpl.
      by rewrite Ht, He, Hr.
  - destruct (exists_where (key_is sg_ID (sg_ID s)) (sagas d)) eqn:Hdup; [done|]. intros [= <-].
    unfold saga_inv, set_sagas. simpl. split_and!; [by apply unique_on_insert..| |done|].
    + apply Forall_forall. intros r [Hr| ->]%elem_of_insert_row; [|done].
      rewrite Forall_forall in Hwf. auto.
    + by apply (table_map_insert saga_key (fun s => (sg_ID s, sg_State s)) {| sg_ID := sg_ID s; sg_Type := sg_Type s; sg_State := StatePending;
        sg_Email := sg_Email s; sg_RepoName := sg_RepoName s; sg_CreatedAt := sc_now sc; sg_UpdatedAt := sc_now sc |}).
Qed.

(** At most one message with a fresh id joins the outbox. *)
Definition outbox_grows d d' : Prop :=
  saga_outbox d' = saga_outbox d \/
  exists row, exists_where (key_is om_id (om_id row)) (saga_outbox d) = false /\
    saga_outbox d' = saga_outbox d ++ [row].

Lemma outbox_grows_same d d' : d' = d -> outbox_grows d d'.
Proof. intros ->. by left. Qed.

(** *** Repository methods on the pool *)

Lemma FromContext_pool ctx : txFromContext ctx = false -> FromContext ctx = QPool.
Proof. unfold FromContext. by intros ->. Qed.

(** A conditional transition, outside a transaction. *)
Lemma wp_transition_pool {A} pre sel to (k : Z -> A) (Q : res A -> World SagaDB -> Prop) w :
  (forall e w', retryable (A := A) (Err e) = true -> quiet_step w w' -> w_tx w' = w_tx w -> w_db w' = w_db w ->
     Q (Err e) w') ->
  (forall now n w', quiet_step w w' -> w_tx w' = w_tx w ->
     w_db w' = set_sagas (transition sel to now (sagas (w_db w))) (w_db w) ->
     Q (Ok (k n)) w' /\ forall e, Q (Err e) w') ->
  wp (n ← wrapping pre (run QPool None (transition_stmt sel to)); mret (k n)) Q w.
Proof.
  intros Hfail Hok. wp_steps. apply wp_run_pool.
  - intros msg w' ? ? ?. by apply Hfail.
  - intros sc n d w' Hst ? ? Hd. rewrite transition_stmt_eq in Hst. injection Hst as <- <-.
    edestruct (Hok (sc_now sc)) as [Hq He]; [done..|]. split; [|intros msg; apply He].
    simpl. wp_steps. exact Hq.
Qed.

(** ** The compensator's contract *)

(** It marks the saga compensated, or fails and leaves the table alone; when
    it reports success the saga is marked; it may enqueue a message. *)
Class CompensatorSpec (C : Compensator) : Prop :=
  compensate_spec : forall ctx s w,
    txFromContext ctx = false -> w_tx w = None -> saga_wf s ->
    wp (comp_Compensate ctx s) (fun r w' =>
      w_tx w' = None /\ outbox_grows (w_db w) (w_db w') /\
      ((sagas (w_db w') = sagas (w_db w) /\ retryable r = true) \/
       exists now, sagas (w_db w') = transition (key_is sg_ID (sg_ID s)) StateCompensated now (sagas (w_db w)))) w.

Lemma wp_Client_Compensate ctx sid st em rp (Q : res bool -> World SagaDB -> Prop) w :
  (forall r w', w_db w' = w_db w -> w_tx w' = w_tx w -> w_nudge w' = w_nudge w ->
     w_trace w' = w_trace w ++ [XCompensate sid st em rp] -> Q r w') ->
  wp (Client_Compensate ctx sid st em rp) Q w.
Proof.
  intros HQ. unfold Client_Compensate. wp_steps.
  destruct (env_compensate (w_tick w)); wp_steps; by apply HQ.
Qed.

#[export] Instance GRPCCompensator_spec : CompensatorSpec GRPCCompensator.
Proof.
  intros ctx s w Hctx Htx Hwf. simpl. unfold GRPCCompensator_Compensate, TransitionByID.
  rewrite FromContext_pool by done. apply wp_bind, wp_transition_pool; [eauto|].
  - intros e w' He _ Htx' Hdb. rewrite Htx', Hdb. split_and!; [done|by left|auto].
  - intros now n w' _ Htx' Hdb. rewrite Htx', Hdb.
    assert (w_tx w' = None) as Hn by congruence. split; [|intros e; split_and!; [done|by left|eauto]].
    apply wp_bind, wp_Client_Compensate. intros r w2 Hdb2 Htx2 _ _.
    assert (sagas (w_db w2) = transition (key_is sg_ID (sg_ID s)) StateCompensated now (sagas (w_db w))) as Hs
      by (by rewrite Hdb2, Hdb).
    destruct r; [wp_steps|]; (split_and!; [congruence|left; by rewrite Hdb2, Hdb|eauto]).
Qed.

(** What the NATS compensator's transaction does, all of it or none. *)
Definition compensated (s : Saga) (d d' : SagaDB) : Prop :=
  exists now id at_,
    exists_where (key_is om_id id) (saga_outbox d) = false /\
    d' = {| sagas := transition (key_is sg_ID (sg_ID s)) StateCompensated now (sagas d);
            saga_outbox := saga_outbox d ++ [outbox_row id SubjectSagaCompensate (compensate_event s) at_] |}.

Lemma NATSCompensator_atomic ctx s w :
  txFromContext ctx = false -> w_tx w = None -> validate (compensate_event s) = true ->
  wp (NATSCompensator_Compensate ctx s) (fun r w' =>
    w_tx w' = None /\ w_trace w' = w_trace w /\
    ((w_db w' = w_db w /\ retryable r = true) \/ compensated s (w_db w) (w_db w')) /\
    (is_ok r = true -> w_nudge w' = true)) w.
Proof.
  intros Hctx Htx Hval. unfold NATSCompensator_Compensate. apply wp_bind, wp_tx; [done| | |done].
  - intros msg w' [-> _] Htx' Hdb. split_and!; eauto. done.
  - intros w1 [Ht1 _] Htx1 Hdb1. unfold TransitionByID. simpl. wp_steps.
    eapply wp_run_tx; [done| |].
    + intros msg w2 [Ht2 _] _ Hdb2 w3 [Ht3 _] Htx3 Hdb3. split_and!; [done|congruence| |done].
      left. split; [congruence|done].
    + intros sc n d w2 Hst [Ht2 _] Htx2 Hdb2. rewrite transition_stmt_eq in Hst. injection Hst as _ <-.
      simpl. wp_steps. eapply wp_enqueue; [done|exact Htx2| |].
      * intros e w3 He [Ht3 _] _ Hdb3 w4 [Ht4 _] Htx4 Hdb4. split_and!; [done|congruence| |done].
        left. split; [congruence|]. simpl. by rewrite (He Hval).
      * intros id at_ w3 _ Hfresh [Ht3 _] Hdb3 Htx3 w4 [Ht4 _] Htx4. rewrite Htx3. simpl.
        assert (w_trace w4 = w_trace w) by congruence.
        split; [intros Hdb4|intros Hdb4 msg; split_and!; [done..| |done]; left; split; [congruence|done]].
        assert (compensated s (w_db w) (w_db w4)) by (rewrite Hdb4; by exists (sc_now sc), id, at_).
        split; [|intros msg]; split_and!; eauto; done.
Qed.

#[export] Instance NATSCompensator_spec : CompensatorSpec NATSCompensator.
Proof.
  intros ctx s w Hctx Htx Hwf. eapply wp_mono; [|by apply NATSCompensator_atomic; [..|apply Hwf]].
  intros r w' (Htx' & _ & [[Hdb Hr]|(now & id & at_ & Hf & Hdb)] & _).
  - split_and!; [done|by left; rewrite Hdb|]. left. by rewrite Hdb.
  - split_and!; [done|right|right; exists now; by rewrite Hdb]. eexists. split; [|by rewrite Hdb]. exact Hf.
Qed.

#[export] Instance newCoordinator_spec transport : CompensatorSpec (newCoordinator transport).
Proof. unfold newCoordinator. destruct (String.eqb _ _); apply _. Qed.
End Refinement.

(** ** The coordinator implements the state machine *)

Section Coordinator.
Context {E : Env} {V : Validators} {U : UUIDLib} {C : Compensator} {CS : CompensatorSpec C}.
Implicit Types (w : World SagaDB).

(** [r] and [w'] are what handling an event whose effect on the abstract table
    is [f] may end in: the table unchanged and an error, or changed by [f]. *)
Definition handled (f : SagaMap -> SagaMap) w (r : res unit) w' : Prop :=
  w_tx w' = None /\ saga_inv (w_db w') /\ outbox_grows (w_db w) (w_db w') /\
  ((abs_sagas (sagas (w_db w')) = abs_sagas (sagas (w_db w)) /\ retryable r = true) \/
   abs_sagas (sagas (w_db w')) = f (abs_sagas (sagas (w_db w)))).

Lemma handled_error f w e w' :
  retryable (A := unit) (Err e) = true -> w_tx w' = None -> saga_inv (w_db w) -> w_db w' = w_db w ->
  handled f w (Err e) w'.
Proof. intros ? ? ? Hdb. split_and!; [done|by rewrite Hdb|by apply outbox_grows_same|]. left. by rewrite Hdb. Qed.

(** A message that says nothing. *)
Lemma handled_none w r w' :
  w_tx w' = None -> saga_inv (w_db w) -> w_db w' = w_db w -> handled (fun m => m) w r w'.
Proof. intros ? ? Hdb. split_and!; [done|by rewrite Hdb|by apply outbox_grows_same|]. right. by rewrite Hdb. Qed.

Lemma OnPending_refines ctx sagaID email repo w :
  txFromContext ctx = false -> w_tx w = None -> saga_inv (w_db w) ->
  (forall id, uuid_Parse sagaID = inr id ->
     validate {| sgc_SagaID := uuid_String id; sgc_SagaType := SagaTypeSubscribe;
                 sgc_Email := email; sgc_RepoName := repo |} = true) ->
  wp (OnPending ctx sagaID email repo) (handled (saga_spec (MPending sagaID email repo)) w) w.
Proof.
  intros Hctx Htx Hinv Hval. unfold OnPending, parse_uuid, saga_spec.
  destruct (uuid_Parse sagaID) as [msg|id] eqn:Hp; [by apply wp_fail, handled_error|].
  unfold Start. rewrite FromContext_pool by done. apply wp_wrapping, wp_run_pool.
  - intros msg w' _ Htx' Hdb. apply handled_error; (done || congruence).
  - intros sc [] d w' Hst _ Htx' Hd.
    apply start_stmt_spec in Hst as (Hinv' & Ho & Habs); [|done|].
    + split; [|intros msg]; (split_and!; [congruence|by rewrite Hd|left; by rewrite Hd|right; by rewrite Hd, Habs]).
    + split; [simpl; by eapply uuid_Parse_length|by apply Hval].
Qed.

Lemma transition_refines pre sel to f w :
  w_tx w = None -> saga_inv (w_db w) ->
  (forall now, abs_sagas (transition sel to now (sagas (w_db w))) = f (abs_sagas (sagas (w_db w)))) ->
  wp (_ ← (n ← wrapping pre (run QPool None (transition_stmt sel to)); mret (0 <? n)); mret tt)
     (handled f w) w.
Proof.
  intros Htx Hinv Hf. apply wp_bind, wp_transition_pool.
  - intros e w' He _ Htx' Hdb. apply handled_error; (done || congruence).
  - intros now n w' _ Htx' Hdb.
    assert (forall r : res unit, handled f w r w').
    { intros r. unfold handled. rewrite Hdb. split_and!; [congruence|by apply saga_inv_transition|by left|].
      right. apply Hf. }
    split; [wp_steps|intros e]; auto.
Qed.

Lemma OnConfirmationSent_refines ctx sagaID w :
  txFromContext ctx = false -> w_tx w = None -> saga_inv (w_db w) ->
  wp (OnConfirmationSent ctx sagaID) (handled (saga_spec (MConfirmationSent sagaID)) w) w.
Proof.
  intros Hctx Htx Hinv. unfold OnConfirmationSent, parse_uuid, saga_spec, TransitionByID.
  destruct (uuid_Parse sagaID) as [msg|id]; [by apply wp_fail, handled_error|].
  rewrite FromContext_pool by done. apply transition_refines; [done..|].
  intros now. apply abs_transition_id.
Qed.

Lemma by_key_refines ctx email repo to w :
  txFromContext ctx = false -> w_tx w = None -> saga_inv (w_db w) ->
  wp (_ ← TransitionByEmailRepo ctx SagaTypeSubscribe email repo to; mret tt)
     (handled (alter (advance to) (SagaTypeSubscribe, email, repo)) w) w.
Proof.
  intros Hctx Htx Hinv. unfold TransitionByEmailRepo. rewrite FromContext_pool by done.
  apply transition_refines; [done..|]. intros now. apply abs_transition_key, Hinv.
Qed.

(** Nothing moves when no row with the id may move. *)
Lemma advance_id_idle l id to :
  unique_on saga_key l ->
  (forall s, s ∈ l -> sg_ID s = id -> may_move (sg_State s) to = false) ->
  advance_id id to (abs_sagas l) = abs_sagas l.
Proof.
  intros Hu Hidle. unfold advance_id. rewrite <- (map_fmap_id (abs_sagas l)) at 2.
  apply map_fmap_ext. intros k v Hv. apply abs_sagas_lookup in Hv as (s & Hs & _ & <-); [|done].
  simpl. case_bool_decide as Hid; [|done]. unfold advance. simpl. by rewrite Hidle.
Qed.

Lemma OnConfirmationDead_refines ctx sagaID w :
  txFromContext ctx = false -> w_tx w = None -> saga_inv (w_db w) ->
  wp (OnConfirmationDead ctx sagaID) (handled (saga_spec (MConfirmationDead sagaID)) w) w.
Proof.
  intros Hctx Htx Hinv. pose proof Hinv as (Hid & Hk & Hwf).
  unfold OnConfirmationDead, parse_uuid, saga_spec, Get.
  destruct (uuid_Parse sagaID) as [msg|id]; [by apply wp_fail, handled_error|].
  rewrite FromContext_pool by done. apply wp_bind, wp_wrapping, wp_run_pool.
  { intros msg w' _ Htx' Hdb. apply handled_error; (done || congruence). }
  intros sc found d w1 Hst _ Htx1 Hd. unfold get_stmt in Hst. injection Hst as <- Hd'.
  assert (w_db w1 = w_db w) as Hdb1 by congruence. clear d Hd Hd'. rewrite Htx in Htx1.
  split; [|intros msg; by apply handled_error].
  assert (forall w', w_tx w' = None -> w_db w' = w_db w ->
    (forall s, s ∈ sagas (w_db w) -> sg_ID s = id -> may_move (sg_State s) StateCompensated = false) ->
    handled (advance_id id StateCompensated) w (Ok tt) w') as Hidle.
  { intros w' ? Hdb Hs. split_and!; [done|by rewrite Hdb|by apply outbox_grows_same|right]. by rewrite Hdb, advance_id_idle. }
  simpl. destruct (select_unique sg_ID (sagas (w_db w)) id Hid) as [Hnil|(s & -> & Hs & Hsid)]; simpl.
  - rewrite Hnil. apply wp_ret, Hidle; [done..|]. intros s Hs Hsid. exfalso.
    by apply (select_key_absent sg_ID (sagas (w_db w)) id s).
  - assert (forall s', s' ∈ sagas (w_db w) -> sg_ID s' = id -> s' = s) as Huniq
      by (intros s' Hs' <-; by apply (unique_on_eq sg_ID (sagas (w_db w)))).
    destruct (sg_State s) eqn:Hst;
      try (apply wp_ret, Hidle; [done..|]; intros s' Hs' Hi'; rewrite (Huniq s'), Hst by done; done).
    all: eapply wp_mono; [|apply compensate_spec; [done..|]; rewrite Forall_forall in Hwf; by apply Hwf].
    all: rewrite Hdb1, Hsid; intros r w2 (Htx2 & Hg & Hl).
    all: split_and!; [done| |done|].
    1, 3: destruct Hl as [[Hl _]|[now Hl]]; [by eapply saga_inv_sagas|];
      eapply saga_inv_sagas; [by apply (saga_inv_transition (key_is sg_ID id) StateCompensated now)|done].
    all: destruct Hl as [[Hl Hr]|[now Hl]]; [left; by rewrite Hl|right; by rewrite Hl, abs_transition_id].
Qed.

(** *** The consumers *)

(** The event a message on a subject stands for. *)
Definition decode_msg (subject data : string) : option SagaMsg :=
  if String.eqb subject SubjectSubscriptionPending then
    match Unmarshal (T := SubscriptionPending) data with
    | Ok ev => Some (MPending (sp_SagaID ev) (sp_Email ev) (sp_RepoName ev)) | Err _ => None end
  else if String.eqb subject SubjectSubscriptionConfirmed then
    match Unmarshal (T := SubscriptionConfirmed) data with
    | Ok ev => Some (MConfirmed (sc_Email ev) (sc_RepoName ev)) | Err _ => None end
  else if String.eqb subject SubjectSubscriptionExpired then
    match Unmarshal (T := SubscriptionExpired) data with
    | Ok ev => Some (MExpired (se_Email ev) (se_RepoName ev)) | Err _ => None end
  else if String.eqb subject SubjectNotificationConfirmationSent then
    match Unmarshal (T := NotificationConfirmationSent) data with
    | Ok ev => Some (MConfirmationSent (ncs_SagaID ev)) | Err _ => None end
  else if String.eqb subject SubjectNotificationConfirmationDead then
    match Unmarshal (T := NotificationConfirmationDead) data with
    | Ok ev => Some (MConfirmationDead (ncd_SagaID ev)) | Err _ => None end
  else None.

Definition spec_of (m : option SagaMsg) (t : SagaMap) : SagaMap :=
  match m with Some m => saga_spec m t | None => t end.

(** A valid pending event yields a saga whose compensation is valid. *)
Lemma pending_valid ev id :
  validate (T := SubscriptionPending) ev = true -> uuid_Parse (sp_SagaID ev) = inr id ->
  validate {| sgc_SagaID := uuid_String id; sgc_SagaType := SagaTypeSubscribe;
              sgc_Email := sp_Email ev; sgc_RepoName := sp_RepoName ev |} = true.
Proof.
  intros Hv Hp%uuid_Parse_length. unfold validate in *. simpl in *.
  rewrite !andb_true_iff in *. destruct Hv as (_ & ? & ? & _). split_and!; try tauto.
  - pose proof (uuid_String_nonempty id). by destruct (uuid_String id).
  - by apply uuid_String_valid.
Qed.

Lemma WithSagaID_tx ctx id : txFromContext (WithSagaID ctx id) = txFromContext ctx.
Proof. done. Qed.

Lemma consumers_refine spec ctx data w :
  spec ∈ startConsumers -> txFromContext ctx = false -> w_tx w = None -> saga_inv (w_db w) ->
  wp (cs_Handler spec ctx data) (handled (spec_of (decode_msg (cs_Subject spec) data)) w) w.
Proof.
  intros Hspec Hctx Htx Hinv. unfold startConsumers in Hspec.
  repeat (apply elem_of_cons in Hspec as [->|Hspec]); [..|by apply elem_of_nil in Hspec];
    unfold decode_msg; simpl; apply wp_decoded;
    try (intros e ->; by apply handled_none);
    intros ev -> Hv; simpl.
  - apply OnPending_refines; [by rewrite ?WithSagaID_tx..|]. intros id. by apply pending_valid.
  - by apply by_key_refines.
  - by apply by_key_refines.
  - by apply OnConfirmationSent_refines.
  - by apply OnConfirmationDead_refines.
Qed.
End Coordinator.

(** The dead event with the NATS compensator: nothing, or an open saga's
    compensation, recorded and announced at once. *)
Lemma OnConfirmationDead_nats `{U : UUIDLib} {E : Env} ctx sagaID w :
  txFromContext ctx = false -> w_tx w = None -> saga_inv (w_db w) ->
  wp (OnConfirmationDead (C := NATSCompensator) ctx sagaID) (fun r w' =>
    w_db w' = w_db w \/
    exists s, s ∈ sagas (w_db w) /\ terminal (sg_State s) = false /\ compensated s (w_db w) (w_db w')) w.
Proof.
  intros Hctx Htx (Hid & Hk & Hwf). unfold OnConfirmationDead, parse_uuid, Get.
  destruct (uuid_Parse sagaID) as [msg|id]; [apply wp_fail; by left|]. rewrite FromContext_pool by done.
  apply wp_bind, wp_wrapping, wp_run_pool; [intros msg w' _ _ Hdb; by left|].
  intros sc found d w1 Hgs _ Htx1 Hd. unfold get_stmt in Hgs. injection Hgs as <- Hd'.
  assert (w_db w1 = w_db w) as Hdb1 by congruence. split; [|intros msg; by left]. simpl.
  destruct (select_unique sg_ID (sagas (w_db w)) id Hid) as [Hnil|(s & -> & Hs & Hsid)];
    [rewrite Hnil; apply wp_ret; by left|].
  simpl. rewrite Forall_forall in Hwf.
  destruct (sg_State s) eqn:Hst; try (apply wp_ret; by left);
    (eapply wp_mono; [|apply NATSCompensator_atomic; [done|congruence|by apply Hwf]]);
    rewrite Hdb1; intros r w2 (_ & _ & [[? _]|?] & _); [by left| |by left|]; right; exists s; by rewrite Hst.
Qed.

(** ** What a saga's state can do *)

Definition for_key (k : SagaKey) (m : SagaMsg) : bool :=
  match m with
  | MPending _ email repo => bool_decide (k = (SagaTypeSubscribe, email, repo))
  | _ => false
  end.

Lemma advance_moves to v : fst (advance to v) = fst v /\ rtc (fun a b => may_move a b = true) (snd v) (snd (advance to v)).
Proof.
  unfold advance. destruct (may_move (snd v) to) eqn:Hm; [|done]. split; [done|]. by apply rtc_once.
Qed.

(** An event other than a new pending subscription for [k] keeps [k]'s saga and
    moves its state forward only. *)
Lemma saga_spec_forward `{U : UUIDLib} m t k id st :
  for_key k m = false -> t !! k = Some (id, st) ->
  exists st', saga_spec m t !! k = Some (id, st') /\ rtc (fun a b => may_move a b = true) st st'.
Proof.
  intros Hk Ht.
  assert (forall to, exists st', (id, st') = advance to (id, st) /\ rtc (fun a b => may_move a b = true) st st') as Hadv.
  { intros to. destruct (advance_moves to (id, st)) as [H1 H2]. simpl in *.
    exists (snd (advance to (id, st))). split; [|done]. rewrite <- H1 at 1. by destruct (advance to (id, st)). }
  assert (forall i to, exists st', advance_id i to t !! k = Some (id, st') /\
    rtc (fun a b => may_move a b = true) st st') as Hid.
  { intros i to. unfold advance_id. rewrite lookup_fmap, Ht. simpl. case_bool_decide; [|eauto using rtc_refl].
    destruct (Hadv to) as (st' & <- & ?). eauto. }
  assert (forall k' to, exists st', alter (advance to) k' t !! k = Some (id, st') /\
    rtc (fun a b => may_move a b = true) st st') as Halt.
  { intros k' to. destruct (decide (k' = k)) as [->|Hne].
    - rewrite lookup_alter_eq, Ht. simpl. destruct (Hadv to) as (st' & <- & ?). eauto.
    - rewrite lookup_alter_ne, Ht by done. eauto using rtc_refl. }
  destruct m as [s e r|s|s|e r|e r]; simpl in *;
    [|destruct (uuid_Parse s); eauto using rtc_refl|destruct (uuid_Parse s); eauto using rtc_refl|eauto|eauto].
  apply bool_decide_eq_false in Hk. destruct (uuid_Parse s); [eauto using rtc_refl|].
  rewrite lookup_insert_ne by done. eauto using rtc_refl.
Qed.

(** One delivery: some consumer of the orchestrator handles a message, with any
    outside world, any compensator that meets its contract and any outcome.
    The consumers run side by side, so that others may come between the two parts
    of [OnConfirmationDead]: [Compensation] is the second, with a saga it has read
    some time before. *)
Inductive saga_delivery `{U : UUIDLib} : SagaDB -> option SagaMsg -> SagaDB -> Prop :=
| Delivery (E : Env) (C : Compensator) (CS : CompensatorSpec C) spec ctx data (w : World SagaDB) :
    spec ∈ startConsumers -> txFromContext ctx = false -> w_tx w = None ->
    saga_delivery (w_db w) (decode_msg (cs_Subject spec) data) (w_db (snd (cs_Handler spec ctx data w)))
| Compensation (E : Env) (C : Compensator) (CS : CompensatorSpec C) ctx sagaID s d0 (w : World SagaDB) :
    uuid_Parse sagaID = inr (sg_ID s) -> s ∈ sagas d0 -> saga_inv d0 -> txFromContext ctx = false -> w_tx w = None ->
    saga_delivery (w_db w) (Some (MConfirmationDead sagaID)) (w_db (snd (comp_Compensate ctx s w))).

(** A history of deliveries. *)
Inductive saga_history `{U : UUIDLib} : SagaDB -> list (option SagaMsg) -> SagaDB -> Prop :=
| History_nil d : saga_history d [] d
| History_cons d1 m d2 ms d3 :
    saga_delivery d1 m d2 -> saga_history d2 ms d3 -> saga_history d1 (m :: ms) d3.

Lemma delivery_refines `{U : UUIDLib} d m d' :
  saga_delivery d m d' -> saga_inv d ->
  saga_inv d' /\
  (abs_sagas (sagas d') = abs_sagas (sagas d) \/ abs_sagas (sagas d') = spec_of m (abs_sagas (sagas d))).
Proof.
  destruct 1 as [E C CS spec ctx data w Hs Hctx Htx|E C CS ctx sagaID s d0 w Hp Hs (_ & _ & Hwf) Hctx Htx]; intros Hinv.
  { destruct (consumers_refine spec ctx data w Hs Hctx Htx Hinv) as (_ & ? & _ & [[? _]|?]); auto. }
  rewrite Forall_forall in Hwf. destruct (compensate_spec ctx s w Hctx Htx (Hwf s Hs)) as (_ & _ & [[Hsg _]|[now Hsg]]).
  - split; [by eapply saga_inv_sagas|left; by rewrite Hsg].
  - split; [|right; rewrite Hsg; simpl; by rewrite Hp, abs_transition_id].
    eapply saga_inv_sagas; [apply (saga_inv_transition (key_is sg_ID (sg_ID s)) StateCompensated now _ Hinv)|done].
Qed.

(** The two parts. *)
Lemma OnConfirmationDead_parts `{U : UUIDLib} {E : Env} {C : Compensator} ctx sagaID id (w : World SagaDB) :
  uuid_Parse sagaID = inr id ->
  OnConfirmationDead ctx sagaID w =
  (saga ← Get ctx id;
   match saga with
   | Some s => if terminal (sg_State s) then mret tt else comp_Compensate ctx s
   | None => mret tt
   end) w.
Proof.
  intros Hp. unfold OnConfirmationDead, parse_uuid. rewrite Hp. unfold mbind, M_bind.
  destruct (Get ctx id w) as [[[s|]|e] w1]; [|done..]. by destruct (sg_State s).
Qed.


(** ** The orchestrator's guarantees *)

Section Guarantees.
Context {V : Validators} {U : UUIDLib}.

(** C4: The orchestrator implements its state machine: whichever consumer handles
    whatever bytes, with any database behaviour and any compensator that
    meets its contract, the saga table keeps its invariant, and its abstract
    content either stays (and the message is redelivered) or changes
    exactly as [saga_spec] says for the decoded event; undecodable bytes
    never change it, and no message ever leaves the outbox. *)
Theorem saga_consumers_refine {E : Env} {C : Compensator} {CS : CompensatorSpec C} spec ctx data w :
  spec ∈ startConsumers -> txFromContext ctx = false -> w_tx w = None -> saga_inv (w_db w) ->
  let '(r, w') := cs_Handler spec ctx data w in
  let spec_m := match decode_msg (cs_Subject spec) data with
                | Some m => saga_spec m
                | None => fun t => t
                end in
  saga_inv (w_db w') /\ w_tx w' = None /\ outbox_grows (w_db w) (w_db w') /\
  ((abs_sagas (sagas (w_db w')) = abs_sagas (sagas (w_db w)) /\ retryable r = true) \/
   abs_sagas (sagas (w_db w')) = spec_m (abs_sagas (sagas (w_db w)))).
Proof.
  intros Hs Hctx Htx Hinv. pose proof (consumers_refine spec ctx data w Hs Hctx Htx Hinv) as Hr.
  unfold wp in Hr. destruct (cs_Handler spec ctx data w) as [r w']. destruct Hr as (? & ? & ? & Hr).
  simpl in *. destruct (decode_msg (cs_Subject spec) data); simpl in Hr; tauto.
Qed.

(** C14: A saga only moves forward: over any history of deliveries, redeliveries and
    failures, also with other consumers at work between the two parts of a
    compensation, as long as no new pending event for its subscription arrives,
    the saga of a subscription keeps its id and its state moves along the
    transition table only; a terminal state therefore stays for good. *)
Theorem saga_forward_only d ms d' k id st :
  saga_history d ms d' -> saga_inv d ->
  Forall (fun m => match m with Some m => for_key k m = false | None => True end) ms ->
  abs_sagas (sagas d) !! k = Some (id, st) ->
  exists st', abs_sagas (sagas d') !! k = Some (id, st') /\
    rtc (fun a b => may_move a b = true) st st' /\
    (terminal st = true -> st' = st).
Proof.
  intros Hh. revert st. induction Hh as [d|d1 m d2 ms d3 Hd Hh IH]; intros st Hinv Hms Hk.
  - exists st. split_and!; [done|apply rtc_refl|done].
  - apply Forall_cons in Hms as [Hm Hms].
    destruct (delivery_refines d1 m d2 Hd Hinv) as [Hinv2 Habs].
    assert (exists st2, abs_sagas (sagas d2) !! k = Some (id, st2) /\
      rtc (fun a b => may_move a b = true) st st2) as (st2 & Hk2 & H12).
    { destruct Habs as [->| ->]; [eauto using rtc_refl|].
      destruct m; simpl; [by apply saga_spec_forward|eauto using rtc_refl]. }
    destruct (IH st2 Hinv2 Hms Hk2) as (st' & Hk' & H2' & _).
    exists st'. split_and!; [done|by etrans|]. intros Hterm.
    assert (rtc (fun a b => may_move a b = true) st st') as Hall by by etrans.
    inversion Hall as [|? y ? Hfirst]; subst; [done|]. by destruct st, y.
Qed.

(** C15: Compensation is all or nothing: when confirmation has died for a saga that
    is still open, the NATS coordinator either commits both the saga's
    compensated state and exactly one saga.compensate message, or changes
    nothing and is asked again; the message decodes to the saga's id,
    e-mail and repository, and the relay is woken. *)
Theorem compensation_atomic {E : Env} ctx sagaID s w :
  txFromContext ctx = false -> w_tx w = None -> saga_inv (w_db w) ->
  s ∈ sagas (w_db w) -> uuid_Parse sagaID = inr (sg_ID s) -> terminal (sg_State s) = false ->
  encodable (compensate_event s) = true ->
  let '(r, w') := OnConfirmationDead (C := NATSCompensator) ctx sagaID w in
  (w_db w' = w_db w /\ retryable r = true) \/
  (exists now row,
     sagas (w_db w') = transition (key_is sg_ID (sg_ID s)) StateCompensated now (sagas (w_db w)) /\
     moved StateCompensated now s ∈ sagas (w_db w') /\
     saga_outbox (w_db w') = saga_outbox (w_db w) ++ [row] /\
     om_subject row = SubjectSagaCompensate /\
     Unmarshal (om_payload row) = Ok (compensate_event s) /\
     (is_ok r = true -> w_nudge w' = true)).
Proof.
  intros Hctx Htx (Hid & Hk & Hwf) Hs Hp Hst Henc.
  cut (wp (OnConfirmationDead (C := NATSCompensator) ctx sagaID) (fun r w' =>
    (w_db w' = w_db w /\ retryable r = true) \/
    (compensated s (w_db w) (w_db w') /\ (is_ok r = true -> w_nudge w' = true))) w).
  { unfold wp. destruct (OnConfirmationDead ctx sagaID w) as [r w']. simpl.
    intros [?|[(now & id & at_ & _ & Hdb) Hn]]; [by left|right]. exists now, (outbox_row id SubjectSagaCompensate
      (compensate_event s) at_). rewrite Hdb. split_and!; [done| |done|done| |done].
    - apply elem_of_update. exists s. split; [done|]. unfold key_is. rewrite bool_decide_eq_true_2 by done.
      by destruct (sg_State s).
    - rewrite Forall_forall in Hwf. apply Unmarshal_encode; [by apply Hwf|done]. }
  unfold OnConfirmationDead, parse_uuid, Get. rewrite Hp, FromContext_pool by done.
  apply wp_bind, wp_wrapping, wp_run_pool.
  { intros msg w' _ _ Hdb. by left. }
  intros sc found d w1 Hgs _ Htx1 Hd. unfold get_stmt in Hgs. injection Hgs as <- Hd'.
  assert (w_db w1 = w_db w) as Hdb1 by congruence.
  split; [|intros msg; by left]. simpl.
  destruct (select_unique sg_ID (sagas (w_db w)) (sg_ID s) Hid) as [Hnil|(s' & -> & Hs' & Hsid)].
  { by destruct (select_key_absent sg_ID (sagas (w_db w)) (sg_ID s) s). }
  rewrite (unique_on_eq sg_ID (sagas (w_db w)) s' s) by done. simpl.
  destruct (sg_State s) eqn:Hst'; try done;
    (eapply wp_mono; [|apply NATSCompensator_atomic; [done|congruence|rewrite Forall_forall in Hwf; by apply Hwf]]);
    rewrite Hdb1; intros r w2 (_ & _ & [?|?] & ?); tauto.
Qed.

(** A read of an existing saga by id, when the database answers. *)
Lemma Get_existing {E : Env} ctx s w :
  txFromContext ctx = false -> (forall n, env_db n = None) -> saga_inv (w_db w) -> s ∈ sagas (w_db w) ->
  Get ctx (sg_ID s) w = (Ok (Some s), ticked w).
Proof.
  intros Hctx Hdb (Hid & _ & _) Hs. unfold Get, wrapping, run, get_stmt.
  rewrite FromContext_pool, Hdb by done. simpl.
  destruct (select_unique sg_ID (sagas (w_db w)) (sg_ID s) Hid) as [Hnil|(s' & -> & Hs' & Hsid)].
  { by destruct (select_key_absent sg_ID (sagas (w_db w)) (sg_ID s) s). }
  rewrite (unique_on_eq sg_ID (sagas (w_db w)) s' s) by done. by destruct w.
Qed.

(** Idempotence of the dead event: for a saga that is already completed, expired
    or compensated, handling notifications.confirmation.dead succeeds and
    does nothing but read, with either compensator. *)
Theorem dead_redelivery_noop {E : Env} {C : Compensator} ctx sagaID s w :
  txFromContext ctx = false -> (forall n, env_db n = None) -> saga_inv (w_db w) ->
  s ∈ sagas (w_db w) -> uuid_Parse sagaID = inr (sg_ID s) -> terminal (sg_State s) = true ->
  OnConfirmationDead ctx sagaID w = (Ok tt, ticked w).
Proof.
  intros Hctx Hdb Hinv Hs Hp Hst. unfold OnConfirmationDead, parse_uuid. rewrite Hp.
  unfold mbind, M_bind. rewrite Get_existing by done. by destruct (sg_State s).
Qed.

(** The NATS compensator ignores whether its transition applied: it commands the
    rollback of the subscription although the saga was completed, or replaced by
    that of a new subscription, after [OnConfirmationDead] had read it. *)
Theorem stale_compensation_commands {E : Env} ctx s w :
  txFromContext ctx = false -> w_tx w = None -> validate (compensate_event s) = true ->
  (forall s', s' ∈ sagas (w_db w) -> sg_ID s' = sg_ID s -> terminal (sg_State s') = true) ->
  let '(r, w') := NATSCompensator_Compensate ctx s w in
  (w_db w' = w_db w /\ retryable r = true) \/
  (sagas (w_db w') = sagas (w_db w) /\ exists row,
     saga_outbox (w_db w') = saga_outbox (w_db w) ++ [row] /\ carries SubjectSagaCompensate (compensate_event s) row).
Proof.
  intros Hctx Htx Hv Hover. pose proof (NATSCompensator_atomic ctx s w Hctx Htx Hv) as Hp. unfold wp in Hp.
  destruct (NATSCompensator_Compensate ctx s w) as [r w']. destruct Hp as (_ & _ & [?|(now & id & at_ & _ & Hdb)] & _); [by left|right].
  simpl in *. rewrite Hdb. simpl. split.
  - unfold transition. apply update_where_none, exists_where_false. intros s' Hs'. unfold key_is.
    case_bool_decide as Hid; [|done]. specialize (Hover s' Hs' Hid). by destruct (sg_State s').
  - eexists. split; [done|]. by exists id, at_.
Qed.

(** The gRPC compensator can lose a rollback: it records the saga as
    compensated before it calls the subscription service.  If that call fails
    the handler reports an error, the message is redelivered, and every
    redelivery succeeds without calling again: the pending subscription is
    never rolled back although the saga says it is. *)
Theorem grpc_compensation_lost {E : Env} ctx sagaID s w msg :
  txFromContext ctx = false -> (forall n, env_db n = None) -> w_tx w = None -> saga_inv (w_db w) ->
  s ∈ sagas (w_db w) -> uuid_Parse sagaID = inr (sg_ID s) -> terminal (sg_State s) = false ->
  env_compensate (S (S (w_tick w))) = inl msg ->
  exists w1, OnConfirmationDead (C := GRPCCompensator) ctx sagaID w
               = (Err (Errorf "compensate rpc" (ErrText msg)), w1) /\
    OnConfirmationDead (C := GRPCCompensator) ctx sagaID w1 = (Ok tt, ticked w1).
Proof.
  intros Hctx Hdb Htx Hinv Hs Hp Hst Hrpc.
  assert (may_move (sg_State s) StateCompensated = true) as Hmv by (by destruct (sg_State s)).
  set (w1 := traced (XCompensate (uuid_String (sg_ID s)) (sg_Type s) (sg_Email s) (sg_RepoName s))
    (ticked (set_db (set_sagas (transition (key_is sg_ID (sg_ID s)) StateCompensated
      (env_db_now (S (w_tick w))) (sagas (w_db w))) (w_db w)) (ticked (ticked w))))).
  exists w1. split.
  - unfold OnConfirmationDead, parse_uuid. rewrite Hp. unfold mbind, M_bind at 1.
    rewrite Get_existing by done.
    assert (comp_Compensate (Compensator := GRPCCompensator) ctx s (ticked w) =
      (Err (Errorf "compensate rpc" (ErrText msg)), w1)) as Hc.
    { simpl. unfold GRPCCompensator_Compensate, TransitionByID, Client_Compensate, wrapping, run, mbind, M_bind.
      rewrite FromContext_pool, Hdb, transition_stmt_eq by done. simpl. by rewrite Hrpc. }
    by destruct (sg_State s).
  - set (s1 := moved StateCompensated (env_db_now (S (w_tick w))) s).
    assert (s1 ∈ sagas (w_db w1)) as Hs1.
    { apply elem_of_update. exists s. split; [done|]. unfold key_is. by rewrite bool_decide_eq_true_2, Hmv. }
    unfold OnConfirmationDead, parse_uuid. rewrite Hp. unfold mbind, M_bind.
    change (sg_ID s) with (sg_ID s1). rewrite Get_existing; [done..| |done].
    by apply (saga_inv_transition (key_is sg_ID (sg_ID s))).
Qed.

(** A redelivered pending event reopens a finished saga: whatever state the saga
    has reached, handling its own subscriptions.pending event once more
    succeeds and puts it back to pending. *)
Theorem pending_redelivery_resets {E : Env} ctx sagaID s w :
  txFromContext ctx = false -> (forall n, env_db n = None) -> w_tx w = None -> saga_inv (w_db w) ->
  s ∈ sagas (w_db w) -> sg_Type s = SagaTypeSubscribe -> uuid_Parse sagaID = inr (sg_ID s) ->
  exists w', OnPending ctx sagaID (sg_Email s) (sg_RepoName s) w = (Ok tt, w') /\
    abs_sagas (sagas (w_db w')) !! saga_key s = Some (sg_ID s, StatePending).
Proof.
  intros Hctx Hdb Htx Hinv Hs Ht Hp. pose proof Hinv as (Hid & Hk & Hwf).
  rewrite Forall_forall in Hwf. pose proof (Hwf s Hs) as [Hu Hval].
  unfold OnPending, parse_uuid. rewrite Hp. unfold Start, wrapping, run.
  rewrite FromContext_pool, Hdb by done. simpl. set (s0 := {| sg_ID := sg_ID s |}).
  assert (saga_key s0 = saga_key s) as Hkey by (unfold saga_key; simpl; by rewrite Ht).
  destruct (start_stmt s0 _ _) as [err|[[] d']] eqn:Hst.
  - exfalso. unfold start_stmt in Hst. rewrite Hkey in Hst.
    assert (exists_where (key_is saga_key (saga_key s)) (sagas (w_db w)) = true) as Hex.
    { apply exists_where_true. exists s. split; [done|]. unfold key_is. by rewrite bool_decide_eq_true_2. }
    rewrite Hex in Hst. destruct (exists_where (fun r => negb _ && _) _) eqn:Hdup; [|done].
    apply exists_where_true in Hdup as (r & Hr & Hb). apply andb_true_iff in Hb as [H1 H2].
    unfold key_is in H1, H2. apply bool_decide_eq_true in H2.
    rewrite (unique_on_eq sg_ID (sagas (w_db w)) r s) in H1 by done. by rewrite bool_decide_eq_true_2 in H1.
  - exists (set_db d' (ticked w)). split; [done|].
    apply start_stmt_spec in Hst as (_ & _ & Habs); [|done|].
    + simpl. rewrite Habs, Hkey. apply lookup_insert_eq.
    + split; [done|]. unfold compensate_event in *. simpl. by rewrite Ht in Hval.
Qed.
End Guarantees.

(** ** Witnesses *)

Definition demo_id : UUID := "0123456789abcdef".
Definition demo_sagaID : string := hex_EncodeToString demo_id.
Definition demo_saga (st : State) : Saga :=
  {| sg_ID := demo_id; sg_Type := SagaTypeSubscribe; sg_State := st; sg_Email := "ann@example.test";
     sg_RepoName := "golang/go"; sg_CreatedAt := 1; sg_UpdatedAt := 1 |}.
Definition demo_sagas (st : State) : SagaDB := {| sagas := [demo_saga st]; saga_outbox := [] |}.

Lemma demo_saga_inv st : saga_inv (demo_sagas st).
Proof.
  split_and!; [apply NoDup_singleton..|]. apply Forall_singleton. destruct st; by vm_compute.
Qed.

Definition dead_data : string :=
  encode_event {| ncd_SagaID := demo_sagaID; ncd_Email := "ann@example.test"; ncd_Reason := "550" |}.

Definition dead_consumer {E : Env} {C : Compensator} : ConsumerSpec SagaDB :=
  {| cs_Stream := StreamNotifications; cs_Durable := "saga-notification-confirmation-dead";
     cs_Subject := SubjectNotificationConfirmationDead; cs_Handler := HandleConfirmationDead |}.

Lemma dead_consumer_started {E : Env} {C : Compensator} : dead_consumer ∈ startConsumers.
Proof. unfold startConsumers. do 4 right. left. Qed.

Definition demo_dead_world : World SagaDB :=
  snd (cs_Handler (dead_consumer (E := quiet_env) (C := NATSCompensator (E := quiet_env)))
    Background dead_data (world_of (demo_sagas StatePending))).

Lemma saga_consumers_refine_witness :
  let '(r, w') := cs_Handler (dead_consumer (E := quiet_env) (C := NATSCompensator (E := quiet_env)))
    Background dead_data (world_of (demo_sagas StatePending)) in
  saga_inv (w_db w') /\ w_tx w' = None /\ outbox_grows (demo_sagas StatePending) (w_db w') /\
  ((abs_sagas (sagas (w_db w')) = abs_sagas (sagas (demo_sagas StatePending)) /\ retryable r = true) \/
   abs_sagas (sagas (w_db w')) =
     saga_spec (MConfirmationDead demo_sagaID) (abs_sagas (sagas (demo_sagas StatePending)))).
Proof.
  assert (decode_msg SubjectNotificationConfirmationDead dead_data = Some (MConfirmationDead demo_sagaID)) as Hd
    by (vm_compute; reflexivity).
  pose proof (saga_consumers_refine (E := quiet_env) (CS := NATSCompensator_spec (E := quiet_env)) dead_consumer
    Background dead_data (world_of (demo_sagas StatePending))
    dead_consumer_started eq_refl eq_refl (demo_saga_inv StatePending)) as H.
  change (cs_Subject dead_consumer) with SubjectNotificationConfirmationDead in H.
  rewrite Hd in H. exact H.
Defined.

Lemma saga_forward_only_witness :
  exists st', abs_sagas (sagas (w_db demo_dead_world)) !! (SagaTypeSubscribe, "ann@example.test", "golang/go")
      = Some (demo_id, st') /\
    rtc (fun a b => may_move a b = true) StatePending st' /\ (terminal StatePending = true -> st' = StatePending).
Proof.
  refine (saga_forward_only (demo_sagas StatePending) [Some (MConfirmationDead demo_sagaID)] _ _ demo_id
    StatePending _ (demo_saga_inv StatePending) _ _).
  - eapply History_cons; [|apply History_nil].
    assert (Some (MConfirmationDead demo_sagaID) = decode_msg SubjectNotificationConfirmationDead dead_data) as Hd
      by (vm_compute; reflexivity).
    rewrite Hd.
    exact (Delivery quiet_env _ (NATSCompensator_spec (E := quiet_env)) dead_consumer Background dead_data
      (world_of (demo_sagas StatePending)) dead_consumer_started eq_refl eq_refl).
  - by repeat constructor.
  - reflexivity.
Defined.

Lemma compensation_atomic_witness :
  let '(r, w') := OnConfirmationDead (E := quiet_env) (C := NATSCompensator (E := quiet_env)) Background
    demo_sagaID (world_of (demo_sagas StateConfirmationSent)) in
  (w_db w' = demo_sagas StateConfirmationSent /\ retryable r = true) \/
  (exists now row,
     sagas (w_db w') = transition (key_is sg_ID demo_id) StateCompensated now [demo_saga StateConfirmationSent] /\
     moved StateCompensated now (demo_saga StateConfirmationSent) ∈ sagas (w_db w') /\
     saga_outbox (w_db w') = [] ++ [row] /\ om_subject row = SubjectSagaCompensate /\
     Unmarshal (om_payload row) = Ok (compensate_event (demo_saga StateConfirmationSent)) /\
     (is_ok r = true -> w_nudge w' = true)).
Proof.
  refine (compensation_atomic (E := quiet_env) Background demo_sagaID (demo_saga StateConfirmationSent)
    (world_of (demo_sagas StateConfirmationSent)) eq_refl eq_refl (demo_saga_inv _) _ _ eq_refl _);
    [left|vm_compute; reflexivity..].
Defined.

Lemma dead_redelivery_noop_witness :
  OnConfirmationDead (E := quiet_env) (C := GRPCCompensator (E := quiet_env)) Background demo_sagaID
    (world_of (demo_sagas StateCompleted)) = (Ok tt, ticked (world_of (demo_sagas StateCompleted))).
Proof.
  refine (dead_redelivery_noop (E := quiet_env) Background demo_sagaID (demo_saga StateCompleted)
    (world_of (demo_sagas StateCompleted)) eq_refl (fun _ => eq_refl) (demo_saga_inv _) _ _ eq_refl);
    [left|vm_compute; reflexivity].
Defined.

(** The peer service cannot be reached. *)
Definition rpc_down : Env := quiet_rpc (fun _ => inl "unavailable").

Lemma grpc_compensation_lost_witness :
  exists w1, OnConfirmationDead (E := rpc_down) (C := GRPCCompensator (E := rpc_down)) Background demo_sagaID
      (world_of (demo_sagas StatePending)) = (Err (Errorf "compensate rpc" (ErrText "unavailable")), w1) /\
    OnConfirmationDead (E := rpc_down) (C := GRPCCompensator (E := rpc_down)) Background demo_sagaID w1
      = (Ok tt, ticked w1).
Proof.
  refine (grpc_compensation_lost (E := rpc_down) Background demo_sagaID (demo_saga StatePending)
    (world_of (demo_sagas StatePending)) "unavailable" eq_refl (fun _ => eq_refl) eq_refl (demo_saga_inv _)
    _ _ eq_refl eq_refl); [left|vm_compute; reflexivity].
Defined.

(** Ann's saga was replaced by that of her new subscription. *)
Definition new_saga : Saga :=
  {| sg_ID := "fedcba9876543210"; sg_Type := SagaTypeSubscribe; sg_State := StatePending; sg_Email := "ann@example.test";
     sg_RepoName := "golang/go"; sg_CreatedAt := 1; sg_UpdatedAt := 2 |}.

Lemma stale_compensation_commands_witness :
  let '(r, w') := NATSCompensator_Compensate (E := quiet_env) Background (demo_saga StatePending)
    (world_of {| sagas := [new_saga]; saga_outbox := [] |}) in
  r = Ok tt /\ sagas (w_db w') = [new_saga] /\
  map (fun row => Unmarshal (T := SagaCompensate) (om_payload row)) (saga_outbox (w_db w')) =
    [Ok (compensate_event (demo_saga StatePending))].
Proof.
  assert (validate (compensate_event (demo_saga StatePending)) = true) as Hv by (vm_compute; reflexivity).
  pose proof (stale_compensation_commands (E := quiet_env) Background (demo_saga StatePending)
    (world_of {| sagas := [new_saga]; saga_outbox := [] |}) eq_refl eq_refl Hv
    ltac:(by intros s' ->%list_elem_of_singleton)) as H. vm_compute in H |- *.
  split_and!; [reflexivity..|]. destruct H as [[H _]|[_ _]]; [discriminate H|reflexivity].
Defined.

Lemma pending_redelivery_resets_witness :
  exists w', OnPending (E := quiet_env) Background demo_sagaID "ann@example.test" "golang/go"
      (world_of (demo_sagas StateCompensated)) = (Ok tt, w') /\
    abs_sagas (sagas (w_db w')) !! (SagaTypeSubscribe, "ann@example.test", "golang/go")
      = Some (demo_id, StatePending).
Proof.
  refine (pending_redelivery_resets (E := quiet_env) Background demo_sagaID (demo_saga StateCompensated)
    (world_of (demo_sagas StateCompensated)) eq_refl (fun _ => eq_refl) eq_refl (demo_saga_inv _) _ eq_refl _);
    [left|vm_compute; reflexivity].
Defined.
