(* ===== verification/GitHub.v ===== *)
(** * The GitHub client: [internal/shared/github/github.go]

    Existence checks and latest releases over HTTP with a Redis cache in front,
    the classification of failures, and the interfaces the subscription and
    scanner services rely on ([RepoChecker], [ReleaseSource]). *)

From S2P Require Import Prelude GoErrors Effects Wp Json JsonFacts.

Open Scope string_scope.
Open Scope list_scope.
Open Scope Z_scope.

(** [shared/domain.Release] *)
Record Release := { rel_TagName : string; rel_HTMLURL : string }.

Global Instance Release_eq_dec : EqDecision Release.
Proof. solve_decision. Defined.

Definition second : Z := 1000000000.

Definition apiBaseURL : string := "https://api.github.com".
Definition keyPrefixExists : string := "github:repo_exists:".
Definition keyPrefixRelease : string := "github:latest_release:".
Definition cacheNoRelease : string := "none".
Definition cacheTrue : string := "1".
Definition cacheFalse : string := "0".
Definition defaultRetryAfter : Z := 60 * second.

(** [Client]: whether a cache is attached, and its time to live.  The token only
    adds a header to the requests; the HTTP client is the environment. *)
Record Client := { gh_baseURL : string; gh_cache : bool; gh_ttl : Z }.

Definition NewClient : Client := {| gh_baseURL := apiBaseURL; gh_cache := false; gh_ttl := 0 |}.
Definition WithCache (c : Client) (ttl : Z) : Client :=
  {| gh_baseURL := gh_baseURL c; gh_cache := true; gh_ttl := ttl |}.

(** ** Responses *)

Definition isRateLimited (resp : HttpResponse) : bool :=
  if resp_status resp =? 429 then true
  else (resp_status resp =? 403) && String.eqb (resp_header resp "X-RateLimit-Remaining") "0".

(** [time.Unix(sec, 0)] in nanoseconds since 1970: the internal second count is
    an int64 since year 1, so it may wrap. *)
Definition time_Unix (sec : Z) : Z := (wrap64 (sec + 62135596800) - 62135596800) * second.

(** [t.Sub(u)] saturates at the ends of [time.Duration]. *)
Definition time_Sub (t u : Z) : Z := Z.max (- two63) (Z.min (two63 - 1) (t - u)).

(** The [prec] decimals of [v], without trailing zeros: the fraction that
    [Duration.String] prints. *)
Fixpoint fmtFrac (prec : nat) (v : Z) (printing : bool) : string :=
  match prec with
  | O => if printing then "." else ""
  | S k =>
      let digit := v mod 10 in
      let printing := printing || negb (digit =? 0) in
      fmtFrac k (v / 10) printing +:+ (if printing then print_int digit else "")
  end.

(** [time.Duration.String] *)
Definition duration_String (d : Z) : string :=
  let u := Z.abs d in
  let body :=
    if u =? 0 then "0s"
    else if u <? second then
      let scaled (prec : nat) (unit : string) :=
        print_int (u / 10 ^ Z.of_nat prec) +:+ fmtFrac prec u false +:+ unit in
      if u <? 1000 then scaled 0%nat "ns"
      else if u <? 1000000 then scaled 3%nat "µs"
      else scaled 6%nat "ms"
    else
      let secs := u / second in
      let s := print_int (secs mod 60) +:+ fmtFrac 9 u false +:+ "s" in
      let mins := secs / 60 in
      if mins =? 0 then s
      else
        let ms := print_int (mins mod 60) +:+ "m" +:+ s in
        if mins / 60 =? 0 then ms else print_int (mins / 60) +:+ "h" +:+ ms in
  if d <? 0 then "-" +:+ body else body.

Example duration_String_examples :
  map duration_String [0; 1500; 60 * second; 5400 * second; 2500000; 1100000000; - second] =
    ["0s"; "1.5µs"; "1m0s"; "1h30m0s"; "2.5ms"; "1.1s"; "-1s"].
Proof. reflexivity. Qed.

Section Client.
Context {D : Type} {E : Env}.

(** [parseRetryAfter]: [strconv.Atoi] and [strconv.ParseInt] both accept what
    [parse_int64] accepts; the multiplication wraps. *)
Definition parseRetryAfter (resp : HttpResponse) : M D Z :=
  let from_reset : M D Z :=
    match (if String.eqb (resp_header resp "X-RateLimit-Reset") "" then None
           else parse_int64 (resp_header resp "X-RateLimit-Reset")) with
    | Some unix =>
        now ← time_Now;
        let until := time_Sub (time_Unix unix) now in
        mret (if 0 <? until then until else defaultRetryAfter)
    | None => mret defaultRetryAfter
    end in
  match (if String.eqb (resp_header resp "Retry-After") "" then None
         else parse_int64 (resp_header resp "Retry-After")) with
  | Some seconds => mret (wrap64 (seconds * second))
  | None => from_reset
  end.

(** [(c *Client) do]: the status and the body.  Building the request cannot
    fail: both callers pass names that [ParseRepo] accepted, and every such URL
    parses. *)
Definition do (c : Client) (ctx : Ctx) (url : string) : M D (Z * string) :=
  r ← oracle env_http;
  _ ← emit (XHttp url);
  match r with
  | inl e => fail (Errorf "http request" e)
  | inr resp =>
      match resp_body resp with
      | inl msg => fail (Errorf "read body" (ErrText msg))
      | inr body =>
          if resp_status resp =? 401 then fail (Sentinel ErrUnauthorized)
          else if isRateLimited resp then
            retryAfter ← parseRetryAfter resp;
            fail (Wrapf "" (Sentinel ErrRateLimited)
              (": resource=" +:+ resp_header resp "X-RateLimit-Resource" +:+
               ", retry after " +:+ duration_String retryAfter))
          else mret (resp_status resp, body)
      end
  end.

(** The Redis cache ([internal/infrastructure/cache]). *)
Definition cache_Get (key : string) : M D (option string) :=
  r ← oracle env_cache_get;
  match r with
  | inl msg => fail (Errorf "redis get" (ErrText msg))
  | inr v => mret v
  end.

Definition cache_Set (key value : string) (ttl : Z) : M D unit :=
  r ← oracle env_cache_set;
  _ ← emit (XCacheSet key value ttl);
  match r with
  | Some msg => fail (Errorf "redis set" (ErrText msg))
  | None => mret tt
  end.

(** [cacheString]: a failed write is only logged. *)
Definition cacheString (c : Client) (key value : string) : M D unit :=
  if gh_cache c then (_ ← attempt (cache_Set key value (gh_ttl c)); mret tt) else mret tt.

Definition unexpected_status {A} (status : Z) : M D A :=
  fail (ErrText ("unexpected status " +:+ print_int status)).

(** The part of [RepoExists] after a cache miss. *)
Definition RepoExists_fetch (c : Client) (ctx : Ctx) (owner repo key : string) : M D bool :=
  '(status, _) ← do c ctx (gh_baseURL c +:+ "/repos/" +:+ owner +:+ "/" +:+ repo);
  if status =? 404 then (_ ← cacheString c key cacheFalse; mret false)
  else if negb (status =? 200) then unexpected_status status
  else (_ ← cacheString c key cacheTrue; mret true).

Definition RepoExists (c : Client) (ctx : Ctx) (owner repo : string) : M D bool :=
  let key := keyPrefixExists +:+ owner +:+ "/" +:+ repo in
  if gh_cache c then
    r ← attempt (cache_Get key);
    match r with
    | Ok (Some val) => mret (String.eqb val cacheTrue)
    | Ok None | Err _ => RepoExists_fetch c ctx owner repo key
    end
  else RepoExists_fetch c ctx owner repo key.

(** *** Releases as JSON *)

Definition string_field (name : string) : field :=
  {| f_json := name; f_omitempty := false; f_zero := FStr "" |}.
Definition release_fields : list field := [string_field "TagName"; string_field "HTMLURL"].
Definition githubRelease_fields : list field := [string_field "tag_name"; string_field "html_url"].

(** [json.Unmarshal] into a struct of two strings. *)
Definition unmarshal_release (fs : list field) (data : string) : option Release :=
  match decode_all data ≫= decode_struct false fs with
  | Some [FStr tag; FStr url] => Some {| rel_TagName := tag; rel_HTMLURL := url |}
  | _ => None
  end.

Definition marshal_release (r : Release) : string :=
  encode_struct release_fields [FStr (rel_TagName r); FStr (rel_HTMLURL r)].

(** [getCachedRelease]: [None] is not found. *)
Definition getCachedRelease (key : string) : M D (option (res Release)) :=
  r ← attempt (cache_Get key);
  match r with
  | Err _ | Ok None => mret None
  | Ok (Some val) =>
      if String.eqb val cacheNoRelease then mret (Some (Err (Sentinel ErrNoRelease)))
      else match unmarshal_release release_fields val with
           | None => mret None
           | Some r => mret (Some (Ok r))
           end
  end.

Definition parseAndCacheRelease (c : Client) (key body : string) : M D Release :=
  match unmarshal_release githubRelease_fields body with
  | None => fail (Errorf "decode release" (ErrText "json error"))
  | Some r => _ ← cacheString c key (marshal_release r); mret r
  end.

(** The part of [GetLatestRelease] after a cache miss. *)
Definition GetLatestRelease_fetch (c : Client) (ctx : Ctx) (owner repo key : string) : M D Release :=
  '(status, body) ← do c ctx (gh_baseURL c +:+ "/repos/" +:+ owner +:+ "/" +:+ repo +:+ "/releases/latest");
  if status =? 404 then (_ ← cacheString c key cacheNoRelease; fail (Sentinel ErrNoRelease))
  else if negb (status =? 200) then unexpected_status status
  else parseAndCacheRelease c key body.

Definition GetLatestRelease (c : Client) (ctx : Ctx) (owner repo : string) : M D Release :=
  let key := keyPrefixRelease +:+ owner +:+ "/" +:+ repo in
  if gh_cache c then
    found ← getCachedRelease key;
    match found with
    | Some (Ok r) => mret r
    | Some (Err e) => fail e
    | None => GetLatestRelease_fetch c ctx owner repo key
    end
  else GetLatestRelease_fetch c ctx owner repo key.
End Client.

(** ** Interfaces *)

(** What a GitHub call may do to a service: requests and cache writes. *)
Definition github_request (x : Ext) : Prop :=
  match x with XHttp _ | XCacheSet _ _ _ => True | _ => False end.

Definition github_step {D} (w w' : World D) : Prop :=
  w_db w' = w_db w /\ w_tx w' = w_tx w /\ w_txnow w' = w_txnow w /\ w_seq w' = w_seq w /\
  w_nudge w' = w_nudge w /\ exists l, w_trace w' = w_trace w ++ l /\ Forall github_request l.

(** [subscribe.gitHubClient] *)
Class RepoChecker (D : Type) := {
  gh_RepoExists : Ctx -> string -> string -> M D bool;
  gh_RepoExists_frame : forall ctx owner repo w,
    wp (gh_RepoExists ctx owner repo) (fun _ w' => github_step w w') w;
}.

(** [scanner.releaseFetcher] *)
Class ReleaseSource (D : Type) := {
  gh_GetLatestRelease : Ctx -> string -> string -> M D Release;
  gh_GetLatestRelease_frame : forall ctx owner repo w,
    wp (gh_GetLatestRelease ctx owner repo) (fun _ w' => github_step w w') w;
}.

Global Instance github_step_preorder {D} : PreOrder (github_step (D := D)).
Proof.
  split.
  - intros w. unfold github_step. split_and!; [done..|]. exists []. by rewrite app_nil_r.
  - intros w1 w2 w3 (? & ? & ? & ? & ? & l1 & Ht1 & Hl1) (? & ? & ? & ? & ? & l2 & Ht2 & Hl2).
    unfold github_step. split_and!; [congruence..|]. exists (l1 ++ l2).
    split; [by rewrite Ht2, Ht1, app_assoc|by apply Forall_app].
Qed.

Section Instances.
Context {D : Type} {E : Env}.

#[local] Instance gh_oracle {A} (f : nat -> A) : Frames (D := D) github_step (oracle f).
Proof. intros w. unfold github_step. simpl. split_and!; [done..|]. exists []. by rewrite app_nil_r. Qed.

#[local] Instance gh_emit_http url : Frames (D := D) github_step (emit (XHttp url)).
Proof. intros w. unfold github_step. simpl. split_and!; [done..|]. exists [XHttp url]. by repeat constructor. Qed.

#[local] Instance gh_emit_cache k v ttl : Frames (D := D) github_step (emit (XCacheSet k v ttl)).
Proof. intros w. unfold github_step. simpl. split_and!; [done..|]. exists [XCacheSet k v ttl]. by repeat constructor. Qed.

#[local] Instance gh_cacheString c k v : Frames (D := D) github_step (cacheString c k v).
Proof. unfold cacheString, cache_Set. apply _. Qed.

#[local] Instance gh_parseRetryAfter resp : Frames (D := D) github_step (parseRetryAfter resp).
Proof. unfold parseRetryAfter, time_Now. cbv zeta. apply _. Qed.

#[local] Instance gh_do c ctx url : Frames (D := D) github_step (do c ctx url).
Proof. unfold do. apply _. Qed.

#[local] Instance gh_get_cached k : Frames (D := D) github_step (getCachedRelease k).
Proof. unfold getCachedRelease, cache_Get. apply frames_bind; [apply _..|]. intros [[val|]|e]; apply _. Qed.

#[local] Instance gh_exists_frames c ctx owner repo : Frames (D := D) github_step (RepoExists c ctx owner repo).
Proof.
  assert (forall k, Frames (D := D) github_step (RepoExists_fetch c ctx owner repo k)).
  { intros k. unfold RepoExists_fetch, unexpected_status. apply _. }
  unfold RepoExists, cache_Get. apply frames_if; [|apply _].
  apply frames_bind; [apply _..|]. intros [[val|]|e]; apply _.
Qed.

#[local] Instance gh_release_frames c ctx owner repo :
  Frames (D := D) github_step (GetLatestRelease c ctx owner repo).
Proof.
  assert (forall k, Frames (D := D) github_step (GetLatestRelease_fetch c ctx owner repo k)).
  { intros k. unfold GetLatestRelease_fetch, unexpected_status, parseAndCacheRelease. apply _. }
  unfold GetLatestRelease. apply frames_if; [|apply _].
  apply frames_bind; [apply _..|]. intros [[r|e]|]; apply _.
Qed.

Definition Client_RepoChecker (c : Client) : RepoChecker D :=
  {| gh_RepoExists := RepoExists c;
     gh_RepoExists_frame ctx owner repo w := gh_exists_frames c ctx owner repo w |}.

Definition Client_ReleaseSource (c : Client) : ReleaseSource D :=
  {| gh_GetLatestRelease := GetLatestRelease c;
     gh_GetLatestRelease_frame ctx owner repo w := gh_release_frames c ctx owner repo w |}.

(** ** Behaviour *)

Lemma release_roundtrip r :
  valid_utf8 (rel_TagName r) = true -> valid_utf8 (rel_HTMLURL r) = true ->
  unmarshal_release release_fields (marshal_release r) = Some r.
Proof.
  intros Ht Hu. unfold unmarshal_release, marshal_release.
  destruct (struct_roundtrip false release_fields [FStr (rel_TagName r); FStr (rel_HTMLURL r)]) as [_ ->];
    [done|repeat constructor; by simpl|]. by destruct r.
Qed.

Lemma marshal_release_not_none r : marshal_release r <> cacheNoRelease.
Proof. unfold marshal_release, encode_struct. done. Qed.
End Instances.
