(* ===== verification/GitHubFacts.v ===== *)
(** * The GitHub client's guarantees: failure classification and cache coherence *)

From S2P Require Import Prelude GoErrors Effects Wp Json JsonFacts GitHub Quiet.

Open Scope string_scope.
Open Scope list_scope.
Open Scope Z_scope.

Section Guarantees.
Context {D : Type} {E : Env}.
Implicit Types w : World D.

Lemma parseRetryAfter_ok resp w :
  exists d w', parseRetryAfter resp w = (Ok d, w') /\ w_trace w' = w_trace w.
Proof.
  unfold parseRetryAfter, time_Now. cbv zeta. unfold mbind, M_bind, oracle, mret, M_ret.
  destruct (if String.eqb (resp_header resp "Retry-After") "" then None else _) as [n|]; [eauto|].
  destruct (if String.eqb (resp_header resp "X-RateLimit-Reset") "" then None else _) as [n|]; eauto.
Qed.

Lemma do_responded c ctx url resp body w :
  env_http (w_tick w) = inr resp -> resp_body resp = inr body ->
  exists r w', do (D := D) c ctx url w = (r, w') /\ w_trace w' = w_trace w ++ [XHttp url] /\
  ((resp_status resp = 401 /\ r = Err (Sentinel ErrUnauthorized)) \/
   (resp_status resp <> 401 /\ isRateLimited resp = true /\
      exists post, r = Err (Wrapf "" (Sentinel ErrRateLimited) post)) \/
   (resp_status resp <> 401 /\ isRateLimited resp = false /\ r = Ok (resp_status resp, body))).
Proof.
  intros Hh Hb. unfold do, mbind, M_bind, oracle, emit. rewrite Hh, Hb.
  destruct (Z.eqb_spec (resp_status resp) 401) as [H401|H401]; [do 2 eexists; eauto 6|].
  destruct (isRateLimited resp); [|do 2 eexists; eauto 10].
  destruct (parseRetryAfter_ok resp (traced (XHttp url) (ticked w))) as (d & w' & -> & Htr).
  do 2 eexists. split; [done|]. rewrite Htr. split; [done|]. right; left. eauto.
Qed.

Lemma attempt_cache_Set key value ttl w :
  exists w', (_ ← attempt (cache_Set key value ttl); mret tt) w = (Ok tt, w') /\
    w_trace w' = w_trace w ++ [XCacheSet key value ttl].
Proof.
  unfold cache_Set, attempt, mbind, M_bind, oracle, emit.
  destruct (env_cache_set (w_tick w)); eexists; by split.
Qed.

Lemma cacheString_ok c key value w :
  exists w', cacheString c key value w = (Ok tt, w') /\
    w_trace w' = w_trace w ++ (if gh_cache c then [XCacheSet key value (gh_ttl c)] else []).
Proof.
  unfold cacheString. destruct (gh_cache c).
  - apply attempt_cache_Set.
  - exists w. by rewrite app_nil_r.
Qed.

(** How [RepoExists] classifies GitHub's answer when nothing is cached: 200 and
    404 are definite answers, 401 is ErrUnauthorized, 429 (or 403 with no
    quota left) is ErrRateLimited, and every other status is an error that is
    none of these; only the definite answers are written to the cache. *)
Theorem RepoExists_outcomes c ctx owner repo resp body w :
  (gh_cache c = true -> env_cache_get (w_tick w) = inr None) ->
  (let t := if gh_cache c then S (w_tick w) else w_tick w in env_http t = inr resp) ->
  resp_body resp = inr body ->
  let key := keyPrefixExists +:+ owner +:+ "/" +:+ repo in
  let url := gh_baseURL c +:+ "/repos/" +:+ owner +:+ "/" +:+ repo in
  let cached v := if gh_cache c then [XCacheSet key v (gh_ttl c)] else [] in
  let '(r, w') := RepoExists c ctx owner repo w in
  match r with
  | Ok true => resp_status resp = 200 /\ w_trace w' = w_trace w ++ XHttp url :: cached cacheTrue
  | Ok false => resp_status resp = 404 /\ w_trace w' = w_trace w ++ XHttp url :: cached cacheFalse
  | Err e =>
      w_trace w' = w_trace w ++ [XHttp url] /\
      (errors_Is e ErrUnauthorized = true <-> resp_status resp = 401) /\
      (errors_Is e ErrRateLimited = true <-> isRateLimited resp = true) /\
      resp_status resp <> 200 /\ resp_status resp <> 404
  end.
Proof.
  intros Hmiss Hh Hb. cbv zeta in *.
  assert (exists w1, w_trace w1 = w_trace w /\ env_http (w_tick w1) = inr resp /\
    RepoExists c ctx owner repo w =
    RepoExists_fetch c ctx owner repo (keyPrefixExists +:+ owner +:+ "/" +:+ repo) w1) as (w1 & Ht1 & Hh1 & ->).
  { unfold RepoExists. destruct (gh_cache c).
    - exists (ticked w). unfold attempt, cache_Get, mbind, M_bind, oracle. rewrite (Hmiss eq_refl). done.
    - by exists w. }
  rewrite <- Ht1. clear Hmiss Hh Ht1. set (key := keyPrefixExists +:+ _). set (url := gh_baseURL c +:+ _).
  unfold RepoExists_fetch. fold url. unfold mbind, M_bind at 1.
  pose proof (do_responded c ctx url resp body w1 Hh1 Hb) as Hdo.
  destruct Hdo as (r & w2 & -> & Htr & Hr). unfold isRateLimited in *.
  destruct Hr as [[H401 ->]|[(H401 & Hrl & post & ->)|(H401 & Hrl & ->)]].
  - rewrite Htr, H401. split_and!; done || (split; done).
  - rewrite Htr, Hrl. split_and!; try (intros Hs; by rewrite Hs in Hrl); done || (split; done).
  - destruct (Z.eqb_spec (resp_status resp) 404) as [H404|H404].
    { destruct (cacheString_ok c key cacheFalse w2) as (w3 & Hcs & Htr3).
      unfold M_bind. rewrite Hcs. split; [done|]. by rewrite Htr3, Htr, <- app_assoc. }
    destruct (Z.eqb_spec (resp_status resp) 200) as [H200|H200]; simpl.
    { destruct (cacheString_ok c key cacheTrue w2) as (w3 & Hcs & Htr3).
      unfold M_bind. rewrite Hcs. split; [done|]. by rewrite Htr3, Htr, <- app_assoc. }
    rewrite Htr, Hrl. split_and!; done || (split; done).
Qed.

(** C36: The release cache is coherent: a release fetched from GitHub is written to
    the cache in a form from which any later lookup that finds it returns the
    same release without a request, and never mistakes it for the recorded
    absence of a release. *)
Theorem release_cache_coherent c ctx owner repo rel w w' :
  gh_cache c = true -> env_cache_get (w_tick w) = inr None ->
  GetLatestRelease c ctx owner repo w = (Ok rel, w') ->
  valid_utf8 (rel_TagName rel) = true -> valid_utf8 (rel_HTMLURL rel) = true ->
  let key := keyPrefixRelease +:+ owner +:+ "/" +:+ repo in
  exists url val,
    w_trace w' = w_trace w ++ [XHttp url; XCacheSet key val (gh_ttl c)] /\
    forall (E' : Env) ctx' (w2 : World D),
      env_cache_get (Env := E') (w_tick w2) = inr (Some val) ->
      GetLatestRelease (E := E') c ctx' owner repo w2 = (Ok rel, ticked w2).
Proof.
  intros Hc Hmiss Hget Ht Hu key.
  exists (gh_baseURL c +:+ "/repos/" +:+ owner +:+ "/" +:+ repo +:+ "/releases/latest"), (marshal_release rel).
  split.
  - assert (GetLatestRelease c ctx owner repo w = GetLatestRelease_fetch c ctx owner repo key (ticked w)) as Hf.
    { unfold GetLatestRelease. rewrite Hc.
      unfold getCachedRelease, attempt, cache_Get, mbind, M_bind, oracle. by rewrite Hmiss. }
    rewrite Hf in Hget. clear Hf. unfold GetLatestRelease_fetch in Hget. set (url := gh_baseURL c +:+ _) in *.
    unfold mbind, M_bind at 1 in Hget. destruct (do c ctx url (ticked w)) as [[[status body]|e] w1] eqn:Hdo; [|done].
    assert (w_trace w1 = w_trace w ++ [XHttp url]) as Htr1.
    { unfold do, mbind, M_bind, oracle, emit in Hdo. simpl in Hdo.
      destruct (env_http (S (w_tick w))) as [e|resp] eqn:Hh; [done|].
      destruct (resp_body resp) as [msg|b] eqn:Hb; [done|].
      destruct (do_responded c ctx url resp b (ticked w) Hh Hb) as (r & w2 & Hdo' & Htr & _).
      unfold do, mbind, M_bind, oracle, emit in Hdo'. simpl in Hdo'. rewrite Hh, Hb, Hdo in Hdo'.
      by injection Hdo' as _ ->. }
    destruct (status =? 404).
    { destruct (cacheString_ok c key cacheNoRelease w1) as (w2 & Hcs & _).
      unfold M_bind in Hget. by rewrite Hcs in Hget. }
    destruct (negb (status =? 200)); [done|]. unfold parseAndCacheRelease in Hget.
    destruct (unmarshal_release githubRelease_fields body) as [r|]; [|done].
    destruct (cacheString_ok c key (marshal_release r) w1) as (w2 & Hcs & Htr2).
    unfold M_bind in Hget. unfold mbind in Hget. rewrite Hcs in Hget. injection Hget as -> <-.
    rewrite Htr2, Htr1, Hc, <- app_assoc. done.
  - intros E' ctx' w2 Hhit. unfold GetLatestRelease. rewrite Hc.
    unfold getCachedRelease, attempt, cache_Get, mbind, M_bind, oracle. rewrite Hhit. simpl.
    destruct (String.eqb_spec (marshal_release rel) cacheNoRelease) as [He|_];
      [by destruct (marshal_release_not_none rel)|].
    by rewrite release_roundtrip.
Qed.
End Guarantees.

(** ** Witnesses *)

Definition demo_client : Client := WithCache NewClient (600 * second).

Lemma RepoExists_outcomes_witness :
  resp_status quiet_response = 200 /\
  w_trace (snd (RepoExists (E := quiet_env) demo_client Background "golang" "go" (world_of tt))) =
    [] ++ XHttp "https://api.github.com/repos/golang/go" ::
      [XCacheSet "github:repo_exists:golang/go" cacheTrue (600 * second)].
Proof.
  exact (RepoExists_outcomes (E := quiet_env) demo_client Background "golang" "go" quiet_response ""
    (world_of tt) (fun _ => eq_refl) eq_refl eq_refl).
Defined.

(** GitHub answers with a release. *)
Definition release_body : string :=
  encode_struct githubRelease_fields [FStr "v1.2.0"; FStr "https://github.com/golang/go/releases/v1.2.0"].
Definition release_env : Env := quiet_http (fun _ =>
  inr {| resp_status := 200; resp_header := fun _ => ""; resp_body := inr release_body |}).
Definition demo_release : Release :=
  {| rel_TagName := "v1.2.0"; rel_HTMLURL := "https://github.com/golang/go/releases/v1.2.0" |}.

Lemma release_cache_coherent_witness :
  exists w' url val,
    GetLatestRelease (E := release_env) demo_client Background "golang" "go" (world_of tt) = (Ok demo_release, w') /\
    w_trace w' = [] ++ [XHttp url; XCacheSet "github:latest_release:golang/go" val (600 * second)] /\
    forall (E' : Env) ctx' (w2 : World unit),
      env_cache_get (Env := E') (w_tick w2) = inr (Some val) ->
      GetLatestRelease (E := E') demo_client ctx' "golang" "go" w2 = (Ok demo_release, ticked w2).
Proof.
  assert (GetLatestRelease (E := release_env) demo_client Background "golang" "go" (world_of tt) =
    (Ok demo_release, snd (GetLatestRelease (E := release_env) demo_client Background "golang" "go" (world_of tt)))) as Hg
    by (vm_compute; reflexivity).
  destruct (release_cache_coherent (E := release_env) demo_client Background "golang" "go" demo_release
    (world_of tt) _ eq_refl eq_refl Hg) as (url & val & H1 & H2);
    [vm_compute; reflexivity..|].
  eexists _, url, val. split; [exact Hg|]. split; [exact H1|exact H2].
Defined.
