(* ===== verification/Config.v ===== *)
(** * Configuration: [internal/infrastructure/config]

    One loader per service.  A configuration struct is the list of its fields
    with their [envconfig] tags; [envconfig.Process] is a library and a parameter
    ([EnvconfigLib]), with what its documentation says of defaults, required keys
    and the conversion to string, int and [time.Duration].  [time.ParseDuration] and
    [slog.Level.UnmarshalText] are the standard library's and are modelled. *)

From Stdlib Require Import Ascii.
From S2P Require Import Prelude GoErrors Json JsonFacts GitHub.

Open Scope string_scope.
Open Scope list_scope.
Open Scope Z_scope.

(** ** [time.ParseDuration] *)

(** The float64 product by which [ParseDuration] scales a fraction [f] of
    [digits] digits to nanoseconds. *)
Class FloatLib := {
  scaled_fraction : Z -> nat -> Z -> Z;
  scaled_fraction_nonneg : forall f digits unit, 0 <= scaled_fraction f digits unit;
}.

Definition unitMap (u : string) : option Z :=
  if String.eqb u "ns" then Some 1
  else if String.eqb u "us" then Some 1000
  else if String.eqb u "µs" then Some 1000          (* U+00B5 *)
  else if String.eqb u "μs" then Some 1000          (* U+03BC *)
  else if String.eqb u "ms" then Some 1000000
  else if String.eqb u "s" then Some second
  else if String.eqb u "m" then Some (60 * second)
  else if String.eqb u "h" then Some (3600 * second)
  else None.

(** [leadingInt]: [None] is overflow. *)
Fixpoint leadingInt (x : Z) (s : string) : option (Z * string) :=
  match s with
  | String c s' =>
      if is_digit c then
        if two63 / 10 <? x then None
        else let x' := x * 10 + (byte c - 48) in
             if two63 <? x' then None else leadingInt x' s'
      else Some (x, s)
  | "" => Some (x, "")
  end.

(** [leadingFraction]: digits that would overflow are dropped. *)
Fixpoint leadingFraction (x : Z) (digits : nat) (overflow : bool) (s : string) : Z * nat * string :=
  match s with
  | String c s' =>
      if is_digit c then
        if overflow then leadingFraction x digits true s'
        else if (two63 - 1) / 10 <? x then leadingFraction x digits true s'
        else let y := x * 10 + (byte c - 48) in
             if two63 <? y then leadingFraction x digits true s' else leadingFraction y (S digits) false s'
      else (x, digits, s)
  | "" => (x, digits, "")
  end.

Definition unit_char (c : ascii) : bool := negb ((byte c =? 46) || is_digit c).

Fixpoint span_unit (s : string) : string * string :=
  match s with
  | String c s' => if unit_char c then let '(u, r) := span_unit s' in (String c u, r) else ("", s)
  | "" => ("", "")
  end.

(** Go's messages quote the input after these texts. *)
Definition invalid_duration {A} : string + A := inl "time: invalid duration".

Section Duration.
Context {F : FloatLib}.

(** One number with its unit: the nanoseconds and the rest. *)
Definition duration_term (s : string) : string + (Z * string) :=
  match leadingInt 0 s with
  | None => invalid_duration
  | Some (v, s1) =>
      let pre := negb (String.length s1 =? String.length s)%nat in
      let '(f, digits, s2, post) :=
        match s1 with
        | String c s' =>
            if byte c =? 46 then
              let '(f, digits, s2) := leadingFraction 0 0 false s' in
              (f, digits, s2, negb (String.length s2 =? String.length s')%nat)
            else (0, 0%nat, s1, false)
        | "" => (0, 0%nat, s1, false)
        end in
      if negb pre && negb post then invalid_duration
      else
        let '(u, s3) := span_unit s2 in
        if String.eqb u "" then inl "time: missing unit in duration"
        else match unitMap u with
             | None => inl "time: unknown unit in duration"
             | Some unit =>
                 if two63 / unit <? v then invalid_duration
                 else
                   let v := v * unit + (if 0 <? f then scaled_fraction f digits unit else 0) in
                   if two63 <? v then invalid_duration else inr (v, s3)
             end
  end.

Fixpoint duration_terms (fuel : nat) (d : Z) (s : string) : string + Z :=
  match s with
  | "" => inr d
  | String c _ =>
      if negb ((byte c =? 46) || is_digit c) then invalid_duration
      else match fuel with
           | O => invalid_duration
           | S k =>
               match duration_term s with
               | inl e => inl e
               | inr (v, s') =>
                   let d := (d + v) mod two64 in      (* uint64 addition *)
                   if two63 <? d then invalid_duration else duration_terms k d s'
               end
           end
  end.

Definition ParseDuration (orig : string) : string + Z :=
  let '(neg, s) :=
    match orig with
    | String c s => if byte c =? 45 then (true, s) else if byte c =? 43 then (false, s) else (false, orig)
    | "" => (false, "")
    end in
  if String.eqb s "0" then inr 0
  else if String.eqb s "" then invalid_duration
  else match duration_terms (String.length s) 0 s with
       | inl e => inl e
       | inr d => if neg then inr (- d) else if two63 - 1 <? d then invalid_duration else inr d
       end.

(** ** Bounds of a parsed duration *)

Lemma duration_terms_bounds fuel d s r :
  0 <= d <= two63 -> duration_terms fuel d s = inr r -> 0 <= r <= two63.
Proof.
  revert d s. induction fuel as [|k IH]; intros d [|c s] Hd; simpl; try (intros [= <-]; lia);
    destruct (negb _); try done.
  destruct (duration_term (String c s)) as [e|[v s']]; [done|].
  destruct (Z.ltb_spec two63 ((d + v) mod two64)); [done|].
  apply IH. pose proof (Z.mod_pos_bound (d + v) two64 eq_refl). lia.
Qed.

Lemma ParseDuration_int64 s d : ParseDuration s = inr d -> in_int64 d.
Proof.
  unfold ParseDuration, in_int64, invalid_duration.
  set (p := match s with String c s' => _ | "" => _ end). destruct p as [neg body].
  destruct (String.eqb body "0"); [intros [= <-]; unfold two63; lia|].
  destruct (String.eqb body ""); [done|].
  destruct (duration_terms _ 0 body) as [e|r] eqn:Hr; [done|].
  apply duration_terms_bounds in Hr; [|unfold two63; lia].
  destruct neg; [intros [= <-]; unfold two63 in *; lia|].
  destruct (Z.ltb_spec (two63 - 1) r); [done|]. intros [= <-]. lia.
Qed.

(** [leadingInt] is the value of the leading digits, unless it exceeds 2^63. *)
Lemma eval_digits_ge x s : 0 <= x -> fst (span_digits s) = s -> x <= eval_digits x s.
Proof.
  revert x. induction s as [|c s IH]; intros x Hx; simpl; [lia|].
  destruct (is_digit c) eqn:Hc; [|done]. destruct (span_digits s) as [d r]. simpl.
  intros [= Hd]. unfold is_digit, in_range in Hc.
  pose proof (IH (x * 10 + (byte c - 48)) ltac:(lia) Hd).
  lia.
Qed.

Lemma span_digits_idem s : fst (span_digits (fst (span_digits s))) = fst (span_digits s).
Proof.
  induction s as [|c s IH]; simpl; [done|]. destruct (is_digit c) eqn:Hc; [|done].
  destruct (span_digits s) as [d r]. simpl in *. rewrite Hc. destruct (span_digits d). simpl in *. by subst.
Qed.

Lemma leadingInt_spec x s :
  0 <= x <= two63 ->
  leadingInt x s =
    let '(d, r) := span_digits s in
    if two63 <? eval_digits x d then None else Some (eval_digits x d, r).
Proof.
  revert x. induction s as [|c s IH]; intros x Hx; simpl.
  { destruct (Z.ltb_spec two63 x); [lia|done]. }
  destruct (is_digit c) eqn:Hc; [|simpl; destruct (Z.ltb_spec two63 x); [lia|done]].
  pose proof (span_digits_idem s) as Hid. destruct (span_digits s) as [d r]. simpl in *.
  unfold is_digit, in_range in Hc.
  pose proof (eval_digits_ge (x * 10 + (byte c - 48)) d ltac:(lia) Hid) as Hge.
  destruct (Z.ltb_spec (two63 / 10) x) as [Hbig|Hsmall].
  { destruct (Z.ltb_spec two63 (eval_digits (x * 10 + (byte c - 48)) d)); [done|].
    unfold two63 in *. change (9223372036854775808 / 10) with 922337203685477580 in Hbig. lia. }
  destruct (Z.ltb_spec two63 (x * 10 + (byte c - 48))).
  { destruct (Z.ltb_spec two63 (eval_digits (x * 10 + (byte c - 48)) d)); [done|lia]. }
  rewrite IH by lia. done.
Qed.

Lemma unitMap_unit u unit :
  unitMap u = Some unit ->
  0 < unit /\ span_digits u = ("", u) /\ span_unit u = (u, "") /\ u <> "" /\
  (forall (T : Type) (f : string -> T) y,
     match u with String c s' => if byte c =? 46 then f s' else y | "" => y end = y).
Proof.
  unfold unitMap. intros Hu.
  repeat match type of Hu with (if String.eqb u ?x then _ else _) = _ =>
    destruct (String.eqb_spec u x) as [->|]; [injection Hu as <-; split_and!; done|] end. done.
Qed.

(** A printed number followed by a unit is one term, unless it is too large. *)
Lemma duration_term_number n u unit :
  0 <= n < 10 ^ 20 -> unitMap u = Some unit ->
  duration_term (print_int n +:+ u) = if two63 <? n * unit then invalid_duration else inr (n * unit, "").
Proof.
  intros Hn Hu.
  destruct (unitMap_unit u unit Hu) as (Hunit & Hdig & Hspan & Hne & Hdot).
  unfold print_int. destruct (Z.ltb_spec n 0); [lia|].
  destruct (print_digits_spec 20 n "") as (d & -> & (c & d' & -> & Hc & _ & _) & Hsp & Hev); [lia..|].
  rewrite string_app_nil_r. specialize (Hsp u). rewrite Hdig in Hsp. simpl fst in Hsp. simpl snd in Hsp.
  rewrite string_app_nil_r in Hsp. destruct (Hev 0) as (p & _ & Hval). rewrite Z.mul_0_l, Z.add_0_l in Hval.
  unfold duration_term. rewrite leadingInt_spec by (unfold two63; lia). rewrite Hsp, Hval.
  destruct (Z.ltb_spec two63 n) as [Hbig|Hsmall]; [destruct (Z.ltb_spec two63 (n * unit)); [done|nia]|].
  assert ((String.length u =? String.length (String c d' +:+ u))%nat = false) as Hlen.
  { apply Nat.eqb_neq. rewrite string_length_app. simpl. lia. }
  rewrite Hlen, Hdot, Hspan. cbn [negb andb]. destruct (String.eqb_spec u ""); [done|].
  rewrite Hu. cbn [Z.ltb Z.compare]. rewrite Z.add_0_r.
  destruct (Z.ltb_spec (two63 / unit) n); [|done]. destruct (Z.ltb_spec two63 (n * unit)); [done|].
  assert (n <= two63 / unit) by (apply Z.div_le_lower_bound; lia). lia.
Qed.

Lemma ParseDuration_number n u unit :
  0 <= n < 10 ^ 20 -> unitMap u = Some unit ->
  ParseDuration (print_int n +:+ u) = if n * unit <? two63 then inr (n * unit) else invalid_duration.
Proof.
  intros Hn Hu. pose proof (duration_term_number n u unit Hn Hu) as Hterm.
  destruct (unitMap_unit u unit Hu) as (Hunit & _ & _ & Hne & _).
  assert (exists c d, print_int n = String c d /\ is_digit c = true) as (c & d & Hp & Hc).
  { unfold print_int. destruct (Z.ltb_spec n 0); [lia|].
    destruct (print_digits_spec 20 n "") as (d & -> & (c & d' & -> & Hc & _) & _); [lia..|].
    rewrite string_app_nil_r. eauto. }
  rewrite Hp in *. unfold ParseDuration. simpl String.append in *.
  destruct (is_digit_not_sign c Hc) as [-> ->].
  assert (String c (d +:+ u) <> "0") as H0.
  { intros [= _ H0]. destruct d, u; done. }
  destruct (String.eqb_spec (String c (d +:+ u)) "0"); [done|].
  destruct (String.eqb_spec (String c (d +:+ u)) ""); [done|].
  cbn [String.length duration_terms]. rewrite Hc, orb_true_r, Hterm. cbn [negb].
  destruct (Z.ltb_spec two63 (n * unit)) as [Hbig|Hfit].
  { destruct (Z.ltb_spec (n * unit) two63); [lia|done]. }
  rewrite Z.add_0_l, Z.mod_small by (unfold two63, two64 in *; nia).
  destruct (Z.ltb_spec two63 (n * unit)); [lia|].
  replace (duration_terms _ (n * unit) "") with (@inr string Z (n * unit)) by (by destruct (String.length _)).
  destruct (Z.ltb_spec (two63 - 1) (n * unit)), (Z.ltb_spec (n * unit) two63); done || lia.
Qed.
End Duration.

(** ** [envconfig] *)

Inductive FieldKind := KString | KInt | KDuration.

Inductive ConfigValue :=
| CVString (s : string)
| CVInt (z : Z)
| CVDuration (d : Z).

(** A struct field with its tags.  [cf_keys] are the variables looked up, in
    order: the one named by the tag and, inside the struct field [SMTP], first the
    one prefixed with that field's name. *)
Record ConfigField := {
  cf_keys : list string;
  cf_default : string;      (* "" is no default *)
  cf_required : bool;
  cf_kind : FieldKind;
}.

Definition zero_value (k : FieldKind) : ConfigValue :=
  match k with KString => CVString "" | KInt => CVInt 0 | KDuration => CVDuration 0 end.

(** [os.LookupEnv] *)
Definition Environ : Type := string -> option string.

Fixpoint lookup_first (env : Environ) (keys : list string) : option string :=
  match keys with
  | [] => None
  | k :: keys => match env k with Some v => Some v | None => lookup_first env keys end
  end.

(** The text a field is set from: a variable, or the default. *)
Definition effective (env : Environ) (f : ConfigField) : option string :=
  match lookup_first env (cf_keys f) with
  | Some v => Some v
  | None => if String.eqb (cf_default f) "" then None else Some (cf_default f)
  end.

(** The value a field gets, given the conversion of texts [conv]. *)
Definition field_value (conv : FieldKind -> string -> string + ConfigValue)
    (env : Environ) (f : ConfigField) (v : ConfigValue) : Prop :=
  match effective env f with
  | Some s => conv (cf_kind f) s = inr v
  | None => cf_required f = false /\ v = zero_value (cf_kind f)
  end.

(** The documented behaviour of [envconfig.Process]: strings are taken as they
    are, integers and durations are parsed by the standard library, a required
    variable that is not set is an error, and processing succeeds exactly when
    every field gets a value. *)
Class EnvconfigLib `{FloatLib} := {
  ec_conv : FieldKind -> string -> string + ConfigValue;
  ec_Process : Environ -> list ConfigField -> res (list ConfigValue);
  ec_string : forall s, ec_conv KString s = inr (CVString s);
  ec_int : forall z, in_int64 z -> ec_conv KInt (print_int z) = inr (CVInt z);
  ec_int_range : forall s v, ec_conv KInt s = inr v -> exists z, v = CVInt z /\ in_int64 z;
  ec_duration : forall s,
    ec_conv KDuration s = match ParseDuration s with inl e => inl e | inr d => inr (CVDuration d) end;
  ec_Process_ok : forall env fs vs,
    ec_Process env fs = Ok vs <-> Forall2 (field_value ec_conv env) fs vs;
}.

(** ** The configuration structs *)

Definition tagged (key : string) (k : FieldKind) (def : string) : ConfigField :=
  {| cf_keys := [key]; cf_default := def; cf_required := false; cf_kind := k |}.
Definition required (key : string) : ConfigField :=
  {| cf_keys := [key]; cf_default := ""; cf_required := true; cf_kind := KString |}.
(** A field of the struct field [outer]. *)
Definition nested (outer : string) (f : ConfigField) : ConfigField :=
  {| cf_keys := map (fun k => outer +:+ "_" +:+ k) (cf_keys f) ++ cf_keys f; cf_default := cf_default f;
     cf_required := cf_required f; cf_kind := cf_kind f |}.

Definition str_at (vs : list ConfigValue) (i : nat) : string :=
  match vs !! i with Some (CVString s) => s | _ => "" end.
Definition int_at (vs : list ConfigValue) (i : nat) : Z :=
  match vs !! i with Some (CVInt z) => z | Some (CVDuration d) => d | _ => 0 end.

Record SMTPConfig := {
  smtp_Host : string;
  smtp_Port : Z;
  smtp_User : string;
  smtp_Password : string;
  smtp_FromEmail : string;
}.

Definition SMTPConfig_fields : list ConfigField := [
  required "SMTP_HOST";
  tagged "SMTP_PORT" KInt "587";
  required "SMTP_USER";
  required "SMTP_PASSWORD";
  required "SMTP_FROM"].

Record NotifierConfig := {
  nc_Port : string;
  nc_NATSURL : string;
  nc_DatabaseURL : string;
  nc_BaseURL : string;
  nc_RetryInterval : Z;
  nc_MaxRetries : Z;
  nc_ConfirmationTTL : Z;
  nc_ProcessedTTL : Z;
  nc_LogLevel : string;
  nc_SMTP : SMTPConfig;
}.

Definition NotifierConfig_fields : list ConfigField := [
  tagged "NOTIFIER_PORT" KString "8081";
  tagged "NATS_URL" KString "nats://localhost:4222";
  required "DATABASE_URL";
  tagged "BASE_URL" KString "http://localhost:8080";
  tagged "RETRY_INTERVAL" KDuration "15m";
  tagged "MAX_RETRIES" KInt "5";
  tagged "CONFIRMATION_TTL" KDuration "24h";
  tagged "PROCESSED_RELEASE_TTL" KDuration "720h";
  tagged "LOG_LEVEL" KString "info"] ++ map (nested "SMTP") SMTPConfig_fields.

Record SagaConfig := {
  gc_Port : string;
  gc_NATSURL : string;
  gc_DatabaseURL : string;
  gc_LogLevel : string;
  gc_CompensateTransport : string;
  gc_SubscriptionGRPCAddr : string;
}.

Definition SagaConfig_fields : list ConfigField := [
  tagged "SAGA_PORT" KString "8083";
  tagged "NATS_URL" KString "nats://localhost:4222";
  required "DATABASE_URL";
  tagged "LOG_LEVEL" KString "info";
  tagged "SAGA_COMPENSATE_TRANSPORT" KString "nats";
  tagged "SUBSCRIPTION_GRPC_ADDR" KString "localhost:50052"].

Record ScannerConfig := {
  cc_Port : string;
  cc_GitHubToken : string;
  cc_WorkerCount : Z;
  cc_ScanInterval : Z;
  cc_RedisURL : string;
  cc_DatabaseURL : string;
  cc_NATSURL : string;
  cc_LogLevel : string;
}.

Definition ScannerConfig_fields : list ConfigField := [
  tagged "SCANNER_PORT" KString "8082";
  tagged "GITHUB_TOKEN" KString "";
  tagged "SCAN_WORKERS" KInt "5";
  tagged "SCAN_INTERVAL" KDuration "10m";
  required "REDIS_URL";
  required "DATABASE_URL";
  tagged "NATS_URL" KString "nats://localhost:4222";
  tagged "LOG_LEVEL" KString "info"].

Record SubscriptionConfig := {
  bc_Port : string;
  bc_BaseURL : string;
  bc_GitHubToken : string;
  bc_DatabaseURL : string;
  bc_RedisURL : string;
  bc_NATSURL : string;
  bc_JWTSecret : string;
  bc_ConfirmTokenTTL : Z;
  bc_PendingCleanupInterval : Z;
  bc_APIKey : string;
  bc_LogLevel : string;
  bc_GRPCPort : string;
}.

Definition SubscriptionConfig_fields : list ConfigField := [
  tagged "SUBSCRIPTION_PORT" KString "8080";
  tagged "BASE_URL" KString "http://localhost:8080";
  tagged "GITHUB_TOKEN" KString "";
  required "DATABASE_URL";
  required "REDIS_URL";
  tagged "NATS_URL" KString "nats://localhost:4222";
  required "JWT_SECRET";
  tagged "CONFIRM_TOKEN_TTL" KDuration "24h";
  tagged "PENDING_CLEANUP_INTERVAL" KDuration "24h";
  tagged "API_KEY" KString "";
  tagged "LOG_LEVEL" KString "info";
  tagged "SUBSCRIPTION_GRPC_PORT" KString "50052"].

Section Load.
Context `{EnvconfigLib}.
Implicit Types env : Environ.

(** [envconfig.Process("", &cfg)] and the wrapping of its error. *)
Definition load {A} (what : string) (fs : list ConfigField) (fill : list ConfigValue -> A) env : res A :=
  match ec_Process env fs with
  | Ok vs => Ok (fill vs)
  | Err e => Err (Errorf what e)
  end.

Definition LoadNotifier : Environ -> res NotifierConfig :=
  load "process notifier config" NotifierConfig_fields (fun vs =>
    {| nc_Port := str_at vs 0; nc_NATSURL := str_at vs 1; nc_DatabaseURL := str_at vs 2;
       nc_BaseURL := str_at vs 3; nc_RetryInterval := int_at vs 4; nc_MaxRetries := int_at vs 5;
       nc_ConfirmationTTL := int_at vs 6; nc_ProcessedTTL := int_at vs 7; nc_LogLevel := str_at vs 8;
       nc_SMTP := {| smtp_Host := str_at vs 9; smtp_Port := int_at vs 10; smtp_User := str_at vs 11;
                     smtp_Password := str_at vs 12; smtp_FromEmail := str_at vs 13 |} |}).

Definition LoadSaga : Environ -> res SagaConfig :=
  load "process saga config" SagaConfig_fields (fun vs =>
    {| gc_Port := str_at vs 0; gc_NATSURL := str_at vs 1; gc_DatabaseURL := str_at vs 2;
       gc_LogLevel := str_at vs 3; gc_CompensateTransport := str_at vs 4;
       gc_SubscriptionGRPCAddr := str_at vs 5 |}).

Definition LoadScanner : Environ -> res ScannerConfig :=
  load "process scanner config" ScannerConfig_fields (fun vs =>
    {| cc_Port := str_at vs 0; cc_GitHubToken := str_at vs 1; cc_WorkerCount := int_at vs 2;
       cc_ScanInterval := int_at vs 3; cc_RedisURL := str_at vs 4; cc_DatabaseURL := str_at vs 5;
       cc_NATSURL := str_at vs 6; cc_LogLevel := str_at vs 7 |}).

Definition LoadSubscription : Environ -> res SubscriptionConfig :=
  load "process config" SubscriptionConfig_fields (fun vs =>
    {| bc_Port := str_at vs 0; bc_BaseURL := str_at vs 1; bc_GitHubToken := str_at vs 2;
       bc_DatabaseURL := str_at vs 3; bc_RedisURL := str_at vs 4; bc_NATSURL := str_at vs 5;
       bc_JWTSecret := str_at vs 6; bc_ConfirmTokenTTL := int_at vs 7;
       bc_PendingCleanupInterval := int_at vs 8; bc_APIKey := str_at vs 9; bc_LogLevel := str_at vs 10;
       bc_GRPCPort := str_at vs 11 |}).
End Load.

(** ** Log levels *)

Definition LevelDebug : Z := -4.
Definition LevelInfo : Z := 0.
Definition LevelWarn : Z := 4.
Definition LevelError : Z := 8.

(** [strings.ToUpper], as far as the comparison with ASCII names sees it: the
    dotless i (U+0131) is the one other rune whose upper case is a letter of the
    names compared. *)
Definition upper_rune (r : rune) : string :=
  match r with
  | RAscii c => String (upper c) ""
  | RMulti s => if String.eqb s (encode_rune 305) then "I" else s
  | RBad => replacement
  end.
Definition ToUpper (s : string) : string := concat_map upper_rune (runes s).

(** The text up to the first sign, and the rest from the sign on. *)
Fixpoint split_sign (s : string) : string * string :=
  match s with
  | String c s' =>
      if (byte c =? 43) || (byte c =? 45) then ("", s)
      else let '(n, r) := split_sign s' in (String c n, r)
  | "" => ("", "")
  end.

Definition level_of_name (name : string) : option Z :=
  if String.eqb name "DEBUG" then Some LevelDebug
  else if String.eqb name "INFO" then Some LevelInfo
  else if String.eqb name "WARN" then Some LevelWarn
  else if String.eqb name "ERROR" then Some LevelError
  else None.

(** [slog.Level.UnmarshalText] *)
Definition UnmarshalText (s : string) : option Z :=
  let '(name, sign) := split_sign s in
  match (if String.eqb sign "" then Some 0 else parse_int64 sign) with
  | None => None
  | Some offset =>
      match level_of_name (ToUpper name) with
      | None => None
      | Some l => Some (wrap64 (l + offset))
      end
  end.

Definition slogLevel (level : string) : Z :=
  match UnmarshalText level with Some l => l | None => LevelInfo end.

Example slogLevel_examples :
  map slogLevel ["info"; "Debug"; "ERROR-3"; "warn+1"; ""; "loud"] = [0; -4; 5; 5; 0; 0].
Proof. reflexivity. Qed.

(** ** What a loader accepts and returns *)

Section Contract.
Context `{EnvconfigLib}.
Implicit Types env : Environ.

(** The default of a numeric field converts. *)
Definition default_converts (f : ConfigField) : Prop :=
  cf_default f <> "" -> exists v, ec_conv (cf_kind f) (cf_default f) = inr v.

(** What the documentation asks of the environment: the required variables are
    set, and the numbers and durations that are set can be read. *)
Definition acceptable env (f : ConfigField) : Prop :=
  match lookup_first env (cf_keys f) with
  | Some s => exists v, ec_conv (cf_kind f) s = inr v
  | None => cf_required f = false
  end.

Definition well_tagged (f : ConfigField) : Prop :=
  default_converts f /\ (cf_required f = true -> cf_default f = "").

Lemma field_value_acceptable env f :
  well_tagged f -> (exists v, field_value ec_conv env f v) <-> acceptable env f.
Proof.
  unfold well_tagged, default_converts, field_value, acceptable, effective. intros [Hdef Hreq].
  destruct (lookup_first env (cf_keys f)); [done|].
  destruct (String.eqb_spec (cf_default f) "") as [|Hne]; [naive_solver|].
  destruct (cf_required f); naive_solver.
Qed.

Lemma load_ok {A} what fs (fill : list ConfigValue -> A) env :
  Forall well_tagged fs ->
  is_ok (load what fs fill env) = true <-> Forall (acceptable env) fs.
Proof.
  intros Hwt. unfold load.
  transitivity (exists vs, Forall2 (field_value ec_conv env) fs vs).
  { setoid_rewrite <- ec_Process_ok. destruct (ec_Process env fs) as [vs|e]; simpl; naive_solver. }
  split.
  - intros [vs Hvs]. induction Hvs; decompose_Forall_hyps; constructor; [|auto].
    apply field_value_acceptable; eauto.
  - intros Hacc. induction Hacc as [|f fs Hf _ IH]; decompose_Forall_hyps; [by exists []|].
    apply field_value_acceptable in Hf as [v Hv]; [|done]. destruct IH as [vs Hvs]; [done|].
    exists (v :: vs). by constructor.
Qed.

Lemma conv_number n : in_int64 n -> exists v, ec_conv KInt (print_int n) = inr v.
Proof. intros Hn. exists (CVInt n). by apply ec_int. Qed.

Lemma conv_duration s d : ParseDuration s = inr d -> ec_conv KDuration s = inr (CVDuration d).
Proof. intros Hs. by rewrite ec_duration, Hs. Qed.

Lemma conv_int s n : s = print_int n -> in_int64 n -> ec_conv KInt s = inr (CVInt n).
Proof. intros ->. apply ec_int. Qed.

Lemma well_tagged_required k : well_tagged (required k).
Proof. split; [by intros []|done]. Qed.

Lemma well_tagged_string k d : well_tagged (tagged k KString d).
Proof. split; [|done]. intros _. eexists. apply ec_string. Qed.

Lemma well_tagged_int k n : in_int64 n -> well_tagged (tagged k KInt (print_int n)).
Proof. intros Hn. split; [|done]. intros _. by apply conv_number. Qed.

Lemma well_tagged_duration k n u unit :
  0 <= n < 10 ^ 20 -> unitMap u = Some unit -> n * unit < two63 ->
  well_tagged (tagged k KDuration (print_int n +:+ u)).
Proof.
  intros Hn Hu Hb. split; [|done]. intros _. eexists. eapply conv_duration.
  rewrite (ParseDuration_number n u unit) by done. by rewrite (proj2 (Z.ltb_lt _ _) Hb).
Qed.

Lemma well_tagged_nested o f : well_tagged f -> well_tagged (nested o f).
Proof. done. Qed.

#[local] Create HintDb config.
#[local] Hint Resolve well_tagged_required well_tagged_string well_tagged_nested : config.
#[local] Hint Extern 2 (well_tagged (tagged _ KInt ?d)) =>
  let n := eval vm_compute in (parse_int64 d) in
  match n with Some ?n => apply (well_tagged_int _ n); unfold in_int64, two63; lia end : config.

Lemma well_tagged_minutes k n : 0 <= n < 1000000 -> well_tagged (tagged k KDuration (print_int n +:+ "m")).
Proof. intros Hn. eapply (well_tagged_duration k n "m"); [lia|done|unfold two63, second; lia]. Qed.

Lemma well_tagged_hours k n : 0 <= n < 1000000 -> well_tagged (tagged k KDuration (print_int n +:+ "h")).
Proof. intros Hn. eapply (well_tagged_duration k n "h"); [lia|done|unfold two63, second; lia]. Qed.

#[local] Hint Extern 2 (well_tagged (tagged _ KDuration "10m")) => apply (well_tagged_minutes _ 10); lia : config.
#[local] Hint Extern 2 (well_tagged (tagged _ KDuration "15m")) => apply (well_tagged_minutes _ 15); lia : config.
#[local] Hint Extern 2 (well_tagged (tagged _ KDuration "24h")) => apply (well_tagged_hours _ 24); lia : config.
#[local] Hint Extern 2 (well_tagged (tagged _ KDuration "720h")) => apply (well_tagged_hours _ 720); lia : config.

Lemma structs_well_tagged :
  Forall well_tagged NotifierConfig_fields /\ Forall well_tagged SagaConfig_fields /\
  Forall well_tagged ScannerConfig_fields /\ Forall well_tagged SubscriptionConfig_fields.
Proof. split_and!; repeat apply List.Forall_cons; try apply List.Forall_nil; auto with config. Qed.

(** One of the variables is set. *)
Definition is_set env (keys : list string) : Prop := is_Some (lookup_first env keys).
(** The first of the variables that is set, if any, can be read as a number or
    as a duration. *)
Definition number_ok env (keys : list string) : Prop :=
  forall s, lookup_first env keys = Some s -> exists v, ec_conv KInt s = inr v.
Definition duration_ok env (keys : list string) : Prop :=
  forall s, lookup_first env keys = Some s -> exists d, ParseDuration s = inr d.

Lemma acceptable_required env f :
  cf_required f = true -> cf_kind f = KString -> acceptable env f <-> is_set env (cf_keys f).
Proof.
  intros Hr Hk. unfold acceptable, is_set. rewrite Hr, Hk. destruct (lookup_first env (cf_keys f)) as [s|].
  - split; [done|]. intros _. eexists. apply ec_string.
  - split; [done|]. by intros [? [=]].
Qed.

Lemma acceptable_string env f : cf_required f = false -> cf_kind f = KString -> acceptable env f <-> True.
Proof.
  intros Hr Hk. unfold acceptable. rewrite Hr, Hk. split; [done|]. intros _.
  destruct (lookup_first env (cf_keys f)); [|done]. eexists. apply ec_string.
Qed.

Lemma acceptable_number env f :
  cf_required f = false -> cf_kind f = KInt -> acceptable env f <-> number_ok env (cf_keys f).
Proof.
  intros Hr Hk. unfold acceptable, number_ok. rewrite Hr, Hk.
  destruct (lookup_first env (cf_keys f)) as [s|]; naive_solver.
Qed.

Lemma acceptable_duration env f :
  cf_required f = false -> cf_kind f = KDuration -> acceptable env f <-> duration_ok env (cf_keys f).
Proof.
  intros Hr Hk. unfold acceptable, duration_ok. rewrite Hr, Hk.
  destruct (lookup_first env (cf_keys f)) as [s|]; [|naive_solver].
  rewrite ec_duration. split.
  - intros [v Hv] s' [= <-]. destruct (ParseDuration s); [done|eauto].
  - intros Hd. destruct (Hd s eq_refl) as [d ->]. eauto.
Qed.

(** Read the conditions off the tags of a struct. *)
Ltac read_tags :=
  unfold NotifierConfig_fields, SagaConfig_fields, ScannerConfig_fields, SubscriptionConfig_fields, SMTPConfig_fields;
  cbn [map app]; rewrite ?List.Forall_cons_iff, ?List.Forall_nil_iff;
  repeat match goal with
  | |- context [acceptable ?env ?f] =>
      first [ rewrite (acceptable_required env f eq_refl eq_refl) | rewrite (acceptable_string env f eq_refl eq_refl)
            | rewrite (acceptable_number env f eq_refl eq_refl) | rewrite (acceptable_duration env f eq_refl eq_refl) ]
  end; cbn [cf_keys tagged required nested map app String.append].

(** C29: The loader of each service succeeds exactly when the variables
    the design document marks as required are set and its numbers and durations, where
    set, can be read: a missing optional variable never stops a service, a missing
    required or malformed one always does, whatever else is set. *)
Theorem config_accepts env :
  (is_ok (LoadNotifier env) = true <->
     is_set env ["DATABASE_URL"] /\ is_set env ["SMTP_SMTP_HOST"; "SMTP_HOST"] /\
     is_set env ["SMTP_SMTP_USER"; "SMTP_USER"] /\ is_set env ["SMTP_SMTP_PASSWORD"; "SMTP_PASSWORD"] /\
     is_set env ["SMTP_SMTP_FROM"; "SMTP_FROM"] /\
     duration_ok env ["RETRY_INTERVAL"] /\ number_ok env ["MAX_RETRIES"] /\ duration_ok env ["CONFIRMATION_TTL"] /\
     duration_ok env ["PROCESSED_RELEASE_TTL"] /\ number_ok env ["SMTP_SMTP_PORT"; "SMTP_PORT"]) /\
  (is_ok (LoadSaga env) = true <-> is_set env ["DATABASE_URL"]) /\
  (is_ok (LoadScanner env) = true <->
     is_set env ["REDIS_URL"] /\ is_set env ["DATABASE_URL"] /\
     number_ok env ["SCAN_WORKERS"] /\ duration_ok env ["SCAN_INTERVAL"]) /\
  (is_ok (LoadSubscription env) = true <->
     is_set env ["DATABASE_URL"] /\ is_set env ["REDIS_URL"] /\ is_set env ["JWT_SECRET"] /\
     duration_ok env ["CONFIRM_TOKEN_TTL"] /\ duration_ok env ["PENDING_CLEANUP_INTERVAL"]).
Proof.
  destruct structs_well_tagged as (Hn & Hg & Hc & Hb).
  split_and!; (etransitivity; [by apply load_ok|]); read_tags; tauto.
Qed.

(** *** Defaults *)

(** The environment sets the required variables and no other of the struct. *)
Definition only_required env (f : ConfigField) : Prop :=
  is_Some (lookup_first env (cf_keys f)) <-> cf_required f = true.

Definition var env (keys : list string) : string := default "" (lookup_first env keys).

(** The value of a field in such an environment. *)
Definition default_value env (f : ConfigField) : ConfigValue :=
  if cf_required f then CVString (var env (cf_keys f))
  else match cf_kind f with
       | KString => CVString (cf_default f)
       | KInt => CVInt (default 0 (parse_int64 (cf_default f)))
       | KDuration => CVDuration (match ParseDuration (cf_default f) with inr d => d | inl _ => 0 end)
       end.

(** The numeric defaults are written as the standard library prints them. *)
Definition plain_default (f : ConfigField) : Prop :=
  (cf_required f = true -> cf_kind f = KString /\ cf_default f = "") /\
  match cf_kind f with
  | KString => True
  | KInt => exists n, cf_default f = print_int n /\ in_int64 n
  | KDuration => exists d, ParseDuration (cf_default f) = inr d /\ cf_default f <> ""
  end.

Lemma print_int_nonempty n : in_int64 n -> print_int n <> "".
Proof. intros Hn Heq. pose proof (parse_int64_print n Hn) as Hp. by rewrite Heq in Hp. Qed.

Lemma field_value_default env f :
  plain_default f -> only_required env f -> field_value ec_conv env f (default_value env f).
Proof.
  unfold plain_default, only_required, field_value, default_value, effective, var.
  intros [Hreq Hkind] Honly. destruct (cf_required f).
  - destruct Honly as [_ [v Hv]]; [done|]. destruct Hreq as [Hk _]; [done|].
    rewrite Hv, Hk. apply ec_string.
  - assert (lookup_first env (cf_keys f) = None) as ->.
    { destruct (lookup_first env (cf_keys f)); [|done]. destruct Honly as [Ho _]. by discriminate Ho. }
    destruct (cf_kind f).
    + destruct (String.eqb_spec (cf_default f) "") as [->|]; [done|apply ec_string].
    + destruct Hkind as (n & -> & Hn). rewrite parse_int64_print by done.
      destruct (String.eqb_spec (print_int n) "") as [Hz|]; [by apply print_int_nonempty in Hz|].
      by apply ec_int.
    + destruct Hkind as (d & Hd & Hne). destruct (String.eqb_spec (cf_default f) ""); [done|].
      rewrite Hd. by apply conv_duration.
Qed.

Lemma load_default {A} what fs (fill : list ConfigValue -> A) env :
  Forall plain_default fs -> Forall (only_required env) fs ->
  load what fs fill env = Ok (fill (map (default_value env) fs)).
Proof.
  intros Hplain Honly. unfold load.
  rewrite (proj2 (ec_Process_ok env fs (map (default_value env) fs))); [done|].
  induction Hplain; decompose_Forall_hyps; constructor; [by apply field_value_default|auto].
Qed.

Lemma structs_plain :
  Forall plain_default NotifierConfig_fields /\ Forall plain_default SagaConfig_fields /\
  Forall plain_default ScannerConfig_fields /\ Forall plain_default SubscriptionConfig_fields.
Proof.
  assert (forall n, 0 <= n < 1000 -> exists m, print_int n = print_int m /\ in_int64 m) as Hint.
  { intros n Hn. exists n. split; [done|]. unfold in_int64, two63. lia. }
  split_and!; repeat apply List.Forall_cons; try apply List.Forall_nil; (split; [done|]);
    cbn [tagged required nested cf_kind cf_default];
    lazymatch goal with
    | |- True => exact I
    | |- exists d, ParseDuration _ = _ /\ _ => eexists; split; [vm_compute; reflexivity|done]
    | |- exists n, "5" = _ /\ _ => apply (Hint 5); lia
    | |- exists n, "587" = _ /\ _ => apply (Hint 587); lia
    end.
Qed.

(** With the required variables set and no other, each
    service gets the defaults the design document lists: the ports 8080 (and 50052
    for compensation), 8082, 8081 and 8083, five scan workers every 10 minutes, five
    retries every 15 minutes, confirmation links and retries for 24 hours, processed
    marks for 720 hours, SMTP on port 587, compensation over NATS, the level info. *)
Theorem config_defaults env :
  (Forall (only_required env) NotifierConfig_fields ->
   LoadNotifier env = Ok
     {| nc_Port := "8081"; nc_NATSURL := "nats://localhost:4222"; nc_DatabaseURL := var env ["DATABASE_URL"];
        nc_BaseURL := "http://localhost:8080"; nc_RetryInterval := 15 * 60 * second; nc_MaxRetries := 5;
        nc_ConfirmationTTL := 24 * 3600 * second; nc_ProcessedTTL := 720 * 3600 * second; nc_LogLevel := "info";
        nc_SMTP := {| smtp_Host := var env ["SMTP_SMTP_HOST"; "SMTP_HOST"]; smtp_Port := 587;
                      smtp_User := var env ["SMTP_SMTP_USER"; "SMTP_USER"];
                      smtp_Password := var env ["SMTP_SMTP_PASSWORD"; "SMTP_PASSWORD"];
                      smtp_FromEmail := var env ["SMTP_SMTP_FROM"; "SMTP_FROM"] |} |}) /\
  (Forall (only_required env) SagaConfig_fields ->
   LoadSaga env = Ok
     {| gc_Port := "8083"; gc_NATSURL := "nats://localhost:4222"; gc_DatabaseURL := var env ["DATABASE_URL"];
        gc_LogLevel := "info"; gc_CompensateTransport := "nats"; gc_SubscriptionGRPCAddr := "localhost:50052" |}) /\
  (Forall (only_required env) ScannerConfig_fields ->
   LoadScanner env = Ok
     {| cc_Port := "8082"; cc_GitHubToken := ""; cc_WorkerCount := 5; cc_ScanInterval := 10 * 60 * second;
        cc_RedisURL := var env ["REDIS_URL"]; cc_DatabaseURL := var env ["DATABASE_URL"];
        cc_NATSURL := "nats://localhost:4222"; cc_LogLevel := "info" |}) /\
  (Forall (only_required env) SubscriptionConfig_fields ->
   LoadSubscription env = Ok
     {| bc_Port := "8080"; bc_BaseURL := "http://localhost:8080"; bc_GitHubToken := "";
        bc_DatabaseURL := var env ["DATABASE_URL"]; bc_RedisURL := var env ["REDIS_URL"];
        bc_NATSURL := "nats://localhost:4222"; bc_JWTSecret := var env ["JWT_SECRET"];
        bc_ConfirmTokenTTL := 24 * 3600 * second; bc_PendingCleanupInterval := 24 * 3600 * second;
        bc_APIKey := ""; bc_LogLevel := "info"; bc_GRPCPort := "50052" |}).
Proof.
  destruct structs_plain as (Hn & Hg & Hc & Hb).
  split_and!; intros Honly;
    [ unfold LoadNotifier | unfold LoadSaga | unfold LoadScanner | unfold LoadSubscription ];
    by rewrite load_default by done.
Qed.

(** *** Bounds *)

(** An int field with these keys and this default: a text that is set was
    converted, into 64 bits and a printed number into itself; what is not set is
    the default. *)
Definition reads_int env (keys : list string) (def z : Z) : Prop :=
  match lookup_first env keys with
  | Some s => in_int64 z /\ ec_conv KInt s = inr (CVInt z) /\ forall z', in_int64 z' -> s = print_int z' -> z = z'
  | None => z = def
  end.

(** The same of a duration. *)
Definition reads_duration env (keys : list string) (def d : Z) : Prop :=
  match lookup_first env keys with
  | Some s => in_int64 d /\ ParseDuration s = inr d
  | None => d = def
  end.

(** No variable of [keys] that is set holds a number of units beyond 64 bits of
    nanoseconds. *)
Definition within_duration env (keys : list string) : Prop :=
  forall n u unit, 0 <= n < 10 ^ 20 -> unitMap u = Some unit ->
    lookup_first env keys = Some (print_int n +:+ u) -> n * unit < two63.

Lemma load_values {A} what fs (fill : list ConfigValue -> A) env a :
  load what fs fill env = Ok a -> exists vs, a = fill vs /\ Forall2 (field_value ec_conv env) fs vs.
Proof.
  unfold load. destruct (ec_Process env fs) as [vs|e] eqn:Hp; [|done]. intros [= <-].
  apply ec_Process_ok in Hp. by exists vs.
Qed.

Lemma read_int env fs vs i k keys n :
  Forall2 (field_value ec_conv env) fs vs -> fs !! i = Some k -> cf_kind k = KInt -> cf_keys k = keys ->
  cf_default k = print_int n -> in_int64 n -> reads_int env keys n (int_at vs i).
Proof.
  intros Hp Hi Hk <- Hd Hn. destruct (Forall2_lookup_l _ _ _ _ _ Hp Hi) as (v & Hv & Hf). unfold int_at. rewrite Hv.
  unfold field_value, effective in Hf. rewrite Hk, Hd in Hf. unfold reads_int.
  destruct (lookup_first env (cf_keys k)) as [s|].
  - destruct (ec_int_range s v Hf) as (z & -> & Hz). split_and!; [done..|]. intros z' Hz' ->.
    rewrite ec_int in Hf by done. by injection Hf.
  - destruct (String.eqb_spec (print_int n) "") as [He|_]; [by apply print_int_nonempty in He|].
    rewrite ec_int in Hf by done. by injection Hf as <-.
Qed.

Lemma read_duration env fs vs i k keys d :
  Forall2 (field_value ec_conv env) fs vs -> fs !! i = Some k -> cf_kind k = KDuration -> cf_keys k = keys ->
  cf_default k <> "" -> ParseDuration (cf_default k) = inr d -> reads_duration env keys d (int_at vs i).
Proof.
  intros Hp Hi Hk <- Hne Hd. destruct (Forall2_lookup_l _ _ _ _ _ Hp Hi) as (v & Hv & Hf). unfold int_at. rewrite Hv.
  unfold field_value, effective in Hf. rewrite Hk in Hf. unfold reads_duration.
  destruct (lookup_first env (cf_keys k)) as [s|].
  - rewrite ec_duration in Hf. destruct (ParseDuration s) as [|d'] eqn:Hs; [done|]. injection Hf as <-.
    split; [by eapply ParseDuration_int64|done].
  - destruct (String.eqb_spec (cf_default k) ""); [done|]. rewrite (conv_duration _ _ Hd) in Hf. by injection Hf as <-.
Qed.

(** Field [i] of the struct whose values are [Hvs], by its kind. *)
Ltac read_field Hvs :=
  lazymatch goal with
  | |- reads_int _ _ ?n _ =>
      eapply (read_int _ _ _ _ _ _ n Hvs); [reflexivity|reflexivity|reflexivity|reflexivity|unfold in_int64, two63; lia]
  | |- reads_duration _ _ _ _ =>
      eapply (read_duration _ _ _ _ _ _ _ Hvs); [reflexivity|reflexivity|reflexivity|discriminate|vm_compute; reflexivity]
  end.

Lemma duration_within env keys : duration_ok env keys -> within_duration env keys.
Proof.
  intros Hok n u unit Hn Hu Hs. destruct (Hok _ Hs) as [d Hd]. rewrite (ParseDuration_number n u unit) in Hd by done.
  destruct (Z.ltb_spec (n * unit) two63); [done|discriminate].
Qed.

Lemma accepted_fields {A} what fs (fill : list ConfigValue -> A) env a :
  Forall well_tagged fs -> load what fs fill env = Ok a -> Forall (acceptable env) fs.
Proof. intros Hwt Hl. apply (load_ok what fs fill env Hwt). by rewrite Hl. Qed.

(** C30: Every number and every duration of a service is read from its own
    variable, within 64 bits.  When a loader succeeds, each int field is the
    number its variable holds and each duration field the value that
    [time.ParseDuration] gives it, as 64-bit integers, and a field whose variable
    is not set has its own default.  A natural number followed by a unit is that
    many nanoseconds if they fit; if they do not, in any duration variable of a
    service, the service does not start. *)
Theorem config_bounds env :
  (forall c, LoadNotifier env = Ok c ->
     reads_duration env ["RETRY_INTERVAL"] (15 * 60 * second) (nc_RetryInterval c) /\
     reads_int env ["MAX_RETRIES"] 5 (nc_MaxRetries c) /\
     reads_duration env ["CONFIRMATION_TTL"] (24 * 3600 * second) (nc_ConfirmationTTL c) /\
     reads_duration env ["PROCESSED_RELEASE_TTL"] (720 * 3600 * second) (nc_ProcessedTTL c) /\
     reads_int env ["SMTP_SMTP_PORT"; "SMTP_PORT"] 587 (smtp_Port (nc_SMTP c)) /\
     within_duration env ["RETRY_INTERVAL"] /\ within_duration env ["CONFIRMATION_TTL"] /\
     within_duration env ["PROCESSED_RELEASE_TTL"]) /\
  (forall c, LoadScanner env = Ok c ->
     reads_int env ["SCAN_WORKERS"] 5 (cc_WorkerCount c) /\
     reads_duration env ["SCAN_INTERVAL"] (10 * 60 * second) (cc_ScanInterval c) /\
     within_duration env ["SCAN_INTERVAL"]) /\
  (forall c, LoadSubscription env = Ok c ->
     reads_duration env ["CONFIRM_TOKEN_TTL"] (24 * 3600 * second) (bc_ConfirmTokenTTL c) /\
     reads_duration env ["PENDING_CLEANUP_INTERVAL"] (24 * 3600 * second) (bc_PendingCleanupInterval c) /\
     within_duration env ["CONFIRM_TOKEN_TTL"] /\ within_duration env ["PENDING_CLEANUP_INTERVAL"]) /\
  (forall n u unit, 0 <= n < 10 ^ 20 -> unitMap u = Some unit ->
     ParseDuration (print_int n +:+ u) = if n * unit <? two63 then inr (n * unit) else inl "time: invalid duration").
Proof.
  destruct structs_well_tagged as (Hn & _ & Hc & Hb). split_and!.
  - intros c Hl. pose proof (accepted_fields _ _ _ _ _ Hn Hl) as Hacc. revert Hacc. read_tags. intros Hacc.
    apply load_values in Hl as (vs & -> & Hvs). split_and!; try (apply duration_within; tauto); read_field Hvs.
  - intros c Hl. pose proof (accepted_fields _ _ _ _ _ Hc Hl) as Hacc. revert Hacc. read_tags. intros Hacc.
    apply load_values in Hl as (vs & -> & Hvs). split_and!; try (apply duration_within; tauto); read_field Hvs.
  - intros c Hl. pose proof (accepted_fields _ _ _ _ _ Hb Hl) as Hacc. revert Hacc. read_tags. intros Hacc.
    apply load_values in Hl as (vs & -> & Hvs). split_and!; try (apply duration_within; tauto); read_field Hvs.
  - intros n u unit Hrange Hu. by apply ParseDuration_number.
Qed.
End Contract.

(** ** A concrete [envconfig] *)

#[program] Definition exact_float : FloatLib := {|
  scaled_fraction f digits unit := Z.max 0 (f * unit / 10 ^ Z.of_nat digits) |}.
Next Obligation. intros. lia. Qed.

Example ParseDuration_examples :
  map (@ParseDuration exact_float) ["24h"; "1.5h"; "1m30s"; "-2ms"; "0"; "9223372036854775807ns"] =
    map inr [86400 * second; 5400 * second; 90 * second; -2000000; 0; two63 - 1] /\
  map (fun s => is_ok (match @ParseDuration exact_float s with inr d => Ok d | inl e => Err (ErrText e) end))
    ["24"; "h"; ""; "-"; "1.2.3s"; "9223372036854775808ns"; "3d"] = repeat false 7.
Proof. split; reflexivity. Qed.

Definition plain_conv (k : FieldKind) (s : string) : string + ConfigValue :=
  match k with
  | KString => inr (CVString s)
  | KInt => match parse_int64 s with Some z => inr (CVInt z) | None => inl "invalid syntax" end
  | KDuration => match @ParseDuration exact_float s with inl e => inl e | inr d => inr (CVDuration d) end
  end.

Definition plain_field (env : Environ) (f : ConfigField) : res ConfigValue :=
  match effective env f with
  | Some s => match plain_conv (cf_kind f) s with inr v => Ok v | inl e => Err (ErrText e) end
  | None => if cf_required f then Err (ErrText "required key missing value") else Ok (zero_value (cf_kind f))
  end.

Fixpoint plain_Process (env : Environ) (fs : list ConfigField) : res (list ConfigValue) :=
  match fs with
  | [] => Ok []
  | f :: fs =>
      match plain_field env f, plain_Process env fs with
      | Ok v, Ok vs => Ok (v :: vs)
      | Err e, _ | _, Err e => Err e
      end
  end.

Lemma plain_field_ok env f v : plain_field env f = Ok v <-> field_value plain_conv env f v.
Proof.
  unfold plain_field, field_value. destruct (effective env f) as [s|].
  - destruct (plain_conv (cf_kind f) s); naive_solver.
  - destruct (cf_required f); naive_solver.
Qed.

Lemma plain_Process_ok env fs vs : plain_Process env fs = Ok vs <-> Forall2 (field_value plain_conv env) fs vs.
Proof.
  revert vs. induction fs as [|f fs IH]; intros vs; simpl.
  { split; [intros [= <-]; constructor|by intros ->%Forall2_nil_inv_l]. }
  split.
  - destruct (plain_field env f) as [v|] eqn:Hf; [|done].
    destruct (plain_Process env fs) as [vs'|]; [|done]. intros [= <-].
    constructor; [by apply plain_field_ok|by apply IH].
  - intros (v & vs' & Hv & Hvs & ->)%Forall2_cons_inv_l.
    apply plain_field_ok in Hv as ->. apply IH in Hvs as ->. done.
Qed.

Lemma plain_int_range s v : plain_conv KInt s = inr v -> exists z, v = CVInt z /\ in_int64 z.
Proof.
  simpl. destruct (parse_int64 s) as [z|] eqn:Hz; [|done]. intros [= <-]. exists z. split; [done|].
  unfold parse_int64 in Hz. repeat case_match; simplify_eq; by case_bool_decide.
Qed.

#[program] Definition plain_envconfig : @EnvconfigLib exact_float := {|
  ec_conv := plain_conv; ec_Process := plain_Process |}.
Next Obligation. done. Qed.
Next Obligation. intros z Hz. simpl. by rewrite parse_int64_print. Qed.
Next Obligation. apply plain_int_range. Qed.
Next Obligation. done. Qed.
Next Obligation. apply plain_Process_ok. Qed.

(** An environment with the required variables of every service. *)
Definition required_env : Environ := fun k =>
  if decide (k ∈ ["DATABASE_URL"; "REDIS_URL"; "JWT_SECRET"; "SMTP_HOST"; "SMTP_USER"; "SMTP_PASSWORD"; "SMTP_FROM"])
  then Some ("value of " +:+ k) else None.

Lemma config_accepts_witness :
  is_ok (@LoadSaga _ plain_envconfig required_env) = true /\
  ~ is_set (fun k => if String.eqb k "JWT_SECRET" then None else required_env k) ["JWT_SECRET"] /\
  is_set required_env ["JWT_SECRET"].
Proof.
  pose proof (@config_accepts _ plain_envconfig required_env) as (_ & _ & _ & Hsub).
  split_and!; [vm_compute; reflexivity|intros [? [=]]|].
  apply (proj1 Hsub). vm_compute. reflexivity.
Defined.

Lemma config_defaults_witness :
  exists c, @LoadScanner _ plain_envconfig required_env = Ok c /\ cc_WorkerCount c = 5 /\
            cc_DatabaseURL c = "value of DATABASE_URL".
Proof.
  eexists. split.
  - apply (proj1 (proj2 (proj2 (@config_defaults _ plain_envconfig required_env)))).
    repeat apply List.Forall_cons; try apply List.Forall_nil; unfold only_required; simpl;
      (split; [intros [? [=]]; done | first [discriminate | intros _; eexists; reflexivity]]).
  - split; vm_compute; reflexivity.
Defined.

Lemma config_bounds_witness :
  let env v k := if String.eqb k "SCAN_INTERVAL" then Some v else required_env k in
  (exists c, @LoadScanner _ plain_envconfig (env "90s") = Ok c /\ cc_ScanInterval c = 90 * second /\ cc_WorkerCount c = 5) /\
  (forall c, @LoadScanner _ plain_envconfig (env "9223372037s") <> Ok c).
Proof.
  intros env. split.
  - destruct (@LoadScanner _ plain_envconfig (env "90s")) as [c|e] eqn:Hl; [|vm_compute in Hl; discriminate Hl].
    destruct (proj1 (proj2 (@config_bounds _ plain_envconfig (env "90s"))) c Hl) as (Hw & [_ Hd] & _).
    exists c. split_and!; [done| |exact Hw].
    assert (@ParseDuration exact_float "90s" = inr (90 * second)) as Hp by (vm_compute; reflexivity).
    rewrite Hp in Hd. by injection Hd as <-.
  - intros c Hl. destruct (proj1 (proj2 (@config_bounds _ plain_envconfig (env "9223372037s"))) c Hl) as (_ & _ & Hw).
    specialize (Hw 9223372037 "s" second ltac:(lia) eq_refl eq_refl). by vm_compute in Hw.
Defined.
