(* ===== verification/Subscription.v ===== *)
(** * The subscription service's data: [internal/subscription]

    Entities ([domain]), the two tables with their constraints, and the
    repositories ([adapter/repository]). *)

From S2P Require Import Prelude GoErrors Effects Wp Sql Json JsonFacts Events Uuid Broker Outbox Libs.

Open Scope string_scope.
Open Scope list_scope.
Open Scope Z_scope.

(** ** [domain] *)

Definition tokenBytes : nat := 32.

Record Repository := {
  repo_ID : UUID;
  repo_Name : string;
  repo_CreatedAt : Z;
}.

Record Subscription := {
  sub_ID : UUID;
  sub_RepositoryID : UUID;
  sub_Email : string;
  sub_UnsubscribeToken : string;
  sub_Confirmed : bool;
  sub_CreatedAt : Z;
}.

Record SubscriptionView := { view_Email : string; view_Repo : string; view_Confirmed : bool }.
Record ConfirmResult := { cr_Confirmed : bool; cr_UnsubToken : string }.
Record RemovedSubscription := { rm_Email : string; rm_Repo : string }.
Record ExpiredSubscription := { ex_Email : string; ex_Repo : string }.

Global Instance Repository_eq_dec : EqDecision Repository.
Proof. solve_decision. Defined.
Global Instance Subscription_eq_dec : EqDecision Subscription.
Proof. solve_decision. Defined.
Global Instance SubscriptionView_eq_dec : EqDecision SubscriptionView.
Proof. solve_decision. Defined.
Global Instance ExpiredSubscription_eq_dec : EqDecision ExpiredSubscription.
Proof. solve_decision. Defined.

Section Domain.
Context {D : Type} {E : Env}.

(** [randomToken]: [rand.Read] fills [tokenBytes] bytes or fails. *)
Definition randomToken : M D string :=
  r ← oracle env_rand;
  match r with
  | inl msg => fail (Errorf "generate random bytes" (ErrText msg))
  | inr bytes => mret (hex_EncodeToString (String.substring 0 tokenBytes bytes))
  end.

Definition NewSubscription (repositoryID : UUID) (email : string) : M D Subscription :=
  unsubscribeToken ← wrapping "generate unsubscribe token" randomToken;
  mret {| sub_ID := ""; sub_RepositoryID := repositoryID; sub_Email := email;
          sub_UnsubscribeToken := unsubscribeToken; sub_Confirmed := false; sub_CreatedAt := 0 |}.
End Domain.

(** ** The database *)

(** The rows are the entities: [repositoryRow] and [subscriptionRow] have the
    same fields and [toEntity] copies them. *)
Record SubDB := {
  repositories : list Repository;
  subscriptions : list Subscription;
  sub_outbox : list OutboxRow;
}.

Definition set_repositories (l : list Repository) (d : SubDB) : SubDB :=
  {| repositories := l; subscriptions := subscriptions d; sub_outbox := sub_outbox d |}.
Definition set_subscriptions (l : list Subscription) (d : SubDB) : SubDB :=
  {| repositories := repositories d; subscriptions := l; sub_outbox := sub_outbox d |}.

#[export] Instance SubDB_HasOutbox : HasOutbox SubDB.
Proof.
  refine {| outbox := sub_outbox;
            set_outbox l d := {| repositories := repositories d; subscriptions := subscriptions d;
                                 sub_outbox := l |} |}; intros; by destruct d.
Defined.

(** UNIQUE (email, repository_id) *)
Definition sub_key (s : Subscription) : string * UUID := (sub_Email s, sub_RepositoryID s).

(** JOIN repositories r ON r.id = s.repository_id, and the repository's name. *)
Definition joined_names (d : SubDB) (s : Subscription) : list string :=
  map repo_Name (select_where (key_is repo_ID (sub_RepositoryID s)) (repositories d)).

(** s.repository_id = r.id AND r.name = $2 AND s.email = $1 AND s.confirmed = false *)
Definition pending_for (d : SubDB) (email repo : string) (s : Subscription) : bool :=
  bool_decide (repo ∈ joined_names d s) && String.eqb (sub_Email s) email && negb (sub_Confirmed s).

Definition confirmed_sub (s : Subscription) : Subscription :=
  {| sub_ID := sub_ID s; sub_RepositoryID := sub_RepositoryID s; sub_Email := sub_Email s;
     sub_UnsubscribeToken := sub_UnsubscribeToken s; sub_Confirmed := true;
     sub_CreatedAt := sub_CreatedAt s |}.

(** A Go time sent to PostgreSQL: timestamptz has microsecond precision. *)
Definition pg_time (ns : Z) : Z := ns / 1000 * 1000.

(** ** [adapter/repository] *)

Section Repositories.
Context {E : Env} {P : PgxLib}.

(** [q, err := ...Query/QueryRow...; if err != nil { return ..., fmt.Errorf(pre, err) }]
    followed by a conversion of the rows. *)
Definition lift_res {D A} (r : res A) : M D A := fun w => (r, w).

(** INSERT INTO repositories (name) VALUES ($1)
    ON CONFLICT (name) DO UPDATE SET name = EXCLUDED.name RETURNING id, name, created_at *)
Definition get_or_create_stmt (name : string) : Stmt SubDB (list Repository) := fun sc d =>
  match select_where (key_is repo_Name name) (repositories d) with
  | (_ :: _) as hits => inr (hits, d)
  | [] =>
      if exists_where (key_is repo_ID (sc_uuid sc)) (repositories d)
      then inl "duplicate key value violates unique constraint repositories_pkey"
      else
        let r := {| repo_ID := sc_uuid sc; repo_Name := name; repo_CreatedAt := sc_now sc |} in
        inr ([r], set_repositories (insert_row r (repositories d)) d)
  end.

Definition repositoryRow_tags : list string := ["id"; "name"; "created_at"].

Definition GetOrCreate (ctx : Ctx) (name : string) : M SubDB Repository :=
  wrapping "get or create repository" (
    rows ← run (FromContext ctx) None (get_or_create_stmt name);
    lift_res (CollectExactlyOneRow ["id"; "name"; "created_at"] repositoryRow_tags rows)).

(** INSERT INTO subscriptions (...) ON CONFLICT (email, repository_id) DO NOTHING:
    the rows affected. *)
Definition create_stmt (sub : Subscription) : Stmt SubDB Z := fun sc d =>
  if exists_where (key_is sub_key (sub_key sub)) (subscriptions d) then inr (0, d)
  else if exists_where (key_is sub_UnsubscribeToken (sub_UnsubscribeToken sub)) (subscriptions d)
  then inl "duplicate key value violates unique constraint subscriptions_unsubscribe_token_key"
  else if exists_where (key_is sub_ID (sc_uuid sc)) (subscriptions d)
  then inl "duplicate key value violates unique constraint subscriptions_pkey"
  else if negb (exists_where (key_is repo_ID (sub_RepositoryID sub)) (repositories d))
  then inl "violates foreign key constraint subscriptions_repository_id_fkey"
  else inr (1, set_subscriptions (insert_row
    {| sub_ID := sc_uuid sc; sub_RepositoryID := sub_RepositoryID sub; sub_Email := sub_Email sub;
       sub_UnsubscribeToken := sub_UnsubscribeToken sub; sub_Confirmed := sub_Confirmed sub;
       sub_CreatedAt := sc_now sc |} (subscriptions d)) d).

Definition Create (ctx : Ctx) (sub : Subscription) : M SubDB unit :=
  n ← wrapping "create subscription" (run (FromContext ctx) None (create_stmt sub));
  if n =? 0 then fail (Sentinel ErrAlreadyExists) else mret tt.

Definition subscriptionRow_tags : list string :=
  ["id"; "repository_id"; "email"; "unsubscribe_token"; "confirmed"; "created_at"].

Definition find_stmt (email : string) (repoID : UUID) : Stmt SubDB (list Subscription) := fun _ d =>
  inr (select_where (key_is sub_key (email, repoID)) (subscriptions d), d).

Definition FindByEmailAndRepo (ctx : Ctx) (email : string) (repoID : UUID) : M SubDB Subscription :=
  rows ← wrapping "find subscription" (run (FromContext ctx) None (find_stmt email repoID));
  match CollectExactlyOneRow ["id"; "repository_id"; "email"; "unsubscribe_token"; "confirmed"; "created_at"]
          subscriptionRow_tags rows with
  | Ok s => mret s
  | Err e => if errors_Is e pgx_ErrNoRows then fail (Sentinel ErrNotFound)
             else fail (Errorf "find subscription" e)
  end.

(** UPDATE subscriptions s SET confirmed = true FROM repositories r WHERE ...
    RETURNING s.unsubscribe_token: the tokens of the updated rows. *)
Definition confirm_stmt (email repo : string) : Stmt SubDB (list string) := fun _ d =>
  inr (map sub_UnsubscribeToken (select_where (pending_for d email repo) (subscriptions d)),
       set_subscriptions (update_where (pending_for d email repo) confirmed_sub (subscriptions d)) d).

(** QueryRow(...).Scan reads the first row; no row is [pgx.ErrNoRows]. *)
Definition Repo_Confirm (ctx : Ctx) (email repo : string) : M SubDB ConfirmResult :=
  rows ← wrapping "confirm subscription" (run (FromContext ctx) None (confirm_stmt email repo));
  match rows with
  | [] => mret {| cr_Confirmed := false; cr_UnsubToken := "" |}
  | tok :: _ => mret {| cr_Confirmed := true; cr_UnsubToken := tok |}
  end.

(** WITH deleted AS (DELETE FROM subscriptions WHERE unsubscribe_token = $1 RETURNING ...)
    SELECT d.email, r.name FROM deleted d JOIN repositories r ON r.id = d.repository_id *)
Definition deleted_rows (d : SubDB) (p : Subscription -> bool) : list (string * string) :=
  flat_map (fun s => map (fun name => (sub_Email s, name)) (joined_names d s))
    (select_where p (subscriptions d)).

Definition delete_stmt (p : Subscription -> bool) : Stmt SubDB (list (string * string)) := fun _ d =>
  inr (deleted_rows d p, set_subscriptions (delete_where p (subscriptions d)) d).

Definition Repo_Delete (ctx : Ctx) (token : string) : M SubDB RemovedSubscription :=
  rows ← wrapping "delete subscription"
           (run (FromContext ctx) None (delete_stmt (key_is sub_UnsubscribeToken token)));
  match rows with
  | [] => fail (Sentinel ErrNotFound)
  | (email, repo) :: _ => mret {| rm_Email := email; rm_Repo := repo |}
  end.

(** DELETE FROM subscriptions s USING repositories r WHERE ...: rows affected. *)
Definition delete_pending_stmt (email repo : string) : Stmt SubDB Z := fun _ d =>
  inr (rows_matching (pending_for d email repo) (subscriptions d),
       set_subscriptions (delete_where (pending_for d email repo) (subscriptions d)) d).

Definition DeletePendingByEmailAndRepo (ctx : Ctx) (email repoName : string) : M SubDB bool :=
  n ← wrapping "delete pending subscription"
        (run (FromContext ctx) None (delete_pending_stmt email repoName));
  mret (0 <? n).

(** confirmed = false AND created_at < $1 *)
Definition expired_pending (cutoff : Z) (s : Subscription) : bool :=
  negb (sub_Confirmed s) && (sub_CreatedAt s <? pg_time cutoff).

(** The db tags of [removedRow], and the column names of the query
    [SELECT d.email, r.name FROM ...]. *)
Definition removedRow_tags : list string := ["email"; "repo"].
Definition expired_columns : list string := ["email"; "name"].

Definition DeleteExpiredPending (ctx : Ctx) (cutoff : Z) : M SubDB (list ExpiredSubscription) :=
  rows ← wrapping "delete expired pending"
           (run (FromContext ctx) None (delete_stmt (expired_pending cutoff)));
  collected ← wrapping "collect expired pending" (lift_res (CollectRows expired_columns removedRow_tags rows));
  mret (map (fun '(email, repo) => {| ex_Email := email; ex_Repo := repo |}) collected).

(** SELECT s.email, r.name AS repo, s.confirmed ... ORDER BY s.created_at DESC *)
Definition get_by_email_stmt (email : string) : Stmt SubDB (list SubscriptionView) := fun _ d =>
  inr (flat_map (fun s => map (fun name => {| view_Email := sub_Email s; view_Repo := name;
                                              view_Confirmed := sub_Confirmed s |}) (joined_names d s))
         (order_by (fun s => - sub_CreatedAt s) (select_where (key_is sub_Email email) (subscriptions d))), d).

Definition subscriptionViewRow_tags : list string := ["email"; "repo"; "confirmed"].

Definition GetByEmail (ctx : Ctx) (email : string) : M SubDB (list SubscriptionView) :=
  rows ← wrapping "get by email" (run (FromContext ctx) None (get_by_email_stmt email));
  wrapping "collect subscription views"
    (lift_res (CollectRows ["email"; "repo"; "confirmed"] subscriptionViewRow_tags rows)).
End Repositories.
