(* ===== verification/SubscriptionUse.v ===== *)
(** * The subscription service's use cases: [internal/subscription/usecase]

    Confirmation tokens ([adapter/confirmtoken]), the event publisher
    ([adapter/eventpublisher]), the URL builder, and subscribe, confirm,
    unsubscribe, list, cleanup and compensate. *)

From S2P Require Import Prelude GoErrors Effects Wp Sql Json JsonFacts RepoName Events Uuid Broker Outbox Libs GitHub.
From S2P Require Import Subscription.

Open Scope string_scope.
Open Scope list_scope.
Open Scope Z_scope.

(** ** [internal/infrastructure/urlbuilder] *)

Definition ConfirmURL (baseURL token : string) : string := baseURL +:+ "/api/confirm/" +:+ token.
Definition UnsubscribeURL (baseURL token : string) : string := baseURL +:+ "/api/unsubscribe/" +:+ token.

(** ** [adapter/confirmtoken] *)

Record Tokenizer := { tk_secret : string; tk_ttl : Z }.

Section Tokens.
Context {D : Type} {E : Env} {J : JwtLib}.

(** [jwt.NewNumericDate]: whole seconds. *)
Definition NewNumericDate (ns : Z) : Z := ns / second.

Definition Issue (t : Tokenizer) (email repo : string) : M D string :=
  now ← time_Now;
  let claims := {| jc_Repo := repo; jc_Subject := email; jc_IssuedAt := NewNumericDate now;
                   jc_ExpiresAt := NewNumericDate (now + tk_ttl t) |} in
  match jwt_Sign (tk_secret t) claims with
  | inl msg => fail (Errorf "sign confirmation token" (ErrText msg))
  | inr signed => mret signed
  end.

(** The claimed e-mail and repository. *)
Definition Verify (t : Tokenizer) (token : string) : M D (string * string) :=
  now ← time_Now;
  match jwt_Parse (tk_secret t) now token with
  | inl e =>
      if errors_Is e jwt_ErrTokenExpired then fail (Sentinel ErrExpired)
      else fail (Wrap2 (Sentinel ErrInvalid) e)
  | inr claims => mret (jc_Subject claims, jc_Repo claims)
  end.
End Tokens.

Section UseCases.
Context {E : Env} {V : Validators} {U : UUIDLib} {P : PgxLib} {J : JwtLib} {G : RepoChecker SubDB}.
Variable tokens : Tokenizer.
Variable baseURL : string.

(** [uuid.NewString] *)
Definition uuid_NewString {D} : M D string :=
  u ← fresh_uuid; mret (uuid_String u).

(** ** [adapter/eventpublisher] *)

Definition pub_SubscriptionPending (ctx : Ctx) (ev : SubscriptionPending) : M SubDB unit :=
  enqueue ctx SubjectSubscriptionPending ev.
Definition pub_SubscriptionConfirmed (ctx : Ctx) (ev : SubscriptionConfirmed) : M SubDB unit :=
  enqueue ctx SubjectSubscriptionConfirmed ev.
Definition pub_SubscriptionRemoved (ctx : Ctx) (ev : SubscriptionRemoved) : M SubDB unit :=
  enqueue ctx SubjectSubscriptionRemoved ev.
Definition pub_SubscriptionExpired (ctx : Ctx) (ev : SubscriptionExpired) : M SubDB unit :=
  enqueue ctx SubjectSubscriptionExpired ev.

(** ** [usecase/subscribe] *)

Definition ensureRepoExists (ctx : Ctx) (owner name : string) : M SubDB unit :=
  exists_ ← wrapping "check repo exists" (gh_RepoExists ctx owner name);
  if negb exists_ then fail (Sentinel ErrRepoNotFound) else mret tt.

(** Whether the subscription is new. *)
Definition resolveExisting (ctx : Ctx) (email : string) (repoID : UUID) : M SubDB bool :=
  r ← attempt (FindByEmailAndRepo ctx email repoID);
  match r with
  | Ok existing => if sub_Confirmed existing then fail (Sentinel ErrAlreadyExists) else mret false
  | Err e => if errors_Is e ErrNotFound then mret true else fail (Errorf "find subscription" e)
  end.

Definition emitPending (ctx : Ctx) (email repo : string) (repoID : UUID) (isNew : bool) : M SubDB unit :=
  token ← wrapping "issue confirmation token" (Issue tokens email repo);
  sub ← (if isNew then sub ← wrapping "new subscription" (NewSubscription repoID email); mret (Some sub)
         else mret None);
  sagaID ← uuid_NewString;
  let ev := {| sp_SagaID := sagaID; sp_Email := email; sp_RepoName := repo;
               sp_ConfirmURL := ConfirmURL baseURL token |} in
  _ ← Within ctx (fun ctx =>
        _ ← match sub with Some sub => Create ctx sub | None => mret tt end;
        pub_SubscriptionPending ctx ev);
  Notify.

Definition Subscribe_Execute (ctx : Ctx) (email repo : string) : M SubDB unit :=
  match ParseRepo repo with
  | Err e => fail e
  | Ok (owner, name) =>
      _ ← ensureRepoExists ctx owner name;
      r ← wrapping "ensure repository" (GetOrCreate ctx repo);
      isNew ← resolveExisting ctx email (repo_ID r);
      emitPending ctx email repo (repo_ID r) isNew
  end.

(** ** [usecase/confirm] *)

(** The transaction's body; its result is the captured variable. *)
Definition confirm_tx (ctx : Ctx) (email repo : string) : M SubDB ConfirmResult :=
  result ← Repo_Confirm ctx email repo;
  if negb (cr_Confirmed result) then mret result
  else
    sagaID ← uuid_NewString;
    _ ← pub_SubscriptionConfirmed ctx
          {| sc_SagaID := sagaID; sc_Email := email; sc_RepoName := repo;
             sc_UnsubToken := cr_UnsubToken result |};
    mret result.

Definition Confirm_Execute (ctx : Ctx) (token : string) : M SubDB unit :=
  '(email, repo) ← Verify tokens token;
  result ← Within ctx (fun ctx => confirm_tx ctx email repo);
  if cr_Confirmed result then Notify else mret tt.

(** ** [usecase/unsubscribe] *)

Definition Unsubscribe_Execute (ctx : Ctx) (token : string) : M SubDB unit :=
  _ ← Within ctx (fun ctx =>
        removed ← Repo_Delete ctx token;
        sagaID ← uuid_NewString;
        pub_SubscriptionRemoved ctx
          {| sr_SagaID := sagaID; sr_Email := rm_Email removed; sr_RepoName := rm_Repo removed |});
  Notify.

(** ** [usecase/list] *)

Definition List_Execute (ctx : Ctx) (email : string) : M SubDB (list SubscriptionView) :=
  GetByEmail ctx email.

(** ** [usecase/cleanup] *)

Definition cleanup_tx (ctx : Ctx) (cutoff : Z) : M SubDB (list ExpiredSubscription) :=
  expired ← DeleteExpiredPending ctx cutoff;
  _ ← for_each expired (fun s =>
        sagaID ← uuid_NewString;
        pub_SubscriptionExpired ctx
          {| se_SagaID := sagaID; se_Email := ex_Email s; se_RepoName := ex_Repo s |});
  mret expired.

Definition Cleanup_Run (maxAge : Z) (ctx : Ctx) : M SubDB unit :=
  now ← time_Now;
  let cutoff := now - maxAge in
  expired ← wrapping "clean up expired pending subscriptions"
              (Within ctx (fun ctx => cleanup_tx ctx cutoff));
  if bool_decide (expired = []) then mret tt else Notify.

(** [runCleanup] of [bootstrap/subscription/background.go] *)
Definition runCleanup (maxAge : Z) (signals : list TickerSignal) (ctx : Ctx) : M SubDB unit :=
  let tick := logged (Cleanup_Run maxAge ctx) in
  _ ← tick; ticker_loop tick signals.

(** ** [usecase/compensate] *)

Definition Compensate_Execute (ctx : Ctx) (email repoName : string) : M SubDB bool :=
  DeletePendingByEmailAndRepo ctx email repoName.
End UseCases.
