(* ===== verification/SubscriptionApi.v ===== *)
(** * The subscription service's edges

    The Connect API ([adapter/connectrpc]): authentication, validation, error
    mapping and handlers, composed as [NewConnectHandler] composes them; the
    compensation server ([adapter/compensationserver]) and the saga consumer
    ([adapter/eventconsumer]).  protovalidate is a parameter. *)

From S2P Require Import Prelude GoErrors Effects Wp Sql Json JsonFacts RepoName Events Uuid Broker Outbox Consumers.
From S2P Require Import Libs GitHub Subscription SubscriptionUse.
From Stdlib Require Import Ascii.

Open Scope string_scope.
Open Scope list_scope.
Open Scope Z_scope.

(** ** Connect *)

Inductive Code :=
| CodeInvalidArgument | CodeNotFound | CodeAlreadyExists | CodeUnauthenticated | CodeInternal.

Global Instance Code_eq_dec : EqDecision Code.
Proof. solve_decision. Defined.

Record ConnectError := { ce_code : Code; ce_message : string }.

Definition connect_NewError (code : Code) (message : string) : ConnectError :=
  {| ce_code := code; ce_message := message |}.

Inductive Request :=
| SubscribeRequest (email repo : string)
| ConfirmRequest (token : string)
| UnsubscribeRequest (token : string)
| ListSubscriptionsRequest (email : string).

(** [subscriptionv1.Subscription] *)
Record ProtoSubscription := { ps_Email : string; ps_Repo : string; ps_Confirmed : bool }.

Inductive Response :=
| MessageResponse (message : string)
| ListSubscriptionsResponse (subs : list ProtoSubscription).

(** ** [errors.go] *)

Definition domainErrorMappings : list (sentinel * Code * string) :=
  [(ErrInvalidRepo, CodeInvalidArgument, "invalid repo format, expected owner/repo");
   (ErrRepoNotFound, CodeNotFound, "repository not found on GitHub");
   (ErrAlreadyExists, CodeAlreadyExists, "email already subscribed to this repository");
   (ErrNotFound, CodeNotFound, "token not found");
   (ErrExpired, CodeNotFound, "confirmation link has expired");
   (ErrInvalid, CodeInvalidArgument, "invalid confirmation token")].

Fixpoint map_error (ms : list (sentinel * Code * string)) (err : error) : ConnectError :=
  match ms with
  | [] => connect_NewError CodeInternal "internal server error"
  | (target, code, message) :: ms =>
      if errors_Is err target then connect_NewError code message else map_error ms err
  end.

Definition domainError (err : error) : ConnectError := map_error domainErrorMappings err.

(** ** [auth_interceptor.go] *)

(** [map[string]bool]{Subscribe, ListSubscriptions} *)
Definition protectedProcedures (req : Request) : bool :=
  match req with
  | SubscribeRequest _ _ | ListSubscriptionsRequest _ => true
  | ConfirmRequest _ | UnsubscribeRequest _ => false
  end.

Definition bearerPrefix : string := "Bearer ".

(** ASCII case folding: [strings.EqualFold] of two strings of [bearerPrefix]'s
    byte length, none of whose letters has a non-ASCII fold. *)
Fixpoint EqualFold (s t : string) : bool :=
  match s, t with
  | "", "" => true
  | String a s, String b t => Ascii.eqb (lower a) (lower b) && EqualFold s t
  | _, _ => false
  end.

Fixpoint string_drop (n : nat) (s : string) : string :=
  match n, s with
  | S n, String _ s => string_drop n s
  | _, _ => s
  end.

Definition bearerToken (header : string) : string :=
  if (String.length header <? String.length bearerPrefix)%nat
     || negb (EqualFold (String.substring 0 (String.length bearerPrefix) header) bearerPrefix)
  then "" else string_drop (String.length bearerPrefix) header.

(** ** [mapper.go] *)

Definition toProtoSubscription (view : SubscriptionView) : ProtoSubscription :=
  {| ps_Email := view_Email view; ps_Repo := view_Repo view; ps_Confirmed := view_Confirmed view |}.
Definition toProtoSubscriptions (views : list SubscriptionView) : list ProtoSubscription :=
  map toProtoSubscription views.

(** ** protovalidate *)

(** The first violation of a message, with the name of its field when it has
    one; [None] is a valid message. *)
Class ProtoValidator (T : Type) := { pv_Validate : T -> option (option string) }.

(** [validationMessage] of [connectrpc]. *)
Definition validationMessage (field : option string) : string :=
  match field with
  | Some f =>
      if String.eqb f "email" then "invalid email format"
      else if String.eqb f "repo" then "invalid repo format, expected owner/repo"
      else if String.eqb f "token" then "invalid token"
      else "invalid request"
  | None => "invalid request"
  end.

(** ** The service *)

Section Service.
Context {E : Env} {V : Validators} {U : UUIDLib} {P : PgxLib} {J : JwtLib} {G : RepoChecker SubDB}.
Context {PV : ProtoValidator Request}.
Variable tokens : Tokenizer.
Variable baseURL : string.

Definition Reply : Type := ConnectError + Response.

(** [out, err := uc.Execute(...); if err != nil { return nil, s.domainError(...) }] *)
Definition reply {A} (c : M SubDB A) (k : A -> Response) : M SubDB Reply :=
  r ← attempt c;
  match r with
  | Err e => mret (inl (domainError e))
  | Ok a => mret (inr (k a))
  end.

Definition Service_Subscribe (ctx : Ctx) (email repo : string) : M SubDB Reply :=
  reply (Subscribe_Execute tokens baseURL ctx email repo)
    (fun _ => MessageResponse "subscription successful, confirmation email sent").

Definition Service_Confirm (ctx : Ctx) (token : string) : M SubDB Reply :=
  reply (Confirm_Execute tokens ctx token)
    (fun _ => MessageResponse "subscription confirmed successfully").

Definition Service_Unsubscribe (ctx : Ctx) (token : string) : M SubDB Reply :=
  reply (Unsubscribe_Execute ctx token) (fun _ => MessageResponse "unsubscribed successfully").

Definition Service_ListSubscriptions (ctx : Ctx) (email : string) : M SubDB Reply :=
  reply (List_Execute ctx email) (fun views => ListSubscriptionsResponse (toProtoSubscriptions views)).

Definition Service_handle (ctx : Ctx) (req : Request) : M SubDB Reply :=
  match req with
  | SubscribeRequest email repo => Service_Subscribe ctx email repo
  | ConfirmRequest token => Service_Confirm ctx token
  | UnsubscribeRequest token => Service_Unsubscribe ctx token
  | ListSubscriptionsRequest email => Service_ListSubscriptions ctx email
  end.

Definition UnaryFunc : Type := Ctx -> Request -> M SubDB Reply.

(** [NewAuthInterceptor], with the request's Authorization header. *)
Definition NewAuthInterceptor (apiKey header : string) (next : UnaryFunc) : UnaryFunc := fun ctx req =>
  if String.eqb apiKey "" || negb (protectedProcedures req) then next ctx req
  else if negb (String.eqb (bearerToken header) apiKey)
  then mret (inl (connect_NewError CodeUnauthenticated "unauthorized"))
  else next ctx req.

Definition NewValidationInterceptor (next : UnaryFunc) : UnaryFunc := fun ctx req =>
  match pv_Validate req with
  | Some field => mret (inl (connect_NewError CodeInvalidArgument (validationMessage field)))
  | None => next ctx req
  end.

(** [NewConnectHandler]: the first interceptor is the outermost (the
    observability interceptor, which only records, is left out). *)
Definition NewConnectHandler (apiKey header : string) : UnaryFunc :=
  NewAuthInterceptor apiKey header (NewValidationInterceptor Service_handle).

(** ** [adapter/compensationserver] *)

Record CompensateRequest := {
  cq_SagaId : string; cq_SagaType : string; cq_Email : string; cq_RepoName : string;
}.

Definition compensation_validationMessage (field : option string) : string :=
  match field with
  | Some f =>
      if String.eqb f "saga_id" then "invalid saga id, expected a uuid"
      else if String.eqb f "saga_type" then "saga type must not be empty"
      else if String.eqb f "email" then "invalid email format"
      else if String.eqb f "repo_name" then "invalid repo name, expected owner/repo"
      else "invalid request"
  | None => "invalid request"
  end.

(** [(s *Service) Compensate]: whether a row was rolled back. *)
Definition Server_Compensate (ctx : Ctx) (req : CompensateRequest) : M SubDB (ConnectError + bool) :=
  let ctx := WithSagaID ctx (cq_SagaId req) in
  r ← attempt (Compensate_Execute ctx (cq_Email req) (cq_RepoName req));
  match r with
  | Err _ => mret (inl (connect_NewError CodeInternal "internal server error"))
  | Ok rolledBack => mret (inr rolledBack)
  end.

Definition Server_handle {PC : ProtoValidator CompensateRequest} (ctx : Ctx) (req : CompensateRequest)
    : M SubDB (ConnectError + bool) :=
  match pv_Validate req with
  | Some field => mret (inl (connect_NewError CodeInvalidArgument (compensation_validationMessage field)))
  | None => Server_Compensate ctx req
  end.

(** ** [adapter/eventconsumer] *)

Definition HandleCompensate : Handler SubDB := fun ctx data =>
  decoded data (fun ev : SagaCompensate =>
    _ ← Compensate_Execute (WithSagaID ctx (sgc_SagaID ev)) (sgc_Email ev) (sgc_RepoName ev);
    mret tt).

Definition subscription_startConsumers : list (ConsumerSpec SubDB) :=
  [{| cs_Stream := StreamSagas; cs_Durable := "subscription-saga-compensate";
      cs_Subject := SubjectSagaCompensate; cs_Handler := HandleCompensate |}].
End Service.
