(* ===== verification/SubscriptionFacts.v ===== *)
(** * The subscription service implements its contract

    The abstract state says, for each e-mail and repository name, whether there
    is a subscription, whether it is confirmed and its unsubscribe token.
    [sub_spec] lists what each use case may do to it and which events it
    announces.  The use cases refine it for every behaviour of the database:
    a change and its event are committed together or not at all. *)

From S2P Require Import Prelude GoErrors Effects Wp Sql Json JsonFacts RepoName Events Uuid Broker Outbox Consumers.
From S2P Require Import Libs GitHub Subscription SubscriptionUse SubscriptionApi.

Open Scope string_scope.
Open Scope list_scope.
Open Scope Z_scope.

(** ** The database invariant: the schema's constraints *)

Record sub_inv (d : SubDB) : Prop := {
  inv_repo_id : unique_on repo_ID (repositories d);
  inv_repo_name : unique_on repo_Name (repositories d);
  inv_sub_id : unique_on sub_ID (subscriptions d);
  inv_sub_token : unique_on sub_UnsubscribeToken (subscriptions d);
  inv_sub_key : unique_on sub_key (subscriptions d);
  inv_sub_fk : forall s, s ∈ subscriptions d -> exists r, r ∈ repositories d /\ repo_ID r = sub_RepositoryID s;
  inv_outbox : unique_on om_id (sub_outbox d);
}.

(** ** The abstract state *)

(** For each (e-mail, repository): confirmed? and the unsubscribe token. *)
Definition SubView : Type := string -> string -> option (bool * string).

Definition sub_at (d : SubDB) : SubView := fun email repo =>
  match select_where (key_is repo_Name repo) (repositories d) with
  | [] => None
  | rp :: _ =>
      match select_where (key_is sub_key (email, repo_ID rp)) (subscriptions d) with
      | [] => None
      | s :: _ => Some (sub_Confirmed s, sub_UnsubscribeToken s)
      end
  end.

Definition upd (m : SubView) (email repo : string) (v : option (bool * string)) : SubView :=
  fun e r => if decide ((e, r) = (email, repo)) then v else m e r.

(** Row [s] is the subscription of [email] to [repo]. *)
Definition at_key (d : SubDB) (email repo : string) (s : Subscription) : Prop :=
  sub_Email s = email /\
  exists rp, rp ∈ repositories d /\ repo_ID rp = sub_RepositoryID s /\ repo_Name rp = repo.

Lemma sub_at_Some d email repo v :
  sub_inv d ->
  sub_at d email repo = Some v <->
  exists s, s ∈ subscriptions d /\ at_key d email repo s /\ v = (sub_Confirmed s, sub_UnsubscribeToken s).
Proof.
  intros Hi. unfold sub_at.
  destruct (select_unique repo_Name (repositories d) repo (inv_repo_name d Hi)) as [Hn|(rp & -> & Hrp & Hname)].
  { rewrite Hn. split; [done|]. intros (s & _ & (_ & rp & Hrp & _ & Hname) & _).
    by destruct (select_key_absent repo_Name (repositories d) repo rp). }
  destruct (select_unique sub_key (subscriptions d) (email, repo_ID rp) (inv_sub_key d Hi))
    as [Hn|(s & -> & Hs & Hk)].
  - rewrite Hn. split; [done|]. intros (s & Hs & (He & rp' & Hrp' & Hid & Hname') & _).
    destruct (select_key_absent sub_key (subscriptions d) (email, repo_ID rp) s); [done..|].
    unfold sub_key. rewrite He, <- Hid. f_equal.
    by rewrite (unique_on_eq repo_Name (repositories d) rp rp' (inv_repo_name d Hi)) by congruence.
  - unfold sub_key in Hk. injection Hk as He Hid. split.
    + intros [= <-]. exists s. split_and!; [done| |done]. split; [done|]. by exists rp.
    + intros (s' & Hs' & (He' & rp' & Hrp' & Hid' & Hname') & ->).
      rewrite (unique_on_eq sub_key (subscriptions d) s s' (inv_sub_key d Hi)); [done..|].
      unfold sub_key. rewrite He, Hid, He', <- Hid'. f_equal.
      by rewrite (unique_on_eq repo_Name (repositories d) rp rp' (inv_repo_name d Hi)) by congruence.
Qed.

(** Each row has exactly one key, and each key at most one row. *)
Lemma at_key_row d e r s1 s2 :
  sub_inv d -> s1 ∈ subscriptions d -> s2 ∈ subscriptions d -> at_key d e r s1 -> at_key d e r s2 -> s1 = s2.
Proof.
  intros Hi H1 H2 (He1 & r1 & Hr1 & Hid1 & Hn1) (He2 & r2 & Hr2 & Hid2 & Hn2).
  apply (unique_on_eq sub_key (subscriptions d) s1 s2 (inv_sub_key d Hi)); [done..|].
  unfold sub_key. rewrite He1, He2, <- Hid1, <- Hid2. f_equal.
  by rewrite (unique_on_eq repo_Name (repositories d) r1 r2 (inv_repo_name d Hi)) by congruence.
Qed.

Lemma at_key_fun d e r e' r' s :
  sub_inv d -> at_key d e r s -> at_key d e' r' s -> (e', r') = (e, r).
Proof.
  intros Hi (He1 & r1 & Hr1 & Hid1 & Hn1) (He2 & r2 & Hr2 & Hid2 & Hn2).
  rewrite (unique_on_eq repo_ID (repositories d) r1 r2 (inv_repo_id d Hi)) in Hn1 by congruence. congruence.
Qed.

Lemma at_key_exists d s : sub_inv d -> s ∈ subscriptions d -> exists e r, at_key d e r s.
Proof.
  intros Hi Hs. destruct (inv_sub_fk d Hi s Hs) as (rp & Hrp & Hid).
  exists (sub_Email s), (repo_Name rp). split; [done|]. by exists rp.
Qed.

Lemma joined_names_spec d s repo :
  repo ∈ joined_names d s <-> exists rp, rp ∈ repositories d /\ repo_ID rp = sub_RepositoryID s /\ repo_Name rp = repo.
Proof.
  unfold joined_names. rewrite list_elem_of_fmap. split.
  - intros (rp & -> & [Hrp Hk]%elem_of_select). unfold key_is in Hk. apply bool_decide_eq_true in Hk. eauto.
  - intros (rp & Hrp & Hid & <-). exists rp. split; [done|]. apply elem_of_select.
    split; [done|]. unfold key_is. by rewrite bool_decide_eq_true_2.
Qed.

Lemma pending_for_spec d email repo s :
  pending_for d email repo s = true <-> at_key d email repo s /\ sub_Confirmed s = false.
Proof.
  unfold pending_for, at_key. rewrite !andb_true_iff, bool_decide_eq_true, joined_names_spec, negb_true_iff.
  rewrite String.eqb_eq. tauto.
Qed.

(** ** The contract *)

Inductive SubEvent :=
| EvPending (email repo link : string)
| EvConfirmed (email repo token : string)
| EvRemoved (email repo : string)
| EvExpired (email repo : string).

(** [OpSubscribe] comes with the confirmation links it may announce;
    [OpAnnounce] is its last part when a pending subscription was found, which
    by then may have changed. *)
Inductive SubOp :=
| OpSubscribe (email repo : string) (links : string -> Prop)
| OpAnnounce (email repo : string) (links : string -> Prop)
| OpConfirm (email repo : string)
| OpUnsubscribe (token : string)
| OpCompensate (email repo : string)
| OpOther.

Definition same_view (m m' : SubView) : Prop := forall e r, m' e r = m e r.

Global Instance same_view_equiv : Equivalence same_view.
Proof.
  split; unfold same_view; [done|by intros x y H e r; rewrite H|].
  intros x y z H1 H2 e r. by rewrite H2, H1.
Qed.

Definition not_pending (m : SubView) (e r : string) : Prop := forall tok, m e r <> Some (false, tok).

(** [sub_spec m op ok evs m']: [op] may take [m] to [m'] announcing [evs], and
    report success or not as [ok] says. *)
Inductive sub_spec (m : SubView) : SubOp -> bool -> list SubEvent -> SubView -> Prop :=
| spec_failed op m' : same_view m m' -> sub_spec m op false [] m'
| spec_subscribed ok e r tok (links : string -> Prop) link m' :
    m e r = None -> links link -> same_view (upd m e r (Some (false, tok))) m' ->
    sub_spec m (OpSubscribe e r links) ok [EvPending e r link] m'
| spec_resubscribed ok e r tok (links : string -> Prop) link m' :
    m e r = Some (false, tok) -> links link -> same_view m m' ->
    sub_spec m (OpSubscribe e r links) ok [EvPending e r link] m'
| spec_announced ok e r (links : string -> Prop) link m' :
    links link -> same_view m m' -> sub_spec m (OpAnnounce e r links) ok [EvPending e r link] m'
| spec_confirmed ok e r tok m' :
    m e r = Some (false, tok) -> same_view (upd m e r (Some (true, tok))) m' ->
    sub_spec m (OpConfirm e r) ok [EvConfirmed e r tok] m'
| spec_confirm_noop ok e r m' :
    not_pending m e r -> same_view m m' -> sub_spec m (OpConfirm e r) ok [] m'
| spec_removed ok e r b tok m' :
    m e r = Some (b, tok) -> same_view (upd m e r None) m' ->
    sub_spec m (OpUnsubscribe tok) ok [EvRemoved e r] m'
| spec_compensated ok e r tok m' :
    m e r = Some (false, tok) -> same_view (upd m e r None) m' -> sub_spec m (OpCompensate e r) ok [] m'
| spec_compensate_noop ok e r m' :
    not_pending m e r -> same_view m m' -> sub_spec m (OpCompensate e r) ok [] m'
| spec_other ok m' : same_view m m' -> sub_spec m OpOther ok [] m'.

Global Instance upd_proper : Proper (same_view ==> (=) ==> (=) ==> (=) ==> same_view) upd.
Proof. intros m m' Hm ? e -> ? r -> ? v -> e' r'. unfold upd. case_decide; [done|apply Hm]. Qed.

(** The contract does not distinguish equal views. *)
Lemma sub_spec_view m0 m op ok evs m' :
  same_view m0 m -> sub_spec m op ok evs m' -> sub_spec m0 op ok evs m'.
Proof.
  intros Hm Hs. assert (forall e r, m e r = m0 e r) as Heq by apply Hm.
  assert (forall e r, not_pending m e r -> not_pending m0 e r) as Hnp.
  { intros e r Hn tok. rewrite <- Heq. apply Hn. }
  assert (forall x, same_view m x -> same_view m0 x) as Hv by (intros x Hx; by etrans).
  assert (forall e r v x, same_view (upd m e r v) x -> same_view (upd m0 e r v) x) as Hu.
  { intros e r v x Hx. etrans; [by apply upd_proper|exact Hx]. }
  destruct Hs; rewrite ?Heq in *.
  - apply spec_failed; auto.
  - eapply spec_subscribed; eauto.
  - eapply spec_resubscribed; eauto.
  - eapply spec_announced; eauto.
  - eapply spec_confirmed; eauto.
  - apply spec_confirm_noop; auto.
  - eapply spec_removed; eauto.
  - eapply spec_compensated; eauto.
  - apply spec_compensate_noop; auto.
  - apply spec_other; auto.
Qed.

(** The outbox row [row] announces the event. *)
Definition announces `{UUIDLib} (ev : SubEvent) (row : OutboxRow) : Prop :=
  match ev with
  | EvPending e r link => om_subject row = SubjectSubscriptionPending /\ exists p, validate p = true /\
      sp_Email p = e /\ sp_RepoName p = r /\ sp_ConfirmURL p = link /\ om_payload row = encode_event p
  | EvConfirmed e r tok => om_subject row = SubjectSubscriptionConfirmed /\ exists p, validate p = true /\
      sc_Email p = e /\ sc_RepoName p = r /\ sc_UnsubToken p = tok /\
      om_payload row = encode_event p
  | EvRemoved e r => om_subject row = SubjectSubscriptionRemoved /\ exists p, validate p = true /\
      sr_Email p = e /\ sr_RepoName p = r /\ om_payload row = encode_event p
  | EvExpired e r => om_subject row = SubjectSubscriptionExpired /\ exists p, validate p = true /\
      se_Email p = e /\ se_RepoName p = r /\ om_payload row = encode_event p
  end.

(** ** What the statements do *)

Section Statements.
Context {P : PgxLib}.

(** The key of a row does not depend on the other rows. *)
Lemma at_key_set_subs d l e r s : at_key (set_subscriptions l d) e r s <-> at_key d e r s.
Proof. done. Qed.

Lemma sub_inv_delete d p : sub_inv d -> sub_inv (set_subscriptions (delete_where p (subscriptions d)) d).
Proof.
  intros []. split; simpl; auto with sql. intros s [Hs _]%elem_of_delete. auto.
Qed.

(** Deleting exactly the row of a key clears that key and no other. *)
Lemma sub_at_delete d p e r s :
  sub_inv d -> s ∈ subscriptions d -> at_key d e r s ->
  (forall s', s' ∈ subscriptions d -> p s' = true <-> s' = s) ->
  same_view (upd (sub_at d) e r None) (sub_at (set_subscriptions (delete_where p (subscriptions d)) d)).
Proof.
  intros Hi Hs Hk Hp e' r'. apply option_eq. intros v. rewrite sub_at_Some by by apply sub_inv_delete.
  unfold upd. simpl. setoid_rewrite elem_of_delete. setoid_rewrite at_key_set_subs.
  destruct (decide ((e', r') = (e, r))) as [[= -> ->]|Hne].
  - split; [|done]. intros (s' & [Hs' Hpf] & Hk' & _).
    rewrite (at_key_row d e r s' s) in Hpf by done. assert (p s = true) by (by apply Hp). congruence.
  - rewrite sub_at_Some by done. split; [naive_solver|]. intros (s' & Hs' & Hk' & ->).
    exists s'. split_and!; try done. destruct (p s') eqn:Hps; [|done]. exfalso. apply Hne.
    apply Hp in Hps as ->; [|done]. by eapply at_key_fun.
Qed.

Lemma sub_at_delete_none d p :
  sub_inv d -> (forall s, s ∈ subscriptions d -> p s = false) ->
  set_subscriptions (delete_where p (subscriptions d)) d = d.
Proof.
  intros Hi Hp. rewrite delete_where_none by by apply exists_where_false. by destruct d.
Qed.

Lemma sub_inv_confirm d p : sub_inv d -> sub_inv (set_subscriptions (update_where p confirmed_sub (subscriptions d)) d).
Proof.
  intros []. split; simpl; auto using unique_on_update.
  intros s (s0 & Hs0 & ->)%elem_of_update. destruct (p s0); simpl; auto.
Qed.

(** Confirming the pending row of a key. *)
Lemma sub_at_confirm d e r s :
  sub_inv d -> s ∈ subscriptions d -> at_key d e r s -> sub_Confirmed s = false ->
  same_view (upd (sub_at d) e r (Some (true, sub_UnsubscribeToken s)))
    (sub_at (set_subscriptions (update_where (pending_for d e r) confirmed_sub (subscriptions d)) d)).
Proof.
  intros Hi Hs Hk Hc e' r'. apply option_eq. intros v. rewrite sub_at_Some by by apply sub_inv_confirm.
  unfold upd. simpl. setoid_rewrite elem_of_update. setoid_rewrite at_key_set_subs.
  assert (pending_for d e r s = true) as Hps by by apply pending_for_spec.
  assert (forall s', s' ∈ subscriptions d -> pending_for d e r s' = true -> s' = s) as Hone.
  { intros s' Hs' [Hk' _]%pending_for_spec. by eapply at_key_row. }
  assert (forall s', at_key d e' r' (if pending_for d e r s' then confirmed_sub s' else s') <-> at_key d e' r' s')
    as Hkey by (intros s'; by destruct (pending_for d e r s')).
  destruct (decide ((e', r') = (e, r))) as [[= -> ->]|Hne].
  - split.
    + intros (s' & (s0 & Hs0 & ->) & Hk0 & ->). rewrite Hkey in Hk0.
      rewrite (at_key_row d e r s0 s), Hps by done. done.
    + intros [= <-]. exists (confirmed_sub s). split_and!; [|done|done]. exists s. by rewrite Hps.
  - rewrite sub_at_Some by done. split.
    + intros (s' & (s0 & Hs0 & ->) & Hk0 & ->). rewrite Hkey in Hk0. exists s0. split_and!; [done..|].
      destruct (pending_for d e r s0) eqn:Hp0; [|done]. exfalso. apply Hne.
      apply Hone in Hp0 as ->; [|done]. by eapply at_key_fun.
    + intros (s0 & Hs0 & Hk0 & ->). exists s0. split_and!; [|done..]. exists s0. split; [done|].
      destruct (pending_for d e r s0) eqn:Hp0; [|done]. exfalso. apply Hne.
      apply Hone in Hp0 as ->; [|done]. by eapply at_key_fun.
Qed.

(** A key is pending in the view exactly when a pending row exists. *)
Lemma select_pending d e r :
  sub_inv d ->
  (select_where (pending_for d e r) (subscriptions d) = [] /\ not_pending (sub_at d) e r /\
     forall s, s ∈ subscriptions d -> pending_for d e r s = false) \/
  (exists s, select_where (pending_for d e r) (subscriptions d) = [s] /\ s ∈ subscriptions d /\
     at_key d e r s /\ sub_Confirmed s = false /\ sub_at d e r = Some (false, sub_UnsubscribeToken s) /\
     forall s', s' ∈ subscriptions d -> pending_for d e r s' = true <-> s' = s).
Proof.
  intros Hi. destruct (exists_where (pending_for d e r) (subscriptions d)) eqn:Hex.
  - right. apply exists_where_true in Hex as (s & Hs & Hp). pose proof Hp as [Hk Hc]%pending_for_spec.
    assert (forall s', s' ∈ subscriptions d -> pending_for d e r s' = true <-> s' = s) as Hone.
    { intros s' Hs'. split; [|by intros ->]. intros [Hk' _]%pending_for_spec. by eapply at_key_row. }
    exists s. split_and!; try done.
    + apply select_singleton; [|done..]. by eapply unique_on_NoDup, inv_sub_id.
    + apply sub_at_Some; [done|]. exists s. by rewrite Hc.
  - left. split; [by apply select_where_none|]. rewrite exists_where_false in Hex. split; [|done].
    intros tok (s & Hs & Hk & [= Hc _])%sub_at_Some; [|done].
    assert (pending_for d e r s = true) by by apply pending_for_spec. rewrite Hex in H; done.
Qed.

Lemma get_or_create_spec name sc d rows d' :
  sub_inv d -> get_or_create_stmt name sc d = inr (rows, d') ->
  sub_inv d' /\ same_view (sub_at d) (sub_at d') /\ sub_outbox d' = sub_outbox d /\
  exists rp, rows = [rp] /\ rp ∈ repositories d' /\ repo_Name rp = name.
Proof.
  intros Hi. unfold get_or_create_stmt.
  destruct (select_unique repo_Name (repositories d) name (inv_repo_name d Hi)) as [Hn|(rp & -> & Hrp & Hname)];
    [rewrite Hn|intros [= <- <-]; split_and!; [done..|by exists rp]].
  destruct (exists_where (key_is repo_ID (sc_uuid sc)) (repositories d)) eqn:Hfresh; [done|].
  intros [= <- <-]. set (rp := {| repo_ID := _ |}).
  assert (sub_inv (set_repositories (insert_row rp (repositories d)) d)) as Hi'.
  { destruct Hi. split; simpl; [by apply unique_on_insert| |done..| |done].
    - apply unique_on_insert; [done|]. apply exists_where_false. intros r Hr.
      unfold key_is. apply bool_decide_eq_false_2. intros Hk. by destruct (select_key_absent repo_Name (repositories d) name r).
    - intros s Hs. destruct (inv_sub_fk0 s Hs) as (r & Hr & Hid). exists r.
      rewrite elem_of_insert_row. auto. }
  split_and!; [done| |done|exists rp; split_and!; [done|apply elem_of_insert_row; by right|done]].
  intros e' r'. apply option_eq. intros v. rewrite !sub_at_Some by done. simpl.
  assert (forall s, s ∈ subscriptions d -> at_key (set_repositories (insert_row rp (repositories d)) d) e' r' s
    <-> at_key d e' r' s) as Hkey; [|split; intros (s & Hs & Hk & ->); exists s; apply Hkey in Hk; auto].
  intros s Hs. unfold at_key. simpl. setoid_rewrite elem_of_insert_row.
  split; [|naive_solver]. intros (He & r & [Hr| ->] & Hid & Hn'); [eauto 6|]. exfalso.
  destruct (inv_sub_fk d Hi s Hs) as (r & Hr & Hid'). rewrite exists_where_false in Hfresh.
  specialize (Hfresh r Hr). unfold key_is in Hfresh. apply bool_decide_eq_false in Hfresh. simpl in Hid. congruence.
Qed.

Lemma create_spec sub sc d n d' rp :
  sub_inv d -> rp ∈ repositories d -> repo_ID rp = sub_RepositoryID sub ->
  create_stmt sub sc d = inr (n, d') ->
  (n = 0 /\ d' = d) \/
  (n = 1 /\ sub_inv d' /\ sub_outbox d' = sub_outbox d /\ sub_at d (sub_Email sub) (repo_Name rp) = None /\
   same_view (upd (sub_at d) (sub_Email sub) (repo_Name rp) (Some (sub_Confirmed sub, sub_UnsubscribeToken sub)))
     (sub_at d')).
Proof.
  intros Hi Hrp Hid. unfold create_stmt.
  destruct (exists_where (key_is sub_key (sub_key sub)) (subscriptions d)) eqn:Hkey; [by intros [= <- <-]; left|].
  destruct (exists_where (key_is sub_UnsubscribeToken _) _) eqn:Htok; [done|].
  destruct (exists_where (key_is sub_ID _) _) eqn:Hsid; [done|].
  destruct (exists_where (key_is repo_ID _) _) eqn:Hfk; [|done]. simpl. intros [= <- <-]. right.
  set (s := {| sub_ID := _ |}).
  assert (sub_inv (set_subscriptions (insert_row s (subscriptions d)) d)) as Hi'.
  { destruct Hi. split; simpl; [done|done|by apply unique_on_insert..| |done].
    intros s' [Hs'| ->]%elem_of_insert_row; [auto|]. by exists rp. }
  assert (at_key d (sub_Email sub) (repo_Name rp) s) as Hs by (split; [done|]; by exists rp).
  assert (forall s', s' ∈ subscriptions d -> ~ at_key d (sub_Email sub) (repo_Name rp) s') as Hnone.
  { intros s' Hs' (He & rp' & Hrp' & Hid' & Hn'). rewrite exists_where_false in Hkey. specialize (Hkey s' Hs').
    unfold key_is in Hkey. apply bool_decide_eq_false in Hkey. apply Hkey. unfold sub_key.
    rewrite He, <- Hid', <- Hid. f_equal.
    by rewrite (unique_on_eq repo_Name (repositories d) rp' rp (inv_repo_name d Hi)). }
  split_and!; [done..| |].
  - apply option_eq. intros v. split; [|done]. intros (s' & Hs' & Hk' & _)%sub_at_Some; [|done].
    by destruct (Hnone s' Hs').
  - intros e' r'. apply option_eq. intros v. rewrite sub_at_Some by done. simpl. unfold upd.
    setoid_rewrite elem_of_insert_row. setoid_rewrite at_key_set_subs.
    destruct (decide ((e', r') = (sub_Email sub, repo_Name rp))) as [[= -> ->]|Hne].
    + split; [|intros [= <-]; exists s; auto]. intros (s' & [Hs'| ->] & Hk' & ->); [by destruct (Hnone s' Hs')|done].
    + rewrite sub_at_Some by done. split; [|naive_solver]. intros (s' & [Hs'| ->] & Hk' & ->); [eauto|].
      destruct Hne. by eapply at_key_fun.
Qed.

Lemma joined_names_one d s :
  sub_inv d -> s ∈ subscriptions d -> exists r, joined_names d s = [r] /\ at_key d (sub_Email s) r s.
Proof.
  intros Hi Hs. unfold joined_names. destruct (inv_sub_fk d Hi s Hs) as (rp & Hrp & Hid).
  destruct (select_unique repo_ID (repositories d) (sub_RepositoryID s) (inv_repo_id d Hi))
    as [Hn|(rp' & -> & Hrp' & Hid')].
  - by destruct (select_key_absent repo_ID (repositories d) (sub_RepositoryID s) rp).
  - exists (repo_Name rp'). split; [done|]. split; [done|]. by exists rp'.
Qed.

Lemma deleted_by_token d tok :
  sub_inv d ->
  (deleted_rows d (key_is sub_UnsubscribeToken tok) = [] /\
     forall s, s ∈ subscriptions d -> key_is sub_UnsubscribeToken tok s = false) \/
  (exists s e r, deleted_rows d (key_is sub_UnsubscribeToken tok) = [(e, r)] /\ s ∈ subscriptions d /\
     at_key d e r s /\ sub_UnsubscribeToken s = tok /\
     forall s', s' ∈ subscriptions d -> key_is sub_UnsubscribeToken tok s' = true <-> s' = s).
Proof.
  intros Hi. unfold deleted_rows.
  destruct (select_unique sub_UnsubscribeToken (subscriptions d) tok (inv_sub_token d Hi))
    as [Hn|(s & -> & Hs & Htok)].
  - left. rewrite Hn. split; [done|]. intros s Hs. unfold key_is. apply bool_decide_eq_false_2. intros Hk.
    by destruct (select_key_absent sub_UnsubscribeToken (subscriptions d) tok s).
  - right. destruct (joined_names_one d s Hi Hs) as (r & Hj & Hk).
    exists s, (sub_Email s), r. simpl. rewrite Hj. split_and!; [done..|].
    intros s' Hs'. unfold key_is. rewrite bool_decide_eq_true. split; [|by intros ->]. intros Ht.
    apply (unique_on_eq sub_UnsubscribeToken (subscriptions d) s' s (inv_sub_token d Hi)); congruence.
Qed.

(** An event appended to the outbox changes nothing else. *)
Lemma sub_inv_announce d row :
  sub_inv d -> exists_where (key_is om_id (om_id row)) (sub_outbox d) = false ->
  sub_inv (set_outbox (sub_outbox d ++ [row]) d).
Proof. intros [] Hf. split; simpl; auto. by apply (unique_on_insert om_id row). Qed.
End Statements.

(** ** The use cases *)

Section UseCases.
Context {E : Env} {V : Validators} {U : UUIDLib} {P : PgxLib} {J : JwtLib} {G : RepoChecker SubDB}.
Implicit Types w : World SubDB.

(** Only requests to GitHub and its cache leave the service directly. *)
Definition only_github w w' : Prop := exists l, w_trace w' = w_trace w ++ l /\ Forall github_request l.

Lemma only_github_same w w' : w_trace w' = w_trace w -> only_github w w'.
Proof. intros Ht. exists []. by rewrite Ht, app_nil_r. Qed.

(** A failure hides no change, unless the database lost an answer. *)
Definition honest w (ok : bool) w' : Prop :=
  ok = false -> db_answer_lost \/
    (same_view (sub_at (w_db w)) (sub_at (w_db w')) /\ sub_outbox (w_db w') = sub_outbox (w_db w)).

Lemma honest_same w ok w' : w_db w' = w_db w -> honest w ok w'.
Proof. intros Hdb _. right. by rewrite Hdb. Qed.

Lemma honest_answered w ok w' : ok = true \/ db_answer_lost -> honest w ok w'.
Proof. intros [-> |Hl]; [done|by left]. Qed.

(** A run of a use case refines [op]. *)
Definition refines_op (op : SubOp) w {A} (r : res A) w' : Prop :=
  w_tx w' = None /\ sub_inv (w_db w') /\ only_github w w' /\ honest w (is_ok r) w' /\
  exists evs rows,
    sub_spec (sub_at (w_db w)) op (is_ok r) evs (sub_at (w_db w')) /\
    sub_outbox (w_db w') = sub_outbox (w_db w) ++ rows /\ Forall2 announces evs rows.

Lemma refines_failed op w {A} e w' :
  w_tx w' = None -> sub_inv (w_db w) -> only_github w w' -> w_db w' = w_db w ->
  refines_op op w (Err (A := A) e) w'.
Proof.
  intros Htx Hi Ht Hdb. split_and!; [done|by rewrite Hdb|done|by apply honest_same|]. exists [], [].
  rewrite Hdb, app_nil_r. split_and!; [by apply spec_failed|done..].
Qed.

Lemma refines_silent op w {A} (r : res A) w' :
  w_tx w' = None -> sub_inv (w_db w') -> only_github w w' -> honest w (is_ok r) w' ->
  sub_outbox (w_db w') = sub_outbox (w_db w) ->
  sub_spec (sub_at (w_db w)) op (is_ok r) [] (sub_at (w_db w')) -> refines_op op w r w'.
Proof.
  intros Htx Hi Ht Hh Hob Hs. split_and!; [done..|]. exists [], []. by rewrite Hob, app_nil_r.
Qed.

Lemma refines_announced op w {A} (r : res A) w' d1 ev row :
  w_tx w' = None -> only_github w w' -> is_ok r = true \/ db_answer_lost ->
  sub_inv d1 -> sub_outbox d1 = sub_outbox (w_db w) ->
  exists_where (key_is om_id (om_id row)) (sub_outbox d1) = false ->
  w_db w' = set_outbox (sub_outbox d1 ++ [row]) d1 -> announces ev row ->
  sub_spec (sub_at (w_db w)) op (is_ok r) [ev] (sub_at d1) -> refines_op op w r w'.
Proof.
  intros Htx Ht Hok Hi Hob Hf Hdb Ha Hs.
  split_and!; [done|rewrite Hdb; by apply sub_inv_announce|done|by apply honest_answered|].
  exists [ev], [row]. rewrite Hdb. split_and!; [done|simpl; by rewrite Hob|by constructor].
Qed.

#[local] Ltac sub_fail :=
  apply refines_failed; [done || congruence|done|apply only_github_same; done || congruence|done || congruence].

Lemma wp_uuid_NewString (Q : res string -> World SubDB -> Prop) w :
  (forall id, Q (Ok id) (ticked w)) -> wp uuid_NewString Q w.
Proof. intros HQ. unfold uuid_NewString, fresh_uuid. wp_steps. apply HQ. Qed.

(** The end of a transaction that announced one event: whatever becomes of the
    COMMIT, the use case refines its contract. *)
Lemma commit_announced op w {A} (K : World SubDB -> Prop) w3 d1 ev row :
  w_tx w3 = Some (set_outbox (sub_outbox d1 ++ [row]) d1) -> w_db w3 = w_db w -> only_github w w3 ->
  sub_inv (w_db w) -> sub_inv d1 -> sub_outbox d1 = sub_outbox (w_db w) ->
  exists_where (key_is om_id (om_id row)) (sub_outbox d1) = false -> announces ev row ->
  (forall ok, sub_spec (sub_at (w_db w)) op ok [ev] (sub_at d1)) ->
  (forall w4, (forall B (x : res B) w5, is_ok x = true \/ db_answer_lost -> w_tx w5 = None -> w_trace w5 = w_trace w4 -> w_db w5 = w_db w4 ->
                 refines_op op w x w5) -> w_tx w4 = None -> K w4) ->
  forall w4, quiet_step w3 w4 -> w_tx w4 = None ->
    (w_db w4 = default (w_db w3) (w_tx w3) ->
       K w4 /\ (db_answer_lost -> forall msg, refines_op op w (Err (A := A) (Errorf "commit tx" (ErrText msg))) w4)) /\
    (w_db w4 = w_db w3 -> forall msg, refines_op op w (Err (A := A) (Errorf "commit tx" (ErrText msg))) w4).
Proof.
  intros Htx3 Hdb3 Ht3 Hi Hi1 Hob Hf Ha Hs HK w4 [Ht4 _] Htx4. rewrite Htx3. simpl.
  assert (only_github w w4) as Hog by (destruct Ht3 as (l & Hl & ?); exists l; by rewrite Ht4).
  split; intros Hdb4; [|intros msg; apply refines_failed; [done..|congruence]].
  assert (forall B (x : res B) w5, is_ok x = true \/ db_answer_lost -> w_tx w5 = None -> w_trace w5 = w_trace w4 ->
    w_db w5 = w_db w4 -> refines_op op w x w5) as Hdone; [|split; [by apply HK|intros Hl msg; apply Hdone; auto]].
  intros B x w5 Hok Htx5 Ht5 Hdb5. eapply (refines_announced op w x w5 d1 ev row); try done.
  - destruct Hog as (l & Hl & ?). exists l. by rewrite Ht5.
  - by rewrite Hdb5.
Qed.

Lemma Unsubscribe_refines ctx tok w :
  txFromContext ctx = false -> w_tx w = None -> sub_inv (w_db w) ->
  wp (Unsubscribe_Execute ctx tok) (refines_op (OpUnsubscribe tok) w) w.
Proof.
  intros Hctx Htx Hi. unfold Unsubscribe_Execute. apply wp_bind, wp_tx_why; [done| | |done].
  { intros msg w' [Ht _] Htx' Hdb. sub_fail. }
  intros w1 [Ht1 _] Htx1 Hdb1. unfold Repo_Delete. simpl.
  apply wp_bind, wp_bind, wp_wrapping. eapply wp_run_tx; [exact Htx1| |].
  { intros msg w2 [Ht2 _] _ Hdb2 w3 [Ht3 _] Htx3 Hdb3. simpl.
    sub_fail. }
  intros sc rows d w2 Hst [Ht2 _] Htx2 Hdb2. unfold delete_stmt in Hst. injection Hst as <- <-. simpl.
  destruct (deleted_by_token (w_db w) tok Hi) as [[-> _]|(s & e & r & -> & Hs & Hk & Htok & Hp)].
  { wp_steps. intros w3 [Ht3 _] Htx3 Hdb3.
    sub_fail. }
  wp_steps. apply wp_uuid_NewString. intros id.
  eapply wp_enqueue; [done|exact Htx2| |].
  { intros err w3 _ [Ht3 _] _ Hdb3 w4 [Ht4 _] Htx4 Hdb4.
    simpl in *. sub_fail. }
  intros rid at_ w3 Hval Hfresh [Ht3 _] Hdb3 Htx3. simpl in *.
  eapply commit_announced with (ev := EvRemoved e r)
    (d1 := set_subscriptions (delete_where (key_is sub_UnsubscribeToken tok) (subscriptions (w_db w))) (w_db w)); [exact Htx3|congruence|apply only_github_same; congruence|done|
    by apply sub_inv_delete|done|exact Hfresh| | |].
  - split; [done|]. eexists. split_and!; [exact Hval|reflexivity..].
  - intros ok. eapply spec_removed; [|by eapply sub_at_delete].
    apply sub_at_Some; [done|]. exists s. by rewrite Htok.
  - intros w4 Hdone Htx4. apply Hdone; auto.
Qed.

Lemma Confirm_refines tokens ctx token w :
  txFromContext ctx = false -> w_tx w = None -> sub_inv (w_db w) ->
  let op := match jwt_Parse (tk_secret tokens) (env_now (w_tick w)) token with
            | inr c => OpConfirm (jc_Subject c) (jc_Repo c)
            | inl _ => OpOther
            end in
  wp (Confirm_Execute tokens ctx token) (refines_op op w) w.
Proof.
  intros Hctx Htx Hi. unfold Confirm_Execute, Verify, time_Now. wp_steps. cbv zeta.
  destruct (jwt_Parse (tk_secret tokens) (env_now (w_tick w)) token) as [e|[repo email iat exp]].
  { destruct (errors_Is e jwt_ErrTokenExpired); wp_steps; sub_fail. }
  simpl. wp_steps. apply wp_tx_why; [done| | |done].
  { intros msg w' [Ht _] Htx' Hdb. simpl in *. sub_fail. }
  intros w1 [Ht1 _] Htx1 Hdb1. simpl in *. unfold confirm_tx, Repo_Confirm. simpl.
  apply wp_bind, wp_bind, wp_wrapping. eapply wp_run_tx; [exact Htx1| |].
  { intros msg w2 [Ht2 _] _ Hdb2 w3 [Ht3 _] Htx3 Hdb3. simpl. sub_fail. }
  intros sc rows d w2 Hst [Ht2 _] Htx2 Hdb2. unfold confirm_stmt in Hst. injection Hst as <- <-.
  destruct (select_pending (w_db w) email repo Hi) as [(-> & Hnp & Hall)|(s & -> & Hs & Hk & Hc & Hat & Hp)];
    cbn [map map_err]; wp_steps; cbn [cr_Confirmed negb].
  - rewrite update_where_none in Htx2 by by apply exists_where_false.
    replace (set_subscriptions (subscriptions (w_db w)) (w_db w)) with (w_db w) in Htx2 by by destruct (w_db w).
    wp_steps. intros w3 [Ht3 _] Htx3. rewrite Htx2. simpl.
    assert (forall A (x : res A), w_db w3 = w_db w -> refines_op (OpConfirm email repo) w x w3) as Hnoop.
    { intros A x Hdb3.
      apply refines_silent; [done|by rewrite Hdb3|apply only_github_same; congruence|by apply honest_same|by rewrite Hdb3|].
      rewrite Hdb3. by apply spec_confirm_noop. }
    split; [intros Hdb3|intros Hdb3 msg; apply Hnoop; congruence].
    split; [wp_steps|intros _ msg]; by apply Hnoop.
  - wp_steps. apply wp_uuid_NewString. intros id. wp_steps.
    eapply wp_enqueue; [done|exact Htx2| |].
    { intros err w3 _ [Ht3 _] _ Hdb3 w4 [Ht4 _] Htx4 Hdb4. simpl in *. sub_fail. }
    intros rid at_ w3 Hval Hfresh [Ht3 _] Hdb3 Htx3. simpl in *. wp_steps.
    eapply commit_announced with (ev := EvConfirmed email repo (sub_UnsubscribeToken s))
      (d1 := set_subscriptions (update_where (pending_for (w_db w) email repo) confirmed_sub
               (subscriptions (w_db w))) (w_db w));
      [exact Htx3|congruence|apply only_github_same; congruence|done|
       by apply sub_inv_confirm|done|exact Hfresh| | |].
    + split; [done|]. eexists. split_and!; [exact Hval|reflexivity..].
    + intros ok. eapply spec_confirmed; [done|]. by eapply sub_at_confirm.
    + intros w4 Hdone Htx4. simpl. apply Hdone; auto.
Qed.

Lemma Compensate_refines ctx email repo w :
  txFromContext ctx = false -> w_tx w = None -> sub_inv (w_db w) ->
  wp (Compensate_Execute ctx email repo) (fun r w' =>
    refines_op (OpCompensate email repo) w r w' /\ (is_ok r = true \/ retryable r = true)) w.
Proof.
  intros Hctx Htx Hi. unfold Compensate_Execute, DeletePendingByEmailAndRepo, FromContext. rewrite Hctx.
  wp_steps. apply wp_run_pool_why.
  { intros msg w' _ [Ht _] Htx' Hdb. split; [simpl; sub_fail|by right]. }
  intros sc n d w' Hst [Ht _] Htx' Hd. unfold delete_pending_stmt in Hst. injection Hst as _ <-.
  assert (forall A (x : res A), is_ok x = true \/ db_answer_lost -> refines_op (OpCompensate email repo) w x w') as Hdone;
    [|split; [wp_steps|intros Hl msg]; (split; [apply Hdone; auto|auto])].
  intros A x Hok. apply refines_silent; [congruence|rewrite Hd; by apply sub_inv_delete|by apply only_github_same|
    by apply honest_answered|by rewrite Hd|]. rewrite Hd.
  destruct (select_pending (w_db w) email repo Hi) as [(_ & Hnp & Hall)|(s & _ & Hs & Hk & Hc & Hat & Hp)].
  - rewrite sub_at_delete_none by done. by apply spec_compensate_noop.
  - eapply spec_compensated; [done|]. by eapply sub_at_delete.
Qed.

Lemma refines_op_from op w w1 {A} (r : res A) w' :
  same_view (sub_at (w_db w)) (sub_at (w_db w1)) -> sub_outbox (w_db w1) = sub_outbox (w_db w) ->
  only_github w w1 -> refines_op op w1 r w' -> refines_op op w r w'.
Proof.
  intros Hv Hob (l1 & Hl1 & Hf1) (Htx & Hi & (l2 & Hl2 & Hf2) & Hh & evs & rows & Hs & Ho & Ha).
  split_and!; [done..| | |].
  - exists (l1 ++ l2). split; [by rewrite Hl2, Hl1, app_assoc|by apply Forall_app].
  - intros Hok. destruct (Hh Hok) as [?|[Hv1 Hob1]]; [by left|]. right. split; [by etrans|congruence].
  - exists evs, rows. split_and!; [by eapply sub_spec_view|by rewrite Ho, Hob|done].
Qed.

Lemma wp_GetOrCreate ctx name (Q : res Repository -> World SubDB -> Prop) w :
  txFromContext ctx = false -> sub_inv (w_db w) ->
  (forall r w', w_tx w' = w_tx w -> w_trace w' = w_trace w -> sub_inv (w_db w') ->
     same_view (sub_at (w_db w)) (sub_at (w_db w')) -> sub_outbox (w_db w') = sub_outbox (w_db w) ->
     match r with
     | Ok rp => rp ∈ repositories (w_db w') /\ repo_Name rp = name
     | Err e => True
     end -> Q r w') ->
  wp (GetOrCreate ctx name) Q w.
Proof.
  intros Hctx Hi HQ. unfold GetOrCreate, FromContext. rewrite Hctx. wp_steps. apply wp_run_pool.
  - intros msg w' [Ht _] Htx Hdb. apply HQ; rewrite ?Hdb; done.
  - intros sc rows d w' Hst [Ht _] Htx Hd. apply get_or_create_spec in Hst as (Hi' & Hv & Hob & rp & -> & Hrp & Hn); [|done].
    rewrite <- Hd in *. split; [|intros msg; by apply HQ].
    unfold wp, lift_res, CollectExactlyOneRow. simpl. rewrite by_name_match by done. by apply HQ.
Qed.

Lemma wp_resolveExisting ctx email rp (Q : res bool -> World SubDB -> Prop) w :
  txFromContext ctx = false -> sub_inv (w_db w) -> rp ∈ repositories (w_db w) ->
  (forall r w', w_tx w' = w_tx w -> w_trace w' = w_trace w -> w_db w' = w_db w ->
     match r with
     | Ok true => sub_at (w_db w) email (repo_Name rp) = None
     | Ok false => exists tok, sub_at (w_db w) email (repo_Name rp) = Some (false, tok)
     | Err e => True
     end -> Q r w') ->
  wp (resolveExisting ctx email (repo_ID rp)) Q w.
Proof.
  intros Hctx Hi Hrp HQ. unfold resolveExisting, FindByEmailAndRepo, FromContext. rewrite Hctx.
  wp_steps. apply wp_run_pool.
  { intros msg w' [Ht _] Htx Hdb. cbn [map_err]. by apply HQ. }
  intros sc rows d w' Hst [Ht _] Htx Hd. unfold find_stmt in Hst. injection Hst as <- <-.
  split; [|intros msg; cbn [map_err]; by apply HQ]. cbn [map_err].
  destruct (select_unique repo_Name (repositories (w_db w)) (repo_Name rp) (inv_repo_name _ Hi))
    as [Hn|(rp' & Hsel & Hrp' & Hn')].
  { by destruct (select_key_absent repo_Name (repositories (w_db w)) (repo_Name rp) rp). }
  rewrite (unique_on_eq repo_Name (repositories (w_db w)) rp' rp (inv_repo_name _ Hi)) in Hsel by done.
  unfold sub_at in HQ. rewrite Hsel in HQ.
  destruct (select_unique sub_key (subscriptions (w_db w)) (email, repo_ID rp) (inv_sub_key _ Hi))
    as [Hs|(s & Hs & _ & _)]; rewrite Hs in HQ |- *; cbn [CollectExactlyOneRow].
  - wp_steps. by apply HQ.
  - rewrite by_name_match by done. wp_steps. destruct (sub_Confirmed s); wp_steps; apply HQ; eauto.
Qed.

(** Asking an oracle changes nothing but the tick. *)
Definition asked w w' : Prop := w_db w' = w_db w /\ w_tx w' = w_tx w /\ w_trace w' = w_trace w.

(** The links of a subscription: the service's page with a signed token that
    names it. *)
Definition confirm_link (tokens : Tokenizer) (baseURL email repo link : string) : Prop :=
  exists c tok, jwt_Sign (tk_secret tokens) c = inr tok /\ jc_Subject c = email /\ jc_Repo c = repo /\
    link = ConfirmURL baseURL tok.

Lemma wp_Issue tokens email repo (Q : res string -> World SubDB -> Prop) w :
  (forall r w', asked w w' ->
     (forall tok baseURL, r = Ok tok -> confirm_link tokens baseURL email repo (ConfirmURL baseURL tok)) -> Q r w') ->
  wp (Issue tokens email repo) Q w.
Proof.
  intros HQ. unfold Issue, time_Now. wp_steps. cbv zeta. destruct (jwt_Sign _ _) eqn:Hs; wp_steps; (apply HQ; [done|]);
    intros tok base [= <-]. by do 2 eexists.
Qed.

Lemma wp_NewSubscription repoID email (Q : res Subscription -> World SubDB -> Prop) w :
  (forall r w', asked w w' ->
     match r with
     | Ok s => sub_RepositoryID s = repoID /\ sub_Email s = email /\ sub_Confirmed s = false
     | Err _ => True
     end -> Q r w') ->
  wp (NewSubscription repoID email) Q w.
Proof.
  intros HQ. unfold NewSubscription, randomToken. wp_steps.
  destruct (env_rand (w_tick w)); wp_steps; cbn [map_err]; wp_steps; by apply HQ.
Qed.

Lemma asked_refl w : asked w w.
Proof. done. Qed.

Lemma asked_trans w1 w2 w3 : asked w1 w2 -> asked w2 w3 -> asked w1 w3.
Proof. unfold asked. intros (? & ? & ?) (? & ? & ?). split_and!; congruence. Qed.

(** The transaction of [emitPending]: what [Create] may do first. *)
Lemma wp_create_opt ctx sub rp (Q : res unit -> World SubDB -> Prop) w d :
  ctx_tx ctx = true -> w_tx w = Some d -> sub_inv d -> rp ∈ repositories d ->
  match sub with
  | Some s => sub_RepositoryID s = repo_ID rp /\ sub_Confirmed s = false
  | None => True
  end ->
  (forall e w', quiet_step w w' -> w_db w' = w_db w -> Q (Err e) w') ->
  (forall d' w', quiet_step w w' -> w_db w' = w_db w -> w_tx w' = Some d' -> sub_inv d' ->
     sub_outbox d' = sub_outbox d ->
     match sub with
     | None => d' = d
     | Some s => sub_at d (sub_Email s) (repo_Name rp) = None /\
         same_view (upd (sub_at d) (sub_Email s) (repo_Name rp) (Some (false, sub_UnsubscribeToken s))) (sub_at d')
     end -> Q (Ok tt) w') ->
  wp (match sub with Some sub => Create ctx sub | None => mret tt end) Q w.
Proof.
  intros Hctx Htx Hi Hrp Hsub Hfail Hok. destruct sub as [s|]; [|by apply wp_ret, (Hok d)].
  destruct Hsub as [Hid Hc]. unfold Create, FromContext, txFromContext. rewrite Hctx. wp_steps.
  eapply wp_run_tx; [exact Htx| |].
  { intros msg w' Hq _ Hdb. by apply Hfail. }
  intros sc n d' w' Hst Hq Htx' Hdb. cbn [map_err].
  eapply create_spec in Hst as [[-> ->]|(-> & Hi' & Hob & Hnone & Hv)]; [..|done|exact Hrp|done]; simpl.
  - by apply wp_fail, Hfail.
  - apply wp_ret. eapply Hok; eauto. by rewrite <- Hc.
Qed.

Definition emit_op (tokens : Tokenizer) (baseURL email repo : string) (isNew : bool) : SubOp :=
  (if isNew then OpSubscribe else OpAnnounce) email repo (confirm_link tokens baseURL email repo).

(** Whatever has happened since the subscription was looked up. *)
Lemma emitPending_late tokens baseURL ctx email rp isNew w :
  txFromContext ctx = false -> w_tx w = None -> sub_inv (w_db w) -> rp ∈ repositories (w_db w) ->
  wp (emitPending tokens baseURL ctx email (repo_Name rp) (repo_ID rp) isNew)
     (refines_op (emit_op tokens baseURL email (repo_Name rp) isNew) w) w.
Proof.
  intros Hctx Htx Hi Hrp. unfold emitPending. cbv zeta.
  apply wp_bind, wp_wrapping, wp_Issue. intros [token|e] w1 (Hdb1 & Htx1 & Ht1) Hlink; cbn [map_err]; [|sub_fail].
  specialize (Hlink token baseURL eq_refl). apply wp_bind.
  cut (forall sub w2, asked w w2 ->
    match sub with
    | Some s => isNew = true /\ sub_RepositoryID s = repo_ID rp /\ sub_Email s = email /\ sub_Confirmed s = false
    | None => isNew = false
    end ->
    wp (sagaID ← uuid_NewString;
        _ ← Within ctx (fun ctx => _ ← match sub with Some sub => Create ctx sub | None => mret tt end;
          pub_SubscriptionPending ctx {| sp_SagaID := sagaID; sp_Email := email; sp_RepoName := repo_Name rp;
            sp_ConfirmURL := ConfirmURL baseURL token |}); Notify)
       (refines_op (emit_op tokens baseURL email (repo_Name rp) isNew) w) w2).
  { intros Htail. assert (asked w w1) as Ha by done. destruct isNew; [|apply wp_ret; cbv beta iota; by apply (Htail None)].
    apply wp_bind, wp_wrapping, wp_NewSubscription. intros [s|e] w2 (? & ? & ?) Hs; cbn [map_err].
    - apply wp_ret. cbv beta iota. apply (Htail (Some s)); [|done]. by eapply asked_trans.
    - sub_fail. }
  intros sub w2 (Hdb2 & Htx2 & Ht2) Hsub. apply wp_bind, wp_uuid_NewString. intros id.
  apply wp_bind, wp_tx_why; [done| | |simpl; congruence].
  { intros msg w3 [Ht3 _] Htx3 Hdb3. simpl in *. sub_fail. }
  intros w3 [Ht3 _] Htx3 Hdb3. simpl in *. rewrite Hdb2 in Htx3. apply wp_bind.
  eapply (wp_create_opt _ sub rp); [done|exact Htx3|done|done|destruct sub; naive_solver| |].
  { intros err w4 [Ht4 _] Hdb4 w5 [Ht5 _] Htx5 Hdb5. sub_fail. }
  intros d' w4 [Ht4 _] Hdb4 Htx4 Hi' Hob Hd'. eapply wp_enqueue; [done|exact Htx4| |].
  { intros err w5 _ [Ht5 _] _ Hdb5 w6 [Ht6 _] Htx6 Hdb6. sub_fail. }
  intros rid at_ w5 Hval Hfresh [Ht5 _] Hdb5 Htx5.
  eapply commit_announced with (ev := EvPending email (repo_Name rp) (ConfirmURL baseURL token)) (d1 := d');
    [exact Htx5|congruence|apply only_github_same; congruence|done..|exact Hfresh| | |].
  - split; [done|]. eexists. split_and!; [exact Hval|reflexivity..].
  - intros ok. destruct sub as [s|].
    + destruct Hsub as (-> & _ & He & Hc). destruct Hd' as [Hno Hv]. rewrite He in Hno, Hv.
      eapply spec_subscribed; [exact Hno|exact Hlink|exact Hv].
    + subst isNew d'. eapply spec_announced; [exact Hlink|reflexivity].
  - intros w6 Hdone Htx6. apply Hdone; auto.
Qed.

Lemma emitPending_refines tokens baseURL ctx email rp isNew w :
  txFromContext ctx = false -> w_tx w = None -> sub_inv (w_db w) -> rp ∈ repositories (w_db w) ->
  (if isNew : bool then True else exists tok, sub_at (w_db w) email (repo_Name rp) = Some (false, tok)) ->
  wp (emitPending tokens baseURL ctx email (repo_Name rp) (repo_ID rp) isNew)
     (refines_op (OpSubscribe email (repo_Name rp) (confirm_link tokens baseURL email (repo_Name rp))) w) w.
Proof.
  intros Hctx Htx Hi Hrp Hnew. eapply wp_mono; [|by apply emitPending_late]. intros r w'.
  destruct isNew; [done|]. destruct Hnew as [tok Htok]. intros (? & ? & ? & ? & evs & rows & Hs & ? & ?). split_and!; [done..|].
  exists evs, rows. split_and!; [|done..]. inversion Hs; subst; [by apply spec_failed|by eapply spec_resubscribed].
Qed.

Lemma Subscribe_refines tokens baseURL ctx email repo w :
  txFromContext ctx = false -> w_tx w = None -> sub_inv (w_db w) ->
  wp (Subscribe_Execute tokens baseURL ctx email repo) (refines_op (OpSubscribe email repo (confirm_link tokens baseURL email repo)) w) w.
Proof.
  intros Hctx Htx Hi. unfold Subscribe_Execute.
  destruct (ParseRepo repo) as [[owner name]|e]; [|apply wp_fail; sub_fail].
  apply wp_bind. unfold ensureRepoExists. apply wp_bind, wp_wrapping.
  eapply wp_mono; [|apply gh_RepoExists_frame].
  intros r w1 (Hdb1 & Htx1 & _ & _ & _ & l & Hl & Hfl). assert (only_github w w1) as Hog by (by exists l).
  destruct r as [[|]|e]; cbn [map_err negb];
    [|apply wp_fail, refines_failed; done || congruence|apply refines_failed; done || congruence].
  apply wp_ret. apply wp_bind, wp_wrapping, wp_GetOrCreate; [done|by rewrite Hdb1|].
  intros r w2 Htx2 Ht2 Hi2 Hv2 Hob2 Hrp. rewrite Hdb1 in Hv2, Hob2.
  assert (only_github w w2) as Hog2 by (exists l; by rewrite Ht2).
  assert (forall A e w', asked w2 w' -> refines_op (A := A) (OpSubscribe email repo (confirm_link tokens baseURL email repo)) w (Err e) w') as Hfail.
  { intros A e w' (Hdb' & Htx' & Ht'). apply (refines_op_from _ _ w2); [done..|].
    apply refines_failed; [congruence|done|by apply only_github_same|done]. }
  destruct r as [rp|e]; cbn [map_err]; [|by apply Hfail]. destruct Hrp as [Hrp <-].
  apply wp_bind, wp_resolveExisting; [done..|]. intros r w3 Htx3 Ht3 Hdb3 Hr.
  destruct r as [isNew|e]; [|by apply Hfail].
  eapply wp_mono; [|apply emitPending_refines; [done|congruence|by rewrite Hdb3|by rewrite Hdb3|]].
  - intros r w4 Hr4. apply (refines_op_from _ _ w3); [by rewrite Hdb3|by rewrite Hdb3| |done].
    exists l. by rewrite Ht3, Ht2.
  - rewrite Hdb3. by destruct isNew.
Qed.
End UseCases.
