(* ===== verification/SubscriptionTheorems.v ===== *)
(** * The subscription service's guarantees

    The API and the compensation paths implement the contract of
    [SubscriptionFacts]; confirmation tokens round-trip; the API key guards the
    protected procedures; only fixed messages reach a client; the cleanup of
    expired subscriptions never takes effect. *)

From S2P Require Import Prelude GoErrors Effects Wp Sql Json JsonFacts RepoName Events Uuid Broker Outbox Consumers.
From S2P Require Import Libs GitHub Subscription SubscriptionUse SubscriptionApi SubscriptionFacts Quiet Concrete.

Open Scope string_scope.
Open Scope list_scope.
Open Scope Z_scope.

(** The contract's operation behind a request, at the time it is handled. *)
Definition request_op `{JwtLib} (tokens : Tokenizer) (baseURL : string) (now : Z) (req : Request) : SubOp :=
  match req with
  | SubscribeRequest email repo => OpSubscribe email repo (confirm_link tokens baseURL email repo)
  | ConfirmRequest token =>
      match jwt_Parse (tk_secret tokens) now token with
      | inr c => OpConfirm (jc_Subject c) (jc_Repo c)
      | inl _ => OpOther
      end
  | UnsubscribeRequest token => OpUnsubscribe token
  | ListSubscriptionsRequest _ => OpOther
  end.

Definition replied (r : res Reply) : bool := match r with Ok (inr _) => true | _ => false end.

Section Api.
Context {E : Env} {V : Validators} {U : UUIDLib} {P : PgxLib} {J : JwtLib} {G : RepoChecker SubDB}.
Context {PV : ProtoValidator Request}.
Implicit Types w : World SubDB.

(** What a handled request guarantees. *)
Definition request_post (op : SubOp) w (r : res Reply) w' : Prop :=
  w_tx w' = None /\ sub_inv (w_db w') /\ only_github w w' /\ honest w (replied r) w' /\
  exists evs rows,
    sub_spec (sub_at (w_db w)) op (replied r) evs (sub_at (w_db w')) /\
    sub_outbox (w_db w') = sub_outbox (w_db w) ++ rows /\ Forall2 announces evs rows.

Lemma reply_post {A} op (c : M SubDB A) k w :
  wp c (refines_op op w) w -> wp (reply c k) (request_post op w) w.
Proof.
  intros Hc. unfold reply. wp_steps. eapply wp_mono; [|exact Hc].
  intros [a|e] w' Hr; wp_steps; exact Hr.
Qed.

Lemma request_post_rejected op w ce :
  w_tx w = None -> sub_inv (w_db w) -> request_post op w (Ok (inl ce)) w.
Proof.
  intros Htx Hi. exact (refines_failed op w (A := unit) (ErrText "") w Htx Hi (only_github_same w w eq_refl) eq_refl).
Qed.

Lemma List_refines ctx email w :
  txFromContext ctx = false -> w_tx w = None -> sub_inv (w_db w) ->
  wp (List_Execute ctx email) (refines_op OpOther w) w.
Proof.
  intros Hctx Htx Hi. unfold List_Execute, GetByEmail, FromContext. rewrite Hctx. wp_steps.
  assert (forall A (x : res A) w', quiet_step w w' -> w_tx w' = w_tx w -> w_db w' = w_db w ->
    refines_op OpOther w x w') as Hsame.
  { intros A x w' [Ht _] Htx' Hdb. apply refines_silent; rewrite ?Hdb; [congruence|done|by apply only_github_same|by apply honest_same|done|].
    by apply spec_other. }
  apply wp_run_pool; [intros msg w' ? ? ?; by apply Hsame|].
  intros sc rows d w' Hst Hq Htx' Hd. unfold get_by_email_stmt in Hst. injection Hst as _ <-.
  split; [|intros msg; by apply Hsame]. cbn [map_err]. wp_steps. unfold wp, lift_res. simpl. by apply Hsame.
Qed.

Lemma service_refines tokens baseURL ctx req w :
  txFromContext ctx = false -> w_tx w = None -> sub_inv (w_db w) ->
  wp (Service_handle tokens baseURL ctx req) (request_post (request_op tokens baseURL (env_now (w_tick w)) req) w) w.
Proof.
  intros Hctx Htx Hi. destruct req; apply reply_post;
    [by apply Subscribe_refines|by apply Confirm_refines|by apply Unsubscribe_refines|by apply List_refines].
Qed.

Lemma handler_refines tokens baseURL apiKey header ctx req w :
  txFromContext ctx = false -> w_tx w = None -> sub_inv (w_db w) ->
  wp (NewConnectHandler tokens baseURL apiKey header ctx req)
    (request_post (request_op tokens baseURL (env_now (w_tick w)) req) w) w.
Proof.
  intros Hctx Htx Hi. unfold NewConnectHandler, NewAuthInterceptor, NewValidationInterceptor.
  destruct (_ || _); [|destruct (negb _); [by apply request_post_rejected|]];
    (destruct (pv_Validate req); [by apply request_post_rejected|by apply service_refines]).
Qed.

Lemma HandleCompensate_refines ctx data w :
  txFromContext ctx = false -> w_tx w = None -> sub_inv (w_db w) ->
  wp (HandleCompensate ctx data) (fun r w' =>
    match Unmarshal (T := SagaCompensate) data with
    | Ok ev => refines_op (OpCompensate (sgc_Email ev) (sgc_RepoName ev)) w r w' /\ (is_ok r = true \/ retryable r = true)
    | Err _ => w' = w
    end) w.
Proof.
  intros Hctx Htx Hi. unfold HandleCompensate, decoded. destruct (Unmarshal data) as [ev|e]; [|by apply wp_fail].
  apply wp_bind. eapply wp_mono; [|by apply Compensate_refines]. intros [b|err] w' [H Hr]; [wp_steps; auto|].
  split; [exact H|by right; destruct Hr].
Qed.

Lemma Server_handle_refines {PC : ProtoValidator CompensateRequest} ctx req w r w' :
  txFromContext ctx = false -> w_tx w = None -> sub_inv (w_db w) -> Server_handle ctx req w = (r, w') ->
  w' = w \/ exists x : res bool, refines_op (OpCompensate (cq_Email req) (cq_RepoName req)) w x w'.
Proof.
  intros Hctx Htx Hi. unfold Server_handle. destruct (pv_Validate req) as [f|]; [intros [= <- <-]; by left|].
  unfold Server_Compensate, attempt, mbind, M_bind. cbv zeta.
  pose proof (Compensate_refines (WithSagaID ctx (cq_SagaId req)) (cq_Email req) (cq_RepoName req) w Hctx Htx Hi) as Hp.
  unfold wp in Hp. destruct (Compensate_Execute _ _ _ w) as [x w1]. destruct Hp as [Hp _]. intros Hrun.
  assert (w' = w1) as -> by (destruct x; by injection Hrun). right. by exists x.
Qed.

(** What a rollback leaves: nothing announced, nothing new, and only the named
    pending subscription gone; after a success it is. *)
Lemma compensate_effect e r {A} (x : res A) w w' :
  refines_op (OpCompensate e r) w x w' ->
  sub_inv (w_db w') /\ sub_outbox (w_db w') = sub_outbox (w_db w) /\
  (forall e' r' v, sub_at (w_db w') e' r' = Some v -> sub_at (w_db w) e' r' = Some v) /\
  (forall e' r' v, sub_at (w_db w) e' r' = Some v -> (e', r') <> (e, r) \/ fst v = true ->
     sub_at (w_db w') e' r' = Some v) /\
  (is_ok x = true -> not_pending (sub_at (w_db w')) e r).
Proof.
  intros (_ & Hi & _ & _ & evs & rows & Hs & Hob & Ha). split; [done|].
  inversion Hs as [? ? Hv| | | | | | |? ? ? tok ? Hat Hv|? ? ? ? Hnp Hv|]; subst; inversion Ha; subst;
    rewrite app_nil_r in Hob; (split; [done|]).
  - split_and!; [by intros e' r' v; rewrite Hv|by intros e' r' v; rewrite Hv|congruence].
  - split_and!.
    + intros e' r' v. rewrite Hv. unfold upd. by case_decide.
    + intros e' r' v Hat' Hor. rewrite Hv. unfold upd. case_decide as Hd; [|done]. injection Hd as -> ->.
      rewrite Hat in Hat'. injection Hat' as <-. by destruct Hor.
    + intros _ tok'. rewrite Hv. unfold upd. by rewrite decide_True.
  - split_and!; [by intros e' r' v; rewrite Hv|by intros e' r' v; rewrite Hv|]. intros _ tok. rewrite Hv. apply Hnp.
Qed.


(** Authentication comes first: with an API key configured, a Subscribe or List
    request whose bearer token is not the key is refused as unauthenticated
    before anything is read, written or asked; Confirm and Unsubscribe need no
    key. *)
Theorem api_key_guards tokens baseURL apiKey header ctx req w :
  apiKey <> "" -> bearerToken header <> apiKey ->
  if protectedProcedures req
  then NewConnectHandler tokens baseURL apiKey header ctx req w =
         (Ok (inl (connect_NewError CodeUnauthenticated "unauthorized")), w)
  else NewConnectHandler tokens baseURL apiKey header ctx req w =
         NewConnectHandler tokens baseURL apiKey (bearerPrefix +:+ apiKey) ctx req w.
Proof.
  intros Hk Hb. unfold NewConnectHandler, NewAuthInterceptor.
  destruct (String.eqb_spec apiKey ""); [done|].
  destruct (protectedProcedures req); simpl; [|done].
  by destruct (String.eqb_spec (bearerToken header) apiKey).
Qed.

(** Every message a client can be shown. *)
Definition public_messages : list string :=
  ["invalid repo format, expected owner/repo"; "repository not found on GitHub";
   "email already subscribed to this repository"; "token not found"; "confirmation link has expired";
   "invalid confirmation token"; "internal server error"; "unauthorized"; "invalid email format";
   "invalid token"; "invalid request"].

Lemma domainError_public e : ce_message (domainError e) ∈ public_messages.
Proof.
  unfold domainError, domainErrorMappings, map_error.
  repeat (destruct (errors_Is e _)); unfold public_messages; simpl; set_solver.
Qed.

Lemma validationMessage_public f : validationMessage f ∈ public_messages.
Proof.
  unfold validationMessage. destruct f as [f|]; [|unfold public_messages; set_solver].
  repeat (destruct (String.eqb f _)); unfold public_messages; set_solver.
Qed.

(** No internal detail leaks: every handler returns a reply rather than an
    error, and the message of an error reply is one of eleven fixed texts,
    whatever error the database, GitHub or the token library produced. *)
Theorem api_error_surface tokens baseURL apiKey header ctx req w :
  match fst (NewConnectHandler tokens baseURL apiKey header ctx req w) with
  | Ok (inl ce) => ce_message ce ∈ public_messages
  | Ok (inr _) => True
  | Err _ => False
  end.
Proof.
  assert (forall A (c : M SubDB A) k w0, match fst (reply c k w0) with
    | Ok (inl ce) => ce_message ce ∈ public_messages | Ok (inr _) => True | Err _ => False end) as Hreply.
  { intros A c k w0. unfold reply, attempt, mbind, M_bind. destruct (c w0) as [[a|e] w1]; simpl; [done|].
    apply domainError_public. }
  assert (forall w0, match fst (NewValidationInterceptor (Service_handle tokens baseURL) ctx req w0) with
    | Ok (inl ce) => ce_message ce ∈ public_messages | Ok (inr _) => True | Err _ => False end) as Hval.
  { intros w0. unfold NewValidationInterceptor. destruct (pv_Validate req); [apply validationMessage_public|].
    destruct req; apply Hreply. }
  unfold NewConnectHandler, NewAuthInterceptor. destruct (_ || _); [apply Hval|].
  destruct (negb _); [|apply Hval]. simpl. unfold public_messages. set_solver.
Qed.

(** Rolling a subscription back never touches a confirmed one: handling a
    saga.compensate message, however often and whatever fails, leaves every
    confirmed subscription and every subscription of another e-mail or
    repository as it was, announces nothing, and when the handler acknowledges,
    the named subscription is no longer pending. *)
Theorem compensation_spares_confirmed ctx data w :
  txFromContext ctx = false -> w_tx w = None -> sub_inv (w_db w) ->
  let '(r, w') := HandleCompensate ctx data w in
  sub_inv (w_db w') /\ sub_outbox (w_db w') = sub_outbox (w_db w) /\
  (forall e r tok, sub_at (w_db w) e r = Some (true, tok) -> sub_at (w_db w') e r = Some (true, tok)) /\
  (forall ev, Unmarshal data = Ok ev ->
     (forall e r, (e, r) <> (sgc_Email ev, sgc_RepoName ev) -> sub_at (w_db w') e r = sub_at (w_db w) e r) /\
     (is_ok r = true -> not_pending (sub_at (w_db w')) (sgc_Email ev) (sgc_RepoName ev))) /\
  ((forall ev : SagaCompensate, Unmarshal data <> Ok ev) -> w' = w).
Proof.
  intros Hctx Htx Hi. pose proof (HandleCompensate_refines ctx data w Hctx Htx Hi) as Hr. unfold wp in Hr.
  destruct (HandleCompensate ctx data w) as [r w']. simpl in Hr.
  destruct (Unmarshal data) as [ev|e] eqn:Hu; [|by subst w'; split_and!].
  destruct Hr as [(Hi' & Hob & Hback & Hkeep & Hok)%compensate_effect _].
  split_and!; [done..|by intros e r' tok Hat; apply (Hkeep _ _ _ Hat); right| |by intros Hn; destruct (Hn ev)].
  intros ev' [= <-]. split; [|done]. intros e r' Hne. apply option_eq. intros v. split; [apply Hback|].
  intros Hat. apply (Hkeep _ _ _ Hat). by left.
Qed.
End Api.

(** ** Confirmation tokens *)

Section Tokens.
Context {D : Type} {J : JwtLib}.

(** A confirmation token carries its e-mail and repository until it expires:
    verified with the same secret at any time before the issue time plus the
    TTL (rounded down to a second) it yields exactly what was put in, and from
    that plus one second on it is refused as expired; no database is involved. *)
Theorem confirm_token_roundtrip t email repo (E1 E2 : Env) (w1 w1' w2 : World D) token :
  Issue (E := E1) t email repo w1 = (Ok token, w1') ->
  valid_utf8 email = true -> valid_utf8 repo = true ->
  let deadline := env_now (Env := E1) (w_tick w1) + tk_ttl t in
  let now := env_now (Env := E2) (w_tick w2) in
  (now <= deadline - second ->
     Verify (E := E2) t token w2 = (Ok (email, repo), ticked w2)) /\
  (deadline <= now ->
     Verify (E := E2) t token w2 = (Err (Sentinel ErrExpired), ticked w2)).
Proof.
  intros Hi He Hr. cbv zeta. unfold Issue, time_Now, mbind, M_bind, oracle in Hi. cbv zeta in Hi.
  set (claims := {| jc_Repo := repo |}) in Hi.
  destruct (jwt_Sign (tk_secret t) claims) as [msg|tok] eqn:Hs; [done|]. injection Hi as -> _.
  assert (claims_utf8 claims = true) as Hu by (unfold claims_utf8; simpl; by rewrite He, Hr).
  set (deadline := env_now (w_tick w1) + tk_ttl t).
  assert (jc_ExpiresAt claims * 1000000000 <= deadline < jc_ExpiresAt claims * 1000000000 + second) as Hexp.
  { simpl. fold deadline. unfold NewNumericDate, second.
    pose proof (Z.div_mod deadline 1000000000). pose proof (Z.mod_pos_bound deadline 1000000000). lia. }
  unfold Verify, time_Now, mbind, M_bind, oracle. split; intros Hn.
  - rewrite (jwt_Parse_Sign (tk_secret t) claims token) by (done || (unfold second in *; lia)). done.
  - destruct (jwt_Parse_expired (tk_secret t) claims token (env_now (w_tick w2))) as (e & -> & Hexp');
      [done..|lia|]. by rewrite Hexp'.
Qed.
End Tokens.

(** ** Cleanup *)

Section Cleanup.
Context {E : Env} {V : Validators} {U : UUIDLib} {P : PgxLib}.
Implicit Types w : World SubDB.

(** Without an expired row there is nothing to collect. *)
Lemma deleted_rows_nil d p :
  sub_inv d -> deleted_rows d p = [] -> forall s, s ∈ subscriptions d -> p s = false.
Proof.
  intros Hi Hn s Hs. destruct (p s) eqn:Hp; [|done]. exfalso.
  destruct (joined_names_one d s Hi Hs) as (r & Hj & _).
  assert ((sub_Email s, r) ∈ deleted_rows d p) as Hin; [|rewrite Hn in Hin; set_solver].
  unfold deleted_rows. apply list_elem_of_In, in_flat_map. exists s. split.
  - by apply list_elem_of_In, elem_of_select.
  - rewrite Hj. by left.
Qed.

(** [RowToStructByName] finds no column for [removedRow]'s "repo". *)
Lemma expired_rows_rejected : exists msg, row_to_struct_by_name expired_columns removedRow_tags = Some msg.
Proof.
  destruct (by_name_missing expired_columns removedRow_tags "repo") as [msg ->]; [set_solver| |eauto].
  unfold expired_columns. rewrite !not_elem_of_cons. split_and!; [done..|set_solver].
Qed.

Lemma cleanup_body ctx cutoff (Q : res (list ExpiredSubscription) -> World SubDB -> Prop) w d :
  ctx_tx ctx = true -> w_tx w = Some d -> sub_inv d ->
  (forall e w', quiet_step w w' -> w_db w' = w_db w -> Q (Err e) w') ->
  (forall w', quiet_step w w' -> w_db w' = w_db w -> w_tx w' = Some d ->
     (forall s, s ∈ subscriptions d -> expired_pending cutoff s = false) -> Q (Ok []) w') ->
  wp (cleanup_tx ctx cutoff) Q w.
Proof.
  intros Hctx Htx Hi Hfail Hok. unfold cleanup_tx, DeleteExpiredPending, FromContext, txFromContext.
  rewrite Hctx. wp_steps. eapply wp_run_tx; [exact Htx|intros msg w' ? ? ?; by apply Hfail|].
  intros sc rows d' w' Hst Hq Htx' Hdb. unfold delete_stmt in Hst. injection Hst as <- <-. cbn [map_err].
  wp_steps. unfold wp at 1, lift_res, CollectRows. simpl fst. simpl snd.
  destruct (deleted_rows d (expired_pending cutoff)) as [|row rows] eqn:Hrows.
  - pose proof (deleted_rows_nil d _ Hi Hrows) as Hnone. cbn [map_err map]. wp_steps. cbn [map for_each]. wp_steps.
    apply Hok; [done..| |done]. rewrite Htx'. by rewrite sub_at_delete_none.
  - destruct expired_rows_rejected as [msg ->]. cbn [map_err]. by apply Hfail.
Qed.

Lemma Cleanup_Run_spec maxAge ctx w :
  txFromContext ctx = false -> w_tx w = None -> sub_inv (w_db w) ->
  wp (Cleanup_Run maxAge ctx) (fun r w' => w_tx w' = None /\ w_db w' = w_db w /\
    (forall s, s ∈ subscriptions (w_db w) -> expired_pending (env_now (w_tick w) - maxAge) s = true ->
       is_ok r = false)) w.
Proof.
  intros Hctx Htx Hi. unfold Cleanup_Run, time_Now. wp_steps. cbv zeta. wp_steps. apply wp_tx; [done| | |done].
  { intros msg w' _ Htx' Hdb. split; [|done]. simpl in Htx'. congruence. }
  intros w1 _ Htx1 Hdb1. simpl in Htx1, Hdb1.
  eapply cleanup_body; [done|exact Htx1|done| |].
  - intros e w2 _ Hdb2 w3 _ Htx3 Hdb3. cbn [map_err]. split_and!; [done|congruence|done].
  - intros w2 _ Hdb2 Htx2 Hnone w3 _ Htx3. rewrite Htx2. cbn [default map_err].
    split; [|intros Hdb3 msg; split_and!; [done|congruence|done]].
    intros Hdb3. split; [|intros msg; by split_and!].
    rewrite bool_decide_eq_true_2 by done. wp_steps. split_and!; [done..|]. intros s Hs Hexp.
    by rewrite Hnone in Hexp.
Qed.

Lemma runCleanup_spec maxAge signals ctx w :
  txFromContext ctx = false -> w_tx w = None -> sub_inv (w_db w) ->
  wp (runCleanup maxAge signals ctx) (fun _ w' => w_db w' = w_db w) w.
Proof.
  intros Hctx Htx Hi. set (I w' := w_tx w' = None /\ w_db w' = w_db w).
  assert (forall w1, I w1 -> wp (logged (Cleanup_Run maxAge ctx)) (fun r w' => r = Ok tt /\ I w') w1) as Htick.
  { intros w1 [Htx1 Hdb1]. apply wp_logged. eapply wp_mono; [|apply Cleanup_Run_spec; [done..|congruence]].
    intros r w2 (? & ? & _). unfold I. split_and!; congruence. }
  apply (wp_mono _ (fun r w' => r = Ok tt /\ I w')); [by intros r w' (_ & _ & ?)|].
  apply wp_bind. eapply wp_mono; [|apply Htick; done]. intros r w1 [-> Hw1]. by apply wp_ticker_loop.
Qed.

(** C40: The cleanup of expired pending subscriptions never takes effect: its query
    names the second column "name" while the row struct wants "repo", so
    collecting the result fails as soon as one row has expired and the
    transaction is rolled back.  Whatever happens, and however often the
    cleanup loop ticks, the database stays as it was, so no subscriptions.expired
    event is ever announced; and with an expired row present every run ends in
    an error. *)
Theorem cleanup_never_removes maxAge signals ctx w :
  txFromContext ctx = false -> w_tx w = None -> sub_inv (w_db w) ->
  w_db (snd (runCleanup maxAge signals ctx w)) = w_db w /\
  (forall s, s ∈ subscriptions (w_db w) -> expired_pending (env_now (w_tick w) - maxAge) s = true ->
     is_ok (fst (Cleanup_Run maxAge ctx w)) = false).
Proof.
  intros Hctx Htx Hi. split; [by apply (runCleanup_spec maxAge signals ctx w)|].
  apply (Cleanup_Run_spec maxAge ctx w); done.
Qed.
End Cleanup.

(** ** Witnesses *)

#[local] Instance any_request : ProtoValidator Request := {| pv_Validate _ := None |}.
Definition demo_checker : RepoChecker SubDB := Client_RepoChecker (E := quiet_env) NewClient.
Definition demo_tokens : Tokenizer := {| tk_secret := "secret"; tk_ttl := 3600 * second |}.

Definition demo_repo : Repository :=
  {| repo_ID := "0000000000000001"; repo_Name := "golang/go"; repo_CreatedAt := 0 |}.
(** Ann is pending, Bob is confirmed. *)
Definition demo_ann : Subscription :=
  {| sub_ID := "0000000000000002"; sub_RepositoryID := "0000000000000001"; sub_Email := "ann@example.test";
     sub_UnsubscribeToken := "aa"; sub_Confirmed := false; sub_CreatedAt := 0 |}.
Definition demo_bob : Subscription :=
  {| sub_ID := "0000000000000003"; sub_RepositoryID := "0000000000000001"; sub_Email := "bob@example.test";
     sub_UnsubscribeToken := "bb"; sub_Confirmed := true; sub_CreatedAt := 0 |}.
Definition demo_subs : SubDB :=
  {| repositories := [demo_repo]; subscriptions := [demo_ann; demo_bob]; sub_outbox := [] |}.

Lemma demo_subs_inv : sub_inv demo_subs.
Proof.
  split; simpl; unfold unique_on; simpl; try (apply NoDup_ListNoDup; repeat constructor; set_solver).
  intros s Hs. exists demo_repo. split; [set_solver|]. set_solver.
Qed.

Definition demo_request (req : Request) : res Reply * World SubDB :=
  NewConnectHandler (E := quiet_env) (G := demo_checker) demo_tokens "https://notifier.test" "key" "bearer key"
    Background req (world_of demo_subs).


(** The run of the witness above did remove Bob and announce it. *)
Example demo_unsubscribe :
  let w' := snd (demo_request (UnsubscribeRequest "bb")) in
  sub_at (w_db w') "bob@example.test" "golang/go" = None /\
  map om_subject (sub_outbox (w_db w')) = [SubjectSubscriptionRemoved] /\ w_nudge w' = true.
Proof. vm_compute. done. Qed.

Lemma api_key_guards_witness :
  NewConnectHandler (E := quiet_env) (G := demo_checker) demo_tokens "https://notifier.test" "key" "Basic key"
    Background (ListSubscriptionsRequest "ann@example.test") (world_of demo_subs) =
  (Ok (inl (connect_NewError CodeUnauthenticated "unauthorized")), world_of demo_subs).
Proof.
  exact (api_key_guards (E := quiet_env) (G := demo_checker) demo_tokens "https://notifier.test" "key" "Basic key"
    Background (ListSubscriptionsRequest "ann@example.test") (world_of demo_subs) ltac:(done) ltac:(done)).
Defined.

Definition compensate_data (email : string) : string :=
  encode_event {| sgc_SagaID := hex_EncodeToString "0123456789abcdef"; sgc_SagaType := "subscribe";
                  sgc_Email := email; sgc_RepoName := "golang/go" |}.

Lemma compensation_spares_confirmed_witness :
  sub_at (w_db (snd (HandleCompensate (E := quiet_env) Background (compensate_data "bob@example.test")
    (world_of demo_subs)))) "bob@example.test" "golang/go" = Some (true, "bb").
Proof.
  pose proof (compensation_spares_confirmed (E := quiet_env) Background (compensate_data "bob@example.test")
    (world_of demo_subs) eq_refl eq_refl demo_subs_inv) as H.
  destruct (HandleCompensate Background (compensate_data "bob@example.test") (world_of demo_subs)) as [r w'].
  destruct H as (_ & _ & H & _). apply H. reflexivity.
Defined.

Lemma confirm_token_roundtrip_witness :
  exists token w1', Issue (E := quiet_env) demo_tokens "ann@example.test" "golang/go" (world_of tt) = (Ok token, w1') /\
    Verify (E := quiet_env) demo_tokens token (world_of tt) =
      (Ok ("ann@example.test", "golang/go"), ticked (world_of tt)).
Proof.
  eexists _, _. split; [vm_compute; reflexivity|].
  refine (proj1 (confirm_token_roundtrip demo_tokens "ann@example.test" "golang/go" quiet_env quiet_env
    (world_of tt) _ (world_of tt) _ _ _ _) _); [vm_compute; reflexivity..|]. vm_compute. discriminate.
Defined.

Lemma cleanup_never_removes_witness :
  w_db (snd (runCleanup (E := quiet_env) 1 [TickerFired] Background (world_of demo_subs))) = demo_subs /\
  is_ok (fst (Cleanup_Run (E := quiet_env) 1 Background (world_of demo_subs))) = false.
Proof.
  destruct (cleanup_never_removes (E := quiet_env) 1 [TickerFired] Background (world_of demo_subs)
    eq_refl eq_refl demo_subs_inv) as [H1 H2].
  split; [exact H1|]. apply (H2 demo_ann); [left|reflexivity].
Defined.
