(* ===== verification/Mailer.v ===== *)
(** * The mailer: [internal/notifier/adapter/mailer]

    Templates with html/template's contextual escaping, message building (the
    go-mail address check is a parameter), the SMTP batch sender, and the two
    deliveries the use cases wait for.  The dispatcher goroutine runs one job at
    a time, so a job is delivered where it is queued; the two selects against
    [ctx.Done()] ask the oracle. *)

From S2P Require Import Prelude GoErrors Effects Wp Json.
From Stdlib Require Import Ascii.

Open Scope string_scope.
Open Scope list_scope.
Open Scope Z_scope.

(** ** html/template *)

(** [htmlReplacementTable]: the same for text and for attribute values. *)
Definition escape_char (c : ascii) : string :=
  let b := byte c in
  if b =? 0 then replacement
  else if b =? 34 then "&#34;" else if b =? 38 then "&amp;" else if b =? 39 then "&#39;"
  else if b =? 43 then "&#43;" else if b =? 60 then "&lt;" else if b =? 62 then "&gt;"
  else String c "".

Fixpoint htmlescaper (s : string) : string :=
  match s with
  | "" => ""
  | String c s => escape_char c +:+ htmlescaper s
  end.

(** [strings.Cut(s, ":")]: what precedes the first colon. *)
Fixpoint before_colon (s : string) : option string :=
  match s with
  | "" => None
  | String c s => if byte c =? 58 then Some "" else String c <$> before_colon s
  end.

Fixpoint has_byte (b : Z) (s : string) : bool :=
  match s with
  | "" => false
  | String c s => (byte c =? b) || has_byte b s
  end.

Fixpoint fold_lower (s : string) : string :=
  match s with
  | "" => ""
  | String c s => String (if in_range 65 90 (byte c) then chr (byte c + 32) else c) (fold_lower s)
  end.

(** [isSafeURL]: no scheme, or one of http, https, mailto ([strings.EqualFold];
    the fold of U+017F to s is written out). *)
Fixpoint fold_long_s (s : string) : string :=
  match s with
  | String a ((String b rest) as t) =>
      if (byte a =? 197) && (byte b =? 191) then String "s" (fold_long_s rest) else String a (fold_long_s t)
  | _ => s
  end.

Definition isSafeURL (s : string) : bool :=
  match before_colon s with
  | Some protocol =>
      has_byte 47 protocol ||
      bool_decide (fold_lower (fold_long_s protocol) ∈ ["http"; "https"; "mailto"])
  | None => true
  end.

Definition urlfilter (s : string) : string := if isSafeURL s then s else "#ZgotmplZ".

Definition is_alnum (c : ascii) : bool :=
  in_range 48 57 (byte c) || in_range 65 90 (byte c) || in_range 97 122 (byte c).

Definition url_kept : string := "!#$&*+,/:;=?@[]-._~".

Definition is_hex (c : ascii) : bool := match hex_value c with Some _ => true | None => false end.

(** [processURLOnto(s, norm = true)] *)
Fixpoint urlnormalizer (s : string) : string :=
  match s with
  | "" => ""
  | String c rest =>
      let encoded := String "%" (String (hex_digit (byte c / 16)) (String (hex_digit (byte c mod 16)) "")) in
      (if is_alnum c || has_byte (byte c) url_kept then String c ""
       else if byte c =? 37 then
         match rest with
         | String a (String b _) => if is_hex a && is_hex b then String c "" else encoded
         | _ => encoded
         end
       else encoded) +:+ urlnormalizer rest
  end.

(** A value in a double-quoted href. *)
Definition href (s : string) : string := htmlescaper (urlnormalizer (urlfilter s)).

Definition nl : string := String (chr 10) "".
Definition dq : string := String dquote "".

Definition render_confirmation (repo confirmURL : string) : string :=
  "<!DOCTYPE html>" +:+ nl +:+ "<html>" +:+ nl +:+ "<body>" +:+ nl +:+
  "    <h2>Confirm your subscription</h2>" +:+ nl +:+
  "    <p>You requested to subscribe to new releases of <strong>" +:+ htmlescaper repo +:+ "</strong>.</p>" +:+ nl +:+
  "    <p>Click <a href=" +:+ dq +:+ href confirmURL +:+ dq +:+ ">here</a> to confirm your subscription.</p>" +:+ nl +:+
  "    <p>If you did not request this, please ignore this email.</p>" +:+ nl +:+ "</body>" +:+ nl +:+ "</html>".

Definition render_release (repo tag releaseURL unsubscribeURL : string) : string :=
  "<!DOCTYPE html>" +:+ nl +:+ "<html>" +:+ nl +:+ "<body>" +:+ nl +:+
  "    <h2>New release for " +:+ htmlescaper repo +:+ "</h2>" +:+ nl +:+
  "    <p>A new release <strong>" +:+ htmlescaper tag +:+ "</strong> is available.</p>" +:+ nl +:+
  "    <p><a href=" +:+ dq +:+ href releaseURL +:+ dq +:+ ">View</a> release on GitHub</p>" +:+ nl +:+
  "    <br>" +:+ nl +:+
  "    <p><small><a href=" +:+ dq +:+ href unsubscribeURL +:+ dq +:+ ">Unsubscribe</a></small></p>" +:+ nl +:+
  "</body>" +:+ nl +:+ "</html>".

(** ** Messages *)

(** go-mail's address parser ([Msg.From], [Msg.To]): an error or acceptance. *)
Class MailLib := { mail_addr_error : string -> option string }.

(** [notifier.ReleaseNotification] and [notifier.BatchResult] *)
Record ReleaseNotification := {
  nt_To : string; nt_Repo : string; nt_Tag : string; nt_ReleaseURL : string; nt_UnsubscribeURL : string;
}.
Record BatchResult := { br_Sent : Z; br_Failed : list string }.

Section Mailer.
Context {D : Type} {E : Env} {ML : MailLib}.
Variable fromEmail : string.

Definition buildMessage (to subject body : string) : res Msg :=
  match mail_addr_error fromEmail with
  | Some msg => Err (Errorf "set from" (ErrText msg))
  | None =>
      match mail_addr_error to with
      | Some msg => Err (Errorf "set to" (ErrText msg))
      | None => Ok {| msg_to := to; msg_subject := subject; msg_body := body |}
      end
  end.

(** Executing the templates on a map of strings cannot fail. *)
Definition buildReleaseMessage (n : ReleaseNotification) : res Msg :=
  buildMessage (nt_To n) ("New release " +:+ nt_Tag n +:+ " for " +:+ nt_Repo n)
    (render_release (nt_Repo n) (nt_Tag n) (nt_ReleaseURL n) (nt_UnsubscribeURL n)).

(** ** [smtp_sender.go] *)

Definition client_Send (m : Msg) : M D (option error) :=
  r ← oracle env_send;
  _ ← emit (XSmtp m (match r with None => true | Some _ => false end));
  mret (match r with Some msg => Some (Errorf "send email" (ErrText msg)) | None => None end).

Fixpoint send_each (messages : list Msg) : M D (list (option error)) :=
  match messages with
  | [] => mret []
  | m :: ms => e ← client_Send m; es ← send_each ms; mret (e :: es)
  end.

Definition sendBatch (messages : list Msg) : M D (list (option error)) :=
  r ← oracle env_dial;
  match r with
  | Some msg => mret (map (fun _ => Some (Errorf "dial SMTP" (ErrText msg))) messages)
  | None => send_each messages
  end.

(** ** [mailer.go] *)

(** Whether [ctx.Done()] wins a select, and [ctx.Err()]. *)
Definition ctx_Done : M D (option sentinel) := oracle env_done.

Definition DeliverConfirmation (ctx : Ctx) (to repo confirmURL : string) : M D unit :=
  match buildMessage to ("Confirm your subscription to " +:+ repo) (render_confirmation repo confirmURL) with
  | Err e => fail (Errorf "build confirmation email" e)
  | Ok msg =>
      queued ← ctx_Done;
      match queued with
      | Some s => fail (Errorf "queue confirmation email" (Sentinel s))
      | None =>
          errs ← sendBatch [msg];
          awaited ← ctx_Done;
          match awaited with
          | Some s => fail (Errorf "await confirmation email result" (Sentinel s))
          | None =>
              match errs with
              | Some e :: _ => fail (Errorf "send confirmation email" e)
              | _ => mret tt
              end
          end
      end
  end.

(** The messages that can be built with their recipients, and those that
    cannot. *)
Fixpoint build_all (ns : list ReleaseNotification) : list (Msg * string) * list string :=
  match ns with
  | [] => ([], [])
  | n :: ns =>
      let '(ms, failed) := build_all ns in
      match buildReleaseMessage n with
      | Err _ => (ms, nt_To n :: failed)
      | Ok m => ((m, nt_To n) :: ms, failed)
      end
  end.

(** The loop over [errs]: failures in order, and the number sent. *)
Fixpoint tally (errs : list (option error)) (recipients : list string) (acc : BatchResult) : BatchResult :=
  match errs, recipients with
  | Some _ :: errs, r :: rs => tally errs rs {| br_Sent := br_Sent acc; br_Failed := br_Failed acc ++ [r] |}
  | None :: errs, _ :: rs => tally errs rs {| br_Sent := br_Sent acc + 1; br_Failed := br_Failed acc |}
  | _, _ => acc
  end.

Definition SendReleaseNotifications (ctx : Ctx) (ns : list ReleaseNotification) : M D BatchResult :=
  let '(built, failed) := build_all ns in
  let result := {| br_Sent := 0; br_Failed := failed |} in
  let messages := map fst built in
  let recipients := map snd built in
  let all_failed := {| br_Sent := 0; br_Failed := failed ++ recipients |} in
  if bool_decide (messages = []) then mret result else
  queued ← ctx_Done;
  match queued with
  | Some _ => mret all_failed
  | None =>
      errs ← sendBatch messages;
      awaited ← ctx_Done;
      match awaited with
      | Some _ => mret all_failed
      | None => mret (tally errs recipients result)
      end
  end.
End Mailer.

(** ** Facts *)

Lemma has_byte_app b s t : has_byte b (s +:+ t) = has_byte b s || has_byte b t.
Proof. induction s as [|c s IH]; simpl; [done|]. by rewrite IH, orb_assoc. Qed.

Lemma escape_char_safe c : forall b, b ∈ [34; 39; 60; 62] -> has_byte b (escape_char c) = false.
Proof.
  intros b Hb. repeat (apply elem_of_cons in Hb as [->|Hb]); [..|by apply elem_of_nil in Hb];
    destruct c as [[] [] [] [] [] [] [] []]; vm_compute; reflexivity.
Qed.

(** Escaped text holds no quote and no angle bracket. *)
Lemma htmlescaper_safe s b : b ∈ [34; 39; 60; 62] -> has_byte b (htmlescaper s) = false.
Proof.
  intros Hb. induction s as [|c s IH]; [done|]. simpl. by rewrite has_byte_app, escape_char_safe, IH.
Qed.

(** ** The senders' interfaces *)

(** What a delivery does to the service: e-mails [l], nothing else. *)
Definition mail_step {D} (w w' : World D) (l : list Ext) : Prop :=
  w_db w' = w_db w /\ w_tx w' = w_tx w /\ w_txnow w' = w_txnow w /\ w_seq w' = w_seq w /\
  w_nudge w' = w_nudge w /\ w_trace w' = w_trace w ++ l /\
  Forall (fun x => match x with XSmtp _ _ => True | _ => False end) l.

Definition accepted_mail (l : list Ext) (to : string) : Prop := exists m, XSmtp m true ∈ l /\ msg_to m = to.

(** [notifyrelease.sender]: every notification is counted as sent or listed as
    failed, exactly once, and what is counted was accepted by SMTP. *)
Class ReleaseSender (D : Type) := {
  snd_Release : Ctx -> list ReleaseNotification -> M D BatchResult;
  snd_Release_spec : forall ctx ns w,
    wp (snd_Release ctx ns) (fun r w' => exists sent failed l,
      r = Ok {| br_Sent := Z.of_nat (length sent); br_Failed := failed |} /\
      sent ++ failed ≡ₚ map nt_To ns /\ mail_step w w' l /\ Forall (accepted_mail l) sent /\
      (ns = [] -> l = [])) w;
}.

(** [sendconfirmation.sender] *)
Class ConfirmationSender (D : Type) := {
  snd_Confirmation : Ctx -> string -> string -> string -> M D unit;
  snd_Confirmation_spec : forall ctx to repo url w,
    wp (snd_Confirmation ctx to repo url) (fun r w' => exists l,
      mail_step w w' l /\
      match r with Ok _ => accepted_mail l to | Err e => Error e <> "" end) w;
}.

Section Instances.
Context {D : Type} {E : Env} {ML : MailLib}.
Variable fromEmail : string.
Implicit Types w : World D.

Lemma mail_step_refl w w' :
  w_db w' = w_db w -> w_tx w' = w_tx w -> w_txnow w' = w_txnow w -> w_seq w' = w_seq w ->
  w_nudge w' = w_nudge w -> w_trace w' = w_trace w -> mail_step w w' [].
Proof. intros. unfold mail_step. by rewrite app_nil_r. Qed.

Lemma mail_step_trans w1 w2 w3 l1 l2 :
  mail_step w1 w2 l1 -> mail_step w2 w3 l2 -> mail_step w1 w3 (l1 ++ l2).
Proof.
  intros (? & ? & ? & ? & ? & Ht1 & Hf1) (? & ? & ? & ? & ? & Ht2 & Hf2).
  unfold mail_step. split_and!; [congruence..| |by apply Forall_app].
  by rewrite Ht2, Ht1, app_assoc.
Qed.

(** Entry [i] of the errors tells whether message [i] was accepted. *)
Lemma send_each_spec ms w :
  wp (send_each ms) (fun r w' => exists errs l, r = Ok errs /\ mail_step w w' l /\
    Forall2 (fun m e => e = None -> XSmtp m true ∈ l) ms errs) w.
Proof.
  revert w. induction ms as [|m ms IH]; intros w; simpl.
  - wp_steps. exists [], []. split_and!; [done|by apply mail_step_refl|constructor].
  - wp_steps. unfold client_Send. wp_steps. eapply wp_mono; [|apply IH].
    intros r w' (errs & l & -> & Hstep & Herrs). wp_steps.
    set (ok := match env_send (w_tick w) with None => true | Some _ => false end) in *.
    exists ((match env_send (w_tick w) with Some msg => Some (Errorf "send email" (ErrText msg)) | None => None end)
      :: errs), (XSmtp m ok :: l).
    split_and!; [done| |].
    + apply (mail_step_trans w (traced (XSmtp m ok) (ticked w)) w' [XSmtp m ok] l); [|done].
      unfold mail_step. split_and!; [done..|by repeat constructor].
    + constructor.
      * unfold ok. destruct (env_send (w_tick w)); [done|]. intros _. left.
      * eapply Forall2_impl; [exact Herrs|]. intros m' e He Hn. right. by apply He.
Qed.

Lemma sendBatch_spec ms w :
  wp (sendBatch ms) (fun r w' => exists errs l, r = Ok errs /\ mail_step w w' l /\
    Forall2 (fun m e => e = None -> XSmtp m true ∈ l) ms errs) w.
Proof.
  unfold sendBatch. wp_steps. destruct (env_dial (w_tick w)) as [msg|].
  - wp_steps. exists (map (fun _ => Some (Errorf "dial SMTP" (ErrText msg))) ms), [].
    split_and!; [done|by apply mail_step_refl|]. induction ms; constructor; done.
  - eapply wp_mono; [|apply send_each_spec]. intros r w' (errs & l & -> & Hs & He).
    exists errs, l. split_and!; [done| |done].
    change l with ([] ++ l). eapply mail_step_trans; [by apply mail_step_refl|exact Hs].
Qed.

Lemma build_all_spec ns :
  let '(built, failed) := build_all fromEmail ns in
  map snd built ++ failed ≡ₚ map nt_To ns /\ Forall (fun p => msg_to (fst p) = snd p) built.
Proof.
  induction ns as [|n ns IH]; simpl; [done|].
  destruct (build_all fromEmail ns) as [built failed]. destruct IH as [Hp Hf].
  unfold buildReleaseMessage, buildMessage. destruct (mail_addr_error fromEmail); simpl.
  { split; [|done]. rewrite <- Hp. by rewrite Permutation_middle. }
  destruct (mail_addr_error (nt_To n)); simpl.
  { split; [|done]. rewrite <- Hp. by rewrite Permutation_middle. }
  split; [by constructor|]. by constructor.
Qed.

Lemma tally_spec l built errs acc :
  Forall2 (fun m e => e = None -> XSmtp m true ∈ l) (map fst built) errs ->
  Forall (fun p => msg_to (fst p) = snd p) built ->
  exists sent failed, tally errs (map snd built) acc =
      {| br_Sent := br_Sent acc + Z.of_nat (length sent); br_Failed := br_Failed acc ++ failed |} /\
    sent ++ failed ≡ₚ map snd built /\ Forall (accepted_mail l) sent.
Proof.
  intros Hf Hto. revert errs acc Hf. induction Hto as [|[m to] built Hm Hto IH]; simpl; intros errs acc Hf.
  - inversion Hf; subst. exists [], []. destruct acc. simpl. by rewrite app_nil_r, Z.add_0_r.
  - inversion Hf as [|? e ? errs' He Hf']; subst. simpl in Hm. destruct e as [e|]; simpl.
    + destruct (IH errs' {| br_Sent := br_Sent acc; br_Failed := br_Failed acc ++ [to] |} Hf')
        as (sent & failed & -> & Hp & Hs). exists sent, (to :: failed). simpl.
      split_and!; [by rewrite <- app_assoc| |done]. rewrite <- Hp. by rewrite Permutation_middle.
    + destruct (IH errs' {| br_Sent := br_Sent acc + 1; br_Failed := br_Failed acc |} Hf')
        as (sent & failed & -> & Hp & Hs). exists (to :: sent), failed. simpl.
      split_and!; [f_equal; lia|by constructor|]. constructor; [|done]. exists m. split; [by apply He|done].
Qed.

Lemma SendReleaseNotifications_spec ctx ns w :
  wp (SendReleaseNotifications fromEmail ctx ns) (fun r w' => exists sent failed l,
    r = Ok {| br_Sent := Z.of_nat (length sent); br_Failed := failed |} /\
    sent ++ failed ≡ₚ map nt_To ns /\ mail_step w w' l /\ Forall (accepted_mail l) sent /\
    (ns = [] -> l = [])) w.
Proof.
  unfold SendReleaseNotifications. pose proof (build_all_spec ns) as Hb.
  destruct (build_all fromEmail ns) as [built failed] eqn:Hba. destruct Hb as [Hp Hto]. cbv zeta.
  assert (forall w', w_db w' = w_db w -> w_tx w' = w_tx w -> w_txnow w' = w_txnow w -> w_seq w' = w_seq w ->
    w_nudge w' = w_nudge w -> w_trace w' = w_trace w -> exists sent failed' l,
    Ok (A := BatchResult) {| br_Sent := 0; br_Failed := failed ++ map snd built |} =
      Ok {| br_Sent := Z.of_nat (length sent); br_Failed := failed' |} /\
    sent ++ failed' ≡ₚ map nt_To ns /\ mail_step w w' l /\ Forall (accepted_mail l) sent /\ (ns = [] -> l = []))
    as Hnone.
  { intros w' ? ? ? ? ? ?. exists [], (failed ++ map snd built), [].
    split_and!; [done| |by apply mail_step_refl|constructor|done]. simpl. by rewrite <- Hp, Permutation_app_comm. }
  case_bool_decide as Hms.
  { wp_steps. apply map_eq_nil in Hms as ->. simpl in Hnone. rewrite app_nil_r in Hnone. by apply Hnone. }
  wp_steps. unfold ctx_Done. wp_steps. destruct (env_done (w_tick w)) as [s|]; [wp_steps; by apply Hnone|].
  wp_steps. eapply wp_mono; [|apply sendBatch_spec]. intros r w' (errs & l & -> & Hstep & Hf).
  assert (mail_step w (ticked w') l) as Hstep'.
  { destruct Hstep as (? & ? & ? & ? & ? & ? & ?). done. }
  assert (ns = [] -> l = []) as Hnil by (intros ->; by injection Hba as <- <-).
  wp_steps. destruct (env_done (w_tick w')) as [s|]; wp_steps.
  - exists [], (failed ++ map snd built), l.
    split_and!; [done| |done|constructor|done]. simpl. by rewrite <- Hp, Permutation_app_comm.
  - destruct (tally_spec l built errs {| br_Sent := 0; br_Failed := failed |} Hf Hto)
      as (sent & failed' & -> & Hp' & Hs).
    exists sent, (failed ++ failed'), l. split_and!; [done| |done..].
    rewrite <- Hp, <- Hp'. rewrite <- app_assoc. f_equiv. by rewrite Permutation_app_comm.
Qed.

Definition Mailer_ReleaseSender : ReleaseSender D :=
  {| snd_Release := SendReleaseNotifications fromEmail; snd_Release_spec := SendReleaseNotifications_spec |}.

Lemma DeliverConfirmation_spec ctx to repo url w :
  wp (DeliverConfirmation fromEmail ctx to repo url) (fun r w' => exists l,
    mail_step w w' l /\ match r with Ok _ => accepted_mail l to | Err e => Error e <> "" end) w.
Proof.
  unfold DeliverConfirmation, buildMessage.
  assert (forall (w' : World D) pre e, w_db w' = w_db w -> w_tx w' = w_tx w -> w_txnow w' = w_txnow w ->
    w_seq w' = w_seq w -> w_nudge w' = w_nudge w -> w_trace w' = w_trace w ->
    exists l, mail_step w w' l /\ match Err (A := unit) (Errorf pre e) with
      | Ok _ => accepted_mail l to | Err e => Error e <> "" end) as Hfail.
  { intros w' pre e ? ? ? ? ? ?. exists []. split; [by apply mail_step_refl|apply Error_Errorf_nonempty]. }
  destruct (mail_addr_error fromEmail); [wp_steps; by apply Hfail|].
  destruct (mail_addr_error to); [wp_steps; by apply Hfail|].
  wp_steps. unfold ctx_Done. wp_steps. destruct (env_done (w_tick w)) as [s|]; [wp_steps; by apply Hfail|].
  wp_steps. eapply wp_mono; [|apply sendBatch_spec]. intros r w' (errs & l & -> & Hstep & Hf).
  assert (mail_step w (ticked w') l) as Hstep'.
  { destruct Hstep as (? & ? & ? & ? & ? & ? & ?). done. }
  inversion Hf as [|m e ? errs' He Hf']; subst. inversion Hf'; subst.
  wp_steps. destruct (env_done (w_tick w')) as [s|]; wp_steps.
  { exists l. split; [done|apply Error_Errorf_nonempty]. }
  destruct e as [e|]; wp_steps; exists l; (split; [done|]).
  - apply Error_Errorf_nonempty.
  - eexists. split; [by apply He|done].
Qed.

Definition Mailer_ConfirmationSender : ConfirmationSender D :=
  {| snd_Confirmation := DeliverConfirmation fromEmail; snd_Confirmation_spec := DeliverConfirmation_spec |}.
End Instances.
