(* ===== verification/MailerTheorems.v ===== *)
(** * The mailer's guarantees: no markup from data, exact batch accounting *)

From S2P Require Import Prelude GoErrors Effects Wp Json Mailer.
From Stdlib Require Import Ascii.

Open Scope string_scope.
Open Scope list_scope.
Open Scope Z_scope.

Fixpoint count_byte (b : Z) (s : string) : nat :=
  match s with
  | "" => 0
  | String c s => (if Z.eqb (byte c) b then 1 else 0) + count_byte b s
  end.

Lemma count_byte_app b s t : count_byte b (s +:+ t) = (count_byte b s + count_byte b t)%nat.
Proof. induction s as [|c s IH]; simpl; [done|]. rewrite IH. lia. Qed.

Lemma count_byte_absent b s : has_byte b s = false -> count_byte b s = 0%nat.
Proof. induction s as [|c s IH]; simpl; [done|]. intros [-> ?]%orb_false_iff. auto. Qed.

Lemma count_byte_escaped b s : b ∈ [34; 39; 60; 62] -> count_byte b (htmlescaper s) = 0%nat.
Proof. intros Hb. by apply count_byte_absent, htmlescaper_safe. Qed.

(** Quotes, apostrophes and angle brackets. *)
Definition markup_bytes : list Z := [34; 39; 60; 62].

(** C39: Data cannot add markup to an e-mail: whatever the repository, tag and links,
    a rendered message has exactly as many quotes, apostrophes and angle
    brackets as the template itself, so every value stays inside its element or
    its attribute; and a link whose scheme is none of http, https and mailto is
    replaced by a dead fragment. *)
Theorem email_markup_fixed :
  Forall (fun b =>
    (forall repo tag releaseURL unsubscribeURL,
       count_byte b (render_release repo tag releaseURL unsubscribeURL) = count_byte b (render_release "" "" "" "")) /\
    (forall repo confirmURL,
       count_byte b (render_confirmation repo confirmURL) = count_byte b (render_confirmation "" ""))) markup_bytes /\
  (forall url, isSafeURL url = false -> href url = "#ZgotmplZ").
Proof.
  split.
  - apply Forall_forall. intros b Hb. unfold render_release, render_confirmation, href. split; intros;
      rewrite !count_byte_app, !count_byte_escaped by done; done.
  - intros url Hu. unfold href, urlfilter. rewrite Hu. done.
Qed.

(** A batch of release e-mails is accounted for exactly: whatever SMTP and the
    address parser do and whenever the caller gives up, every recipient is
    either counted as sent, and then SMTP accepted a message to that address, or
    listed as failed, never both and never neither; the service's state is
    untouched. *)
Theorem release_batch_accounted {D} {E : Env} {ML : MailLib} fromEmail ctx ns (w : World D) :
  let '(r, w') := SendReleaseNotifications fromEmail ctx ns w in
  exists sent failed l,
    r = Ok {| br_Sent := Z.of_nat (length sent); br_Failed := failed |} /\
    sent ++ failed ≡ₚ map nt_To ns /\ mail_step w w' l /\ Forall (accepted_mail l) sent.
Proof.
  pose proof (SendReleaseNotifications_spec (D := D) fromEmail ctx ns w) as Hs. unfold wp in Hs.
  destruct (SendReleaseNotifications fromEmail ctx ns w) as [r w'].
  destruct Hs as (sent & failed & l & ? & ? & ? & ? & _). by exists sent, failed, l.
Qed.
