(* ===== verification/Dispatcher.v ===== *)
(** * The mailer's dispatcher: the job queue of [internal/notifier/adapter/mailer/mailer.go]

    [Mailer] runs one dispatcher goroutine over a buffered channel of jobs.  The
    callers ([DeliverConfirmation], [SendReleaseNotifications],
    [SendConfirmation]) queue a job or give up, then wait for its result or give
    up; [Shutdown] closes the channel.  Here the goroutines interleave freely: an
    execution is a list of events, each enabled or not.  [Mailer.v] lets a job be
    sent where it is queued; what is proved here is why it may: jobs are sent one
    at a time, in queue order, exactly once, and an answer is the outcome of the
    caller's own job. *)

From S2P Require Import Prelude GoErrors Effects Mailer.

Open Scope string_scope.
Open Scope list_scope.
Open Scope Z_scope.

Definition jobBufferSize : nat := 64.

(** [mailJob]; [mj_result]: the job has a result channel. *)
Record mailJob := { mj_kind : string; mj_messages : list Msg; mj_result : bool }.

Definition kindConfirmation : string := "confirmation".
Definition kindNotification : string := "notification".

(** The job [SendConfirmation] queues, without a result channel; a message that
    cannot be built is only logged. *)
Definition SendConfirmation {ML : MailLib} (fromEmail to repo confirmURL : string) : option mailJob :=
  match buildMessage fromEmail to ("Confirm your subscription to " +:+ repo) (render_confirmation repo confirmURL) with
  | Ok msg => Some {| mj_kind := kindConfirmation; mj_messages := [msg]; mj_result := false |}
  | Err _ => None
  end.

(** Where a caller stands: in its first select, in its second, returned with the
    result, returned because its context ended in the first or in the second
    select, or returned at once because the job has no result channel. *)
Inductive CallState :=
| Queueing | Waiting | Answered (errs : list (option error)) | Refused | Abandoned | Detached.

(** The channel, the dispatcher and the callers.  [q_queued] and [q_delivered]
    record the history: the calls in the order their jobs were accepted by the
    channel, and the batches sent with their outcomes. *)
Record MailerState := {
  q_calls : gmap nat (mailJob * CallState);
  q_jobs : list nat;                          (* the channel's buffer *)
  q_closed : bool;
  q_running : option nat;                     (* the job in [deliver] *)
  q_results : gmap nat (list (option error)); (* filled result channels *)
  q_stopped : bool;                           (* the dispatcher returned *)
  q_panicked : bool;                          (* a send on the closed channel *)
  q_queued : list nat;
  q_delivered : list (nat * list (option error));
}.

(** [newMailer] *)
Definition newMailer : MailerState :=
  {| q_calls := ∅; q_jobs := []; q_closed := false; q_running := None; q_results := ∅; q_stopped := false;
     q_panicked := false; q_queued := []; q_delivered := [] |}.

Inductive MailEvent :=
| ECall (id : nat) (job : mailJob)            (* a caller reaches its first select *)
| EQueue (id : nat)                           (* case m.jobs <- job *)
| ERefuse (id : nat)                          (* case <-ctx.Done(), first select *)
| EAnswer (id : nat)                          (* case errs := <-resultCh *)
| EAbandon (id : nat)                         (* case <-ctx.Done(), second select *)
| ETake                                       (* for job := range m.jobs *)
| EDeliver (errs : list (option error))       (* deliver: sendBatch returned errs *)
| EExit                                       (* the range loop ends *)
| EClose.                                     (* Shutdown: close(m.jobs) *)

Definition set_call (id : nat) (job : mailJob) (c : CallState) (s : MailerState) : MailerState :=
  {| q_calls := <[id := (job, c)]> (q_calls s); q_jobs := q_jobs s; q_closed := q_closed s;
     q_running := q_running s; q_results := q_results s; q_stopped := q_stopped s; q_panicked := q_panicked s;
     q_queued := q_queued s; q_delivered := q_delivered s |}.

(** The send succeeds when the buffer has room and panics on a closed channel. *)
Definition queue_job (id : nat) (job : mailJob) (s : MailerState) : option MailerState :=
  if q_closed s then
    Some {| q_calls := q_calls s; q_jobs := q_jobs s; q_closed := true; q_running := q_running s;
            q_results := q_results s; q_stopped := q_stopped s; q_panicked := true;
            q_queued := q_queued s; q_delivered := q_delivered s |}
  else if (length (q_jobs s) <? jobBufferSize)%nat then
    Some {| q_calls := <[id := (job, if mj_result job then Waiting else Detached)]> (q_calls s);
            q_jobs := q_jobs s ++ [id]; q_closed := false; q_running := q_running s; q_results := q_results s;
            q_stopped := q_stopped s; q_panicked := q_panicked s; q_queued := q_queued s ++ [id];
            q_delivered := q_delivered s |}
  else None.

(** [dispatch]: receive the next job; a closed channel is drained first. *)
Definition take_job (s : MailerState) : option MailerState :=
  match q_running s, q_jobs s with
  | None, id :: jobs =>
      Some {| q_calls := q_calls s; q_jobs := jobs; q_closed := q_closed s; q_running := Some id;
              q_results := q_results s; q_stopped := q_stopped s; q_panicked := q_panicked s;
              q_queued := q_queued s; q_delivered := q_delivered s |}
  | _, _ => None
  end.

(** [deliver]: [sendBatch] returns one error per message; the result goes to the
    job's channel, which has room for it. *)
Definition deliver_job (errs : list (option error)) (s : MailerState) : option MailerState :=
  match q_running s with
  | Some id =>
      match q_calls s !! id with
      | Some (job, _) =>
          if (length errs =? length (mj_messages job))%nat then
            Some {| q_calls := q_calls s; q_jobs := q_jobs s; q_closed := q_closed s; q_running := None;
                    q_results := if mj_result job then <[id := errs]> (q_results s) else q_results s;
                    q_stopped := q_stopped s; q_panicked := q_panicked s; q_queued := q_queued s;
                    q_delivered := q_delivered s ++ [(id, errs)] |}
          else None
      | None => None
      end
  | None => None
  end.

Definition mail_step_fn (e : MailEvent) (s : MailerState) : option MailerState :=
  if q_panicked s then None else
  match e with
  | ECall id job =>
      match q_calls s !! id with Some _ => None | None => Some (set_call id job Queueing s) end
  | EQueue id => match q_calls s !! id with Some (job, Queueing) => queue_job id job s | _ => None end
  | ERefuse id => match q_calls s !! id with Some (job, Queueing) => Some (set_call id job Refused s) | _ => None end
  | EAnswer id =>
      match q_calls s !! id, q_results s !! id with
      | Some (job, Waiting), Some errs => Some (set_call id job (Answered errs) s)
      | _, _ => None
      end
  | EAbandon id => match q_calls s !! id with Some (job, Waiting) => Some (set_call id job Abandoned s) | _ => None end
  | ETake => if q_stopped s then None else take_job s
  | EDeliver errs => deliver_job errs s
  | EExit =>
      match q_running s, q_jobs s with
      | None, [] =>
          if q_closed s && negb (q_stopped s) then
            Some {| q_calls := q_calls s; q_jobs := []; q_closed := true; q_running := None;
                    q_results := q_results s; q_stopped := true; q_panicked := false;
                    q_queued := q_queued s; q_delivered := q_delivered s |}
          else None
      | _, _ => None
      end
  | EClose =>
      if q_closed s then None else
      Some {| q_calls := q_calls s; q_jobs := q_jobs s; q_closed := true; q_running := q_running s;
              q_results := q_results s; q_stopped := q_stopped s; q_panicked := q_panicked s;
              q_queued := q_queued s; q_delivered := q_delivered s |}
  end.

Fixpoint mail_run (evs : list MailEvent) (s : MailerState) : option MailerState :=
  match evs with
  | [] => Some s
  | e :: evs => mail_step_fn e s ≫= mail_run evs
  end.

(** ** The invariant *)

(** What a caller's state says about the history. *)
Definition call_ok (s : MailerState) (id : nat) (c : CallState) : Prop :=
  match c with
  | Queueing | Refused => id ∉ q_queued s
  | Waiting | Abandoned | Detached => id ∈ q_queued s
  | Answered errs => (id, errs) ∈ q_delivered s
  end.

Record mail_inv (s : MailerState) : Prop := {
  inv_bound : (length (q_jobs s) <= jobBufferSize)%nat;
  inv_nodup : NoDup (q_queued s);
  inv_fifo : q_queued s = map fst (q_delivered s) ++ option_list (q_running s) ++ q_jobs s;
  inv_known : forall id, id ∈ q_queued s -> is_Some (q_calls s !! id);
  inv_calls : forall id job c, q_calls s !! id = Some (job, c) -> call_ok s id c;
  inv_results : forall id errs, q_results s !! id = Some errs -> (id, errs) ∈ q_delivered s;
  inv_lengths : forall id errs job c, (id, errs) ∈ q_delivered s -> q_calls s !! id = Some (job, c) ->
    length errs = length (mj_messages job);
  inv_stopped : q_stopped s = true -> q_closed s = true /\ q_running s = None /\ q_jobs s = [];
}.

Lemma newMailer_inv : mail_inv newMailer.
Proof.
  split; simpl; try set_solver; try lia; try constructor; try done.
Qed.

(** A caller moves without touching the channel. *)
Lemma mail_inv_set_call s id job c :
  mail_inv s -> call_ok s id c ->
  (forall job' c', q_calls s !! id = Some (job', c') -> job' = job) ->
  mail_inv (set_call id job c s).
Proof.
  intros [] Hc Hjob. split; simpl; try done.
  - intros id' Hid. destruct (decide (id' = id)) as [->|]; [rewrite lookup_insert_eq|rewrite lookup_insert_ne by done]; auto.
  - intros id' job' c'. destruct (decide (id' = id)) as [->|].
    + rewrite lookup_insert_eq. by intros [= <- <-].
    + rewrite lookup_insert_ne by done. apply inv_calls0.
  - intros id' errs job' c' Hin. destruct (decide (id' = id)) as [->|].
    + rewrite lookup_insert_eq. intros [= <- _].
      assert (id ∈ q_queued s) as Hq.
      { rewrite inv_fifo0. apply elem_of_app. left. apply list_elem_of_fmap. by exists (id, errs). }
      destruct (inv_known0 id Hq) as [[job0 c0] Hl]. rewrite <- (Hjob job0 c0) by done. by eapply inv_lengths0.
    + rewrite lookup_insert_ne by done. by apply inv_lengths0.
Qed.

Lemma queue_job_inv s s' id job :
  mail_inv s -> q_calls s !! id = Some (job, Queueing) -> queue_job id job s = Some s' -> mail_inv s'.
Proof.
  intros Hinv Hl Hq. unfold queue_job in Hq. destruct (q_closed s) eqn:Hcl.
  { injection Hq as <-. destruct Hinv. split; simpl; try done. intros Hst. by destruct (inv_stopped0 Hst). }
  destruct (length (q_jobs s) <? jobBufferSize)%nat eqn:Hlen; [|done]. injection Hq as <-.
  apply Nat.ltb_lt in Hlen. pose proof (inv_calls _ Hinv _ _ _ Hl) as Hnew. simpl in Hnew. destruct Hinv.
  split; simpl; try done.
  - rewrite length_app. simpl. lia.
  - apply NoDup_app. split_and!; [done|set_solver|apply NoDup_singleton].
  - by rewrite inv_fifo0, <- !app_assoc.
  - intros id' [Hid| ->%list_elem_of_singleton]%elem_of_app; [|by rewrite lookup_insert_eq].
    rewrite lookup_insert_is_Some'. auto.
  - intros id' job' c'. destruct (decide (id' = id)) as [->|].
    + rewrite lookup_insert_eq. intros [= <- <-]. destruct (mj_result job); simpl; set_solver.
    + rewrite lookup_insert_ne by done. intros Hl'. pose proof (inv_calls0 _ _ _ Hl') as Hok.
      destruct c'; simpl in *; set_solver.
  - intros id' errs job' c' Hin. destruct (decide (id' = id)) as [->|].
    + intros _. exfalso. apply Hnew. rewrite inv_fifo0. apply elem_of_app. left.
      apply list_elem_of_fmap. by exists (id, errs).
    + rewrite lookup_insert_ne by done. by apply inv_lengths0.
  - intros Hst. destruct (inv_stopped0 Hst). congruence.
Qed.

Lemma take_job_inv s s' : mail_inv s -> q_stopped s = false -> take_job s = Some s' -> mail_inv s'.
Proof.
  intros [] Hst Ht. unfold take_job in Ht. destruct (q_running s) eqn:Hr; [done|].
  destruct (q_jobs s) as [|id jobs] eqn:Hj; [done|]. injection Ht as <-.
  split; simpl; try done; [simpl in inv_bound0; lia|congruence].
Qed.

Lemma deliver_job_inv errs s s' : mail_inv s -> deliver_job errs s = Some s' -> mail_inv s'.
Proof.
  intros Hinv Hd. unfold deliver_job in Hd. destruct (q_running s) as [id|] eqn:Hr; [|done].
  destruct (q_calls s !! id) as [[job c]|] eqn:Hl; [|done].
  destruct (length errs =? length (mj_messages job))%nat eqn:Hlen; [|done]. injection Hd as <-.
  apply Nat.eqb_eq in Hlen. destruct Hinv. rewrite Hr in *. split; simpl; try done.
  - by rewrite inv_fifo0, map_app, <- app_assoc.
  - intros id' job' c' Hl'. specialize (inv_calls0 _ _ _ Hl'). destruct c'; simpl in *; set_solver.
  - intros id' errs'. destruct (mj_result job); [|set_solver].
    destruct (decide (id' = id)) as [->|]; [rewrite lookup_insert_eq; intros [= <-]; set_solver|].
    rewrite lookup_insert_ne by done. set_solver.
  - intros id' errs' job' c' [Hin|[= -> ->]%list_elem_of_singleton]%elem_of_app Hl'; [by eapply inv_lengths0|].
    rewrite Hl in Hl'. by injection Hl' as <- _.
  - intros Hst. by destruct (inv_stopped0 Hst) as (_ & ? & _).
Qed.

Lemma mail_step_inv e s s' : mail_inv s -> mail_step_fn e s = Some s' -> mail_inv s'.
Proof.
  intros Hinv Hs. unfold mail_step_fn in Hs. destruct (q_panicked s); [done|].
  destruct e as [id job|id|id|id|id| |errs| |].
  - destruct (q_calls s !! id) eqn:Hl; [done|]. injection Hs as <-.
    apply mail_inv_set_call; [done| |by rewrite Hl]. simpl. intros Hq%(inv_known _ Hinv).
    rewrite Hl in Hq. by destruct Hq.
  - destruct (q_calls s !! id) as [[job []]|] eqn:Hl; try done. by eapply queue_job_inv.
  - destruct (q_calls s !! id) as [[job []]|] eqn:Hl; try done. injection Hs as <-.
    apply mail_inv_set_call; [done|exact (inv_calls _ Hinv _ _ _ Hl)|]. rewrite Hl. naive_solver.
  - destruct (q_calls s !! id) as [[job []]|] eqn:Hl; try done.
    destruct (q_results s !! id) as [errs|] eqn:Hres; [|done]. injection Hs as <-.
    apply mail_inv_set_call; [done|exact (inv_results _ Hinv _ _ Hres)|]. rewrite Hl. naive_solver.
  - destruct (q_calls s !! id) as [[job []]|] eqn:Hl; try done. injection Hs as <-.
    apply mail_inv_set_call; [done|exact (inv_calls _ Hinv _ _ _ Hl)|]. rewrite Hl. naive_solver.
  - destruct (q_stopped s) eqn:Hst; [done|]. by eapply take_job_inv.
  - by eapply deliver_job_inv.
  - destruct (q_running s) eqn:Hr; [done|]. destruct (q_jobs s) eqn:Hj; [|done].
    destruct (q_closed s && negb (q_stopped s)); [|done]. injection Hs as <-.
    destruct Hinv. rewrite Hr, Hj in *. by split.
  - destruct (q_closed s) eqn:Hcl; [done|]. injection Hs as <-. destruct Hinv. split; simpl; try done.
    intros Hst. destruct (inv_stopped0 Hst) as (? & ? & ?). congruence.
Qed.

Lemma mail_run_inv evs s s' : mail_inv s -> mail_run evs s = Some s' -> mail_inv s'.
Proof.
  revert s. induction evs as [|e evs IH]; intros s Hinv Hr; simpl in Hr; [by injection Hr as <-|].
  destruct (mail_step_fn e s) as [s1|] eqn:Hs; [|done]. eapply IH; [|exact Hr]. by eapply mail_step_inv.
Qed.

(** C24: The mailer's queue neither loses, repeats nor reorders: in every state the
    goroutines can reach, the jobs sent so far, then the one being sent, then those
    in the channel (at most 64) are exactly the jobs queued, each once, in queue
    order; a caller that was answered got the outcome of its own messages, one
    entry each; a caller refused before queueing has nothing sent, and one that
    stopped waiting still has its job sent in its turn. *)
Theorem mail_jobs_fifo_once evs s :
  mail_run evs newMailer = Some s ->
  (length (q_jobs s) <= jobBufferSize)%nat /\ NoDup (q_queued s) /\
  q_queued s = map fst (q_delivered s) ++ option_list (q_running s) ++ q_jobs s /\
  forall id job c, q_calls s !! id = Some (job, c) ->
    match c with
    | Answered errs => (id, errs) ∈ q_delivered s /\ length errs = length (mj_messages job)
    | Queueing | Refused => id ∉ q_queued s
    | Waiting | Abandoned | Detached => id ∈ q_queued s
    end.
Proof.
  intros Hr. pose proof (mail_run_inv _ _ _ newMailer_inv Hr) as Hinv.
  split_and!; [apply Hinv..|]. intros id job c Hl. pose proof (inv_calls _ Hinv _ _ _ Hl) as Hc.
  destruct c; try exact Hc. split; [exact Hc|]. by eapply inv_lengths.
Qed.

(** ** Shutdown *)

Definition dispatcher_event (e : MailEvent) : Prop :=
  match e with ETake | EDeliver _ | EExit => True | _ => False end.

(** How many events the dispatcher still has before it. *)
Definition backlog (s : MailerState) : nat :=
  (2 * length (q_jobs s) + (if q_running s then 1 else 0) + (if q_stopped s then 0 else 1))%nat.

Lemma dispatcher_decreases e s s' :
  mail_inv s -> dispatcher_event e -> mail_step_fn e s = Some s' -> (backlog s' < backlog s)%nat.
Proof.
  intros Hinv He Hs. unfold mail_step_fn in Hs. destruct (q_panicked s); [done|]. unfold backlog. destruct e; try done.
  - destruct (q_stopped s) eqn:Hst; [done|]. unfold take_job in Hs. destruct (q_running s); [done|].
    destruct (q_jobs s); [done|]. injection Hs as <-. simpl. rewrite Hst. lia.
  - unfold deliver_job in Hs. destruct (q_running s); [|done]. destruct (q_calls s !! n) as [[job c]|]; [|done].
    destruct (_ =? _)%nat; [|done]. injection Hs as <-. simpl. lia.
  - destruct (q_running s), (q_jobs s); try done. destruct (q_closed s), (q_stopped s); try done.
    injection Hs as <-. simpl. lia.
Qed.

Lemma dispatcher_bounded evs s s' :
  mail_inv s -> Forall dispatcher_event evs -> mail_run evs s = Some s' -> (length evs <= backlog s)%nat.
Proof.
  revert s. induction evs as [|e evs IH]; intros s Hinv Hev Hr; simpl in *; [lia|].
  apply Forall_cons in Hev as [He Hev]. destruct (mail_step_fn e s) as [s1|] eqn:Hs; [|done].
  pose proof (dispatcher_decreases e s s1 Hinv He Hs). specialize (IH s1 (mail_step_inv _ _ _ Hinv Hs) Hev Hr). lia.
Qed.

Section Drain.
(** What SMTP answers for a job: one entry per message. *)
Variable outcome : mailJob -> list (option error).
Hypothesis outcome_length : forall job, length (outcome job) = length (mj_messages job).

(** A closed mailer that has not stopped has a dispatcher event before it. *)
Lemma dispatcher_progress s :
  mail_inv s -> q_panicked s = false -> q_closed s = true -> q_stopped s = false ->
  exists e s', dispatcher_event e /\ mail_step_fn e s = Some s' /\
    q_panicked s' = false /\ q_closed s' = true /\ q_queued s' = q_queued s.
Proof.
  intros Hinv Hp Hc Hst. unfold mail_step_fn. rewrite Hp. destruct (q_running s) as [id|] eqn:Hr.
  - assert (id ∈ q_queued s) as Hq by (rewrite (inv_fifo _ Hinv), Hr; set_solver).
    destruct (inv_known _ Hinv id Hq) as [[job c] Hl].
    exists (EDeliver (outcome job)). unfold deliver_job. rewrite Hr, Hl, outcome_length, Nat.eqb_refl. by eexists.
  - destruct (q_jobs s) as [|id jobs] eqn:Hj.
    + exists EExit. rewrite Hc, Hst. by eexists.
    + exists ETake. unfold take_job. rewrite Hst, Hr, Hj. by eexists.
Qed.

Lemma drain n s :
  (backlog s <= n)%nat -> mail_inv s -> q_panicked s = false -> q_closed s = true ->
  exists evs s', Forall dispatcher_event evs /\ mail_run evs s = Some s' /\ q_stopped s' = true /\
    q_queued s' = q_queued s.
Proof.
  revert s. induction n as [|n IH]; intros s Hn Hinv Hp Hc; (destruct (q_stopped s) eqn:Hst;
    [exists [], s; by split_and!|]).
  - unfold backlog in Hn. rewrite Hst in Hn. lia.
  - destruct (dispatcher_progress s Hinv Hp Hc Hst) as (e & s1 & He & Hs & Hp1 & Hc1 & Hq1).
    pose proof (dispatcher_decreases e s s1 Hinv He Hs).
    destruct (IH s1) as (evs & s2 & Hev & Hr & Hst2 & Hq2); [lia|by eapply mail_step_inv|done..|].
    exists (e :: evs), s2. split_and!; [by constructor| |done|congruence]. simpl. by rewrite Hs.
Qed.
End Drain.

(** C25: Shutdown sends what was queued: from every state the goroutines can reach after
    the channel was closed (and no caller sent on it since), the dispatcher, left
    alone, stops after at most two events per queued job and two more, whatever
    SMTP answers, and then every job ever queued has been sent, in order. *)
Theorem mailer_shutdown_drains (outcome : mailJob -> list (option error)) evs s :
  (forall job, length (outcome job) = length (mj_messages job)) ->
  mail_run evs newMailer = Some s -> q_closed s = true -> q_panicked s = false ->
  (exists evs' s', Forall dispatcher_event evs' /\ mail_run evs' s = Some s' /\ q_stopped s' = true /\
     map fst (q_delivered s') = q_queued s) /\
  (forall evs' s', Forall dispatcher_event evs' -> mail_run evs' s = Some s' ->
     (length evs' <= 2 * length (q_jobs s) + 2)%nat).
Proof.
  intros Hout Hr Hc Hp. pose proof (mail_run_inv _ _ _ newMailer_inv Hr) as Hinv. split.
  - destruct (drain outcome Hout (backlog s) s) as (evs' & s' & Hev & Hr' & Hst & Hq); [lia|done..|].
    exists evs', s'. split_and!; [done..|].
    pose proof (mail_run_inv _ _ _ Hinv Hr') as Hinv'. destruct (inv_stopped _ Hinv' Hst) as (_ & Hrun & Hj).
    pose proof (inv_fifo _ Hinv') as Hf. rewrite Hrun, Hj in Hf. simpl in Hf. rewrite app_nil_r in Hf. congruence.
  - intros evs' s' Hev Hr'. pose proof (dispatcher_bounded _ _ _ Hinv Hev Hr') as Hb. unfold backlog in Hb.
    destruct (q_running s), (q_stopped s); lia.
Qed.

(** ** Witnesses *)

Definition demo_msg (to : string) : Msg := {| msg_to := to; msg_subject := "New release"; msg_body := "body" |}.
Definition demo_job (tos : list string) : mailJob :=
  {| mj_kind := kindNotification; mj_messages := map demo_msg tos; mj_result := true |}.

(** Three callers: the first is answered, the second stops waiting, the third's
    job is still queued when the channel is closed. *)
Definition demo_events : list MailEvent :=
  [ECall 1 (demo_job ["ann"; "bob"]); ECall 2 (demo_job ["cyd"]); EQueue 2; EQueue 1; ETake; EAbandon 2;
   ECall 3 (demo_job ["dan"]); EDeliver [None]; ETake; EQueue 3; EDeliver [Some (ErrText "550"); None];
   EAnswer 1; EClose].

Lemma mail_jobs_fifo_once_witness :
  exists s, mail_run demo_events newMailer = Some s /\ q_queued s = [2%nat; 1%nat; 3%nat] /\
    q_queued s = map fst (q_delivered s) ++ option_list (q_running s) ++ q_jobs s /\ NoDup (q_queued s).
Proof.
  assert (exists s, mail_run demo_events newMailer = Some s /\ q_queued s = [2%nat; 1%nat; 3%nat]) as (s & Hr & Hq)
    by (vm_compute; eexists; split; reflexivity).
  destruct (mail_jobs_fifo_once demo_events s Hr) as (_ & Hn & Hf & _).
  exact (ex_intro _ s (conj Hr (conj Hq (conj Hf Hn)))).
Defined.

Lemma mailer_shutdown_drains_witness :
  exists s, mail_run demo_events newMailer = Some s /\
    exists evs' s', Forall dispatcher_event evs' /\ mail_run evs' s = Some s' /\ q_stopped s' = true /\
      map fst (q_delivered s') = [2%nat; 1%nat; 3%nat].
Proof.
  assert (exists s, mail_run demo_events newMailer = Some s /\ q_queued s = [2%nat; 1%nat; 3%nat] /\
    q_closed s = true /\ q_panicked s = false) as (s & Hr & Hq & Hc & Hp)
    by (vm_compute; eexists; split_and!; reflexivity).
  destruct (mailer_shutdown_drains (fun job => map (fun _ => None) (mj_messages job)) demo_events s
    (fun job => length_map _ _) Hr Hc Hp) as [(evs' & s' & Hd) _].
  rewrite Hq in Hd. exact (ex_intro _ s (conj Hr (ex_intro _ evs' (ex_intro _ s' Hd)))).
Defined.
