(* ===== verification/Notifier.v ===== *)
(** * The notifier service: [internal/notifier]

    The read model of subscribers, the stores of failed deliveries and of
    processed releases ([adapter/repository]), the use cases (read model,
    send-confirmation, notify-release, retry), the event consumer and the
    maintenance tick. *)

From S2P Require Import Prelude GoErrors Effects Wp Sql Json JsonFacts Events Broker Outbox Consumers Libs Subscription.
From S2P Require Import SubscriptionUse Mailer.

Open Scope string_scope.
Open Scope list_scope.
Open Scope Z_scope.

(** ** [domain] and the tables *)

Record Recipient := { rc_Email : string; rc_UnsubToken : string }.

Record FailedNotification := {
  fn_ID : Z; fn_SagaID : string; fn_RepoName : string; fn_Tag : string; fn_ReleaseURL : string;
  fn_Email : string; fn_Reason : string; fn_RetryCount : Z;
}.

Record FailedConfirmation := {
  fc_ID : Z; fc_SagaID : string; fc_Email : string; fc_RepoName : string; fc_ConfirmURL : string;
  fc_Reason : string; fc_RetryCount : Z;
}.

Global Instance Recipient_eq_dec : EqDecision Recipient.
Proof. solve_decision. Defined.
Global Instance FailedNotification_eq_dec : EqDecision FailedNotification.
Proof. solve_decision. Defined.
Global Instance FailedConfirmation_eq_dec : EqDecision FailedConfirmation.
Proof. solve_decision. Defined.

(** Rows of [subscriptions_read] and [processed_releases]. *)
Record ReadRow := { rr_email : string; rr_repo_name : string; rr_unsub_token : string }.
Record ProcessedRow := { pr_repo_name : string; pr_tag : string; pr_processed_at : Z }.

Global Instance ReadRow_eq_dec : EqDecision ReadRow.
Proof. solve_decision. Defined.
Global Instance ProcessedRow_eq_dec : EqDecision ProcessedRow.
Proof. solve_decision. Defined.

(** A failed row with its [failed_at]. *)
Record NotDB := {
  subscriptions_read : list ReadRow;
  failed_notifications : list (FailedNotification * Z);
  failed_confirmations : list (FailedConfirmation * Z);
  processed_releases : list ProcessedRow;
  not_outbox : list OutboxRow;
}.

Definition set_read (l : list ReadRow) (d : NotDB) : NotDB :=
  {| subscriptions_read := l; failed_notifications := failed_notifications d;
     failed_confirmations := failed_confirmations d; processed_releases := processed_releases d;
     not_outbox := not_outbox d |}.
Definition set_failed_notifications (l : list (FailedNotification * Z)) (d : NotDB) : NotDB :=
  {| subscriptions_read := subscriptions_read d; failed_notifications := l;
     failed_confirmations := failed_confirmations d; processed_releases := processed_releases d;
     not_outbox := not_outbox d |}.
Definition set_failed_confirmations (l : list (FailedConfirmation * Z)) (d : NotDB) : NotDB :=
  {| subscriptions_read := subscriptions_read d; failed_notifications := failed_notifications d;
     failed_confirmations := l; processed_releases := processed_releases d; not_outbox := not_outbox d |}.
Definition set_processed (l : list ProcessedRow) (d : NotDB) : NotDB :=
  {| subscriptions_read := subscriptions_read d; failed_notifications := failed_notifications d;
     failed_confirmations := failed_confirmations d; processed_releases := l; not_outbox := not_outbox d |}.

#[export] Instance NotDB_HasOutbox : HasOutbox NotDB.
Proof.
  refine {| outbox := not_outbox;
            set_outbox l d := {| subscriptions_read := subscriptions_read d;
                                 failed_notifications := failed_notifications d;
                                 failed_confirmations := failed_confirmations d;
                                 processed_releases := processed_releases d; not_outbox := l |} |};
    intros; by destruct d.
Defined.

Definition read_key (r : ReadRow) : string * string := (rr_email r, rr_repo_name r).
Definition fn_key (r : FailedNotification * Z) : string * string * string :=
  (fn_RepoName (fst r), fn_Tag (fst r), fn_Email (fst r)).
Definition fc_key (r : FailedConfirmation * Z) : string * string := (fc_Email (fst r), fc_RepoName (fst r)).
Definition pr_key (r : ProcessedRow) : string * string := (pr_repo_name r, pr_tag r).
Definition fn_id (r : FailedNotification * Z) : Z := fn_ID (fst r).
Definition fc_id (r : FailedConfirmation * Z) : Z := fc_ID (fst r).

Definition identity_exhausted (id : Z) : bool := bigint_max <? id.

(** ** [adapter/repository] *)

Section Repositories.
Context {E : Env} {P : PgxLib}.

(** *** subscriptions_read.go: always on the pool *)

Definition upsert_stmt (email repo tok : string) : Stmt NotDB unit := fun _ d =>
  let hit := key_is read_key (email, repo) in
  let row := {| rr_email := email; rr_repo_name := repo; rr_unsub_token := tok |} in
  inr (tt, if exists_where hit (subscriptions_read d)
           then set_read (update_where hit (fun _ => row) (subscriptions_read d)) d
           else set_read (insert_row row (subscriptions_read d)) d).

Definition Read_Upsert (email repo tok : string) : M NotDB unit :=
  wrapping "upsert subscriptions_read" (run QPool None (upsert_stmt email repo tok)).

Definition read_delete_stmt (email repo : string) : Stmt NotDB unit := fun _ d =>
  inr (tt, set_read (delete_where (key_is read_key (email, repo)) (subscriptions_read d)) d).

Definition Read_Delete (email repo : string) : M NotDB unit :=
  wrapping "delete subscriptions_read" (run QPool None (read_delete_stmt email repo)).

Definition to_recipient (r : ReadRow) : Recipient :=
  {| rc_Email := rr_email r; rc_UnsubToken := rr_unsub_token r |}.

Definition recipientRow_tags : list string := ["email"; "unsub_token"].

Definition recipients_stmt (p : ReadRow -> bool) : Stmt NotDB (list Recipient) := fun _ d =>
  inr (map to_recipient (select_where p (subscriptions_read d)), d).

Definition RecipientsByRepo (repo : string) : M NotDB (list Recipient) :=
  rows ← wrapping "query recipients" (run QPool None (recipients_stmt (key_is rr_repo_name repo)));
  wrapping "collect recipients" (lift_res (CollectRows ["email"; "unsub_token"] recipientRow_tags rows)).

Definition Recipient_ (email repo : string) : M NotDB Recipient :=
  rows ← wrapping "query recipient" (run QPool None (recipients_stmt (key_is read_key (email, repo))));
  match CollectExactlyOneRow ["email"; "unsub_token"] recipientRow_tags rows with
  | Ok r => mret r
  | Err e => if errors_Is e pgx_ErrNoRows then fail (Sentinel ErrNotFound)
             else fail (Errorf "collect recipient" e)
  end.

(** *** failed_notifications.go *)

(** INSERT ... ON CONFLICT (repo_name, tag, email) DO NOTHING *)
Definition add_fn_stmt (fn : FailedNotification) : Stmt NotDB unit := fun sc d =>
  let row := ({| fn_ID := sc_nextval sc; fn_SagaID := fn_SagaID fn; fn_RepoName := fn_RepoName fn;
                 fn_Tag := fn_Tag fn; fn_ReleaseURL := fn_ReleaseURL fn; fn_Email := fn_Email fn;
                 fn_Reason := fn_Reason fn; fn_RetryCount := 0 |}, sc_now sc) in
  if identity_exhausted (sc_nextval sc) then inl "nextval: reached maximum value of sequence"
  else if exists_where (key_is fn_key (fn_key row)) (failed_notifications d) then inr (tt, d)
  else if exists_where (key_is fn_id (sc_nextval sc)) (failed_notifications d) then inl "duplicate key value"
  else inr (tt, set_failed_notifications (insert_row row (failed_notifications d)) d).

Definition FN_Add (ctx : Ctx) (fn : FailedNotification) : M NotDB unit :=
  wrapping "add failed_notifications"
    (run (FromContext ctx) (Some "failed_notifications") (add_fn_stmt fn)).

Definition failedNotificationRow_tags : list string :=
  ["id"; "saga_id"; "repo_name"; "tag"; "release_url"; "email"; "reason"; "retry_count"].

(** WHERE retry_count < $1 ORDER BY failed_at *)
Definition list_fn_stmt (maxRetries : Z) : Stmt NotDB (list FailedNotification) := fun _ d =>
  inr (map fst (order_by snd (select_where (fun r => fn_RetryCount (fst r) <? maxRetries)
                                (failed_notifications d))), d).

Definition FN_ListRetryable (maxRetries : Z) : M NotDB (list FailedNotification) :=
  rows ← wrapping "query failed_notifications" (run QPool None (list_fn_stmt maxRetries));
  wrapping "collect failed_notifications"
    (lift_res (CollectRows ["id"; "saga_id"; "repo_name"; "tag"; "release_url"; "email"; "reason"; "retry_count"]
                 failedNotificationRow_tags rows)).

Definition bump_fn (r : FailedNotification * Z) : FailedNotification * Z :=
  let f := fst r in
  ({| fn_ID := fn_ID f; fn_SagaID := fn_SagaID f; fn_RepoName := fn_RepoName f; fn_Tag := fn_Tag f;
      fn_ReleaseURL := fn_ReleaseURL f; fn_Email := fn_Email f; fn_Reason := fn_Reason f;
      fn_RetryCount := fn_RetryCount f + 1 |}, snd r).

(** UPDATE ... SET retry_count = retry_count + 1 WHERE id = $1 on an INT column *)
Definition increment_fn_stmt (id : Z) : Stmt NotDB unit := fun _ d =>
  if exists_where (fun r => key_is fn_id id r && (int32_max <=? fn_RetryCount (fst r))) (failed_notifications d)
  then inl "integer out of range"
  else inr (tt, set_failed_notifications (update_where (key_is fn_id id) bump_fn (failed_notifications d)) d).

Definition FN_IncrementRetry (id : Z) : M NotDB unit :=
  wrapping "increment failed_notifications retry" (run QPool None (increment_fn_stmt id)).

Definition delete_fn_stmt (id : Z) : Stmt NotDB unit := fun _ d =>
  inr (tt, set_failed_notifications (delete_where (key_is fn_id id) (failed_notifications d)) d).

Definition FN_Delete (ctx : Ctx) (id : Z) : M NotDB unit :=
  wrapping "delete failed_notifications" (run (FromContext ctx) None (delete_fn_stmt id)).

(** *** failed_confirmations.go *)

(** INSERT ... ON CONFLICT (email, repo_name) DO NOTHING *)
Definition add_fc_stmt (fc : FailedConfirmation) : Stmt NotDB unit := fun sc d =>
  let row := ({| fc_ID := sc_nextval sc; fc_SagaID := fc_SagaID fc; fc_Email := fc_Email fc;
                 fc_RepoName := fc_RepoName fc; fc_ConfirmURL := fc_ConfirmURL fc;
                 fc_Reason := fc_Reason fc; fc_RetryCount := 0 |}, sc_now sc) in
  if identity_exhausted (sc_nextval sc) then inl "nextval: reached maximum value of sequence"
  else if exists_where (key_is fc_key (fc_key row)) (failed_confirmations d) then inr (tt, d)
  else if exists_where (key_is fc_id (sc_nextval sc)) (failed_confirmations d) then inl "duplicate key value"
  else inr (tt, set_failed_confirmations (insert_row row (failed_confirmations d)) d).

Definition FC_Add (ctx : Ctx) (fc : FailedConfirmation) : M NotDB unit :=
  wrapping "add failed_confirmations"
    (run (FromContext ctx) (Some "failed_confirmations") (add_fc_stmt fc)).

Definition failedConfirmationRow_tags : list string :=
  ["id"; "saga_id"; "email"; "repo_name"; "confirm_url"; "reason"; "retry_count"].

Definition list_fc_stmt (p : FailedConfirmation * Z -> bool) : Stmt NotDB (list FailedConfirmation) := fun _ d =>
  inr (map fst (order_by snd (select_where p (failed_confirmations d))), d).

Definition collect_fc (pre : string) (rows : list FailedConfirmation) : M NotDB (list FailedConfirmation) :=
  wrapping pre (lift_res (CollectRows ["id"; "saga_id"; "email"; "repo_name"; "confirm_url"; "reason"; "retry_count"]
                            failedConfirmationRow_tags rows)).

(** WHERE retry_count < $1 AND failed_at > $2 ORDER BY failed_at *)
Definition FC_ListRetryable (maxRetries notBefore : Z) : M NotDB (list FailedConfirmation) :=
  rows ← wrapping "query failed_confirmations" (run QPool None (list_fc_stmt (fun r =>
           (fc_RetryCount (fst r) <? maxRetries) && (pg_time notBefore <? snd r))));
  collect_fc "collect failed_confirmations" rows.

(** WHERE failed_at <= $1 ORDER BY failed_at *)
Definition FC_ListExpired (cutoff : Z) : M NotDB (list FailedConfirmation) :=
  rows ← wrapping "query expired failed_confirmations" (run QPool None (list_fc_stmt (fun r =>
           snd r <=? pg_time cutoff)));
  collect_fc "collect expired failed_confirmations" rows.

Definition bump_fc (r : FailedConfirmation * Z) : FailedConfirmation * Z :=
  let f := fst r in
  ({| fc_ID := fc_ID f; fc_SagaID := fc_SagaID f; fc_Email := fc_Email f; fc_RepoName := fc_RepoName f;
      fc_ConfirmURL := fc_ConfirmURL f; fc_Reason := fc_Reason f; fc_RetryCount := fc_RetryCount f + 1 |}, snd r).

Definition increment_fc_stmt (id : Z) : Stmt NotDB unit := fun _ d =>
  if exists_where (fun r => key_is fc_id id r && (int32_max <=? fc_RetryCount (fst r))) (failed_confirmations d)
  then inl "integer out of range"
  else inr (tt, set_failed_confirmations (update_where (key_is fc_id id) bump_fc (failed_confirmations d)) d).

Definition FC_IncrementRetry (id : Z) : M NotDB unit :=
  wrapping "increment failed_confirmations retry" (run QPool None (increment_fc_stmt id)).

Definition delete_fc_stmt (id : Z) : Stmt NotDB unit := fun _ d =>
  inr (tt, set_failed_confirmations (delete_where (key_is fc_id id) (failed_confirmations d)) d).

Definition FC_Delete (ctx : Ctx) (id : Z) : M NotDB unit :=
  wrapping "delete failed_confirmations" (run (FromContext ctx) None (delete_fc_stmt id)).

(** *** processed_releases.go *)

Definition exists_stmt (repo tag : string) : Stmt NotDB bool := fun _ d =>
  inr (exists_where (key_is pr_key (repo, tag)) (processed_releases d), d).

Definition Exists (repo tag : string) : M NotDB bool :=
  wrapping "check processed_releases" (run QPool None (exists_stmt repo tag)).

Definition mark_stmt (repo tag : string) : Stmt NotDB unit := fun sc d =>
  inr (tt, if exists_where (key_is pr_key (repo, tag)) (processed_releases d) then d
           else set_processed (insert_row {| pr_repo_name := repo; pr_tag := tag; pr_processed_at := sc_now sc |}
                                 (processed_releases d)) d).

Definition Mark (ctx : Ctx) (repo tag : string) : M NotDB unit :=
  wrapping "mark processed_releases" (run (FromContext ctx) None (mark_stmt repo tag)).

Definition prune_stmt (cutoff : Z) : Stmt NotDB Z := fun _ d =>
  let p r := pr_processed_at r <? pg_time cutoff in
  inr (rows_matching p (processed_releases d), set_processed (delete_where p (processed_releases d)) d).

Definition DeleteProcessedBefore (cutoff : Z) : M NotDB Z :=
  wrapping "delete old processed_releases" (run QPool None (prune_stmt cutoff)).
End Repositories.

(** ** [adapter/eventpublisher] and the use cases *)

Section UseCases.
Context {E : Env} {V : Validators} {P : PgxLib} {RS : ReleaseSender NotDB} {CS : ConfirmationSender NotDB}.
Variable baseURL : string.

Definition pub_ConfirmationSent (ctx : Ctx) (ev : NotificationConfirmationSent) : M NotDB unit :=
  enqueue ctx SubjectNotificationConfirmationSent ev.
Definition pub_ConfirmationFailed (ctx : Ctx) (ev : NotificationConfirmationFailed) : M NotDB unit :=
  enqueue ctx SubjectNotificationConfirmationFailed ev.
Definition pub_ConfirmationDead (ctx : Ctx) (ev : NotificationConfirmationDead) : M NotDB unit :=
  enqueue ctx SubjectNotificationConfirmationDead ev.
Definition pub_ReleaseSent (ctx : Ctx) (ev : NotificationReleaseSent) : M NotDB unit :=
  enqueue ctx SubjectNotificationReleaseSent ev.
Definition pub_ReleaseFailed (ctx : Ctx) (ev : NotificationReleaseFailed) : M NotDB unit :=
  enqueue ctx SubjectNotificationReleaseFailed ev.
Definition pub_ReleaseDead (ctx : Ctx) (ev : NotificationReleaseDead) : M NotDB unit :=
  enqueue ctx SubjectNotificationReleaseDead ev.
Definition pub_ReleaseNotified (ctx : Ctx) (ev : ReleaseNotified) : M NotDB unit :=
  enqueue ctx SubjectReleaseNotified ev.

(** *** usecase/readmodel *)

Definition Projector_Confirmed (ev : SubscriptionConfirmed) : M NotDB unit :=
  wrapping "project subscription confirmed" (Read_Upsert (sc_Email ev) (sc_RepoName ev) (sc_UnsubToken ev)).
Definition Projector_Removed (ev : SubscriptionRemoved) : M NotDB unit :=
  wrapping "project subscription removed" (Read_Delete (sr_Email ev) (sr_RepoName ev)).

(** *** usecase/sendconfirmation *)

Definition SendConfirmation_Execute (ctx : Ctx) (sagaID email repo confirmURL : string) : M NotDB unit :=
  r ← attempt (snd_Confirmation ctx email repo confirmURL);
  match r with
  | Err e =>
      _ ← wrapping "record confirmation failure" (Within ctx (fun txCtx =>
            _ ← FC_Add txCtx {| fc_ID := 0; fc_SagaID := sagaID; fc_Email := email; fc_RepoName := repo;
                                fc_ConfirmURL := confirmURL; fc_Reason := Error e; fc_RetryCount := 0 |};
            pub_ConfirmationFailed txCtx
              {| ncf_SagaID := sagaID; ncf_Email := email; ncf_Reason := Error e |}));
      Notify
  | Ok _ =>
      _ ← wrapping "publish confirmation sent" (Within ctx (fun txCtx =>
            pub_ConfirmationSent txCtx {| ncs_SagaID := sagaID; ncs_Email := email |}));
      Notify
  end.

(** *** usecase/notifyrelease *)

Record ReleaseInput := {
  ri_SagaID : string; ri_RepoName : string; ri_Tag : string; ri_ReleaseURL : string;
}.

Definition failureReason : string := "release email delivery failed".

Definition to_notification (inp : ReleaseInput) (r : Recipient) : ReleaseNotification :=
  {| nt_To := rc_Email r; nt_Repo := ri_RepoName inp; nt_Tag := ri_Tag inp;
     nt_ReleaseURL := ri_ReleaseURL inp; nt_UnsubscribeURL := UnsubscribeURL baseURL (rc_UnsubToken r) |}.

Definition deliver (ctx : Ctx) (inp : ReleaseInput) (recipients : list Recipient) : M NotDB BatchResult :=
  if bool_decide (recipients = []) then mret {| br_Sent := 0; br_Failed := [] |}
  else snd_Release ctx (map (to_notification inp) recipients).

Definition failed_notification (inp : ReleaseInput) (email : string) : FailedNotification :=
  {| fn_ID := 0; fn_SagaID := ri_SagaID inp; fn_RepoName := ri_RepoName inp; fn_Tag := ri_Tag inp;
     fn_ReleaseURL := ri_ReleaseURL inp; fn_Email := email; fn_Reason := failureReason; fn_RetryCount := 0 |}.

(** The body of [recordOutcomes]'s loop; [failed] is the set built from
    [result.Failed]. *)
Definition recordOutcome (ctx : Ctx) (inp : ReleaseInput) (failed : gset string) (r : Recipient) : M NotDB unit :=
  if bool_decide (rc_Email r ∈ failed) then
    _ ← FN_Add ctx (failed_notification inp (rc_Email r));
    pub_ReleaseFailed ctx {| nrf_SagaID := ri_SagaID inp; nrf_RepoName := ri_RepoName inp; nrf_Tag := ri_Tag inp;
                             nrf_Email := rc_Email r; nrf_Reason := failureReason |}
  else
    pub_ReleaseSent ctx {| nrs_SagaID := ri_SagaID inp; nrs_RepoName := ri_RepoName inp; nrs_Tag := ri_Tag inp;
                           nrs_Email := rc_Email r |}.

Definition recordOutcomes (ctx : Ctx) (inp : ReleaseInput) (recipients : list Recipient) (result : BatchResult)
    : M NotDB unit :=
  for_each recipients (recordOutcome ctx inp (list_to_set (br_Failed result))).

Definition NotifyRelease_Execute (ctx : Ctx) (inp : ReleaseInput) : M NotDB BatchResult :=
  processed ← wrapping "check processed release" (Exists (ri_RepoName inp) (ri_Tag inp));
  if processed : bool then mret {| br_Sent := 0; br_Failed := [] |} else
  recipients ← wrapping "resolve recipients" (RecipientsByRepo (ri_RepoName inp));
  result ← deliver ctx inp recipients;
  _ ← wrapping "commit release outcome" (Within ctx (fun txCtx =>
        _ ← recordOutcomes txCtx inp recipients result;
        _ ← pub_ReleaseNotified txCtx
              {| rn_SagaID := ri_SagaID inp; rn_RepoName := ri_RepoName inp; rn_Tag := ri_Tag inp;
                 rn_SentCount := br_Sent result; rn_FailedEmails := br_Failed result |};
        Mark txCtx (ri_RepoName inp) (ri_Tag inp)));
  _ ← Notify;
  mret result.

(** *** usecase/retry *)

Record RetryConfig := { rt_MaxRetries : Z; rt_ConfirmationTTL : Z }.
Variable cfg : RetryConfig.

Definition releaseDeadReason : string := "release email delivery failed after max retries".
Definition confirmationDeadReason : string := "confirmation email delivery failed after max retries".
Definition confirmationExpiredReason : string := "confirmation link expired before delivery".

(** A failed transaction is only logged. *)
Definition deleteAndPublish (ctx : Ctx) (fn : Ctx -> M NotDB unit) : M NotDB unit :=
  r ← attempt (Within ctx fn);
  match r with Err _ => mret tt | Ok _ => Notify end.

Definition retryRelease (ctx : Ctx) (fn : FailedNotification) : M NotDB unit :=
  rec ← attempt (Recipient_ (fn_Email fn) (fn_RepoName fn));
  match rec with
  | Err e => if errors_Is e ErrNotFound then logged (FN_Delete ctx (fn_ID fn)) else mret tt
  | Ok rec =>
      result ← snd_Release ctx
        [{| nt_To := fn_Email fn; nt_Repo := fn_RepoName fn; nt_Tag := fn_Tag fn;
            nt_ReleaseURL := fn_ReleaseURL fn; nt_UnsubscribeURL := UnsubscribeURL baseURL (rc_UnsubToken rec) |}];
      if 0 <? br_Sent result then
        deleteAndPublish ctx (fun txCtx =>
          _ ← FN_Delete txCtx (fn_ID fn);
          pub_ReleaseSent txCtx {| nrs_SagaID := fn_SagaID fn; nrs_RepoName := fn_RepoName fn;
                                   nrs_Tag := fn_Tag fn; nrs_Email := fn_Email fn |})
      else if rt_MaxRetries cfg <=? wrap64 (fn_RetryCount fn + 1) then
        deleteAndPublish ctx (fun txCtx =>
          _ ← FN_Delete txCtx (fn_ID fn);
          pub_ReleaseDead txCtx {| nrd_SagaID := fn_SagaID fn; nrd_RepoName := fn_RepoName fn;
                                   nrd_Tag := fn_Tag fn; nrd_Email := fn_Email fn; nrd_Reason := releaseDeadReason |})
      else logged (FN_IncrementRetry (fn_ID fn))
  end.

Definition Retrier_Releases (ctx : Ctx) : M NotDB unit :=
  rows ← wrapping "list retryable notifications" (FN_ListRetryable (rt_MaxRetries cfg));
  for_each rows (retryRelease ctx).

Definition deadLetterConfirmation (ctx : Ctx) (reason : string) (fc : FailedConfirmation) : M NotDB unit :=
  deleteAndPublish ctx (fun txCtx =>
    _ ← FC_Delete txCtx (fc_ID fc);
    pub_ConfirmationDead txCtx {| ncd_SagaID := fc_SagaID fc; ncd_Email := fc_Email fc; ncd_Reason := reason |}).

Definition retryConfirmation (ctx : Ctx) (fc : FailedConfirmation) : M NotDB unit :=
  r ← attempt (snd_Confirmation ctx (fc_Email fc) (fc_RepoName fc) (fc_ConfirmURL fc));
  match r with
  | Err _ =>
      if rt_MaxRetries cfg <=? wrap64 (fc_RetryCount fc + 1)
      then deadLetterConfirmation ctx confirmationDeadReason fc
      else logged (FC_IncrementRetry (fc_ID fc))
  | Ok _ =>
      deleteAndPublish ctx (fun txCtx =>
        _ ← FC_Delete txCtx (fc_ID fc);
        pub_ConfirmationSent txCtx {| ncs_SagaID := fc_SagaID fc; ncs_Email := fc_Email fc |})
  end.

Definition Retrier_Confirmations (ctx : Ctx) : M NotDB unit :=
  now ← time_Now;
  let cutoff := now - rt_ConfirmationTTL cfg in
  expired ← wrapping "list expired confirmations" (FC_ListExpired cutoff);
  _ ← for_each expired (deadLetterConfirmation ctx confirmationExpiredReason);
  rows ← wrapping "list retryable confirmations" (FC_ListRetryable (rt_MaxRetries cfg) cutoff);
  for_each rows (retryConfirmation ctx).

(** *** bootstrap/notifier/maintenance.go *)

Definition maintenanceTick (processedTTL : Z) (ctx : Ctx) : M NotDB unit :=
  _ ← logged (Retrier_Releases ctx);
  _ ← logged (Retrier_Confirmations ctx);
  now ← time_Now;
  logged (DeleteProcessedBefore (now - processedTTL)).

Definition runMaintenance (processedTTL : Z) (signals : list TickerSignal) (ctx : Ctx) : M NotDB unit :=
  ticker_loop (maintenanceTick processedTTL ctx) signals.

(** *** adapter/eventconsumer *)

Definition Notifier_HandlePending : Handler NotDB := fun ctx data =>
  decoded data (fun ev : SubscriptionPending =>
    SendConfirmation_Execute (WithSagaID ctx (sp_SagaID ev)) (sp_SagaID ev) (sp_Email ev) (sp_RepoName ev)
      (sp_ConfirmURL ev)).
Definition Notifier_HandleConfirmed : Handler NotDB := fun ctx data =>
  decoded data (fun ev : SubscriptionConfirmed => Projector_Confirmed ev).
Definition Notifier_HandleRemoved : Handler NotDB := fun ctx data =>
  decoded data (fun ev : SubscriptionRemoved => Projector_Removed ev).
Definition Notifier_HandleReleaseDetected : Handler NotDB := fun ctx data =>
  decoded data (fun ev : ReleaseDetected =>
    _ ← NotifyRelease_Execute (WithSagaID ctx (rd_SagaID ev))
          {| ri_SagaID := rd_SagaID ev; ri_RepoName := rd_RepoName ev; ri_Tag := rd_Tag ev;
             ri_ReleaseURL := rd_ReleaseURL ev |};
    mret tt).

Definition notifier_startConsumers : list (ConsumerSpec NotDB) :=
  [{| cs_Stream := StreamSubscriptions; cs_Durable := "notifier-subscription-pending";
      cs_Subject := SubjectSubscriptionPending; cs_Handler := Notifier_HandlePending |};
   {| cs_Stream := StreamSubscriptions; cs_Durable := "notifier-subscription-confirmed";
      cs_Subject := SubjectSubscriptionConfirmed; cs_Handler := Notifier_HandleConfirmed |};
   {| cs_Stream := StreamSubscriptions; cs_Durable := "notifier-subscription-removed";
      cs_Subject := SubjectSubscriptionRemoved; cs_Handler := Notifier_HandleRemoved |};
   {| cs_Stream := StreamReleases; cs_Durable := "notifier-release-detected";
      cs_Subject := SubjectReleaseDetected; cs_Handler := Notifier_HandleReleaseDetected |}].
End UseCases.
