(* ===== verification/NotifierFacts.v ===== *)
(** * What the notifier guarantees

    The tables' invariant and its preservation, the read model as a map, the
    all-or-nothing record of a release's deliveries, the outcome of a
    confirmation and the fate of every failed delivery under the retrier.
    Everything is proved against the senders' interfaces of [Mailer]. *)

From S2P Require Import Prelude GoErrors Effects Wp Sql Json JsonFacts Events Broker Outbox Consumers Libs Subscription.
From S2P Require Import SubscriptionUse Mailer Notifier Quiet Concrete.

Open Scope string_scope.
Open Scope list_scope.
Open Scope Z_scope.

(** ** The tables' invariant: keys, identities and the INT columns *)

Definition count_ok (n : Z) : Prop := 0 <= n <= int32_max.

Record not_inv (d : NotDB) : Prop := {
  inv_read : unique_on read_key (subscriptions_read d);
  inv_fn : unique_on fn_id (failed_notifications d);
  inv_fn_key : unique_on fn_key (failed_notifications d);
  inv_fn_count : Forall (fun r => count_ok (fn_RetryCount (fst r))) (failed_notifications d);
  inv_fc : unique_on fc_id (failed_confirmations d);
  inv_fc_key : unique_on fc_key (failed_confirmations d);
  inv_fc_count : Forall (fun r => count_ok (fc_RetryCount (fst r))) (failed_confirmations d);
  inv_processed : unique_on pr_key (processed_releases d);
  inv_outbox : unique_on om_id (not_outbox d);
}.

Lemma unique_on_snoc {R K} `{EqDecision K} (key : R -> K) t r :
  unique_on key t -> exists_where (key_is key (key r)) t = false -> unique_on key (t ++ [r]).
Proof. apply unique_on_insert. Qed.

Lemma Forall_delete_where {R} (P : R -> Prop) p t : Forall P t -> Forall P (delete_where p t).
Proof. rewrite !Forall_forall. intros Hall r [Hr _]%elem_of_delete. auto. Qed.

Section Statements.
Context {V : Validators}.
Implicit Types d : NotDB.

Lemma enqueued_inv {T} `{Event T} subject (ev : T) d d' : enqueued subject ev d d' -> not_inv d -> not_inv d'.
Proof. intros (_ & id & at_ & Hf & ->) []. split; simpl; try done. by apply unique_on_snoc. Qed.

Lemma upsert_inv email repo tok sc d d' : upsert_stmt email repo tok sc d = inr (tt, d') -> not_inv d -> not_inv d'.
Proof.
  unfold upsert_stmt. intros [= <-] []. destruct (exists_where _ _) eqn:Hex; split; simpl; try done.
  - by apply (unique_on_rekey read_key read_key _ (email, repo) (email, repo));
      [|done..|apply exists_where_false; intros r _; unfold key_is; destruct (bool_decide _)].
  - by apply unique_on_insert.
Qed.

Lemma read_delete_inv email repo sc d d' : read_delete_stmt email repo sc d = inr (tt, d') -> not_inv d -> not_inv d'.
Proof. unfold read_delete_stmt. intros [= <-] []. split; simpl; try done. by apply unique_on_delete. Qed.

Lemma add_fn_inv fn sc d d' : add_fn_stmt fn sc d = inr (tt, d') -> not_inv d -> not_inv d'.
Proof.
  unfold add_fn_stmt. cbv zeta. destruct (identity_exhausted _); [done|].
  destruct (exists_where _ _) eqn:Hk; [by intros [= <-]|].
  destruct (exists_where (key_is fn_id _) _) eqn:Hid; [done|]. intros [= <-] [].
  split; simpl; try done; [by apply unique_on_insert..|].
  apply Forall_app. split; [done|]. by repeat constructor.
Qed.

Lemma add_fc_inv fc sc d d' : add_fc_stmt fc sc d = inr (tt, d') -> not_inv d -> not_inv d'.
Proof.
  unfold add_fc_stmt. cbv zeta. destruct (identity_exhausted _); [done|].
  destruct (exists_where _ _) eqn:Hk; [by intros [= <-]|].
  destruct (exists_where (key_is fc_id _) _) eqn:Hid; [done|]. intros [= <-] [].
  split; simpl; try done; [by apply unique_on_insert..|].
  apply Forall_app. split; [done|]. by repeat constructor.
Qed.

(** Adding a failed row keeps the others, adds at most the one asked for, and
    afterwards the key is present. *)
Lemma add_fc_spec fc sc d d' :
  add_fc_stmt fc sc d = inr (tt, d') ->
  exists new, d' = set_failed_confirmations (failed_confirmations d ++ new) d /\
    Forall (fun r => fc_key r = (fc_Email fc, fc_RepoName fc) /\ fc_SagaID (fst r) = fc_SagaID fc /\
                     fc_ConfirmURL (fst r) = fc_ConfirmURL fc /\ fc_RetryCount (fst r) = 0) new /\
    (exists r, r ∈ failed_confirmations d ++ new /\ fc_key r = (fc_Email fc, fc_RepoName fc)).
Proof.
  unfold add_fc_stmt. cbv zeta. destruct (identity_exhausted _); [done|].
  destruct (exists_where _ _) eqn:Hk.
  - intros [= <-]. exists []. rewrite app_nil_r. split_and!; [by destruct d|constructor|].
    apply exists_where_true in Hk as (r & Hr & Hk%bool_decide_eq_true). eauto.
  - destruct (exists_where (key_is fc_id _) _) eqn:Hid; [done|]. intros [= <-].
    eexists [_]. split_and!; [done|by repeat constructor|]. eexists.
    split; [apply elem_of_app; right; by apply list_elem_of_singleton|done].
Qed.

Lemma add_fn_spec fn sc d d' :
  add_fn_stmt fn sc d = inr (tt, d') ->
  exists new, d' = set_failed_notifications (failed_notifications d ++ new) d /\
    Forall (fun r => fn_key r = (fn_RepoName fn, fn_Tag fn, fn_Email fn) /\ fn_SagaID (fst r) = fn_SagaID fn /\
                     fn_ReleaseURL (fst r) = fn_ReleaseURL fn /\ fn_RetryCount (fst r) = 0) new /\
    (exists r, r ∈ failed_notifications d ++ new /\ fn_key r = (fn_RepoName fn, fn_Tag fn, fn_Email fn)).
Proof.
  unfold add_fn_stmt. cbv zeta. destruct (identity_exhausted _); [done|].
  destruct (exists_where _ _) eqn:Hk.
  - intros [= <-]. exists []. rewrite app_nil_r. split_and!; [by destruct d|constructor|].
    apply exists_where_true in Hk as (r & Hr & Hk%bool_decide_eq_true). eauto.
  - destruct (exists_where (key_is fn_id _) _) eqn:Hid; [done|]. intros [= <-].
    eexists [_]. split_and!; [done|by repeat constructor|]. eexists.
    split; [apply elem_of_app; right; by apply list_elem_of_singleton|done].
Qed.

Lemma mark_inv repo tag sc d d' : mark_stmt repo tag sc d = inr (tt, d') -> not_inv d -> not_inv d'.
Proof.
  unfold mark_stmt. intros [= <-] Hinv. destruct (exists_where _ _) eqn:Hex; [done|].
  destruct Hinv. split; simpl; try done. by apply unique_on_insert.
Qed.
End Statements.

(** ** The read model is a map *)

Notation ReadMap := (gmap (string * string) string).

(** Confirmed subscribers: (e-mail, repository) to unsubscribe token. *)
Definition abs_read (d : NotDB) : ReadMap := table_map read_key rr_unsub_token (subscriptions_read d).

Lemma upsert_abs email repo tok sc d d' :
  upsert_stmt email repo tok sc d = inr (tt, d') -> not_inv d ->
  abs_read d' = <[(email, repo) := tok]> (abs_read d).
Proof.
  unfold upsert_stmt, abs_read. intros [= <-] Hinv. destruct (exists_where _ _) eqn:Hex; simpl.
  - apply (table_map_set read_key rr_unsub_token); [done..|apply Hinv|done].
  - by apply (table_map_insert read_key rr_unsub_token
      {| rr_email := email; rr_repo_name := repo; rr_unsub_token := tok |}).
Qed.

Lemma read_delete_abs email repo sc d d' :
  read_delete_stmt email repo sc d = inr (tt, d') -> abs_read d' = delete (email, repo) (abs_read d).
Proof. unfold read_delete_stmt, abs_read. intros [= <-]. simpl. apply table_map_delete. Qed.

(** What the messages of a subject do to the read model. *)
Definition read_spec `{Validators} (subject data : string) (m : ReadMap) : ReadMap :=
  if String.eqb subject SubjectSubscriptionConfirmed then
    match Unmarshal (T := SubscriptionConfirmed) data with
    | Ok ev => <[(sc_Email ev, sc_RepoName ev) := sc_UnsubToken ev]> m | Err _ => m end
  else if String.eqb subject SubjectSubscriptionRemoved then
    match Unmarshal (T := SubscriptionRemoved) data with
    | Ok ev => delete (sr_Email ev, sr_RepoName ev) m | Err _ => m end
  else m.

(** ** The use cases *)

Section UseCaseFacts.
Context {E : Env} {V : Validators} {P : PgxLib} {RS : ReleaseSender NotDB} {CS : ConfirmationSender NotDB}.
Variable baseURL : string.
Implicit Types (w : World NotDB) (d : NotDB).

(** A delivery attempt followed by database work: what was mailed. *)
Lemma mail_step_quiet w1 w2 w3 l :
  mail_step w1 w2 l -> quiet_step w2 w3 -> w_trace w3 = w_trace w1 ++ l.
Proof. intros (_ & _ & _ & _ & _ & Ht & _) [Ht' _]. congruence. Qed.

(** *** Confirmations *)

Definition fc_of (sagaID email repo url reason : string) : FailedConfirmation :=
  {| fc_ID := 0; fc_SagaID := sagaID; fc_Email := email; fc_RepoName := repo; fc_ConfirmURL := url;
     fc_Reason := reason; fc_RetryCount := 0 |}.

Definition confirmation_failed (sagaID email repo url reason : string) d d' : Prop :=
  exists sc d1, add_fc_stmt (fc_of sagaID email repo url reason) sc d = inr (tt, d1) /\
    enqueued SubjectNotificationConfirmationFailed
      {| ncf_SagaID := sagaID; ncf_Email := email; ncf_Reason := reason |} d1 d'.

(** What an attempt [l] to confirm leaves in the database. *)
Definition confirmation_recorded (sagaID email repo url : string) (l : list Ext) d d' : Prop :=
  (accepted_mail l email /\
   enqueued SubjectNotificationConfirmationSent {| ncs_SagaID := sagaID; ncs_Email := email |} d d') \/
  (exists reason, reason <> "" /\ confirmation_failed sagaID email repo url reason d d').

Lemma SendConfirmation_outcome ctx sagaID email repo url w :
  txFromContext ctx = false -> w_tx w = None ->
  wp (SendConfirmation_Execute ctx sagaID email repo url) (fun r w' =>
    w_tx w' = None /\ exists l, w_trace w' = w_trace w ++ l /\
      ((w_db w' = w_db w /\ is_ok r = false) \/
       confirmation_recorded sagaID email repo url l (w_db w) (w_db w')) /\
      (is_ok r = true -> w_nudge w' = true)) w.
Proof.
  intros Hctx Htx. unfold SendConfirmation_Execute. wp_steps.
  eapply wp_mono; [|apply snd_Confirmation_spec]. intros r w1 (l & Hmail & Hr).
  pose proof Hmail as (Hdb1 & Htx1 & _). rewrite Htx in Htx1.
  destruct r as [[]|e]; wp_steps.
  - eapply wp_Within_does; [done..|by apply enqueue_does| |].
    + intros e w2 Hq Htx2 Hdb2. simpl. split; [done|]. exists l.
      split_and!; [by eapply mail_step_quiet|left; split; [congruence|done]|done].
    + intros [] w2 Hq Htx2 HR. rewrite Hdb1 in HR.
      assert (w_trace w2 = w_trace w ++ l) by by eapply mail_step_quiet.
      split; [|intros e]; simpl; unfold wp; simpl; (split; [done|]); exists l;
        (split_and!; [done|right; by left|done]).
  - eapply wp_Within_does; [done..| | |].
    { apply tx_does_bind; [apply tx_does_wrapping, tx_does_run|intros ?; by apply enqueue_does]. }
    + intros e' w2 Hq Htx2 Hdb2. simpl. split; [done|]. exists l.
      split_and!; [by eapply mail_step_quiet|left; split; [congruence|done]|done].
    + intros [] w2 Hq Htx2 ([] & d1 & (sc & Hadd) & Henq). rewrite Hdb1 in Hadd.
      assert (w_trace w2 = w_trace w ++ l) by by eapply mail_step_quiet.
      assert (confirmation_recorded sagaID email repo url l (w_db w) (w_db w2)).
      { right. exists (Error e). split; [done|]. by exists sc, d1. }
      split; [|intros e']; simpl; unfold wp; simpl; (split; [done|]); exists l; by split_and!; auto.
Qed.

Lemma confirmation_recorded_frame sagaID email repo url l d d' :
  confirmation_recorded sagaID email repo url l d d' -> not_inv d ->
  not_inv d' /\ subscriptions_read d' = subscriptions_read d /\ processed_releases d' = processed_releases d.
Proof.
  intros [[_ He]|(reason & _ & sc & d1 & Ha & He)] Hinv.
  - split; [exact (enqueued_inv _ _ _ _ He Hinv)|]. by destruct He as (_ & ? & ? & _ & ->).
  - split; [exact (enqueued_inv _ _ _ _ He (add_fc_inv _ _ _ _ Ha Hinv))|].
    destruct He as (_ & ? & ? & _ & ->). simpl. by apply add_fc_spec in Ha as (new & -> & _).
Qed.

(** *** Releases *)

Definition release_failed_event (inp : ReleaseInput) (email : string) : NotificationReleaseFailed :=
  {| nrf_SagaID := ri_SagaID inp; nrf_RepoName := ri_RepoName inp; nrf_Tag := ri_Tag inp;
     nrf_Email := email; nrf_Reason := failureReason |}.
Definition release_sent_event (inp : ReleaseInput) (email : string) : NotificationReleaseSent :=
  {| nrs_SagaID := ri_SagaID inp; nrs_RepoName := ri_RepoName inp; nrs_Tag := ri_Tag inp; nrs_Email := email |}.
Definition release_notified_event (inp : ReleaseInput) (res : BatchResult) : ReleaseNotified :=
  {| rn_SagaID := ri_SagaID inp; rn_RepoName := ri_RepoName inp; rn_Tag := ri_Tag inp;
     rn_SentCount := br_Sent res; rn_FailedEmails := br_Failed res |}.
Definition release_fn_key (inp : ReleaseInput) (email : string) : string * string * string :=
  (ri_RepoName inp, ri_Tag inp, email).

(** The message recording one recipient's outcome. *)
Definition outcome_row (inp : ReleaseInput) (failed : gset string) (r : Recipient) (row : OutboxRow) : Prop :=
  if bool_decide (rc_Email r ∈ failed)
  then carries SubjectNotificationReleaseFailed (release_failed_event inp (rc_Email r)) row
  else carries SubjectNotificationReleaseSent (release_sent_event inp (rc_Email r)) row.

Definition extended (new : list (FailedNotification * Z)) (rows : list OutboxRow) d : NotDB :=
  set_outbox (not_outbox d ++ rows) (set_failed_notifications (failed_notifications d ++ new) d).

Lemma extended_extended n1 r1 n2 r2 d :
  extended n2 r2 (extended n1 r1 d) = extended (n1 ++ n2) (r1 ++ r2) d.
Proof. destruct d. unfold extended. simpl. by rewrite !app_assoc. Qed.

(** The failed rows [new] added to [d] for the recipients [rs]. *)
Definition failures_kept (inp : ReleaseInput) (failed : gset string) (rs : list Recipient)
    (new : list (FailedNotification * Z)) d : Prop :=
  Forall (fun f => fn_RetryCount (fst f) = 0 /\ fn_SagaID (fst f) = ri_SagaID inp /\
    fn_ReleaseURL (fst f) = ri_ReleaseURL inp /\
    exists r, r ∈ rs /\ rc_Email r ∈ failed /\ fn_key f = release_fn_key inp (rc_Email r)) new /\
  Forall (fun r => rc_Email r ∈ failed ->
    exists f, f ∈ failed_notifications d ++ new /\ fn_key f = release_fn_key inp (rc_Email r)) rs.

Definition recorded_outcome (inp : ReleaseInput) (failed : gset string) (r : Recipient) d d' : Prop :=
  not_inv d -> not_inv d' /\ exists new row, d' = extended new [row] d /\ outcome_row inp failed r row /\
    failures_kept inp failed [r] new d.

Lemma recordOutcome_does ctx inp failed r :
  ctx_tx ctx = true ->
  tx_does (recordOutcome ctx inp failed r) (fun d _ d' => recorded_outcome inp failed r d d').
Proof.
  intros Hctx. unfold recordOutcome, recorded_outcome, outcome_row. case_bool_decide as Hf.
  - unfold FN_Add, FromContext, txFromContext. rewrite Hctx. eapply tx_does_mono; cycle 1.
    { apply tx_does_bind; [apply tx_does_wrapping, tx_does_run|intros ?; by apply enqueue_does]. }
    intros d ? d' ([] & d1 & (sc & Hadd) & Henq) Hinv. split.
    { exact (enqueued_inv _ _ _ _ Henq (add_fn_inv _ _ _ _ Hadd Hinv)). }
    apply enqueued_carries in Henq as (row & Hrow & ->).
    apply add_fn_spec in Hadd as (new & -> & Hnew & Hex). exists new, row.
    split_and!; [done..|]. split; [|by constructor].
    eapply Forall_impl; [exact Hnew|]. intros f (Hk & Hs & Hu & Hc). split_and!; [done..|].
    exists r. split_and!; [by left|done..].
  - eapply tx_does_mono; [|by apply enqueue_does].
    intros d ? d' Henq Hinv. split; [exact (enqueued_inv _ _ _ _ Henq Hinv)|].
    apply enqueued_carries in Henq as (row & Hrow & ->). exists [], row.
    split_and!; [|done|split; [constructor|by repeat constructor]].
    unfold extended. destruct d. simpl. by rewrite app_nil_r.
Qed.

Lemma recordOutcomes_chain inp failed rs d d' :
  chain (recorded_outcome inp failed) rs d d' -> not_inv d ->
  not_inv d' /\ exists new rows, d' = extended new rows d /\ Forall2 (outcome_row inp failed) rs rows /\
    failures_kept inp failed rs new d.
Proof.
  induction 1 as [d|r rs d1 d2 d3 Hstep _ IH]; intros Hinv.
  - split; [done|]. exists [], []. split_and!; [|constructor|by split].
    unfold extended. destruct d. simpl. by rewrite !app_nil_r.
  - destruct (Hstep Hinv) as (Hinv2 & new1 & row & -> & Hrow & Hn1 & Hr1).
    destruct (IH Hinv2) as (Hinv3 & new2 & rows & -> & Hrows & Hn2 & Hr2).
    split; [done|]. exists (new1 ++ new2), (row :: rows). rewrite extended_extended.
    split_and!; [done|by constructor|]. split.
    + apply Forall_app. split; [eapply Forall_impl; [exact Hn1|]|eapply Forall_impl; [exact Hn2|]];
        simpl; intros f (? & ? & ? & r' & Hr' & ?); split_and!; try done; exists r'; set_solver.
    + constructor; [|simpl in Hr2; by rewrite <- app_assoc in Hr2].
      inversion Hr1 as [|? ? Hhd]; subst. intros Hf. destruct (Hhd Hf) as (f & Hin & Hk).
      exists f. split; [set_solver|done].
Qed.

(** Everything a delivered release leaves behind, at once. *)
Definition release_recorded (inp : ReleaseInput) (rs : list Recipient) (res : BatchResult) d d' : Prop :=
  not_inv d' /\ exists new rows note at_,
    d' = set_processed (processed_releases d ++
           [{| pr_repo_name := ri_RepoName inp; pr_tag := ri_Tag inp; pr_processed_at := at_ |}])
           (extended new (rows ++ [note]) d) /\
    Forall2 (outcome_row inp (list_to_set (br_Failed res))) rs rows /\
    carries SubjectReleaseNotified (release_notified_event inp res) note /\
    failures_kept inp (list_to_set (br_Failed res)) rs new d.

Lemma release_tx_does ctx inp rs res :
  ctx_tx ctx = true ->
  tx_does (_ ← recordOutcomes ctx inp rs res;
           _ ← pub_ReleaseNotified ctx (release_notified_event inp res);
           Mark ctx (ri_RepoName inp) (ri_Tag inp))
    (fun d _ d' => not_inv d -> exists_where (key_is pr_key (ri_RepoName inp, ri_Tag inp)) (processed_releases d) = false ->
       release_recorded inp rs res d d').
Proof.
  intros Hctx. unfold Mark, FromContext, txFromContext. rewrite Hctx. eapply tx_does_mono; cycle 1.
  { apply tx_does_bind; [by apply tx_does_for_each; intros r; apply recordOutcome_does|].
    intros ?. apply tx_does_bind; [by apply enqueue_does|]. intros ?. apply tx_does_wrapping, tx_does_run. }
  intros d ? d' (_ & d1 & Hch & _ & d2 & Henq & sc & Hmark) Hinv Hnew.
  destruct (recordOutcomes_chain _ _ _ _ _ Hch Hinv) as (Hinv1 & new & rows & Hd1 & Hrows & Hkept).
  pose proof (enqueued_inv _ _ _ _ Henq Hinv1) as Hinv2.
  split; [exact (mark_inv _ _ _ _ _ ltac:(destruct a; exact Hmark) Hinv2)|].
  apply enqueued_carries in Henq as (note & Hnote & Hd2).
  assert (processed_releases d2 = processed_releases d) as Hpr by by rewrite Hd2, Hd1.
  unfold mark_stmt in Hmark. rewrite Hpr, Hnew in Hmark. injection Hmark as _ <-.
  exists new, rows, note, (sc_now sc). split_and!; try done.
  rewrite Hd2, Hd1. destruct d. simpl. unfold set_processed, insert_row. simpl. by rewrite app_assoc.
Qed.

Definition recipients_of (repo : string) d : list Recipient :=
  map to_recipient (select_where (key_is rr_repo_name repo) (subscriptions_read d)).

Lemma wp_RecipientsByRepo repo (Q : res (list Recipient) -> World NotDB -> Prop) w :
  (forall w', quiet_step w w' -> w_tx w' = w_tx w -> w_db w' = w_db w ->
     Q (Ok (recipients_of repo (w_db w))) w' /\ forall e, Q (Err e) w') ->
  wp (RecipientsByRepo repo) Q w.
Proof.
  intros HQ. unfold RecipientsByRepo. wp_steps. eapply wp_query_pool; [done|].
  intros w' ? ? ?. split; [|intros msg; by apply HQ]. cbn [map_err]. wp_steps.
  rewrite CollectRows_match by done. apply wp_ret. by apply HQ.
Qed.

Lemma deliver_spec ctx inp rs w :
  wp (deliver baseURL ctx inp rs) (fun r w' => exists sent failed l,
    r = Ok {| br_Sent := Z.of_nat (length sent); br_Failed := failed |} /\
    sent ++ failed ≡ₚ map rc_Email rs /\ mail_step w w' l /\ Forall (accepted_mail l) sent) w.
Proof.
  unfold deliver. case_bool_decide as Hrs.
  - apply wp_ret. subst rs. exists [], [], []. split_and!; [done..|by apply mail_step_refl|constructor].
  - eapply wp_mono; [|apply snd_Release_spec]. intros r w' (sent & failed & l & -> & Hp & Hm & Hs & _).
    exists sent, failed, l. split_and!; [done| |done..]. by rewrite Hp, map_map.
Qed.

Definition is_processed (inp : ReleaseInput) d : bool :=
  exists_where (key_is pr_key (ri_RepoName inp, ri_Tag inp)) (processed_releases d).

(** The recipients of an attempt [l], split into those mailed and the rest. *)
Definition batch_accounts (l : list Ext) (rs : list Recipient) (res : BatchResult) : Prop :=
  exists sent, br_Sent res = Z.of_nat (length sent) /\ sent ++ br_Failed res ≡ₚ map rc_Email rs /\
    Forall (accepted_mail l) sent.

Definition release_outcome (inp : ReleaseInput) w (r : res BatchResult) w' : Prop :=
  w_tx w' = None /\
  if is_processed inp (w_db w) then w_db w' = w_db w /\ w_trace w' = w_trace w
  else exists l, w_trace w' = w_trace w ++ l /\
    ((w_db w' = w_db w /\ is_ok r = false) \/
     exists res, release_recorded inp (recipients_of (ri_RepoName inp) (w_db w)) res (w_db w) (w_db w') /\
       batch_accounts l (recipients_of (ri_RepoName inp) (w_db w)) res /\
       (forall x, r = Ok x -> x = res /\ w_nudge w' = true)).

Lemma release_outcome_early inp w e w' :
  quiet_step w w' -> w_tx w' = None -> w_db w' = w_db w -> release_outcome inp w (Err e) w'.
Proof.
  intros [Ht _] Htx Hdb. split; [done|]. destruct (is_processed _ _); [done|].
  exists []. rewrite app_nil_r. split; [done|]. by left.
Qed.

Lemma NotifyRelease_outcome ctx inp w :
  txFromContext ctx = false -> w_tx w = None -> not_inv (w_db w) ->
  wp (NotifyRelease_Execute baseURL ctx inp) (release_outcome inp w) w.
Proof.
  intros Hctx Htx Hinv. unfold NotifyRelease_Execute, Exists. wp_steps.
  eapply wp_query_pool; [done|]. intros w1 Hq1 Htx1 Hdb1. rewrite Htx in Htx1.
  split; [|intros msg; by apply release_outcome_early]. cbn [map_err].
  fold (is_processed inp (w_db w)). destruct (is_processed inp (w_db w)) eqn:Hp.
  { wp_steps. split; [done|]. rewrite Hp. by destruct Hq1. }
  wp_steps. apply wp_RecipientsByRepo. intros w2 Hq2 Htx2 Hdb2. rewrite Htx1 in Htx2. rewrite Hdb1 in *.
  pose proof (quiet_step_trans _ _ _ Hq1 Hq2) as Hq.
  split; [|intros e; by apply release_outcome_early]. cbn [map_err]. wp_steps.
  set (rs := recipients_of (ri_RepoName inp) (w_db w)).
  eapply wp_mono; [|apply deliver_spec]. intros r w3 (sent & failed & l & -> & Hperm & Hm & Hs).
  pose proof Hm as (Hdb3 & Htx3 & _ & _ & _ & Ht3 & _). rewrite Htx2 in Htx3. rewrite Hdb2 in Hdb3.
  set (res := {| br_Sent := _; br_Failed := _ |}).
  assert (forall w4, quiet_step w3 w4 -> w_trace w4 = w_trace w ++ l) as Htr.
  { intros w4 [Ht _]. destruct Hq as [Hq _]. congruence. }
  assert (batch_accounts l rs res) as Hba by by exists sent.
  wp_steps. eapply wp_Within_does; [done..|by apply release_tx_does| |].
  - intros e w4 Hq4 Htx4 Hdb4. split; [done|]. rewrite Hp. exists l. split; [by apply Htr|].
    left. split; [congruence|done].
  - intros [] w4 Hq4 Htx4 HR. rewrite Hdb3 in HR. specialize (HR Hinv Hp). pose proof (Htr w4 Hq4).
    split; [unfold wp; simpl|intros e]; (split; [done|]); rewrite Hp; exists l;
      (split; [done|]); right; exists res; (split_and!; [done..|]); [|done].
    by intros x [= <-].
Qed.
End UseCaseFacts.
