(* ===== verification/RetryFacts.v ===== *)
(** * The retrier: the fate of every failed delivery

    One run of [Retrier.Releases] or [Retrier.Confirmations] gives each failed
    row one fate: it stays, its retry count goes up by one, it is dropped
    because its recipient has unsubscribed, or it is removed together with
    exactly one event that says how it ended.  Which fate a row meets is
    decided by what the sender answered for it ([fn_outcome], [fc_outcome]);
    the part the two tables share is proved once, for a [RetryTable]. *)

From S2P Require Import Prelude GoErrors Effects Wp Sql Json JsonFacts Events Broker Outbox Consumers Libs Subscription.
From S2P Require Import SubscriptionUse Mailer Notifier NotifierFacts Quiet Concrete.

Open Scope string_scope.
Open Scope list_scope.
Open Scope Z_scope.

Inductive Fate := Kept | Bumped | Dropped | Delivered | DeadLettered.

Global Instance Fate_eq_dec : EqDecision Fate.
Proof. solve_decision. Defined.

(** ** Fates of a table's rows *)

Section Survivors.
Context {R : Type} (id : R -> Z) (bump : R -> R) (bump_id : forall r, id (bump r) = id r).
Implicit Types (l : list R) (fate : Z -> Fate).

Definition survivor (f : Fate) (r : R) : list R :=
  match f with Kept => [r] | Bumped => [bump r] | _ => [] end.

(** The table after each row met its fate. *)
Definition survivors fate l : list R := flat_map (fun r => survivor (fate (id r)) r) l.

(** The statement that gives the row [i] its fate. *)
Definition fate_table (f : Fate) (i : Z) l : list R :=
  match f with
  | Kept => l
  | Bumped => update_where (key_is id i) bump l
  | _ => delete_where (key_is id i) l
  end.

Definition with_fate (i : Z) (f : Fate) fate : Z -> Fate := fun j => if bool_decide (j = i) then f else fate j.

Lemma survivors_kept l : survivors (fun _ => Kept) l = l.
Proof. unfold survivors. induction l; simpl; [done|by f_equal]. Qed.

Lemma survivors_ext fate fate' l :
  (forall r, r ∈ l -> fate (id r) = fate' (id r)) -> survivors fate l = survivors fate' l.
Proof.
  unfold survivors. induction l as [|r l IH]; simpl; intros He; [done|].
  rewrite He by set_solver. f_equal. apply IH. set_solver.
Qed.

Lemma survivors_step fate f i l :
  fate i = Kept -> survivors fate (fate_table f i l) = survivors (with_fate i f fate) l.
Proof.
  intros Hi. unfold survivors, with_fate. induction l as [|r l IH]; [by destruct f|].
  destruct f; simpl in *;
    [rewrite IH; case_bool_decide; [subst; by rewrite Hi|done]
    |rewrite IH; unfold key_is; case_bool_decide as Hr; [by rewrite bump_id, Hr, Hi|done]
    |unfold delete_where, key_is in *; simpl; case_bool_decide; simpl; by rewrite IH..].
Qed.

Lemma elem_of_survivors fate l r' :
  r' ∈ survivors fate l -> exists r, r ∈ l /\ ((r' = r /\ fate (id r) = Kept) \/ (r' = bump r /\ fate (id r) = Bumped)).
Proof.
  unfold survivors. rewrite list_elem_of_In, in_flat_map. intros (r & Hr%list_elem_of_In & Hin).
  exists r. split; [done|]. destruct (fate (id r)); simpl in Hin; naive_solver.
Qed.

Lemma survivors_compose fate1 fate2 l :
  (forall r, r ∈ l -> fate1 (id r) = Bumped -> fate2 (id r) = Kept) ->
  survivors fate2 (survivors fate1 l) =
  survivors (fun i => if bool_decide (fate1 i = Kept) then fate2 i else fate1 i) l.
Proof.
  unfold survivors. induction l as [|r l IH]; intros Hd; simpl; [done|].
  rewrite flat_map_app, IH by set_solver. f_equal. specialize (Hd r ltac:(set_solver)).
  case_bool_decide as Hk; [rewrite Hk; simpl; by rewrite app_nil_r|].
  destruct (fate1 (id r)); simpl; try done. by rewrite bump_id, Hd.
Qed.
End Survivors.

Lemma Forall2_impl_in {A B} (P Q : A -> B -> Prop) l k :
  Forall2 P l k -> (forall x y, x ∈ l -> P x y -> Q x y) -> Forall2 Q l k.
Proof. induction 1; intros HQ; constructor; [apply HQ; [by left|done]|]. set_solver. Qed.

(** ** The statements of a retry *)

Lemma answer_lost_faults `{Env} : db_answer_lost -> db_faults.
Proof. intros (n & f & Hf & _). by exists n, f. Qed.

(** The outbox's identity sequence is ahead of its rows, with room for [n] more. *)
Definition ids_room (n : nat) (w : World NotDB) : Prop :=
  Forall (fun row => om_id row < nextval outbox_seq w) (not_outbox (w_db w)) /\
  nextval outbox_seq w + Z.of_nat n <= bigint_max + 1.

(** The sequence cannot number the next row. *)
Definition ids_stuck (w : World NotDB) : Prop :=
  bigint_max < nextval outbox_seq w \/
  exists_where (key_is om_id (nextval outbox_seq w)) (not_outbox (w_db w)) = true.

(** From [w] to [w'] at most one number was taken. *)
Definition room_kept (w w' : World NotDB) : Prop := forall n, ids_room (S n) w -> ids_room n w'.

Lemma ids_room_unstuck n w : ids_room (S n) w -> ~ ids_stuck w.
Proof.
  intros [Hf Hn] [Hs|(row & Hrow & Hk%bool_decide_eq_true)%exists_where_true]; [lia|].
  rewrite Forall_forall in Hf. specialize (Hf row Hrow). lia.
Qed.

Lemma ids_room_le n m w : (n <= m)%nat -> ids_room m w -> ids_room n w.
Proof. intros Hnm [Hf Hn]. split; [done|]. lia. Qed.

Lemma ids_room_same n w w' :
  not_outbox (w_db w') = not_outbox (w_db w) -> w_seq w' = w_seq w -> ids_room n w -> ids_room n w'.
Proof. unfold ids_room, nextval. by intros -> ->. Qed.

Lemma room_kept_same w w' :
  not_outbox (w_db w') = not_outbox (w_db w) -> w_seq w' = w_seq w -> room_kept w w'.
Proof. intros Ho Hs n Hr. apply (ids_room_same n w w'); [done..|]. eapply ids_room_le; [|exact Hr]. lia. Qed.

(** A statement on the pool that takes no number. *)
Lemma wp_run_plain {E : Env} {A} (st : Stmt NotDB A) (Q : res A -> World NotDB -> Prop) w :
  (forall msg w', db_faults \/ (exists sc, st sc (w_db w) = inl msg) ->
     w_trace w' = w_trace w -> w_tx w' = w_tx w -> w_seq w' = w_seq w -> w_db w' = w_db w -> Q (Err (ErrText msg)) w') ->
  (forall sc a d w', st sc (w_db w) = inr (a, d) ->
     w_trace w' = w_trace w -> w_tx w' = w_tx w -> w_seq w' = w_seq w -> w_db w' = d ->
     Q (Ok a) w' /\ (db_faults -> forall msg, Q (Err (ErrText msg)) w')) ->
  wp (run QPool None st) Q w.
Proof.
  intros Hfail Hok. apply wp_run; simpl.
  - intros f Hf. split; [apply Hfail; try done; left; by eexists _, _|].
    intros a d _ _ Hst. eapply Hok; [exact Hst|done..|by eexists _, _].
  - intros _. destruct (st _ _) as [msg|[a d]] eqn:Hst; [apply Hfail; eauto|]. by eapply Hok.
Qed.

(** A query: nothing changes, and it fails only by a fault. *)
Lemma wp_query_plain {E : Env} {A} (st : Stmt NotDB A) (f : NotDB -> A) (Q : res A -> World NotDB -> Prop) w :
  (forall sc d, st sc d = inr (f d, d)) ->
  (forall w', w_trace w' = w_trace w -> w_tx w' = w_tx w -> w_seq w' = w_seq w -> w_db w' = w_db w ->
     Q (Ok (f (w_db w))) w' /\ (db_faults -> forall msg, Q (Err (ErrText msg)) w')) ->
  wp (run QPool None st) Q w.
Proof.
  intros Hst HQ. apply wp_run_plain.
  - intros msg w' [Hf|[sc Hs]] ? ? ? ?; [by apply HQ|by rewrite Hst in Hs].
  - intros sc a d w' Hs ? ? ? ?. rewrite Hst in Hs. injection Hs as <- <-. by apply HQ.
Qed.

(** A statement whose failure is only logged. *)
Lemma wp_logged_pool {E : Env} pre (st : Stmt NotDB unit) (Q : res unit -> World NotDB -> Prop) w :
  (forall w', w_trace w' = w_trace w -> w_tx w' = w_tx w -> w_seq w' = w_seq w ->
     (w_db w' = w_db w /\ (db_faults \/ exists sc msg, st sc (w_db w) = inl msg)) \/
     (exists sc, st sc (w_db w) = inr (tt, w_db w')) -> Q (Ok tt) w') ->
  wp (logged (wrapping pre (run QPool None st))) Q w.
Proof.
  intros HQ. unfold logged. wp_steps. apply wp_run_plain.
  - intros msg w' Hr Ht Htx Hs Hdb. wp_steps. apply HQ; [done..|left]. split; [done|]. destruct Hr as [?|[sc ?]]; eauto.
  - intros sc [] d w' Hst Ht Htx Hs Hdb. subst d. split; [|intros _ msg]; wp_steps; (apply HQ; [done..|right; eauto]).
Qed.

(** Removing a row and announcing it in one transaction whose failure is only
    logged: all, or nothing for a reason. *)
Lemma wp_deleteAndPublish {E : Env} {V : Validators} {T} `{Event T} ctx pre (st : Stmt NotDB unit) (g : NotDB -> NotDB)
    subject (ev : T) (Q : res unit -> World NotDB -> Prop) w :
  txFromContext ctx = false -> w_tx w = None ->
  (forall sc d, st sc d = inr (tt, g d)) -> (forall d, not_outbox (g d) = not_outbox d) ->
  (forall w', w_trace w' = w_trace w -> w_tx w' = None -> room_kept w w' ->
     (w_db w' = w_db w /\ (db_faults \/ validate ev = false \/ ids_stuck w)) \/
     (exists row, carries subject ev row /\ exists_where (key_is om_id (om_id row)) (not_outbox (w_db w)) = false /\
        w_db w' = set_outbox (not_outbox (w_db w) ++ [row]) (g (w_db w))) -> Q (Ok tt) w') ->
  wp (deleteAndPublish ctx (fun txCtx => _ ← wrapping pre (run (FromContext txCtx) None st); enqueue txCtx subject ev)) Q w.
Proof.
  intros Hctx Htx Hst Hg HQ. unfold deleteAndPublish. apply wp_bind, wp_attempt, wp_Within_why; [done|..].
  { intros f Hf. wp_steps. apply HQ; [done..|by apply room_kept_same|]. left. split; [done|left; by eexists _, _]. }
  cbv zeta. unfold FromContext, txFromContext. simpl. apply wp_bind, wp_wrapping, wp_run; cbv zeta; simpl.
  { intros f Hf. split; [|done]. wp_steps. apply HQ; [done..|by apply room_kept_same|]. left. split; [done|left; by eexists _, _]. }
  intros _. rewrite Hst. cbn [map_err]. unfold enqueue, Tx, txFromContext, Marshal. simpl. destruct (validate ev) eqn:Hv; simpl; cycle 1.
  { wp_steps. apply HQ; [done..|by apply room_kept_same|]. left. auto. }
  assert (forall w', w_db w' = w_db w -> w_seq w' = <[outbox_seq:=nextval outbox_seq w + 1]> (w_seq w) -> room_kept w w') as Hfailed.
  { intros w' Hdb Hs n [Hr Hn]. unfold ids_room, nextval. rewrite Hdb, Hs, lookup_insert_eq. simpl. split; [|lia].
    eapply Forall_impl; [exact Hr|]. simpl. intros row Hrow. lia. }
  unfold Enqueue. apply wp_wrapping, wp_run; cbv zeta; simpl; unfold nextval; simpl; fold (nextval outbox_seq w).
  { intros f Hf. split; [|done]. wp_steps. apply HQ; [done..|by apply Hfailed|left; split; [done|left; by eexists _, _]]. }
  intros _. unfold insert_outbox_stmt. simpl. rewrite Hg.
  change (nextval outbox_seq (set_tx _ _)) with (nextval outbox_seq w).
  destruct (bigint_max <? _) eqn:Hmax.
  { cbn [map_err]. wp_steps. apply HQ; [done..|by apply Hfailed|]. left. split; [done|right; right; left]. by apply Z.ltb_lt in Hmax. }
  destruct (exists_where (key_is om_id _) _) eqn:Hex.
  { cbn [map_err]. wp_steps. apply HQ; [done..|by apply Hfailed|]. left. split; [done|by right; right; right]. }
  cbn [map_err]. set (row := {| om_id := _ |}).
  assert (forall w', w_trace w' = w_trace w -> w_tx w' = None ->
    w_seq w' = <[outbox_seq:=nextval outbox_seq w + 1]> (w_seq w) ->
    w_db w' = set_outbox (not_outbox (w_db w) ++ [row]) (g (w_db w)) -> Q (Ok tt) w') as Hdone.
  { intros w' Ht' Htx' Hs Hdb. apply HQ; [done..| |right; exists row; split_and!; [by eexists _, _|done|done]].
    intros n [Hr Hn]. unfold ids_room, nextval. rewrite Hdb, Hs, lookup_insert_eq. simpl. split; [|lia].
    apply Forall_app. split; [|repeat constructor; simpl; lia]. eapply Forall_impl; [exact Hr|]. simpl. intros r Hrow. lia. }
  split_and!.
  - wp_steps. by apply Hdone.
  - intros _ msg. wp_steps. by apply Hdone.
  - intros Hf msg. wp_steps. apply HQ; [done..|by apply Hfailed|]. left. auto.
Qed.

(** A loop whose invariant depends on the rows still to come. *)
Lemma wp_for_each_rest {D A} (I : list A -> World D -> Prop) (R : A -> D * list Ext -> D * list Ext -> Prop) xs body (w : World D) :
  (forall x rem w, I (x :: rem) w -> wp (body x) (fun r w' => r = Ok tt /\ I rem w' /\ R x (obs w) (obs w')) w) ->
  I xs w -> wp (for_each xs body) (fun r w' => r = Ok tt /\ I [] w' /\ chain R xs (obs w) (obs w')) w.
Proof.
  intros Hb. revert w. induction xs as [|x xs IH]; simpl; intros w Hw.
  - apply wp_ret. split_and!; [done..|constructor].
  - apply wp_bind. eapply wp_mono; [|by apply Hb]. intros r w1 (-> & Hw1 & H1).
    eapply wp_mono; [|by apply IH]. intros r w2 (-> & Hw2 & H2). split_and!; [done..|by econstructor].
Qed.

Lemma room_kept_after w1 w2 w3 : w_db w2 = w_db w1 -> w_seq w2 = w_seq w1 -> room_kept w2 w3 -> room_kept w1 w3.
Proof. intros Hd Hs Hk n Hn. apply Hk. eapply ids_room_same; [by rewrite Hd|exact Hs|exact Hn]. Qed.

Lemma ids_stuck_same w w' : w_db w' = w_db w -> w_seq w' = w_seq w -> ids_stuck w' -> ids_stuck w.
Proof. unfold ids_stuck, nextval. by intros -> ->. Qed.

Lemma wp_result {A} (c : M NotDB A) Q w : wp c Q w -> wp c (fun r w' => c w = (r, w') /\ Q r w') w.
Proof. unfold wp. by destruct (c w). Qed.

(** Why an event of a transaction was not enqueued: a database fault, an event
    that is not valid, or a sequence that has run out. *)
Definition not_announced `{Env, Validators} (stuck : Prop) {T} `{Event T} (ev : T) : Prop :=
  db_faults \/ validate ev = false \/ stuck.

Lemma not_announced_mono `{Env, Validators} (s1 s2 : Prop) {T} `{Event T} (ev : T) :
  (s1 -> s2) -> not_announced s1 ev -> not_announced s2 ev.
Proof. unfold not_announced. tauto. Qed.

Lemma retry_count_wrap n : count_ok n -> wrap64 (n + 1) = n + 1.
Proof. intros [? ?]. apply wrap64_id. unfold in_int64, two63, int32_max in *. lia. Qed.

(** From [w] to [w2] the requests [l] were made and nothing else happened. *)
Definition attempted (w w2 : World NotDB) (l : list Ext) : Prop :=
  w_db w2 = w_db w /\ w_seq w2 = w_seq w /\ w_tx w2 = None /\ w_trace w2 = w_trace w ++ l.

(** ** A run over the rows of one table *)

Definition retry_ready (w : World NotDB) : Prop := w_tx w = None /\ not_inv (w_db w).

(** A table of failed deliveries, with rows [R], from which a run takes up
    items [T]. *)
Class RetryTable (T R : Type) := {
  row_id : R -> Z; row_count : R -> Z; row_bump : R -> R;
  row_get : NotDB -> list R; row_put : list R -> NotDB -> NotDB;
  item_id : T -> Z; item_count : T -> Z;
  row_bump_id : forall r, row_id (row_bump r) = row_id r;
  row_get_put : forall o l d, row_get (set_outbox o (row_put l d)) = l;
  row_put_put : forall o l o' l' d, set_outbox o (row_put l (set_outbox o' (row_put l' d))) = set_outbox o (row_put l d);
  row_put_get : forall d, set_outbox (not_outbox d) (row_put (row_get d) d) = d;
  row_put_read : forall l d, subscriptions_read (row_put l d) = subscriptions_read d;
  row_put_outbox : forall l d, not_outbox (row_put l d) = not_outbox d;
  row_inv : forall f i rows d, not_inv d -> unique_on om_id (not_outbox d ++ rows) ->
    (f = Bumped -> exists_where (fun r => key_is row_id i r && (int32_max <=? row_count r)) (row_get d) = false) ->
    not_inv (set_outbox (not_outbox d ++ rows) (row_put (fate_table row_id row_bump f i (row_get d)) d));
}.

(** [messages] is what a fate leaves in the outbox, [outcome] when an item may
    meet a fate while some requests are made; its proposition says that the
    outbox's sequence may have run out. *)
Section Run.
Context {E : Env} {V : Validators} {T R : Type} {RT : RetryTable T R}.
Context (messages : T -> Fate -> list OutboxRow -> Prop) (outcome : Prop -> T -> Fate -> list Ext -> Prop).
Implicit Types (w : World NotDB) (d : NotDB).

(** The item [t] met the fate [f]. *)
Definition fated (t : T) (f : Fate) (rows : list OutboxRow) d : NotDB :=
  set_outbox (not_outbox d ++ rows) (row_put (fate_table row_id row_bump f (item_id t) (row_get d)) d).

Definition row_step (stuck : Prop) (t : T) (o o' : NotDB * list Ext) : Prop :=
  exists f l rows, o'.2 = o.2 ++ l /\ o'.1 = fated t f rows o.1 /\ messages t f rows /\ outcome stuck t f l.

(** What handling [t] leaves. *)
Definition row_done (t : T) w w' : Prop :=
  retry_ready w' /\ room_kept w w' /\ row_step (ids_stuck w) t (obs w) (obs w').

(** The run as a whole: [d'] is [d] after the rows met their fates; [ls] are
    the requests made for each. *)
Definition rows_run (stuck : Prop) (ts : list T) (fate : Z -> Fate) (ls : list (list Ext)) d d' : Prop :=
  (exists msgs, Forall2 (fun t m => messages t (fate (item_id t)) m) ts msgs /\
     d' = set_outbox (not_outbox d ++ concat msgs) (row_put (survivors row_id row_bump fate (row_get d)) d)) /\
  Forall2 (fun t l => outcome stuck t (fate (item_id t)) l) ts ls /\
  (forall i, i ∉ map item_id ts -> fate i = Kept).

Lemma put_outbox (l : list R) d : row_put l d = set_outbox (not_outbox d) (row_put l d).
Proof. rewrite <- (row_put_outbox l d). simpl. by destruct (row_put l d). Qed.

Lemma fated_kept t d : fated t Kept [] d = d.
Proof. unfold fated. cbn [fate_table]. rewrite app_nil_r. apply row_put_get. Qed.

Lemma rows_chain stuck ts o o' :
  chain (row_step stuck) ts o o' -> NoDup (map item_id ts) ->
  exists fate ls, o'.2 = o.2 ++ concat ls /\ rows_run stuck ts fate ls o.1 o'.1.
Proof.
  induction 1 as [o|t ts o1 o2 o3 (f & l & m & Ht1 & Hd1 & Hm & Ho) _ IH]; simpl; intros Hnd.
  - exists (fun _ => Kept), []. simpl. rewrite app_nil_r. split_and!; [done|]. split_and!; [|constructor|done].
    exists []. split; [constructor|]. rewrite survivors_kept. cbn [concat]. by rewrite app_nil_r, row_put_get.
  - apply NoDup_cons in Hnd as [Hni Hnd].
    destruct (IH Hnd) as (fate & ls & Ht & (msgs & Hmsgs & Hd) & Hos & Hk).
    assert (forall t', t' ∈ ts -> with_fate (item_id t) f fate (item_id t') = fate (item_id t')) as Hsame.
    { intros t' Ht'. unfold with_fate. rewrite bool_decide_eq_false_2; [done|]. intros He. apply Hni.
      rewrite <- He. by apply list_elem_of_fmap_2. }
    assert (with_fate (item_id t) f fate (item_id t) = f) as Hself by (unfold with_fate; by case_bool_decide).
    exists (with_fate (item_id t) f fate), (l :: ls). simpl. rewrite Ht, Ht1, app_assoc. split; [done|]. split_and!.
    + exists (m :: msgs). split.
      * constructor; [by rewrite Hself|]. eapply Forall2_impl_in; [exact Hmsgs|]. intros t' m' Ht' ?. by rewrite Hsame.
      * rewrite Hd, Hd1. unfold fated.
        rewrite row_get_put, row_put_put, (survivors_step row_id row_bump) by auto using row_bump_id.
        simpl. by rewrite <- app_assoc.
    + constructor; [by rewrite Hself|]. eapply Forall2_impl_in; [exact Hos|]. intros t' l' Ht' ?. by rewrite Hsame.
    + intros i Hi. unfold with_fate. rewrite bool_decide_eq_false_2 by set_solver. apply Hk. set_solver.
Qed.

(** *** The statements on one row, after the requests [l] *)

Lemma row_kept t w w2 w' l :
  retry_ready w -> attempted w w2 l -> w_trace w' = w_trace w2 -> w_tx w' = None -> room_kept w2 w' -> w_db w' = w_db w2 ->
  messages t Kept [] -> outcome (ids_stuck w) t Kept l -> row_done t w w'.
Proof.
  intros Hw (Hd & Hs & _ & Ht) Ht' Htx Hk Hdb Hm Ho.
  split; [split; [done|]; rewrite Hdb, Hd; apply Hw|]. split; [by eapply room_kept_after|].
  exists Kept, l, []. simpl. rewrite fated_kept. split_and!; [congruence..|done|done].
Qed.

Lemma row_changed t f rows w w2 w' l :
  retry_ready w -> attempted w w2 l -> w_trace w' = w_trace w2 -> w_tx w' = None -> room_kept w2 w' ->
  unique_on om_id (not_outbox (w_db w) ++ rows) ->
  (f = Bumped -> exists_where (fun r => key_is row_id (item_id t) r && (int32_max <=? row_count r)) (row_get (w_db w)) = false) ->
  w_db w' = fated t f rows (w_db w) -> messages t f rows -> outcome (ids_stuck w) t f l -> row_done t w w'.
Proof.
  intros [_ Hinv] (Hd & Hs & _ & Ht) Ht' Htx Hk Hu Hb Hdb Hm Ho.
  split; [split; [done|]; rewrite Hdb; by apply row_inv|]. split; [by eapply room_kept_after|].
  exists f, l, rows. unfold obs. cbn [fst snd]. split_and!; [congruence|done..].
Qed.

Lemma row_removal {U} `{Event U} ctx pre (st : Stmt NotDB unit) t subject (ev : U) f w w2 l :
  txFromContext ctx = false -> retry_ready w -> attempted w w2 l -> f = Delivered \/ f = DeadLettered ->
  (forall sc d, st sc d = inr (tt, row_put (delete_where (key_is row_id (item_id t)) (row_get d)) d)) ->
  messages t Kept [] -> (forall row, carries subject ev row -> messages t f [row]) ->
  (forall f', f' = f \/ (f' = Kept /\ not_announced (ids_stuck w) ev) -> outcome (ids_stuck w) t f' l) ->
  wp (deleteAndPublish ctx (fun txCtx => _ ← wrapping pre (run (FromContext txCtx) None st); enqueue txCtx subject ev))
    (fun r w' => r = Ok tt /\ row_done t w w') w2.
Proof.
  intros Hctx Hw Ha Hf Hst Hm0 Hmsg Ho. pose proof Ha as (Hd2 & Hs2 & Htx2 & _).
  eapply wp_deleteAndPublish; [done..|exact Hst|intros d; apply row_put_outbox|].
  intros w3 Ht3 Htx3 Hk3 Hdb3. split; [done|]. destruct Hdb3 as [[Hdb3 Hwhy]|(row & Hrow & Hfresh & Hdb3)].
  - eapply row_kept; try done. apply Ho. right. split; [done|]. unfold not_announced.
    pose proof (ids_stuck_same w w2 Hd2 Hs2). tauto.
  - rewrite Hd2 in *. eapply (row_changed t f [row]); try done; [|by destruct Hf as [-> | ->]..|by apply Hmsg|apply Ho; by left].
    apply unique_on_snoc; [apply Hw|done].
Qed.

Lemma row_drop pre (st : Stmt NotDB unit) t w w2 l :
  retry_ready w -> attempted w w2 l ->
  (forall sc d, st sc d = inr (tt, row_put (delete_where (key_is row_id (item_id t)) (row_get d)) d)) ->
  messages t Kept [] -> messages t Dropped [] ->
  (forall f, f = Dropped \/ (f = Kept /\ db_faults) -> outcome (ids_stuck w) t f l) ->
  wp (logged (wrapping pre (run QPool None st))) (fun r w' => r = Ok tt /\ row_done t w w') w2.
Proof.
  intros Hw Ha Hst Hm0 Hm Ho. pose proof Ha as (Hd2 & _ & Htx2 & _).
  apply wp_logged_pool. intros w3 Ht3 Htx3 Hs3 Hdb3. split; [done|]. rewrite Hd2 in Hdb3.
  assert (w_tx w3 = None) as Hn3 by congruence. destruct Hdb3 as [[Hdb3 Hwhy]|[sc Hdb3]].
  - eapply row_kept; try done; [apply room_kept_same; congruence|congruence|].
    apply Ho. right. split; [done|]. destruct Hwhy as [?|(sc & msg & Hx)]; [done|]. by rewrite Hst in Hx.
  - rewrite Hst in Hdb3. injection Hdb3 as Hdb3. apply (row_changed t Dropped [] w w2 w3 l); try done; [| | |apply Ho; by left].
    + apply room_kept_same; [|done]. by rewrite <- Hdb3, row_put_outbox, Hd2.
    + rewrite app_nil_r. apply inv_outbox, Hw.
    + rewrite <- Hdb3. unfold fated. rewrite app_nil_r. cbn [fate_table]. apply put_outbox.
Qed.

Lemma row_increment pre msg (st : Stmt NotDB unit) t w w2 l :
  retry_ready w -> attempted w w2 l ->
  (forall r, r ∈ row_get (w_db w) -> row_id r = item_id t -> row_count r = item_count t) ->
  (forall sc d, st sc d =
     if exists_where (fun r => key_is row_id (item_id t) r && (int32_max <=? row_count r)) (row_get d) then inl msg
     else inr (tt, row_put (update_where (key_is row_id (item_id t)) row_bump (row_get d)) d)) ->
  messages t Kept [] -> messages t Bumped [] ->
  (forall f, f = Bumped \/ (f = Kept /\ (db_faults \/ int32_max <= item_count t)) -> outcome (ids_stuck w) t f l) ->
  wp (logged (wrapping pre (run QPool None st))) (fun r w' => r = Ok tt /\ row_done t w w') w2.
Proof.
  intros Hw Ha Hrow Hst Hm0 Hm Ho. pose proof Ha as (Hd2 & _ & Htx2 & _).
  apply wp_logged_pool. intros w3 Ht3 Htx3 Hs3 Hdb3. split; [done|]. rewrite Hd2 in Hdb3.
  assert (w_tx w3 = None) as Hn3 by congruence. setoid_rewrite Hst in Hdb3.
  destruct (exists_where _ _) eqn:Hb; destruct Hdb3 as [[Hdb3 Hwhy]|[sc Hdb3]]; try done.
  - eapply row_kept; try done; [apply room_kept_same; congruence|congruence|]. apply Ho. right. split; [done|right].
    apply exists_where_true in Hb as (r & Hr & Hk). apply andb_prop in Hk as [Hk%bool_decide_eq_true Hmax].
    rewrite <- (Hrow r Hr Hk). lia.
  - eapply row_kept; try done; [apply room_kept_same; congruence|congruence|]. apply Ho. right.
    split; [done|left]. by destruct Hwhy as [?|(sc & m & ?)].
  - injection Hdb3 as Hdb3. apply (row_changed t Bumped [] w w2 w3 l); try done; [| | |apply Ho; by left].
    + apply room_kept_same; [|done]. by rewrite <- Hdb3, row_put_outbox, Hd2.
    + rewrite app_nil_r. apply inv_outbox, Hw.
    + rewrite <- Hdb3. unfold fated. rewrite app_nil_r. cbn [fate_table]. apply put_outbox.
Qed.

(** *** The invariant of a run *)

Context (outcome_mono : forall (s1 s2 : Prop) t f l, (s1 -> s2) -> outcome s1 t f l -> outcome s2 t f l).

(** While a run from [w0] over [ts] is under way and [rem] are still to come:
    their rows are as they were. *)
Record running (w0 : World NotDB) (ts rem : list T) w : Prop := {
  rn_ready : retry_ready w;
  rn_room : ids_room (length ts) w0 -> ids_room (length rem) w;
  rn_rows : forall r, r ∈ row_get (w_db w) -> row_id r ∈ map item_id rem -> r ∈ row_get (w_db w0);
  rn_ids : NoDup (map item_id rem);
  rn_rest : rem ⊆ ts;
  rn_read : subscriptions_read (w_db w) = subscriptions_read (w_db w0);
}.

Lemma running_start w w1 ts :
  retry_ready w -> w_db w1 = w_db w -> w_seq w1 = w_seq w -> w_tx w1 = w_tx w -> NoDup (map item_id ts) -> running w ts ts w1.
Proof.
  intros [Htx Hinv] Hdb Hs Ht Hnd. split; rewrite ?Hdb; try done; [split; [congruence|by rewrite Hdb]|].
  apply ids_room_same; [by rewrite Hdb|done].
Qed.

Lemma running_same w0 ts rem w w' :
  running w0 ts rem w -> w_db w' = w_db w -> w_seq w' = w_seq w -> w_tx w' = w_tx w -> running w0 ts rem w'.
Proof.
  intros [[Htx Hinv] Hroom Hrows Hids Hrest Hread] Hdb Hs Ht. split; rewrite ?Hdb; try done; [split; [congruence|by rewrite Hdb]|].
  intros Hr. apply (ids_room_same _ w); [by rewrite Hdb|done|auto].
Qed.

Lemma elem_of_fate_table f i j (l : list R) r : r ∈ fate_table row_id row_bump f i l -> row_id r = j -> j <> i -> r ∈ l.
Proof.
  intros Hr Hj Hne. destruct f; simpl in Hr; try (by apply elem_of_delete in Hr as [? _]); [done|].
  apply elem_of_update in Hr as (r0 & Hr0 & Hr). unfold key_is in Hr.
  destruct (bool_decide_reflect (row_id r0 = i)) as [<-|_]; [|by subst]. subst. by rewrite row_bump_id in Hne.
Qed.

Lemma running_step w0 ts t rem w w' :
  running w0 ts (t :: rem) w -> row_done t w w' ->
  running w0 ts rem w' /\ row_step (~ ids_room (length ts) w0) t (obs w) (obs w').
Proof using outcome_mono.
  intros [Hready Hroom Hrows Hids Hrest Hread] (Hw' & Hkept & f & l & rows & Ht & Hd & Hm & Ho).
  unfold obs in Ht, Hd. cbn [fst snd] in Ht, Hd. simpl in Hids. apply NoDup_cons in Hids as [Hni Hnd]. split.
  - split; [done|auto| |done|set_solver|].
    + intros r Hr Hi. rewrite Hd in Hr. unfold fated in Hr. rewrite row_get_put in Hr.
      apply Hrows; [|simpl; by right]. eapply elem_of_fate_table; [exact Hr|done|]. by intros He; rewrite He in Hi.
    + rewrite Hd. unfold fated. simpl. by rewrite row_put_read.
  - exists f, l, rows. split_and!; [done..|]. eapply outcome_mono; [|exact Ho].
    intros Hs Hr. exact (ids_room_unstuck _ _ (Hroom Hr) Hs).
Qed.

(** The row of an item still to come is the one it was read from. *)
Lemma running_row w0 ts t rem w r0 :
  running w0 ts (t :: rem) w -> unique_on row_id (row_get (w_db w0)) -> r0 ∈ row_get (w_db w0) -> row_id r0 = item_id t ->
  forall r, r ∈ row_get (w_db w) -> row_id r = item_id t -> r = r0.
Proof.
  intros Hrun Hu Hr0 Hi r Hr He. apply (unique_on_eq row_id (row_get (w_db w0))); [done| |done|congruence].
  apply (rn_rows _ _ _ _ Hrun); [done|]. rewrite He. simpl. by left.
Qed.
End Run.

(** ** Releases *)

#[export] Instance fn_table : RetryTable FailedNotification (FailedNotification * Z).
Proof.
  refine {| row_id := fn_id; row_count r := fn_RetryCount (fst r); row_bump := bump_fn;
            row_get := failed_notifications; row_put := set_failed_notifications;
            item_id := fn_ID; item_count := fn_RetryCount |}; try done; [by intros []|].
  intros f i rows d Hinv Hout Hb. pose proof (inv_fn_count d Hinv) as Hc. destruct Hinv. destruct f; split; simpl; try done;
    try (by apply unique_on_delete); try (by apply Forall_delete_where); try (by apply unique_on_update).
  rewrite Forall_forall in *. intros r (r0 & Hr0 & ->)%elem_of_update.
  specialize (Hc r0 Hr0). specialize (Hb eq_refl). rewrite exists_where_false in Hb.
  specialize (Hb r0 Hr0). destruct (key_is fn_id i r0); [|done]. unfold count_ok in *. simpl in *. lia.
Defined.

Section Releases.
Context {E : Env} {V : Validators} {P : PgxLib} {RS : ReleaseSender NotDB}.
Variables (baseURL : string) (cfg : RetryConfig).
Implicit Types (w : World NotDB) (d : NotDB).

Definition fn_sent_event (fn : FailedNotification) : NotificationReleaseSent :=
  {| nrs_SagaID := fn_SagaID fn; nrs_RepoName := fn_RepoName fn; nrs_Tag := fn_Tag fn; nrs_Email := fn_Email fn |}.
Definition fn_dead_event (fn : FailedNotification) : NotificationReleaseDead :=
  {| nrd_SagaID := fn_SagaID fn; nrd_RepoName := fn_RepoName fn; nrd_Tag := fn_Tag fn; nrd_Email := fn_Email fn;
     nrd_Reason := releaseDeadReason |}.

(** The messages a fate leaves in the outbox. *)
Definition fn_messages (fn : FailedNotification) (f : Fate) (rows : list OutboxRow) : Prop :=
  match f with
  | Delivered => exists row, rows = [row] /\ carries SubjectNotificationReleaseSent (fn_sent_event fn) row
  | DeadLettered => exists row, rows = [row] /\ carries SubjectNotificationReleaseDead (fn_dead_event fn) row
  | _ => rows = []
  end.

(** The sender was asked to deliver the row's message, with the recipient's
    present token, made the requests [l] and answered [res]. *)
Definition fn_answered (ctx : Ctx) (fn : FailedNotification) (tok : string) (res : BatchResult) (l : list Ext) : Prop :=
  exists w1 w2, snd_Release ctx
      [{| nt_To := fn_Email fn; nt_Repo := fn_RepoName fn; nt_Tag := fn_Tag fn; nt_ReleaseURL := fn_ReleaseURL fn;
          nt_UnsubscribeURL := UnsubscribeURL baseURL tok |}] w1 = (Ok res, w2) /\ w_trace w2 = w_trace w1 ++ l.

(** What decides a row's fate: the read model [m] and the sender's answer.  A
    row the code meant to change stays only for a reason. *)
Inductive fn_outcome (ctx : Ctx) (m : ReadMap) (stuck : Prop) (fn : FailedNotification) : Fate -> list Ext -> Prop :=
| FnUnread : db_faults -> fn_outcome ctx m stuck fn Kept []
| FnGone f :
    m !! (fn_Email fn, fn_RepoName fn) = None -> f = Dropped \/ (f = Kept /\ db_faults) ->
    fn_outcome ctx m stuck fn f []
| FnAccepted f tok res l :
    m !! (fn_Email fn, fn_RepoName fn) = Some tok -> fn_answered ctx fn tok res l ->
    0 < br_Sent res -> accepted_mail l (fn_Email fn) ->
    f = Delivered \/ (f = Kept /\ not_announced stuck (fn_sent_event fn)) ->
    fn_outcome ctx m stuck fn f l
| FnRefused f tok res l :
    m !! (fn_Email fn, fn_RepoName fn) = Some tok -> fn_answered ctx fn tok res l -> br_Sent res = 0 ->
    (if rt_MaxRetries cfg <=? fn_RetryCount fn + 1
     then f = DeadLettered \/ (f = Kept /\ not_announced stuck (fn_dead_event fn))
     else f = Bumped \/ (f = Kept /\ (db_faults \/ int32_max <= fn_RetryCount fn))) ->
    fn_outcome ctx m stuck fn f l.

Lemma fn_outcome_mono ctx m (s1 s2 : Prop) fn f l :
  (s1 -> s2) -> fn_outcome ctx m s1 fn f l -> fn_outcome ctx m s2 fn f l.
Proof.
  intros Hs [Hf|f' Hm Hf|f' tok res l' Hm Ha Hp Hacc Hf|f' tok res l' Hm Ha Hz Hf];
    [by apply FnUnread|by apply FnGone|eapply FnAccepted; try done|eapply FnRefused; try done].
  - destruct Hf as [?|[? ?]]; [by left|right]. split; [done|]. by eapply not_announced_mono.
  - destruct (_ <=? _); [|done]. destruct Hf as [?|[? ?]]; [by left|right]. split; [done|]. by eapply not_announced_mono.
Qed.

Notation fn_done ctx m := (row_done fn_messages (fn_outcome ctx m)).

(** The recipient of a failed delivery: its row in the read model. *)
Lemma wp_Recipient email repo (Q : res Recipient -> World NotDB -> Prop) w :
  not_inv (w_db w) ->
  (forall w' r, w_trace w' = w_trace w -> w_tx w' = w_tx w -> w_seq w' = w_seq w -> w_db w' = w_db w ->
     match r with
     | Ok rec => abs_read (w_db w) !! (email, repo) = Some (rc_UnsubToken rec)
     | Err e => if errors_Is e ErrNotFound then abs_read (w_db w) !! (email, repo) = None else db_faults
     end -> Q r w') ->
  wp (Recipient_ email repo) Q w.
Proof.
  intros Hinv HQ. unfold Recipient_. wp_steps. eapply wp_query_plain; [done|].
  intros w' Ht Htx Hs Hdb. split; [|intros Hf msg; by apply HQ]. cbn [map_err].
  unfold CollectExactlyOneRow. rewrite by_name_match by done.
  destruct (select_unique read_key (subscriptions_read (w_db w)) (email, repo)) as [Hn|(row & Hn & Hrow & Hk)];
    [apply Hinv|..]; rewrite Hn; wp_steps; apply HQ; try done; simpl.
  - unfold abs_read. apply table_map_absent, exists_where_false. intros row Hrow.
    destruct (key_is read_key (email, repo) row) eqn:Hk; [|done].
    assert (row ∈ select_where (key_is read_key (email, repo)) (subscriptions_read (w_db w))) as Hin
      by by apply elem_of_select.
    rewrite Hn in Hin. by apply elem_of_nil in Hin.
  - apply table_map_lookup; [apply Hinv|]. by exists row.
Qed.

(** Once the sender has answered. *)
Lemma fn_sent ctx m fn tok res w w2 l :
  txFromContext ctx = false -> retry_ready w -> attempted w w2 l ->
  m !! (fn_Email fn, fn_RepoName fn) = Some tok -> fn_answered ctx fn tok res l -> 0 < br_Sent res ->
  accepted_mail l (fn_Email fn) ->
  wp (deleteAndPublish ctx (fun txCtx => _ ← FN_Delete txCtx (fn_ID fn); pub_ReleaseSent txCtx (fn_sent_event fn)))
    (fun r w' => r = Ok tt /\ fn_done ctx m fn w w') w2.
Proof.
  intros Hctx Hw Ha Hm Hans Hpos Hacc.
  eapply (row_removal _ _ ctx _ _ fn _ (fn_sent_event fn) Delivered); [done..|by left|done|done| |].
  - intros row ?. by exists row.
  - intros f' Hf'. by eapply FnAccepted.
Qed.

Lemma fn_not_sent ctx m fn tok res w w2 l :
  txFromContext ctx = false -> retry_ready w -> attempted w w2 l -> count_ok (fn_RetryCount fn) ->
  (forall r, r ∈ failed_notifications (w_db w) -> fn_id r = fn_ID fn -> fn_RetryCount (fst r) = fn_RetryCount fn) ->
  m !! (fn_Email fn, fn_RepoName fn) = Some tok -> fn_answered ctx fn tok res l -> br_Sent res = 0 ->
  wp (if rt_MaxRetries cfg <=? wrap64 (fn_RetryCount fn + 1)
      then deleteAndPublish ctx (fun txCtx => _ ← FN_Delete txCtx (fn_ID fn); pub_ReleaseDead txCtx (fn_dead_event fn))
      else logged (FN_IncrementRetry (fn_ID fn)))
    (fun r w' => r = Ok tt /\ fn_done ctx m fn w w') w2.
Proof.
  intros Hctx Hw Ha Hc Hrow Hm Hans Hz.
  pose proof (fun f => FnRefused ctx m (ids_stuck w) fn f tok res l Hm Hans Hz) as Ho.
  rewrite retry_count_wrap by done. destruct (rt_MaxRetries cfg <=? fn_RetryCount fn + 1).
  - eapply (row_removal _ _ ctx _ _ fn _ (fn_dead_event fn) DeadLettered); [done..|by right|done|done| |exact Ho].
    intros row ?. by exists row.
  - by eapply (row_increment _ _ _ _ _ fn).
Qed.

Lemma retryRelease_spec ctx fn w :
  txFromContext ctx = false -> count_ok (fn_RetryCount fn) -> retry_ready w ->
  (forall r, r ∈ failed_notifications (w_db w) -> fn_id r = fn_ID fn -> fn_RetryCount (fst r) = fn_RetryCount fn) ->
  wp (retryRelease baseURL cfg ctx fn)
    (fun r w' => r = Ok tt /\ fn_done ctx (abs_read (w_db w)) fn w w') w.
Proof.
  intros Hctx Hc Hw Hrow. pose proof Hw as [Htx Hinv]. unfold retryRelease. wp_steps.
  apply wp_Recipient; [done|]. intros w1 r Ht1 Htx1 Hs1 Hdb1 Hr. rewrite Htx in Htx1.
  assert (attempted w w1 []) as Ha by (split_and!; [done..|by rewrite app_nil_r]). destruct r as [rec|e].
  - wp_steps. eapply wp_mono; [|apply wp_result, snd_Release_spec].
    intros r w2 (He & sent & failed & l & -> & Hp & Hm & Hs & _). cbn [br_Sent].
    destruct Hm as (Hdb2 & Htx2 & _ & Hs2 & _ & Ht2 & _).
    assert (attempted w w2 l) as Ha2 by (split_and!; congruence).
    assert (fn_answered ctx fn (rc_UnsubToken rec) {| br_Sent := Z.of_nat (length sent); br_Failed := failed |} l) as Hans
      by by exists w1, w2.
    destruct (Z.ltb_spec 0 (Z.of_nat (length sent))) as [Hpos|Hzero].
    + eapply fn_sent; [done..|].
      destruct sent as [|x sent]; [simpl in Hpos; lia|]. inversion Hs as [|? ? Hx]; subst.
      assert (x ∈ [fn_Email fn]) as Hx1%list_elem_of_singleton by (rewrite <- Hp; simpl; by left). by subst x.
    + eapply fn_not_sent; [done..|]. simpl. lia.
  - destruct (errors_Is e ErrNotFound).
    + unfold FN_Delete, FromContext. rewrite Hctx. eapply row_drop; [done..|]. intros f Hf. by apply FnGone.
    + wp_steps. split; [done|]. eapply row_kept; try done; [by apply room_kept_same|by apply FnUnread].
Qed.

(** The rows a run takes up. *)
Definition retryable_fn d : list FailedNotification :=
  map fst (order_by snd (select_where (fun r => fn_RetryCount (fst r) <? rt_MaxRetries cfg) (failed_notifications d))).

Lemma elem_of_retryable_fn d fn :
  fn ∈ retryable_fn d <-> exists r, r ∈ failed_notifications d /\ fst r = fn /\ fn_RetryCount fn < rt_MaxRetries cfg.
Proof.
  unfold retryable_fn. rewrite list_elem_of_fmap. setoid_rewrite order_by_perm. setoid_rewrite elem_of_select.
  setoid_rewrite Z.ltb_lt. naive_solver.
Qed.

Lemma retryable_fn_ids d : not_inv d -> NoDup (map fn_ID (retryable_fn d)).
Proof.
  intros Hinv. unfold retryable_fn. rewrite map_map, order_by_perm.
  pose proof (inv_fn d Hinv) as Hu. unfold unique_on in Hu.
  change (NoDup (map fn_id (select_where (fun r => fn_RetryCount (fst r) <? rt_MaxRetries cfg) (failed_notifications d)))).
  pose proof (unique_on_delete fn_id (fun r => negb (fn_RetryCount (fst r) <? rt_MaxRetries cfg)) _ Hu) as Hd.
  unfold delete_where, unique_on in Hd. erewrite filter_ext in Hd; [exact Hd|].
  intros r. simpl. by rewrite negb_involutive.
Qed.

Lemma Retrier_Releases_spec ctx w :
  txFromContext ctx = false -> retry_ready w ->
  wp (Retrier_Releases baseURL cfg ctx) (fun r w' => retry_ready w' /\
    ((is_ok r = false /\ db_faults /\ w_db w' = w_db w /\ w_trace w' = w_trace w) \/
     (r = Ok tt /\ exists fate ls, w_trace w' = w_trace w ++ concat ls /\
        let rows := retryable_fn (w_db w) in
        rows_run fn_messages (fn_outcome ctx (abs_read (w_db w))) (~ ids_room (length rows) w) rows fate ls
          (w_db w) (w_db w')))) w.
Proof.
  intros Hctx Hw. pose proof Hw as [Htx Hinv]. unfold Retrier_Releases, FN_ListRetryable. wp_steps.
  eapply wp_query_plain; [done|]. intros w1 Ht1 Htx1 Hs1 Hdb1.
  assert (retry_ready w1) as Hw1 by (split; [congruence|by rewrite Hdb1]).
  split; [|intros Hf msg; cbn [map_err is_ok]; split; [done|by left]].
  cbn [map_err]. wp_steps. rewrite CollectRows_match by done. apply wp_ret. fold (retryable_fn (w_db w)).
  cbn [map_err]. set (rows := retryable_fn (w_db w)).
  eapply wp_mono; [|apply (wp_for_each_rest (running w rows)
    (row_step fn_messages (fn_outcome ctx (abs_read (w_db w))) (~ ids_room (length rows) w)))].
  - intros r w2 (-> & Hw2 & Hch). split; [by destruct Hw2|]. right. split; [done|].
    apply rows_chain in Hch as (fate & ls & Ht & Hrun); [|by apply retryable_fn_ids]. unfold obs in Ht, Hrun. simpl in Ht, Hrun.
    exists fate, ls. rewrite Hdb1 in Hrun. split; [congruence|done].
  - intros fn rem w' Hrun. pose proof (rn_rest _ _ _ _ Hrun fn ltac:(by left)) as (r0 & Hr0 & Hfn & _)%elem_of_retryable_fn.
    replace (abs_read (w_db w)) with (abs_read (w_db w')) by (unfold abs_read; by rewrite (rn_read _ _ _ _ Hrun)).
    eapply wp_mono; [|apply retryRelease_spec; [done| |by destruct Hrun|]].
    + intros r w2 [-> Hd]. split; [done|]. eapply running_step; [by intros; eapply fn_outcome_mono|done..].
    + subst fn. pose proof (inv_fn_count _ Hinv) as Hc. rewrite Forall_forall in Hc. by apply Hc.
    + intros r Hr He. by rewrite (running_row w rows fn rem w' r0 Hrun (inv_fn _ Hinv) Hr0 (f_equal fn_ID Hfn) r Hr He), Hfn.
  - by apply running_start, retryable_fn_ids.
Qed.
End Releases.

(** ** Confirmations *)

Lemma select_delete {R} (p q : R -> bool) t :
  (forall r, r ∈ t -> q r = true -> p r = false) -> select_where p (delete_where q t) = select_where p t.
Proof.
  unfold select_where, delete_where. induction t as [|r t IH]; intros Hd; simpl; [done|].
  specialize (IH ltac:(set_solver)). specialize (Hd r ltac:(set_solver)).
  destruct (q r); simpl; [by rewrite Hd|by rewrite IH].
Qed.

(** A row taken up by the run: because its link has expired, or to retry. *)
Inductive Taken := Expired (fc : FailedConfirmation) | Retried (fc : FailedConfirmation).

Definition taken_row (t : Taken) : FailedConfirmation := match t with Expired fc | Retried fc => fc end.
Definition taken_id (t : Taken) : Z := fc_ID (taken_row t).
#[export] Instance fc_table : RetryTable Taken (FailedConfirmation * Z).
Proof.
  refine {| row_id := fc_id; row_count r := fc_RetryCount (fst r); row_bump := bump_fc;
            row_get := failed_confirmations; row_put := set_failed_confirmations;
            item_id := taken_id; item_count t := fc_RetryCount (taken_row t) |}; try done; [by intros []|].
  intros f i rows d Hinv Hout Hb. pose proof (inv_fc_count d Hinv) as Hc. destruct Hinv. destruct f; split; simpl; try done;
    try (by apply unique_on_delete); try (by apply Forall_delete_where); try (by apply unique_on_update).
  rewrite Forall_forall in *. intros r (r0 & Hr0 & ->)%elem_of_update.
  specialize (Hc r0 Hr0). specialize (Hb eq_refl). rewrite exists_where_false in Hb.
  specialize (Hb r0 Hr0). destruct (key_is fc_id i r0); [|done]. unfold count_ok in *. simpl in *. lia.
Defined.

Section Confirmations.
Context {E : Env} {V : Validators} {P : PgxLib} {CS : ConfirmationSender NotDB}.
Variable cfg : RetryConfig.
Implicit Types (w : World NotDB) (d : NotDB).

Definition dead_reason (t : Taken) : string :=
  match t with Expired _ => confirmationExpiredReason | Retried _ => confirmationDeadReason end.

Definition fc_sent_event (t : Taken) : NotificationConfirmationSent :=
  {| ncs_SagaID := fc_SagaID (taken_row t); ncs_Email := fc_Email (taken_row t) |}.
Definition fc_dead_event (t : Taken) : NotificationConfirmationDead :=
  {| ncd_SagaID := fc_SagaID (taken_row t); ncd_Email := fc_Email (taken_row t); ncd_Reason := dead_reason t |}.

Definition fc_messages (t : Taken) (f : Fate) (rows : list OutboxRow) : Prop :=
  match f with
  | Delivered => exists row, rows = [row] /\ carries SubjectNotificationConfirmationSent (fc_sent_event t) row
  | DeadLettered => exists row, rows = [row] /\ carries SubjectNotificationConfirmationDead (fc_dead_event t) row
  | _ => rows = []
  end.

(** The sender was asked to deliver the row's link, made the requests [l] and
    answered [r]. *)
Definition fc_answered (ctx : Ctx) (fc : FailedConfirmation) (r : res unit) (l : list Ext) : Prop :=
  exists w1 w2, snd_Confirmation ctx (fc_Email fc) (fc_RepoName fc) (fc_ConfirmURL fc) w1 = (r, w2) /\
    w_trace w2 = w_trace w1 ++ l.

(** What decides the fate of a row taken up: nothing is mailed for an expired
    one, the sender's answer decides the others.  A row stays only for a
    reason. *)
Inductive fc_outcome (ctx : Ctx) (stuck : Prop) : Taken -> Fate -> list Ext -> Prop :=
| FcExpired fc f :
    f = DeadLettered \/ (f = Kept /\ not_announced stuck (fc_dead_event (Expired fc))) ->
    fc_outcome ctx stuck (Expired fc) f []
| FcAccepted fc f l :
    fc_answered ctx fc (Ok tt) l -> accepted_mail l (fc_Email fc) ->
    f = Delivered \/ (f = Kept /\ not_announced stuck (fc_sent_event (Retried fc))) ->
    fc_outcome ctx stuck (Retried fc) f l
| FcRefused fc f e l :
    fc_answered ctx fc (Err e) l ->
    (if rt_MaxRetries cfg <=? fc_RetryCount fc + 1
     then f = DeadLettered \/ (f = Kept /\ not_announced stuck (fc_dead_event (Retried fc)))
     else f = Bumped \/ (f = Kept /\ (db_faults \/ int32_max <= fc_RetryCount fc))) ->
    fc_outcome ctx stuck (Retried fc) f l.

Lemma fc_outcome_mono ctx (s1 s2 : Prop) t f l : (s1 -> s2) -> fc_outcome ctx s1 t f l -> fc_outcome ctx s2 t f l.
Proof.
  intros Hs. destruct 1 as [fc f Hf|fc f l Ha Hacc Hf|fc f e l Ha Hf];
    [apply FcExpired|eapply FcAccepted; [done..|]|eapply FcRefused; [done|]; destruct (_ <=? _); [|done]];
    (destruct Hf as [?|[? ?]]; [by left|right; split; [done|by eapply not_announced_mono]]).
Qed.

Notation fc_done ctx := (row_done fc_messages (fc_outcome ctx)).

(** Dead-lettering, after the requests [l]. *)
Lemma deadLetter_spec ctx t w w2 l :
  txFromContext ctx = false -> retry_ready w -> attempted w w2 l ->
  (forall f, f = DeadLettered \/ (f = Kept /\ not_announced (ids_stuck w) (fc_dead_event t)) ->
     fc_outcome ctx (ids_stuck w) t f l) ->
  wp (deadLetterConfirmation ctx (dead_reason t) (taken_row t)) (fun r w' => r = Ok tt /\ fc_done ctx t w w') w2.
Proof.
  intros Hctx Hw Ha Ho. unfold deadLetterConfirmation.
  eapply (row_removal _ _ ctx _ _ t _ (fc_dead_event t) DeadLettered); [done..|by right|done|done| |exact Ho].
  intros row ?. by exists row.
Qed.

Lemma retryConfirmation_spec ctx fc w :
  txFromContext ctx = false -> count_ok (fc_RetryCount fc) -> retry_ready w ->
  (forall r, r ∈ failed_confirmations (w_db w) -> fc_id r = fc_ID fc -> fc_RetryCount (fst r) = fc_RetryCount fc) ->
  wp (retryConfirmation cfg ctx fc) (fun r w' => r = Ok tt /\ fc_done ctx (Retried fc) w w') w.
Proof.
  intros Hctx Hc Hw Hrow. pose proof Hw as [Htx Hinv]. unfold retryConfirmation. wp_steps.
  eapply wp_mono; [|apply wp_result, snd_Confirmation_spec]. intros r w1 (He & l & Hm & Hr).
  destruct Hm as (Hdb1 & Htx1 & _ & Hs1 & _ & Ht1 & _).
  assert (attempted w w1 l) as Ha by (split_and!; congruence).
  assert (fc_answered ctx fc r l) as Hans by by exists w, w1.
  destruct r as [[]|e].
  - eapply (row_removal _ _ ctx _ _ (Retried fc) _ (fc_sent_event (Retried fc)) Delivered); [done..|by left|done|done| |].
    + intros row ?. by exists row.
    + intros f Hf. by eapply FcAccepted.
  - pose proof (fun f => FcRefused ctx (ids_stuck w) fc f e l Hans) as Ho.
    rewrite retry_count_wrap by done. destruct (rt_MaxRetries cfg <=? fc_RetryCount fc + 1).
    + by apply (deadLetter_spec ctx (Retried fc) w w1 l).
    + by eapply (row_increment _ _ _ _ _ (Retried fc)).
Qed.

(** *** The rows a run takes up *)

Definition expired_at (cutoff : Z) (r : FailedConfirmation * Z) : bool := snd r <=? pg_time cutoff.
Definition retry_at (cutoff : Z) (r : FailedConfirmation * Z) : bool :=
  (fc_RetryCount (fst r) <? rt_MaxRetries cfg) && (pg_time cutoff <? snd r).

Definition listed_fc (p : FailedConfirmation * Z -> bool) d : list FailedConfirmation :=
  map fst (order_by snd (select_where p (failed_confirmations d))).

Definition taken_fc (cutoff : Z) d : list Taken :=
  map Expired (listed_fc (expired_at cutoff) d) ++ map Retried (listed_fc (retry_at cutoff) d).

Lemma elem_of_listed_fc p d fc :
  fc ∈ listed_fc p d <-> exists r, r ∈ failed_confirmations d /\ fst r = fc /\ p r = true.
Proof.
  unfold listed_fc. rewrite list_elem_of_fmap. setoid_rewrite order_by_perm. setoid_rewrite elem_of_select.
  naive_solver.
Qed.

Lemma listed_fc_ids p d : not_inv d -> NoDup (map fc_ID (listed_fc p d)).
Proof.
  intros Hinv. unfold listed_fc. rewrite map_map, order_by_perm.
  pose proof (unique_on_delete fc_id (fun r => negb (p r)) _ (inv_fc d Hinv)) as Hd.
  unfold delete_where, unique_on in Hd. erewrite filter_ext in Hd; [exact Hd|].
  intros r. simpl. by rewrite negb_involutive.
Qed.

Lemma taken_fc_ids cutoff d : not_inv d -> NoDup (map taken_id (taken_fc cutoff d)).
Proof.
  intros Hinv. unfold taken_fc. rewrite map_app, !map_map. apply NoDup_app.
  split_and!; [by apply listed_fc_ids| |by apply listed_fc_ids].
  intros i (fc1 & -> & (r1 & Hr1 & <- & Hp1)%elem_of_listed_fc)%list_elem_of_fmap
    (fc2 & He & (r2 & Hr2 & <- & Hp2)%elem_of_listed_fc)%list_elem_of_fmap.
  assert (r1 = r2) as <- by by apply (unique_on_eq fc_id (failed_confirmations d)); [apply Hinv|..].
  unfold expired_at, retry_at in *. lia.
Qed.

(** Dead-lettering expired rows does not change which rows are retried. *)
Definition expiry_frame cutoff d0 d : Prop :=
  failed_confirmations d ⊆ failed_confirmations d0 /\
  listed_fc (retry_at cutoff) d = listed_fc (retry_at cutoff) d0.

Lemma expired_step_frame ctx stuck cutoff d0 fc w w' :
  not_inv d0 -> fc ∈ listed_fc (expired_at cutoff) d0 ->
  row_step fc_messages (fc_outcome ctx) stuck (Expired fc) (obs w) (obs w') ->
  expiry_frame cutoff d0 (w_db w) -> expiry_frame cutoff d0 (w_db w').
Proof.
  intros Hinv (r0 & Hr0 & Hfc & Hexp)%elem_of_listed_fc (f & l & rows & _ & Hd & _ & Ho) [Hsub Hlist].
  unfold obs in Hd. cbn [fst] in Hd. rewrite Hd. inversion Ho as [? ? Hf| |]; subst.
  destruct Hf as [-> |[-> _]]; [|by split]. split; simpl.
  - intros r [Hr _]%elem_of_delete. by apply Hsub.
  - rewrite <- Hlist. unfold listed_fc. simpl. do 2 f_equal. apply select_delete. intros r Hr Hk%bool_decide_eq_true.
    assert (r = r0) as ->.
    { apply (unique_on_eq fc_id (failed_confirmations d0)); [apply Hinv|set_solver|done|]. done. }
    unfold expired_at, retry_at in *. lia.
Qed.

Lemma wp_list_fc pre1 pre2 p (Q : res (list FailedConfirmation) -> World NotDB -> Prop) w :
  (forall w', w_trace w' = w_trace w -> w_tx w' = w_tx w -> w_seq w' = w_seq w -> w_db w' = w_db w ->
     Q (Ok (listed_fc p (w_db w))) w' /\ (db_faults -> forall e, Q (Err e) w')) ->
  wp (rows ← wrapping pre1 (run QPool None (list_fc_stmt p)); collect_fc pre2 rows) Q w.
Proof.
  intros HQ. wp_steps. eapply wp_query_plain; [done|]. intros w' ? ? ? ?.
  split; [|intros Hf msg; by apply HQ]. cbn [map_err]. unfold collect_fc. wp_steps.
  rewrite CollectRows_match by done. apply wp_ret. by apply HQ.
Qed.

(** The rows a run takes up, when it started in [w0]. *)
Definition fc_stuck (ts : list Taken) w0 : Prop := ~ ids_room (length ts) w0.

Lemma deadLetters_spec ctx cutoff w0 w1 retried :
  txFromContext ctx = false -> not_inv (w_db w0) -> w_db w1 = w_db w0 ->
  let expired := listed_fc (expired_at cutoff) (w_db w0) in
  let ts := map Expired expired ++ retried in
  running w0 ts ts w1 ->
  wp (for_each expired (deadLetterConfirmation ctx confirmationExpiredReason))
    (fun r w' => r = Ok tt /\ (running w0 ts retried w' /\ expiry_frame cutoff (w_db w0) (w_db w')) /\
       chain (row_step fc_messages (fc_outcome ctx) (fc_stuck ts w0)) (map Expired expired) (obs w1) (obs w')) w1.
Proof.
  intros Hctx Hinv Hdb1. cbv zeta. set (expired := listed_fc _ _). set (ts := map Expired expired ++ retried). intros Hrun.
  eapply wp_mono; [|apply (wp_for_each_rest (fun rem w => rem ⊆ expired /\ running w0 ts (map Expired rem ++ retried) w /\
      expiry_frame cutoff (w_db w0) (w_db w)) (fun fc => row_step fc_messages (fc_outcome ctx) (fc_stuck ts w0) (Expired fc)))].
  - intros r w' (-> & (_ & Hrun' & Hfr) & Hch). split; [done|]. split; [done|]. by apply chain_map.
  - intros fc rem w (Hrem & Hrun' & Hfr). eapply wp_mono; [|apply (deadLetter_spec ctx (Expired fc) w w [])].
    + intros r w2 [-> Hd]. split; [done|].
      eapply running_step in Hd as [Hrun2 Hstep]; [|by intros; eapply fc_outcome_mono|exact Hrun'].
      split; [|exact Hstep]. split; [set_solver|]. split; [done|].
      eapply expired_step_frame; [exact Hinv| |exact Hstep|done]. apply Hrem. by left.
    + done.
    + by destruct Hrun'.
    + split_and!; [done..|apply Hrun'|by rewrite app_nil_r].
    + intros f Hf. by apply FcExpired.
  - split; [done|]. split; [done|]. rewrite Hdb1. by split.
Qed.

Lemma retries_spec ctx cutoff w0 ts w1 :
  txFromContext ctx = false -> not_inv (w_db w0) ->
  let rows := listed_fc (retry_at cutoff) (w_db w0) in
  running w0 ts (map Retried rows) w1 ->
  wp (for_each rows (retryConfirmation cfg ctx))
    (fun r w' => r = Ok tt /\ running w0 ts [] w' /\
       chain (row_step fc_messages (fc_outcome ctx) (fc_stuck ts w0)) (map Retried rows) (obs w1) (obs w')) w1.
Proof.
  intros Hctx Hinv. cbv zeta. set (rows := listed_fc _ _). intros Hrun.
  eapply wp_mono; [|apply (wp_for_each_rest (fun rem w => rem ⊆ rows /\ running w0 ts (map Retried rem) w)
     (fun fc => row_step fc_messages (fc_outcome ctx) (fc_stuck ts w0) (Retried fc)))].
  - intros r w' (-> & (_ & Hrun') & Hch). split; [done|]. split; [done|]. by apply chain_map.
  - intros fc rem w [Hrem Hrun'].
    assert (fc ∈ listed_fc (retry_at cutoff) (w_db w0)) as (r0 & Hr0 & Hfc & _)%elem_of_listed_fc by (apply Hrem; by left).
    eapply wp_mono; [|apply retryConfirmation_spec; [done| |by destruct Hrun'|]].
    + intros r w2 [-> Hd]. split; [done|].
      eapply running_step in Hd as [Hrun2 Hstep]; [|by intros; eapply fc_outcome_mono|exact Hrun'].
      split; [|exact Hstep]. split; [set_solver|done].
    + subst fc. pose proof (inv_fc_count _ Hinv) as Hc. rewrite Forall_forall in Hc. by apply Hc.
    + intros r Hr He.
      by rewrite (running_row w0 ts (Retried fc) (map Retried rem) w r0 Hrun' (inv_fc _ Hinv) Hr0 (f_equal fc_ID Hfc) r Hr He), Hfc.
  - by split.
Qed.

(** What a run leaves: each row it took up has met its fate. *)
Definition fc_ran ctx (taken ts : list Taken) (w : World NotDB) (r : res unit) (w' : World NotDB) : Prop :=
  retry_ready w' /\ (is_ok r = false -> db_faults) /\ exists fate ls,
    w_trace w' = w_trace w ++ concat ls /\
    rows_run fc_messages (fc_outcome ctx) (fc_stuck taken w) ts fate ls (w_db w) (w_db w') /\
    ts `prefix_of` taken /\ (is_ok r = true -> ts = taken).

Lemma fc_ran_intro ctx taken ts w w1 r w' :
  NoDup (map taken_id taken) -> w_trace w1 = w_trace w -> w_db w1 = w_db w ->
  chain (row_step fc_messages (fc_outcome ctx) (fc_stuck taken w)) ts (obs w1) (obs w') -> ts `prefix_of` taken ->
  retry_ready w' -> (is_ok r = false -> db_faults) -> (is_ok r = true -> ts = taken) ->
  fc_ran ctx taken ts w r w'.
Proof.
  intros Hnd Ht Hdb Hch Hpre Hw' Hf Hok. split; [done|]. split; [done|].
  apply rows_chain in Hch as (fate & ls & Ht' & Hr).
  - unfold obs in Ht', Hr. cbn [fst snd] in Ht', Hr. rewrite Hdb in Hr. exists fate, ls. split; [congruence|done].
  - destruct Hpre as [ts' ->]. rewrite map_app in Hnd. by apply NoDup_app in Hnd as (? & _ & _).
Qed.

Lemma Retrier_Confirmations_spec ctx w :
  txFromContext ctx = false -> retry_ready w ->
  wp (Retrier_Confirmations cfg ctx) (fun r w' => exists ts,
    fc_ran ctx (taken_fc (env_now (w_tick w) - rt_ConfirmationTTL cfg) (w_db w)) ts w r w') w.
Proof.
  intros Hctx Hw. pose proof Hw as [Htx Hinv]. unfold Retrier_Confirmations, time_Now. wp_steps.
  cbv zeta. set (cutoff := env_now (w_tick w) - rt_ConfirmationTTL cfg). set (taken := taken_fc cutoff (w_db w)).
  assert (NoDup (map taken_id taken)) as Hnd by by apply taken_fc_ids.
  apply wp_list_fc. intros w1 Ht1 Htx1 Hs1 Hdb1. simpl in Ht1, Htx1, Hs1, Hdb1.
  assert (running w taken taken w1) as Hrun by by apply running_start.
  split; [|intros Hf e; exists []; apply (fc_ran_intro _ _ _ _ w1); try done; [constructor|apply prefix_nil|by destruct Hrun]].
  cbn [map_err]. wp_steps. change (w_db (ticked w)) with (w_db w).
  eapply wp_mono; [|by apply (deadLetters_spec ctx cutoff w w1)]. intros r w2 (-> & [Hrun2 [_ Hlist]] & Hch1).
  wp_steps. apply wp_list_fc. intros w3 Ht3 Htx3 Hs3 Hdb3.
  apply (running_same _ _ _ _ w3) in Hrun2; [|done..].
  assert (obs w3 = obs w2) as Ho by (unfold obs; by rewrite Hdb3, Ht3). rewrite <- Ho in Hch1.
  split; cbn [map_err].
  - change (listed_fc _ (w_db w2)) with (listed_fc (retry_at cutoff) (w_db w2)). rewrite Hlist.
    eapply wp_mono; [|by apply (retries_spec ctx cutoff w taken w3)].
    intros r w4 (-> & Hrun4 & Hch2). exists taken. apply (fc_ran_intro _ _ _ _ w1); try done; [|by destruct Hrun4].
    eapply chain_app; [exact Hch1|exact Hch2].
  - intros Hf e. eexists. apply (fc_ran_intro _ _ _ _ w1); [done..|exact Hch1| |by destruct Hrun2|done|done]. by eexists.
Qed.
End Confirmations.
