(* ===== verification/NotifierTheorems.v ===== *)
(** * The notifier's guarantees *)

From S2P Require Import Prelude GoErrors Effects Wp Sql Json JsonFacts Events Broker Outbox Consumers Libs Subscription.
From S2P Require Import SubscriptionUse Mailer Notifier NotifierFacts RetryFacts Uuid Quiet Concrete.

Open Scope string_scope.
Open Scope list_scope.
Open Scope Z_scope.

Section Guarantees.
Context {E : Env} {V : Validators} {P : PgxLib} {RS : ReleaseSender NotDB} {CS : ConfirmationSender NotDB}.
Variable baseURL : string.
Implicit Types (w : World NotDB) (d : NotDB).

(** ** The consumers and the read model *)

Definition projected (f : ReadMap -> ReadMap) w (r : res unit) w' : Prop :=
  w_tx w' = None /\ not_inv (w_db w') /\ processed_releases (w_db w) `prefix_of` processed_releases (w_db w') /\
  ((abs_read (w_db w') = abs_read (w_db w) /\ retryable r = true) \/ abs_read (w_db w') = f (abs_read (w_db w))).

Lemma projected_frame w r w' :
  w_tx w' = None -> not_inv (w_db w') -> subscriptions_read (w_db w') = subscriptions_read (w_db w) ->
  processed_releases (w_db w) `prefix_of` processed_releases (w_db w') ->
  projected (fun m => m) w r w'.
Proof. intros ? ? Hs ?. split_and!; [done..|right]. unfold abs_read. by rewrite Hs. Qed.

Lemma projected_stmt pre1 pre2 (st : Stmt NotDB unit) f w :
  w_tx w = None -> not_inv (w_db w) ->
  (forall sc d', st sc (w_db w) = inr (tt, d') -> not_inv d' /\
     processed_releases d' = processed_releases (w_db w) /\ abs_read d' = f (abs_read (w_db w))) ->
  wp (wrapping pre1 (wrapping pre2 (run QPool None st))) (projected f w) w.
Proof.
  intros Htx Hinv Hst. wp_steps. apply wp_run_pool.
  - intros msg w' _ Htx' Hdb. split_and!; [congruence|by rewrite Hdb|by rewrite Hdb|left; by rewrite Hdb].
  - intros sc [] d w' Hd _ Htx' Hdb. destruct (Hst sc d Hd) as (Hinv' & Hpr & Habs). subst d.
    split; [|intros msg]; (split_and!; [congruence|done|by rewrite Hpr|by right]).
Qed.

Lemma release_outcome_frame inp w r w' :
  not_inv (w_db w) -> release_outcome inp w r w' ->
  w_tx w' = None /\ not_inv (w_db w') /\ subscriptions_read (w_db w') = subscriptions_read (w_db w) /\
  processed_releases (w_db w) `prefix_of` processed_releases (w_db w').
Proof.
  intros Hinv [Htx Ho]. split; [done|]. destruct (is_processed inp (w_db w)).
  - destruct Ho as [-> _]. done.
  - destruct Ho as (l & _ & [[-> _]|(res & [Hinv' (new & rows & note & at_ & Hd & _)] & _)]); [done|].
    split_and!; [done|by rewrite Hd|]. rewrite Hd. simpl. by apply prefix_app_r.
Qed.

Lemma consumer_projects spec ctx data w :
  spec ∈ notifier_startConsumers baseURL -> txFromContext ctx = false -> w_tx w = None -> not_inv (w_db w) ->
  wp (cs_Handler spec ctx data) (projected (read_spec (cs_Subject spec) data) w) w.
Proof.
  intros Hspec Hctx Htx Hinv. unfold notifier_startConsumers in Hspec.
  repeat (apply elem_of_cons in Hspec as [->|Hspec]); [..|by apply elem_of_nil in Hspec];
    unfold read_spec; cbn [cs_Handler cs_Subject]; simpl (String.eqb _ _); cbv iota;
    apply wp_decoded; try (intros e Hu; rewrite ?Hu; by apply projected_frame);
    intros ev Hu Hv; rewrite ?Hu.
  - eapply wp_mono; [|by apply SendConfirmation_outcome].
    intros r w' (Htx' & l & _ & [[Hdb Hr]|Hrec] & _).
    + apply projected_frame; rewrite ?Hdb; done.
    + destruct (confirmation_recorded_frame _ _ _ _ _ _ _ Hrec Hinv) as (? & ? & Hpr).
      apply projected_frame; [done..|by rewrite Hpr].
  - apply projected_stmt; [done..|]. intros sc d' Hst.
    split_and!; [by eapply upsert_inv| |by eapply upsert_abs].
    unfold upsert_stmt in Hst. injection Hst as <-. by destruct (exists_where _ _).
  - apply projected_stmt; [done..|]. intros sc d' Hst.
    split_and!; [by eapply read_delete_inv| |by eapply read_delete_abs].
    by injection Hst as <-.
  - wp_steps. eapply wp_mono; [|by apply NotifyRelease_outcome]. intros r w' Ho.
    apply release_outcome_frame in Ho as (? & ? & ? & ?); [|done].
    destruct r; [wp_steps|]; by apply projected_frame.
Qed.

(** The read model is the map of confirmed subscribers: whichever of the
    notifier's consumers handles whatever bytes, with any behaviour of the
    database and of SMTP, the tables keep their invariant, and the map
    (e-mail, repository) to unsubscribe token either stays (and the handler
    reports an error that makes the broker redeliver the message) or changes exactly as
    the decoded event says: a confirmation sets the entry, a removal deletes
    it, everything else leaves it.  Redelivery is therefore harmless. *)
Theorem notifier_read_model spec ctx data w :
  spec ∈ notifier_startConsumers baseURL -> txFromContext ctx = false -> w_tx w = None -> not_inv (w_db w) ->
  let '(r, w') := cs_Handler spec ctx data w in
  w_tx w' = None /\ not_inv (w_db w') /\
  ((abs_read (w_db w') = abs_read (w_db w) /\ retryable r = true) \/
   abs_read (w_db w') = read_spec (cs_Subject spec) data (abs_read (w_db w))).
Proof.
  intros Hs Hctx Htx Hinv. pose proof (consumer_projects spec ctx data w Hs Hctx Htx Hinv) as Hp.
  unfold wp in Hp. destruct (cs_Handler spec ctx data w). destruct Hp as (? & ? & _ & ?). done.
Qed.

(** ** Releases *)

(** C10: A detected release is recorded all or nothing.  If it was processed before,
    nothing is mailed and nothing changes.  Otherwise every confirmed
    subscriber of the repository is either counted as sent, and then SMTP
    accepted the message, or listed as failed; and the database either stays
    (and the handler fails, so the release is redelivered) or gains at once:
    one sent or failed message per subscriber, in order, the ReleaseNotified
    message with these counts, a failed row with retry count 0 for each
    failed subscriber that has none, and the processed mark. *)
Theorem release_outcome_atomic ctx inp w :
  txFromContext ctx = false -> w_tx w = None -> not_inv (w_db w) ->
  let '(r, w') := NotifyRelease_Execute baseURL ctx inp w in
  let rs := recipients_of (ri_RepoName inp) (w_db w) in
  if is_processed inp (w_db w) then w_db w' = w_db w /\ w_trace w' = w_trace w
  else exists l, w_trace w' = w_trace w ++ l /\
    ((w_db w' = w_db w /\ is_ok r = false) \/
     exists sent res new rows note at_,
       sent ++ br_Failed res ≡ₚ map rc_Email rs /\ br_Sent res = Z.of_nat (length sent) /\
       Forall (accepted_mail l) sent /\
       w_db w' =
         {| subscriptions_read := subscriptions_read (w_db w);
            failed_notifications := failed_notifications (w_db w) ++ new;
            failed_confirmations := failed_confirmations (w_db w);
            processed_releases := processed_releases (w_db w) ++
              [{| pr_repo_name := ri_RepoName inp; pr_tag := ri_Tag inp; pr_processed_at := at_ |}];
            not_outbox := not_outbox (w_db w) ++ rows ++ [note] |} /\
       Forall2 (outcome_row inp (list_to_set (br_Failed res))) rs rows /\
       carries SubjectReleaseNotified (release_notified_event inp res) note /\
       failures_kept inp (list_to_set (br_Failed res)) rs new (w_db w)).
Proof.
  intros Hctx Htx Hinv. pose proof (NotifyRelease_outcome baseURL ctx inp w Hctx Htx Hinv) as Ho.
  unfold wp in Ho. destruct (NotifyRelease_Execute baseURL ctx inp w) as [r w']. destruct Ho as [_ Ho].
  cbv zeta. cbn [fst snd] in Ho. destruct (is_processed inp (w_db w)); [done|].
  destruct Ho as (l & Ht & [?|(res & (_ & new & rows & note & at_ & Hd & H1 & H2 & H3) & (sent & Hs1 & Hs2 & Hs3) & _)]);
    exists l; (split; [done|]); [by left|right].
  exists sent, res, new, rows, note, at_. by split_and!.
Qed.
End Guarantees.

(** One delivery to some consumer of the notifier, whatever the outside world
    and the senders do. *)
Inductive notifier_delivery `{Validators} {P : PgxLib} (baseURL : string) : NotDB -> NotDB -> Prop :=
| NotifierDelivery (E : Env) (RS : ReleaseSender NotDB) (CS : ConfirmationSender NotDB) spec ctx data (w : World NotDB) :
    spec ∈ notifier_startConsumers baseURL -> txFromContext ctx = false -> w_tx w = None ->
    notifier_delivery baseURL (w_db w) (w_db (snd (cs_Handler spec ctx data w))).

Lemma deliveries_keep `{Validators} {P : PgxLib} baseURL d d' :
  rtc (notifier_delivery baseURL) d d' -> not_inv d ->
  not_inv d' /\ processed_releases d `prefix_of` processed_releases d'.
Proof.
  induction 1 as [d|d1 d2 d3 [E RS CS spec ctx data w Hs Hctx Htx] _ IH]; intros Hinv; [done|].
  destruct (consumer_projects baseURL spec ctx data w Hs Hctx Htx Hinv) as (_ & Hinv2 & Hpre & _).
  destruct (IH Hinv2) as [? ?]. split; [done|]. by etrans.
Qed.

(** C11: A release is announced once: after a delivery of the release message that the
    broker saw acknowledged, and any further deliveries to any of the
    notifier's consumers (each with its own outside world, failures included),
    a redelivery of a message for the same repository and tag mails nothing and
    changes nothing. *)
Theorem release_notified_once `{Validators} {P : PgxLib} baseURL
    {E1 E2 : Env} {RS1 RS2 : ReleaseSender NotDB} ctx ctx' data data' ev ev' (w w2 : World NotDB) :
  Unmarshal (T := ReleaseDetected) data = Ok ev -> Unmarshal (T := ReleaseDetected) data' = Ok ev' ->
  rd_RepoName ev' = rd_RepoName ev -> rd_Tag ev' = rd_Tag ev ->
  txFromContext ctx = false -> txFromContext ctx' = false -> w_tx w = None -> w_tx w2 = None -> not_inv (w_db w) ->
  let '(a, w1) := dispatch ctx (Notifier_HandleReleaseDetected (E := E1) (RS := RS1) baseURL) data w in
  a = Ok Ack -> rtc (notifier_delivery baseURL) (w_db w1) (w_db w2) ->
  let '(_, w3) := dispatch ctx' (Notifier_HandleReleaseDetected (E := E2) (RS := RS2) baseURL) data' w2 in
  w_db w3 = w_db w2 /\ w_trace w3 = w_trace w2.
Proof.
  intros Hu Hu' Hrepo Htag Hctx Hctx' Htx Htx2 Hinv.
  unfold dispatch, Notifier_HandleReleaseDetected, decoded. rewrite Hu, Hu'.
  set (inp := {| ri_SagaID := rd_SagaID ev |}). set (inp' := {| ri_SagaID := rd_SagaID ev' |}).
  pose proof (NotifyRelease_outcome (E := E1) (RS := RS1) baseURL (WithSagaID ctx (rd_SagaID ev)) inp w Hctx Htx Hinv) as Ho.
  unfold wp in Ho. unfold mbind, M_bind, attempt.
  destruct (NotifyRelease_Execute _ (WithSagaID ctx _) inp w) as [r w1]. cbn [fst snd] in Ho.
  destruct r as [res|e]; [|by simpl; destruct (errors_Is e ErrTerminal)].
  pose proof (release_outcome_frame _ _ _ _ Hinv Ho) as (_ & Hinv1 & _ & _).
  assert (is_processed inp (w_db w1) = true) as Hp.
  { destruct Ho as [_ Ho]. destruct (is_processed inp (w_db w)) eqn:Hp; [by destruct Ho as [-> _]|].
    destruct Ho as (l & _ & [[_ ?]|(res' & [_ (new & rows & note & at_ & Hd & _)] & _)]); [done|].
    unfold is_processed. rewrite Hd. apply exists_where_true. eexists.
    split; [simpl; apply elem_of_app; right; by apply list_elem_of_singleton|]. by apply bool_decide_eq_true_2. }
  cbn. intros _ Hh. destruct (deliveries_keep _ _ _ Hh Hinv1) as [Hinv2 [more Hpre]].
  assert (is_processed inp' (w_db w2) = true) as Hp2.
  { unfold is_processed in *. rewrite Hpre. cbn [inp' ri_RepoName ri_Tag]. rewrite Hrepo, Htag.
    unfold exists_where in *. rewrite existsb_app. apply orb_true_iff. left. exact Hp. }
  pose proof (NotifyRelease_outcome (E := E2) (RS := RS2) baseURL (WithSagaID ctx' (rd_SagaID ev')) inp' w2 Hctx' Htx2 Hinv2) as Ho2.
  unfold wp in Ho2. destruct (NotifyRelease_Execute _ (WithSagaID ctx' _) inp' w2) as [r3 w3]. cbn [fst snd] in Ho2.
  destruct Ho2 as [_ Ho2]. rewrite Hp2 in Ho2. destruct r3 as [|e]; cbn; [done|]. by destruct (errors_Is e ErrTerminal).
Qed.

Section Outcomes.
Context {E : Env} {V : Validators} {P : PgxLib} {RS : ReleaseSender NotDB} {CS : ConfirmationSender NotDB}.
Variables (baseURL : string) (cfg : RetryConfig).
Implicit Types (w : World NotDB) (d : NotDB).

(** C32: A confirmation e-mail's outcome is recorded all or nothing: either nothing is
    recorded and the handler fails, or SMTP accepted a message to the address
    and exactly one confirmation.sent message is enqueued, or exactly one
    confirmation.failed message with a non-empty reason is enqueued together
    with a failed row for the address and repository, which is new with retry
    count 0 unless one was there.  After success the relay is woken. *)
Theorem confirmation_outcome_atomic ctx sagaID email repo url w :
  txFromContext ctx = false -> w_tx w = None ->
  let '(r, w') := SendConfirmation_Execute ctx sagaID email repo url w in
  exists l, w_trace w' = w_trace w ++ l /\ (is_ok r = true -> w_nudge w' = true) /\
    ((w_db w' = w_db w /\ is_ok r = false) \/
     (accepted_mail l email /\ exists row,
        carries SubjectNotificationConfirmationSent {| ncs_SagaID := sagaID; ncs_Email := email |} row /\
        w_db w' = set_outbox (not_outbox (w_db w) ++ [row]) (w_db w)) \/
     (exists reason new row, reason <> "" /\
        carries SubjectNotificationConfirmationFailed
          {| ncf_SagaID := sagaID; ncf_Email := email; ncf_Reason := reason |} row /\
        w_db w' = set_outbox (not_outbox (w_db w) ++ [row])
                    (set_failed_confirmations (failed_confirmations (w_db w) ++ new) (w_db w)) /\
        Forall (fun f => fc_key f = (email, repo) /\ fc_SagaID (fst f) = sagaID /\
                         fc_ConfirmURL (fst f) = url /\ fc_RetryCount (fst f) = 0) new /\
        exists f, f ∈ failed_confirmations (w_db w) ++ new /\ fc_key f = (email, repo))).
Proof.
  intros Hctx Htx. pose proof (SendConfirmation_outcome ctx sagaID email repo url w Hctx Htx) as Ho.
  unfold wp in Ho. destruct (SendConfirmation_Execute ctx sagaID email repo url w) as [r w']. cbn [fst snd] in Ho.
  destruct Ho as (_ & l & Ht & Hrec & Hn). exists l. split_and!; [done..|].
  destruct Hrec as [?|[[Hm He]|(reason & Hne & sc & d1 & Ha & He)]]; [by left|right; left|right; right].
  - split; [done|]. by apply enqueued_carries in He.
  - apply enqueued_carries in He as (row & Hrow & Hd).
    apply add_fc_spec in Ha as (new & -> & Hnew & Hex). exists reason, new, row. by split_and!.
Qed.

(** C33: Every failed release delivery is accounted for.  A run of the retrier either
    cannot list the rows because the database failed, and changes nothing, or
    takes up every row below the retry limit and gives it the fate decided by
    the read model and the sender's answer: no longer a subscriber, dropped;
    SMTP accepted the message, removed with exactly one release.sent message;
    not accepted, count raised by one while that stays below the limit, else
    removed with exactly one release.dead message.  A row stays instead only
    if the database failed, the event is invalid, the outbox may have run out
    of ids, or the count is the largest integer.  Each row's requests are
    those of its own call of the sender.  Nothing else changes, and no count
    passes the limit. *)
Theorem release_retries_accounted ctx w :
  txFromContext ctx = false -> w_tx w = None -> not_inv (w_db w) ->
  let '(r, w') := Retrier_Releases baseURL cfg ctx w in
  let rows := retryable_fn cfg (w_db w) in
  not_inv (w_db w') /\
  ((is_ok r = false /\ db_faults /\ w_db w' = w_db w /\ w_trace w' = w_trace w) \/
   (r = Ok tt /\ exists fate ls msgs, w_trace w' = w_trace w ++ concat ls /\
      w_db w' = {| subscriptions_read := subscriptions_read (w_db w);
                   failed_notifications := survivors fn_id bump_fn fate (failed_notifications (w_db w));
                   failed_confirmations := failed_confirmations (w_db w);
                   processed_releases := processed_releases (w_db w);
                   not_outbox := not_outbox (w_db w) ++ concat msgs |} /\
      Forall2 (fun fn l => fn_outcome baseURL cfg ctx (abs_read (w_db w)) (~ ids_room (length rows) w)
                             fn (fate (fn_ID fn)) l) rows ls /\
      Forall2 (fun fn m => fn_messages fn (fate (fn_ID fn)) m) rows msgs /\
      (forall f, f ∈ failed_notifications (w_db w) -> rt_MaxRetries cfg <= fn_RetryCount (fst f) ->
         f ∈ failed_notifications (w_db w')) /\
      (forall f', f' ∈ failed_notifications (w_db w') ->
         f' ∈ failed_notifications (w_db w) \/ fn_RetryCount (fst f') < rt_MaxRetries cfg))).
Proof.
  intros Hctx Htx Hinv. pose proof (Retrier_Releases_spec baseURL cfg ctx w Hctx (conj Htx Hinv)) as Ho.
  unfold wp in Ho. destruct (Retrier_Releases baseURL cfg ctx w) as [r w']. cbn [fst snd] in Ho.
  destruct Ho as ([_ Hinv'] & [?|(-> & fate & ls & Ht & (msgs & Hm & Hd) & Hj & Hk)]); simpl in *.
  { split; [done|by left]. }
  assert (forall f, f ∈ failed_notifications (w_db w) -> fate (fn_id f) <> Kept ->
    fst f ∈ retryable_fn cfg (w_db w)) as Htaken.
  { intros f Hf Hne. destruct (decide (fn_id f ∈ map fn_ID (retryable_fn cfg (w_db w)))) as [Hin|Hni]; [|by destruct Hne; apply Hk].
    apply list_elem_of_fmap in Hin as (fn & He & Hfn). pose proof Hfn as (f2 & Hf2 & <- & _)%elem_of_retryable_fn.
    by rewrite (unique_on_eq fn_id (failed_notifications (w_db w)) f f2); [|apply Hinv|..]. }
  split; [done|right]. split; [done|]. exists fate, ls, msgs. split_and!; try done.
  - intros f Hf Hmax. rewrite Hd. simpl. unfold survivors. rewrite list_elem_of_In, in_flat_map.
    exists f. split; [by apply list_elem_of_In|].
    destruct (decide (fate (fn_id f) = Kept)) as [->|Hne]; [by left|].
    apply Htaken, elem_of_retryable_fn in Hne as (f2 & _ & ? & ?); [lia|done].
  - intros f' Hf'. rewrite Hd in Hf'. simpl in Hf'.
    apply elem_of_survivors in Hf' as (f & Hf & [[-> _]|[-> Hb]]); [by left|right].
    assert (fst f ∈ retryable_fn cfg (w_db w)) as Hin by (apply Htaken; [done|congruence]).
    apply list_elem_of_lookup in Hin as (i & Hi). destruct (Forall2_lookup_l _ _ _ _ _ Hj Hi) as (l & _ & Ho). fold (fn_id f) in Ho. rewrite Hb in Ho.
    inversion Ho as [|? _ Hf'|? ? ? ? _ _ _ _ Hf'|? ? ? ? _ _ _ Hf']; [naive_solver..|].
    simpl. destruct (Z.leb_spec (rt_MaxRetries cfg) (fn_RetryCount (fst f) + 1)); naive_solver lia.
Qed.

(** C34: Every failed confirmation is accounted for.  A run of the retrier takes up,
    in this order, the rows older than the confirmation link's lifetime and
    the younger rows below the retry limit; it stops early only if the
    database failed.  An expired row is removed with exactly one
    confirmation.dead message, and nothing is mailed for it.  For a retried
    row the sender's answer decides: accepted, removed with one
    confirmation.sent message; refused, count raised by one while that stays
    below the limit, else removed with one confirmation.dead message.  A row
    stays instead only if the database failed, the event is invalid, the
    outbox may have run out of ids, or the count is the largest integer.
    Nothing else changes. *)
Theorem confirmation_retries_accounted ctx w :
  txFromContext ctx = false -> w_tx w = None -> not_inv (w_db w) ->
  let '(r, w') := Retrier_Confirmations cfg ctx w in
  let taken := taken_fc cfg (env_now (w_tick w) - rt_ConfirmationTTL cfg) (w_db w) in
  not_inv (w_db w') /\ exists ts fate ls msgs,
    ts `prefix_of` taken /\ (is_ok r = true -> ts = taken) /\ (is_ok r = false -> db_faults) /\
    w_trace w' = w_trace w ++ concat ls /\
    w_db w' = {| subscriptions_read := subscriptions_read (w_db w);
                 failed_notifications := failed_notifications (w_db w);
                 failed_confirmations := survivors fc_id bump_fc fate (failed_confirmations (w_db w));
                 processed_releases := processed_releases (w_db w);
                 not_outbox := not_outbox (w_db w) ++ concat msgs |} /\
    Forall2 (fun t l => fc_outcome cfg ctx (~ ids_room (length taken) w) t (fate (taken_id t)) l) ts ls /\
    Forall2 (fun t m => fc_messages t (fate (taken_id t)) m) ts msgs /\
    (forall f, f ∈ failed_confirmations (w_db w) -> fc_id f ∉ map taken_id ts -> f ∈ failed_confirmations (w_db w')).
Proof.
  intros Hctx Htx Hinv. pose proof (Retrier_Confirmations_spec cfg ctx w Hctx (conj Htx Hinv)) as Ho.
  unfold wp in Ho. destruct (Retrier_Confirmations cfg ctx w) as [r w']. cbn [fst snd] in Ho.
  destruct Ho as (ts & [_ Hinv'] & Hf & fate & ls & Ht & ((msgs & Hm & Hd) & Hj & Hk) & Hpre & Hok); simpl in *.
  split; [done|]. exists ts, fate, ls, msgs. split_and!; try done.
  intros f Hin Hni. rewrite Hd. simpl. unfold survivors. rewrite list_elem_of_In, in_flat_map.
  exists f. split; [by apply list_elem_of_In|]. rewrite Hk by done. by left.
Qed.

(** A second failure for the same address and repository is not recorded: whatever
    happens while a confirmation is sent for a new saga, a failed row that is
    already there keeps its saga id, link and count, and no row for the new
    saga is added.  The retrier's later dead message therefore names the old
    saga. *)
Theorem stale_failed_confirmation ctx sagaID email repo url w :
  txFromContext ctx = false -> w_tx w = None ->
  exists_where (key_is fc_key (email, repo)) (failed_confirmations (w_db w)) = true ->
  let '(_, w') := SendConfirmation_Execute ctx sagaID email repo url w in
  failed_confirmations (w_db w') = failed_confirmations (w_db w).
Proof.
  intros Hctx Htx Hex. pose proof (SendConfirmation_outcome ctx sagaID email repo url w Hctx Htx) as Ho.
  unfold wp in Ho. destruct (SendConfirmation_Execute ctx sagaID email repo url w) as [r w']. cbn [fst snd] in Ho.
  destruct Ho as (_ & l & _ & [[Hdb _]|[[_ He]|(reason & _ & sc & d1 & Ha & He)]] & _); simpl in *.
  - by rewrite Hdb.
  - by destruct He as (_ & ? & ? & _ & ->).
  - destruct He as (_ & ? & ? & _ & ->). simpl. unfold add_fc_stmt in Ha. cbv zeta in Ha.
    destruct (identity_exhausted _); [done|]. unfold fc_key at 2 in Ha. simpl in Ha. rewrite Hex in Ha.
    by injection Ha as <-.
Qed.

(** What maintenance may do to the database. *)
Definition maintained (processedTTL : Z) (d d' : NotDB) : Prop :=
  not_inv d' /\ subscriptions_read d' = subscriptions_read d /\
  (forall p, p ∈ processed_releases d' -> p ∈ processed_releases d) /\
  (forall p, p ∈ processed_releases d ->
     p ∈ processed_releases d' \/ exists n, pr_processed_at p < pg_time (env_now n - processedTTL)).

Lemma maintained_same processedTTL d d' :
  not_inv d' -> subscriptions_read d' = subscriptions_read d -> processed_releases d' = processed_releases d ->
  maintained processedTTL d d'.
Proof. intros Hi Hs Hp. unfold maintained. rewrite Hp. auto. Qed.

Lemma maintained_trans processedTTL d1 d2 d3 :
  maintained processedTTL d1 d2 -> maintained processedTTL d2 d3 -> maintained processedTTL d1 d3.
Proof.
  intros (_ & Hs & Hin & Hout) (Hi & Hs' & Hin' & Hout'). split_and!; [done|congruence|auto|].
  intros p Hp. destruct (Hout p Hp); auto.
Qed.

Lemma maintained_pruned processedTTL n d :
  not_inv d -> maintained processedTTL d
    (set_processed (delete_where (fun p => pr_processed_at p <? pg_time (env_now n - processedTTL))
                      (processed_releases d)) d).
Proof.
  intros Hi. split_and!; [|done|simpl..].
  - destruct Hi. split; simpl; try done. by apply unique_on_delete.
  - intros p [Hp _]%elem_of_delete. done.
  - intros p Hp. destruct (pr_processed_at p <? pg_time (env_now n - processedTTL)) eqn:Hlt.
    + right. exists n. lia.
    + left. by apply elem_of_delete.
Qed.

Lemma maintenanceTick_spec processedTTL ctx w :
  txFromContext ctx = false -> retry_ready w ->
  wp (maintenanceTick baseURL cfg processedTTL ctx) (fun r w' =>
    r = Ok tt /\ retry_ready w' /\ maintained processedTTL (w_db w) (w_db w')) w.
Proof.
  intros Hctx Hw. unfold maintenanceTick. wp_steps. apply wp_logged.
  eapply wp_mono; [|by apply Retrier_Releases_spec]. intros r1 w1 (Hw1 & Hr1).
  wp_steps. apply wp_logged. eapply wp_mono; [|by apply Retrier_Confirmations_spec].
  intros r2 w2 (ts & Hw2 & _ & fate & ls & _ & ((msgs & _ & Hd2) & _) & _).
  assert (maintained processedTTL (w_db w) (w_db w2)) as Hm.
  { apply maintained_same; [apply Hw2|rewrite Hd2; simpl..];
      destruct Hr1 as [(_ & _ & -> & _)|(_ & fate1 & l1 & _ & (msgs1 & _ & ->) & _)]; done. }
  unfold time_Now. wp_steps. apply wp_logged. unfold DeleteProcessedBefore. wp_steps.
  destruct Hw2 as [Htx2 Hinv2]. apply wp_run_pool.
  - intros msg w3 _ Htx3 Hdb3. simpl in Hdb3, Htx3. unfold retry_ready. rewrite Hdb3, Htx3. done.
  - intros sc n d w3 Hst _ Htx3 Hdb3. unfold prune_stmt in Hst. injection Hst as _ <-. simpl in Htx3, Hdb3.
    pose proof (maintained_pruned processedTTL (w_tick w2) (w_db w2) Hinv2) as Hp.
    assert (retry_ready w3) as Hw3 by (split; [congruence|rewrite Hdb3; apply Hp]).
    split; [|intros msg]; (split_and!; [done..|]); rewrite Hdb3; by eapply maintained_trans.
Qed.

Lemma runMaintenance_spec processedTTL signals ctx w :
  txFromContext ctx = false -> w_tx w = None -> not_inv (w_db w) ->
  wp (runMaintenance baseURL cfg processedTTL signals ctx)
    (fun r w' => r = Ok tt /\ maintained processedTTL (w_db w) (w_db w')) w.
Proof.
  intros Hctx Htx Hinv. unfold runMaintenance.
  apply (wp_mono _ (fun r w' => r = Ok tt /\ retry_ready w' /\ maintained processedTTL (w_db w) (w_db w')));
    [by intros r w' (? & _ & ?)|].
  apply wp_ticker_loop; [|by split; [|apply maintained_same]].
  intros w1 [Hw1 Hm1]. eapply wp_mono; [|by apply maintenanceTick_spec].
  intros r' w2 (-> & Hw2 & Hm2). split_and!; [done..|]. by eapply maintained_trans.
Qed.

(** C35: Maintenance never fails and touches only what it should: over any run of
    the loop, whatever the database and SMTP do in its ticks, the tables keep
    their invariant, the read model stays, no processed mark appears, and a mark
    that is gone was older than the retention period at some reading of the
    clock. *)
Theorem maintenance_run_safe processedTTL signals ctx w :
  txFromContext ctx = false -> w_tx w = None -> not_inv (w_db w) ->
  let '(r, w') := runMaintenance baseURL cfg processedTTL signals ctx w in
  r = Ok tt /\ maintained processedTTL (w_db w) (w_db w').
Proof.
  intros Hctx Htx Hinv. pose proof (runMaintenance_spec processedTTL signals ctx w Hctx Htx Hinv) as Hm.
  unfold wp in Hm. by destruct (runMaintenance baseURL cfg processedTTL signals ctx w).
Qed.
End Outcomes.

(** ** Witnesses *)

(** Addresses are accepted when they contain an at sign. *)
#[export] Instance simple_mail : MailLib :=
  {| mail_addr_error s := if has_byte 64 s then None else Some "mail: missing '@' or angle-addr" |}.

Definition demo_RS (E : Env) : ReleaseSender NotDB := Mailer_ReleaseSender (E := E) "releases@example.test".
Definition demo_CS (E : Env) : ConfirmationSender NotDB := Mailer_ConfirmationSender (E := E) "releases@example.test".

Definition demo_base : string := "https://notify.example.test".
Definition demo_saga_text : string := hex_EncodeToString "0123456789abcdef".

Definition demo_failed_fn (id count : Z) : FailedNotification :=
  {| fn_ID := id; fn_SagaID := demo_saga_text; fn_RepoName := "golang/go"; fn_Tag := "v1.0"; fn_ReleaseURL := "https://g.test/1";
     fn_Email := "ann@example.test"; fn_Reason := failureReason; fn_RetryCount := count |}.
Definition demo_failed_fc : FailedConfirmation :=
  {| fc_ID := 100; fc_SagaID := demo_saga_text; fc_Email := "ann@example.test"; fc_RepoName := "golang/go";
     fc_ConfirmURL := "https://g.test/c"; fc_Reason := "550"; fc_RetryCount := 2 |}.

(** Two subscribers of one repository; one failed delivery of each kind. *)
Definition demo_not : NotDB :=
  {| subscriptions_read :=
       [{| rr_email := "ann@example.test"; rr_repo_name := "golang/go"; rr_unsub_token := "aa" |};
        {| rr_email := "bob@example.test"; rr_repo_name := "golang/go"; rr_unsub_token := "bb" |}];
     failed_notifications := [(demo_failed_fn 100 2, 5)];
     failed_confirmations := [(demo_failed_fc, 7)];
     processed_releases := []; not_outbox := [] |}.

Lemma demo_not_inv : not_inv demo_not.
Proof.
  split; try apply NoDup_singleton; try apply NoDup_nil; try done;
    try (repeat constructor; vm_compute; by (split; congruence) || congruence).
  apply NoDup_cons. split; [|apply NoDup_singleton]. intros [=]%list_elem_of_singleton.
Qed.

Definition demo_release : ReleaseDetected :=
  {| rd_SagaID := demo_saga_text; rd_RepoName := "golang/go"; rd_Tag := "v2.0"; rd_ReleaseURL := "https://g.test/2" |}.
Definition demo_input : ReleaseInput :=
  {| ri_SagaID := demo_saga_text; ri_RepoName := "golang/go"; ri_Tag := "v2.0"; ri_ReleaseURL := "https://g.test/2" |}.

(** SMTP refuses the second message of the batch. *)
Definition demo_smtp : Env := env_with [] [] [] [5%nat].

Lemma release_outcome_atomic_witness :
  exists w' res, NotifyRelease_Execute (E := demo_smtp) (RS := demo_RS demo_smtp) demo_base Background demo_input
      (world_of demo_not) = (Ok res, w') /\
    br_Sent res = 1 /\ br_Failed res = ["bob@example.test"] /\ length (not_outbox (w_db w')) = 3%nat /\
    exists at_, processed_releases (w_db w') =
      [{| pr_repo_name := "golang/go"; pr_tag := "v2.0"; pr_processed_at := at_ |}].
Proof.
  pose proof (release_outcome_atomic (E := demo_smtp) (RS := demo_RS demo_smtp) demo_base Background demo_input
    (world_of demo_not) eq_refl eq_refl demo_not_inv) as H.
  assert (exists res w', NotifyRelease_Execute (E := demo_smtp) (RS := demo_RS demo_smtp) demo_base Background demo_input
    (world_of demo_not) = (Ok res, w') /\ br_Sent res = 1 /\ br_Failed res = ["bob@example.test"] /\
    length (not_outbox (w_db w')) = 3%nat) as (res & w' & He & Hrest)
    by (vm_compute; eexists _, _; repeat split; reflexivity).
  rewrite He in H.
  assert (is_processed demo_input (w_db (world_of demo_not)) = false) as Hp by (vm_compute; reflexivity).
  cbv zeta in H. rewrite Hp in H. destruct H as (l & _ & [[_ [=]]|H]).
  destruct H as (sent & res' & new & rows & note & at_ & _ & _ & _ & Hd & _).
  exists w', res. destruct Hrest as (? & ? & ?). split_and!; [done..|]. exists at_. by rewrite Hd.
Defined.

Lemma notifier_read_model_witness :
  let data := encode_event {| sc_SagaID := demo_saga_text; sc_Email := "eve@example.test"; sc_RepoName := "golang/go";
                              sc_UnsubToken := "cc" |} in
  let '(r, w') := Notifier_HandleConfirmed (E := quiet_env) Background data (world_of demo_not) in
  r = Ok tt /\ not_inv (w_db w') /\ abs_read (w_db w') !! ("eve@example.test", "golang/go") = Some "cc".
Proof.
  cbv zeta. set (data := encode_event _).
  pose proof (notifier_read_model (E := quiet_env) (RS := demo_RS quiet_env) (CS := demo_CS quiet_env) demo_base
    {| cs_Stream := StreamSubscriptions; cs_Durable := "notifier-subscription-confirmed";
       cs_Subject := SubjectSubscriptionConfirmed; cs_Handler := Notifier_HandleConfirmed (E := quiet_env) |}
    Background data (world_of demo_not) ltac:(right; left) eq_refl eq_refl demo_not_inv) as H.
  cbn [cs_Handler cs_Subject] in H.
  assert (fst (Notifier_HandleConfirmed (E := quiet_env) Background data (world_of demo_not)) = Ok tt) as Hr
    by (vm_compute; reflexivity).
  destruct (Notifier_HandleConfirmed Background data (world_of demo_not)) as [r w']. simpl in Hr. subst r.
  destruct H as (_ & Hinv & [[_ [=]]|Habs]). split_and!; [done..|]. rewrite Habs. vm_compute. reflexivity.
Defined.

(** The redelivery happens in a fresh world on the database the first left. *)
Lemma release_notified_once_witness :
  let '(a, w1) := dispatch Background
    (Notifier_HandleReleaseDetected (E := demo_smtp) (RS := demo_RS demo_smtp) demo_base)
    (encode_event demo_release) (world_of demo_not) in
  a = Ok Ack /\
  let '(_, w3) := dispatch Background
    (Notifier_HandleReleaseDetected (E := quiet_env) (RS := demo_RS quiet_env) demo_base)
    (encode_event demo_release) (world_of (w_db w1)) in
  w_db w3 = w_db w1 /\ w_trace w3 = [].
Proof.
  assert (Unmarshal (T := ReleaseDetected) (encode_event demo_release) = Ok demo_release) as Hu
    by (vm_compute; reflexivity).
  pose proof (fun w2 Htx2 => release_notified_once demo_base (E1 := demo_smtp) (E2 := quiet_env)
    (RS1 := demo_RS demo_smtp) (RS2 := demo_RS quiet_env) Background Background _ _ demo_release demo_release
    (world_of demo_not) w2 Hu Hu eq_refl eq_refl eq_refl eq_refl eq_refl Htx2 demo_not_inv) as H.
  assert (fst (dispatch Background (Notifier_HandleReleaseDetected (E := demo_smtp) (RS := demo_RS demo_smtp) demo_base)
    (encode_event demo_release) (world_of demo_not)) = Ok Ack) as Ha by (vm_compute; reflexivity).
  destruct (dispatch Background (Notifier_HandleReleaseDetected _) _ (world_of demo_not)) as [a w1].
  simpl in Ha. split; [done|]. exact (H (world_of (w_db w1)) eq_refl Ha (rtc_refl _ _)).
Defined.

(** SMTP refuses the only message. *)
Definition demo_refused : Env := env_with [] [] [] [2%nat].

Lemma confirmation_outcome_atomic_witness :
  exists w', SendConfirmation_Execute (E := demo_refused) (CS := demo_CS demo_refused) Background demo_saga_text
      "eve@example.test" "golang/go" "https://g.test/c" (world_of demo_not) = (Ok tt, w') /\
    w_nudge w' = true /\ length (failed_confirmations (w_db w')) = 2%nat /\ length (not_outbox (w_db w')) = 1%nat.
Proof.
  pose proof (confirmation_outcome_atomic (E := demo_refused) (CS := demo_CS demo_refused) Background demo_saga_text
    "eve@example.test" "golang/go" "https://g.test/c" (world_of demo_not) eq_refl eq_refl) as H.
  assert (exists w', SendConfirmation_Execute (E := demo_refused) (CS := demo_CS demo_refused) Background demo_saga_text
      "eve@example.test" "golang/go" "https://g.test/c" (world_of demo_not) = (Ok tt, w') /\
    length (failed_confirmations (w_db w')) = 2%nat /\ length (not_outbox (w_db w')) = 1%nat) as (w' & He & Hl)
    by (vm_compute; eexists; repeat split; reflexivity).
  rewrite He in H. destruct H as (l & _ & Hn & _). exists w'. split_and!; [done|by apply Hn|apply Hl..].
Defined.

(** At a limit of 3 the failed release of [demo_not] dies on its next failure. *)
Definition demo_retry : RetryConfig := {| rt_MaxRetries := 3; rt_ConfirmationTTL := 1 |}.

(** Three failed releases: one SMTP refuses again, one it accepts, and one
    whose recipient has unsubscribed. *)
Definition demo_failed_to (id count : Z) (email : string) : FailedNotification * Z :=
  ({| fn_ID := id; fn_SagaID := demo_saga_text; fn_RepoName := "golang/go"; fn_Tag := "v1.0"; fn_ReleaseURL := "https://g.test/1";
      fn_Email := email; fn_Reason := failureReason; fn_RetryCount := count |}, 5 + id).

Definition demo_failures : NotDB :=
  set_failed_notifications [demo_failed_to 100 0 "ann@example.test"; demo_failed_to 101 2 "bob@example.test";
                            demo_failed_to 102 1 "eve@example.test"] demo_not.

Lemma demo_failures_inv : not_inv demo_failures.
Proof.
  destruct demo_not_inv. split; try done; try (repeat constructor; vm_compute; by (split; congruence) || congruence);
    unfold unique_on; simpl; repeat (apply NoDup_cons; split; [set_solver|]); constructor.
Qed.

(** SMTP refuses the first message. *)
Definition demo_first_refused : Env := env_with [] [] [] [4%nat].

Lemma release_retries_accounted_witness :
  exists w' fate ls, Retrier_Releases (E := demo_first_refused) (RS := demo_RS demo_first_refused) demo_base demo_retry
      Background (world_of demo_failures) = (Ok tt, w') /\ not_inv (w_db w') /\
    failed_notifications (w_db w') = [demo_failed_to 100 1 "ann@example.test"] /\
    map om_subject (not_outbox (w_db w')) = [SubjectNotificationReleaseSent] /\
    Forall2 (fun fn l => fn_outcome (E := demo_first_refused) (RS := demo_RS demo_first_refused) demo_base demo_retry
               Background (abs_read demo_failures) (~ ids_room 3 (world_of demo_failures)) fn (fate (fn_ID fn)) l)
      (map fst (failed_notifications demo_failures)) ls.
Proof.
  set (E0 := demo_first_refused).
  pose proof (release_retries_accounted (E := E0) (RS := demo_RS E0) demo_base demo_retry Background
    (world_of demo_failures) eq_refl eq_refl demo_failures_inv) as H.
  assert (exists w', Retrier_Releases (E := E0) (RS := demo_RS E0) demo_base demo_retry Background
    (world_of demo_failures) = (Ok tt, w') /\ failed_notifications (w_db w') = [demo_failed_to 100 1 "ann@example.test"] /\
    map om_subject (not_outbox (w_db w')) = [SubjectNotificationReleaseSent]) as (w' & He & Hf & Hl)
    by (vm_compute; eexists; repeat split; reflexivity).
  rewrite He in H. cbv zeta in H.
  replace (retryable_fn demo_retry (w_db (world_of demo_failures))) with (map fst (failed_notifications demo_failures)) in H
    by (vm_compute; reflexivity).
  destruct H as [Hinv [[[=] _]|(_ & fate & ls & msgs & _ & _ & Ho & _)]]. exists w', fate, ls. split_and!; done.
Defined.

(** SMTP cannot be reached. *)
Definition demo_smtp_down : Env := env_with [] [] [0; 1; 2; 3; 4; 5]%nat [].

(** With a longer lifetime of the link the confirmation of [demo_not] is
    retried; at a limit of 4 a refusal raises its count. *)
Definition demo_patient : RetryConfig := {| rt_MaxRetries := 4; rt_ConfirmationTTL := 1000000000 * 2000 |}.

Lemma confirmation_retries_accounted_witness :
  (exists w', Retrier_Confirmations (E := quiet_env) (CS := demo_CS quiet_env) demo_retry Background
      (world_of demo_not) = (Ok tt, w') /\
    not_inv (w_db w') /\ failed_confirmations (w_db w') = [] /\
    map om_subject (not_outbox (w_db w')) = [SubjectNotificationConfirmationDead]) /\
  (exists w' fate ls, Retrier_Confirmations (E := quiet_env) (CS := demo_CS quiet_env) demo_patient Background
      (world_of demo_not) = (Ok tt, w') /\ failed_confirmations (w_db w') = [] /\
    map om_subject (not_outbox (w_db w')) = [SubjectNotificationConfirmationSent] /\
    Forall2 (fun t l => fc_outcome (E := quiet_env) (CS := demo_CS quiet_env) demo_patient Background
               (~ ids_room 1 (world_of demo_not)) t (fate (taken_id t)) l) [Retried demo_failed_fc] ls) /\
  (exists w', Retrier_Confirmations (E := demo_smtp_down) (CS := demo_CS demo_smtp_down) demo_patient Background
      (world_of demo_not) = (Ok tt, w') /\ map (fun f => fc_RetryCount (fst f)) (failed_confirmations (w_db w')) = [3] /\
    not_inv (w_db w')).
Proof.
  pose proof (fun E0 cfg => confirmation_retries_accounted (E := E0) (CS := demo_CS E0) cfg Background
    (world_of demo_not) eq_refl eq_refl demo_not_inv) as H.
  split_and!; [specialize (H quiet_env demo_retry)|specialize (H quiet_env demo_patient)|specialize (H demo_smtp_down demo_patient)].
  - assert (exists w', Retrier_Confirmations (E := quiet_env) (CS := demo_CS quiet_env) demo_retry Background
      (world_of demo_not) = (Ok tt, w') /\ failed_confirmations (w_db w') = [] /\
      map om_subject (not_outbox (w_db w')) = [SubjectNotificationConfirmationDead]) as (w' & He & Hl)
      by (vm_compute; eexists; repeat split; reflexivity).
    rewrite He in H. destruct H as [Hinv _]. exists w'. split_and!; [done..|apply Hl|apply Hl].
  - assert (exists w', Retrier_Confirmations (E := quiet_env) (CS := demo_CS quiet_env) demo_patient Background
      (world_of demo_not) = (Ok tt, w') /\ failed_confirmations (w_db w') = [] /\
      map om_subject (not_outbox (w_db w')) = [SubjectNotificationConfirmationSent]) as (w' & He & Hf & Hl)
      by (vm_compute; eexists; repeat split; reflexivity).
    rewrite He in H. cbv zeta in H. destruct H as [_ (ts & fate & ls & msgs & _ & Hts & _ & _ & _ & Ho & _)].
    specialize (Hts eq_refl).
    replace (taken_fc demo_patient _ _) with [Retried demo_failed_fc] in * by (vm_compute; reflexivity).
    exists w', fate, ls. rewrite Hts in Ho. split_and!; done.
  - assert (exists w', Retrier_Confirmations (E := demo_smtp_down) (CS := demo_CS demo_smtp_down) demo_patient Background
      (world_of demo_not) = (Ok tt, w') /\ map (fun f => fc_RetryCount (fst f)) (failed_confirmations (w_db w')) = [3])
      as (w' & He & Hf) by (vm_compute; eexists; repeat split; reflexivity).
    rewrite He in H. destruct H as [Hinv _]. exists w'. done.
Defined.

Lemma stale_failed_confirmation_witness :
  let '(r, w') := SendConfirmation_Execute (E := demo_refused) (CS := demo_CS demo_refused) Background
    (hex_EncodeToString "fedcba9876543210") "ann@example.test" "golang/go" "https://g.test/new" (world_of demo_not) in
  r = Ok tt /\ failed_confirmations (w_db w') = [(demo_failed_fc, 7)].
Proof.
  pose proof (stale_failed_confirmation (E := demo_refused) (CS := demo_CS demo_refused) Background
    (hex_EncodeToString "fedcba9876543210") "ann@example.test" "golang/go" "https://g.test/new" (world_of demo_not)
    eq_refl eq_refl ltac:(vm_compute; reflexivity)) as H.
  assert (fst (SendConfirmation_Execute (E := demo_refused) (CS := demo_CS demo_refused) Background
    (hex_EncodeToString "fedcba9876543210") "ann@example.test" "golang/go" "https://g.test/new" (world_of demo_not)) = Ok tt)
    as Hr by (vm_compute; reflexivity).
  destruct (SendConfirmation_Execute _ _ _ _ _ _). split; [exact Hr|exact H].
Defined.

Lemma maintenance_run_safe_witness :
  let '(r, w') := runMaintenance (E := quiet_env) (RS := demo_RS quiet_env) (CS := demo_CS quiet_env) demo_base
    demo_retry 100 [TickerFired; TickerFired; ContextDone] Background (world_of demo_not) in
  r = Ok tt /\ subscriptions_read (w_db w') = subscriptions_read demo_not /\
  map om_subject (not_outbox (w_db w')) =
    [SubjectNotificationReleaseSent; SubjectNotificationConfirmationDead].
Proof.
  pose proof (maintenance_run_safe (E := quiet_env) (RS := demo_RS quiet_env) (CS := demo_CS quiet_env) demo_base
    demo_retry 100 [TickerFired; TickerFired; ContextDone] Background (world_of demo_not)
    eq_refl eq_refl demo_not_inv) as H.
  assert (map om_subject (not_outbox (w_db (snd (runMaintenance (E := quiet_env) (RS := demo_RS quiet_env)
    (CS := demo_CS quiet_env) demo_base demo_retry 100 [TickerFired; TickerFired; ContextDone] Background
    (world_of demo_not))))) = [SubjectNotificationReleaseSent; SubjectNotificationConfirmationDead]) as Ho
    by (vm_compute; reflexivity).
  destruct (runMaintenance _ _ _ _ _ _) as [r w']. destruct H as (? & _ & ? & _). done.
Defined.
