(* ===== verification/Scanner.v ===== *)
(** * The scanner service: [internal/scanner]

    The watch list ([watched_repos]) and its projector, the concurrent fetch
    pass under an errgroup ([usecase/scanner]), the detection of new releases
    ([usecase/watch]), the advance of the last seen tag, the publisher, the
    event consumer, and the scheduler that drives the passes
    ([internal/infrastructure/scheduler]). *)

From S2P Require Import Prelude GoErrors Effects Wp Sql Json JsonFacts RepoName Events Uuid Broker Consumers Libs.
From S2P Require Import GitHub Subscription SubscriptionUse Mailer.

Open Scope string_scope.
Open Scope list_scope.
Open Scope Z_scope.

(** ** [domain] and the table *)

Record WatchedRepo := { wr_RepoName : string; wr_LastSeenTag : option string; wr_SubscriberCount : Z }.
Record ObservedRelease := { or_Repo : string; or_Release : Release }.

Global Instance WatchedRepo_eq_dec : EqDecision WatchedRepo.
Proof. solve_decision. Defined.
Global Instance ObservedRelease_eq_dec : EqDecision ObservedRelease.
Proof. solve_decision. Defined.

Record ScanDB := { watched_repos : list WatchedRepo }.

(** ** [adapter/repository]: every statement runs on the pool *)

Section Repository.
Context {E : Env} {P : PgxLib}.

Definition with_count (n : Z) (r : WatchedRepo) : WatchedRepo :=
  {| wr_RepoName := wr_RepoName r; wr_LastSeenTag := wr_LastSeenTag r; wr_SubscriberCount := n |}.
Definition with_tag (tag : string) (r : WatchedRepo) : WatchedRepo :=
  {| wr_RepoName := wr_RepoName r; wr_LastSeenTag := Some tag; wr_SubscriberCount := wr_SubscriberCount r |}.

(** INSERT ... VALUES ($1, 1) ON CONFLICT (repo_name) DO UPDATE SET
    subscriber_count = watched_repos.subscriber_count + 1, on an INTEGER column *)
Definition increment_stmt (repo : string) : Stmt ScanDB unit := fun _ d =>
  let hit := key_is wr_RepoName repo in
  if exists_where (fun r => hit r && (int32_max <=? wr_SubscriberCount r)) (watched_repos d)
  then inl "integer out of range"
  else if exists_where hit (watched_repos d)
  then inr (tt, {| watched_repos := update_where hit (fun r => with_count (wr_SubscriberCount r + 1) r) (watched_repos d) |})
  else inr (tt, {| watched_repos := insert_row
         {| wr_RepoName := repo; wr_LastSeenTag := None; wr_SubscriberCount := 1 |} (watched_repos d) |}).

Definition IncrementSubscriber (repo : string) : M ScanDB unit :=
  wrapping "increment subscriber count" (run QPool None (increment_stmt repo)).

(** The UPDATE of the CTE takes the rows with a count above one; the DELETE
    sees the table as it was and runs only when the UPDATE took none. *)
Definition decrement_stmt (repo : string) : Stmt ScanDB unit := fun _ d =>
  let hit := key_is wr_RepoName repo in
  let many r := hit r && (1 <? wr_SubscriberCount r) in
  inr (tt, if exists_where many (watched_repos d)
           then {| watched_repos := update_where many (fun r => with_count (wr_SubscriberCount r - 1) r) (watched_repos d) |}
           else {| watched_repos := delete_where hit (watched_repos d) |}).

Definition DecrementSubscriber (repo : string) : M ScanDB unit :=
  wrapping "decrement subscriber count" (run QPool None (decrement_stmt repo)).

Definition watchedRepoRow_tags : list string := ["repo_name"; "last_seen_tag"; "subscriber_count"].

Definition list_watched_stmt : Stmt ScanDB (list WatchedRepo) := fun _ d =>
  inr (select_where (fun r => 0 <? wr_SubscriberCount r) (watched_repos d), d).

Definition ListWatched : M ScanDB (list WatchedRepo) :=
  rows ← wrapping "query watched repos" (run QPool None list_watched_stmt);
  wrapping "collect watched repos"
    (lift_res (CollectRows ["repo_name"; "last_seen_tag"; "subscriber_count"] watchedRepoRow_tags rows)).

Definition advance_tag_stmt (repo tag : string) : Stmt ScanDB unit := fun _ d =>
  inr (tt, {| watched_repos := update_where (key_is wr_RepoName repo) (with_tag tag) (watched_repos d) |}).

Definition Repo_AdvanceTag (repo tag : string) : M ScanDB unit :=
  wrapping "advance last seen tag" (run QPool None (advance_tag_stmt repo tag)).
End Repository.

(** ** [usecase/scanner]: one fetch *)

Section Fetch.
Context {D : Type} {E : Env} {G : ReleaseSource D}.

(** [handleReleaseError]: [Some] stops the whole pass; the other cases differ
    only in what they log and count. *)
Definition handleReleaseError (e : error) : option error :=
  if errors_Is e ErrUnauthorized then Some e
  else if errors_Is e ErrRateLimited then Some e
  else None.

(** [fetchRelease] in the two parts that a request separates.  Before it: the
    group's context, [cancelled] when a fetch has already failed (the parent
    context may be done at any time), and the name; [None] is a nil release. *)
Definition fetch_begin (cancelled : bool) (repoName : string) : M D (option (string * string)) :=
  stopped ← ctx_Done;
  if cancelled || bool_decide (is_Some stopped) then mret None else
  match ParseRepo repoName with
  | Err _ => mret None
  | Ok target => mret (Some target)
  end.

(** After it: what [GetLatestRelease] returned. *)
Definition fetch_end (answer : res Release) : res (option Release) :=
  match answer with
  | Ok release => Ok (Some release)
  | Err e => match handleReleaseError e with Some e => Err e | None => Ok None end
  end.

(** The whole function, for a goroutine that nothing interrupts
    ([goroutine_alone]). *)
Definition fetchRelease (ctx : Ctx) (cancelled : bool) (repoName : string) : M D (option Release) :=
  target ← fetch_begin cancelled repoName;
  match target with
  | None => mret None
  | Some (owner, name) => answer ← attempt (gh_GetLatestRelease ctx owner name); lift_res (fetch_end answer)
  end.

(** ** The fetch pass *)

(** A goroutine of the pass: it has not looked at its context yet; it is past
    its check and its request to GitHub is in flight; it has its answer, and has
    yet to take the mutex or to return its error. *)
Inductive Worker :=
| Started (repo : string)
| Requesting (repo owner name : string)
| Answered (repo : string) (answer : res Release).

Definition worker_repo (k : Worker) : string :=
  match k with Started repo | Requesting repo _ _ | Answered repo _ => repo end.

Definition requesting (k : Worker) : bool := match k with Requesting _ _ _ => true | _ => false end.

(** The pass: repositories [Scan]'s loop has not reached, the one whose [g.Go]
    waits for a free worker, the goroutines that run, results in order of
    completion, and the error that cancelled the group's context. *)
Record Pass := {
  ps_todo : list string;
  ps_next : option string;
  ps_running : list Worker;
  ps_observed : list ObservedRelease;
  ps_failed : option error;
}.

Inductive Choice := Check | Launch | Proceed (i : nat) | Interrupt (i : nat).

(** [SetLimit]: a negative limit means none. *)
Definition below_limit (workers : Z) (running : nat) : bool :=
  (workers <? 0) || (Z.of_nat running <? workers).

Definition cancelled (s : Pass) : bool := bool_decide (is_Some (ps_failed s)).

(** What may happen next: the loop checks the context and calls [g.Go], a
    waiting [g.Go] starts its goroutine when the group has room, any goroutine
    takes its next step, and once the group's context is cancelled a request in
    flight may be given up instead of answered. *)
Definition choices (workers : Z) (s : Pass) : list Choice :=
  match ps_next s with
  | None => if bool_decide (ps_todo s = []) then [] else [Check]
  | Some _ => if below_limit workers (length (ps_running s)) then [Launch] else []
  end ++ map Proceed (seq 0 (length (ps_running s)))
  ++ (if cancelled s
      then map Interrupt (List.filter (fun i => from_option requesting false (ps_running s !! i)) (seq 0 (length (ps_running s))))
      else []).

Definition finished (s : Pass) : bool :=
  bool_decide (ps_todo s = []) && bool_decide (ps_next s = None) && bool_decide (ps_running s = []).

Definition remove_nth {A} (i : nat) (l : list A) : list A := take i l ++ drop (S i) l.

(** Goroutine [i] becomes [k]. *)
Definition set_worker (i : nat) (k : Worker) (s : Pass) : Pass :=
  {| ps_todo := ps_todo s; ps_next := ps_next s; ps_running := <[i := k]> (ps_running s);
     ps_observed := ps_observed s; ps_failed := ps_failed s |}.

(** Goroutine [i] returns [r]; a release goes under the mutex first, and the
    first error is kept and cancels the context. *)
Definition worker_returns (i : nat) (repo : string) (r : res (option Release)) (s : Pass) : Pass :=
  {| ps_todo := ps_todo s; ps_next := ps_next s; ps_running := remove_nth i (ps_running s);
     ps_observed := match r with
                    | Ok (Some release) => ps_observed s ++ [{| or_Repo := repo; or_Release := release |}]
                    | _ => ps_observed s
                    end;
     ps_failed := match r, ps_failed s with Err e, None => Some e | _, f => f end |}.

(** [if gctx.Err() != nil { break }], then [g.Go]. *)
Definition check_step (s : Pass) : M D Pass :=
  match ps_todo s with
  | [] => mret s
  | repo :: todo =>
      stopped ← ctx_Done;
      mret (if cancelled s || bool_decide (is_Some stopped)
            then {| ps_todo := []; ps_next := ps_next s; ps_running := ps_running s; ps_observed := ps_observed s;
                    ps_failed := ps_failed s |}
            else {| ps_todo := todo; ps_next := Some repo; ps_running := ps_running s; ps_observed := ps_observed s;
                    ps_failed := ps_failed s |})
  end.

Definition launch_step (s : Pass) : Pass :=
  match ps_next s with
  | None => s
  | Some repo => {| ps_todo := ps_todo s; ps_next := None; ps_running := ps_running s ++ [Started repo];
                    ps_observed := ps_observed s; ps_failed := ps_failed s |}
  end.

(** The steps of a goroutine: up to the request, the request, and after it. *)
Definition begin_step (i : nat) (repo : string) (s : Pass) : M D Pass :=
  target ← fetch_begin (cancelled s) repo;
  mret (match target with
        | None => worker_returns i repo (Ok None) s
        | Some (owner, name) => set_worker i (Requesting repo owner name) s
        end).

Definition answer_step (ctx : Ctx) (i : nat) (repo owner name : string) (s : Pass) : M D Pass :=
  answer ← attempt (gh_GetLatestRelease ctx owner name);
  mret (set_worker i (Answered repo answer) s).

Definition finish_step (i : nat) (repo : string) (answer : res Release) (s : Pass) : Pass :=
  worker_returns i repo (fetch_end answer) s.

Definition proceed_step (ctx : Ctx) (i : nat) (s : Pass) : M D Pass :=
  match ps_running s !! i with
  | None => mret s
  | Some (Started repo) => begin_step i repo s
  | Some (Requesting repo owner name) => answer_step ctx i repo owner name s
  | Some (Answered repo answer) => mret (finish_step i repo answer s)
  end.

(** A request given up under a cancelled context returns [context.Canceled]. *)
Definition interrupt_step (i : nat) (s : Pass) : Pass :=
  match ps_running s !! i with
  | Some (Requesting repo _ _) => set_worker i (Answered repo (Err (Sentinel context_Canceled))) s
  | _ => s
  end.

Definition pass_step (ctx : Ctx) (c : Choice) (s : Pass) : M D Pass :=
  match c with
  | Check => check_step s
  | Launch => mret (launch_step s)
  | Proceed i => proceed_step ctx i s
  | Interrupt i => mret (interrupt_step i s)
  end.

(** [Scan] under the scheduler [sched], which picks among what is possible.
    [None]: stuck or out of fuel ([scan_pass_total]: neither happens). *)
Fixpoint pass_loop (fuel : nat) (workers : Z) (sched : nat -> nat) (ctx : Ctx) (s : Pass) (w : World D)
    : option (res Pass * World D) :=
  if finished s then Some (Ok s, w) else
  match fuel with
  | O => None
  | S k =>
      match choices workers s !! (sched k mod length (choices workers s))%nat with
      | None => None
      | Some c =>
          match pass_step ctx c s w with
          | (Ok s', w') => pass_loop k workers sched ctx s' w'
          | (Err e, w') => Some (Err e, w')
          end
      end
  end.

(** Every repository is checked and launched, and its goroutine takes three
    steps, at most once each. *)
Definition scan_fuel (repos : list string) : nat := 5 * length repos.

Definition initial_pass (repos : list string) : Pass :=
  {| ps_todo := repos; ps_next := None; ps_running := []; ps_observed := []; ps_failed := None |}.

(** [g.Wait]'s error is only logged: a pass that stopped early still returns
    what it observed. *)
Definition Scan (workers : Z) (sched : nat -> nat) (ctx : Ctx) (repos : list string) (w : World D)
    : option (res (list ObservedRelease) * World D) :=
  match pass_loop (scan_fuel repos) workers sched ctx (initial_pass repos) w with
  | Some (Ok s, w') => Some (Ok (ps_observed s), w')
  | Some (Err e, w') => Some (Err e, w')
  | None => None
  end.
End Fetch.

(** [watch.scanner]: observed releases belong to the repositories asked for, at
    most one each, and a pass only talks to GitHub. *)
Class ReleaseScanner (D : Type) := {
  sc_Scan : Ctx -> list string -> M D (list ObservedRelease);
  sc_Scan_spec : forall ctx repos w, NoDup repos ->
    wp (sc_Scan ctx repos) (fun r w' => github_step w w' /\
      match r with
      | Ok obs => NoDup (map or_Repo obs) /\ map or_Repo obs ⊆ repos
      | Err _ => True
      end) w;
}.

(** ** [adapter/eventpublisher], [usecase/watch], [usecase/advancetag], [usecase/watchlist] *)

Section UseCases.
Context {E : Env} {V : Validators} {U : UUIDLib} {P : PgxLib} {BP : BusPublisher ScanDB} {SC : ReleaseScanner ScanDB}.

Definition publish {T} `{Event T} (ctx : Ctx) (subject : string) (ev : T) : M ScanDB unit :=
  match Marshal ev with
  | Err e => fail (Errorf ("marshal " +:+ subject) e)
  | Ok data => wrapping ("publish " +:+ subject) (Publish ctx subject data)
  end.

Definition pub_ReleaseDetected (ctx : Ctx) (ev : ReleaseDetected) : M ScanDB unit :=
  publish ctx SubjectReleaseDetected ev.

Inductive outcome := outcomeUnchanged | outcomeSeeded | outcomeDetected.

(** [process]: failures are only logged. *)
Definition process (ctx : Ctx) (repo : WatchedRepo) (release : Release) : M ScanDB outcome :=
  let tag := rel_TagName release in
  match wr_LastSeenTag repo with
  | None => _ ← attempt (Repo_AdvanceTag (wr_RepoName repo) tag); mret outcomeSeeded
  | Some seen =>
      if String.eqb seen tag then mret outcomeUnchanged
      else
        id ← uuid_NewString;
        _ ← attempt (pub_ReleaseDetected ctx
              {| rd_SagaID := id; rd_RepoName := wr_RepoName repo; rd_Tag := tag; rd_ReleaseURL := rel_HTMLURL release |});
        mret outcomeDetected
  end.

(** The counters of [Run]'s last log line. *)
Record Counts := { ct_seeded : Z; ct_detected : Z }.

Definition count (o : outcome) (c : Counts) : Counts :=
  match o with
  | outcomeSeeded => {| ct_seeded := ct_seeded c + 1; ct_detected := ct_detected c |}
  | outcomeDetected => {| ct_seeded := ct_seeded c; ct_detected := ct_detected c + 1 |}
  | outcomeUnchanged => c
  end.

(** [Run]'s loop over the observed releases; [byName] is the map built from
    the watched repositories. *)
Fixpoint process_all (ctx : Ctx) (byName : gmap string WatchedRepo) (observed : list ObservedRelease) (c : Counts)
    : M ScanDB Counts :=
  match observed with
  | [] => mret c
  | rel :: rest =>
      match byName !! or_Repo rel with
      | None => process_all ctx byName rest c
      | Some repo => o ← process ctx repo (or_Release rel); process_all ctx byName rest (count o c)
      end
  end.

(** A later entry for the same name replaces an earlier one. *)
Definition index_by_name (watched : list WatchedRepo) : gmap string WatchedRepo :=
  foldl (fun m r => <[wr_RepoName r := r]> m) ∅ watched.

Definition watch_Run (ctx : Ctx) : M ScanDB Counts :=
  let zero := {| ct_seeded := 0; ct_detected := 0 |} in
  watched ← wrapping "list watched repos" ListWatched;
  if bool_decide (watched = []) then mret zero else
  observed ← wrapping "scan repos" (sc_Scan ctx (map wr_RepoName watched));
  process_all ctx (index_by_name watched) observed zero.

(** *** usecase/advancetag *)

Definition AdvanceTag_Execute (repo tag : string) (sentCount : Z) : M ScanDB unit :=
  if sentCount <=? 0 then mret tt else wrapping "advance tag" (Repo_AdvanceTag repo tag).

(** *** usecase/watchlist *)

Definition Watchlist_Confirmed (ev : SubscriptionConfirmed) : M ScanDB unit :=
  wrapping "increment subscriber" (IncrementSubscriber (sc_RepoName ev)).
Definition Watchlist_Removed (ev : SubscriptionRemoved) : M ScanDB unit :=
  wrapping "decrement subscriber" (DecrementSubscriber (sr_RepoName ev)).

(** *** adapter/eventconsumer *)

Definition Scanner_HandleConfirmed : Handler ScanDB := fun ctx data =>
  decoded data (fun ev : SubscriptionConfirmed => Watchlist_Confirmed ev).
Definition Scanner_HandleRemoved : Handler ScanDB := fun ctx data =>
  decoded data (fun ev : SubscriptionRemoved => Watchlist_Removed ev).
Definition Scanner_HandleReleaseNotified : Handler ScanDB := fun ctx data =>
  decoded data (fun ev : ReleaseNotified => AdvanceTag_Execute (rn_RepoName ev) (rn_Tag ev) (rn_SentCount ev)).

Definition scanner_startConsumers : list (ConsumerSpec ScanDB) :=
  [{| cs_Stream := StreamSubscriptions; cs_Durable := "scanner-subscription-confirmed";
      cs_Subject := SubjectSubscriptionConfirmed; cs_Handler := Scanner_HandleConfirmed |};
   {| cs_Stream := StreamSubscriptions; cs_Durable := "scanner-subscription-removed";
      cs_Subject := SubjectSubscriptionRemoved; cs_Handler := Scanner_HandleRemoved |};
   {| cs_Stream := StreamReleases; cs_Durable := "scanner-release-notified";
      cs_Subject := SubjectReleaseNotified; cs_Handler := Scanner_HandleReleaseNotified |}].
End UseCases.

(** ** The scheduler *)

Section Scheduler.
Context {D : Type} {E : Env} {V : Validators} {U : UUIDLib}.

(** [run]: a failed pass is only logged. *)
Definition sched_run {A} (runner : Ctx -> M D A) (ctx : Ctx) : M D unit :=
  id ← uuid_NewString;
  logged (runner (WithScanID ctx id)).

(** [Start]: one pass at once, then one per tick. *)
Definition Scheduler_Start {A} (runner : Ctx -> M D A) (signals : list TickerSignal) (ctx : Ctx) : M D unit :=
  _ ← sched_run runner ctx; ticker_loop (sched_run runner ctx) signals.
End Scheduler.
