(* ===== verification/ScannerFacts.v ===== *)
(** * The concurrent fetch pass and the watch list

    The errgroup pass ends for every scheduler and every behaviour of GitHub,
    observes each repository at most once, starts no request once it has been
    aborted, and, when GitHub's answers do not abort it, observes the same
    releases whatever the interleaving.  The watch list is a map. *)

From S2P Require Import Prelude GoErrors Effects Wp Sql Json JsonFacts RepoName Events Uuid Broker Consumers Libs.
From S2P Require Import GitHub Subscription SubscriptionUse Mailer Scanner Quiet Concrete.

Open Scope string_scope.
Open Scope list_scope.
Open Scope Z_scope.

(** ** One position of a list *)

Lemma remove_nth_perm {A} (l : list A) i x : l !! i = Some x -> l ≡ₚ x :: remove_nth i l.
Proof. intros Hi. unfold remove_nth. rewrite <- (take_drop_middle l i x) at 1 by done. by rewrite Permutation_middle. Qed.

Lemma insert_nth_perm {A} (l : list A) i x y : l !! i = Some x -> <[i := y]> l ≡ₚ y :: remove_nth i l.
Proof.
  intros Hi. rewrite insert_take_drop by (by eapply lookup_lt_Some). unfold remove_nth. by rewrite Permutation_middle.
Qed.

Lemma sum_list_perm l1 l2 : l1 ≡ₚ l2 -> sum_list l1 = sum_list l2.
Proof. induction 1; simpl; lia. Qed.

(** The running goroutines around goroutine [i]: as they are, and as they will be. *)
Ltac around Hi :=
  lazymatch type of Hi with
  | ps_running ?s !! ?i = Some ?k =>
      let rest := fresh "rest" in let Hp := fresh "Hp" in let Hins := fresh "Hins" in
      pose proof (remove_nth_perm _ _ _ Hi) as Hp;
      pose proof (fun k' => insert_nth_perm _ _ _ k' Hi) as Hins;
      set (rest := remove_nth i (ps_running s)) in *; clearbody rest
  end.

Section Pass.
Context {D : Type} {E : Env} {G : ReleaseSource D}.
Implicit Types (w : World D) (s : Pass).

(** ** One step *)

Lemma github_step_ticked w : github_step w (ticked w).
Proof. unfold github_step. split_and!; [done..|]. exists []. by rewrite app_nil_r. Qed.

Lemma fetch_begin_quiet c repo w : exists target, fetch_begin c repo w = (Ok target, ticked w).
Proof.
  unfold fetch_begin, ctx_Done, mbind, M_bind, oracle. destruct (c || _); [by eexists|].
  destruct (ParseRepo repo); by eexists.
Qed.

(** A cancelled goroutine does nothing but look at its context. *)
Lemma fetch_begin_cancelled repo w : fetch_begin true repo w = (Ok None, ticked w).
Proof. done. Qed.

(** The work left: a repository is checked and launched, and its goroutine has
    up to three steps to go. *)
Definition steps_left (k : Worker) : nat :=
  match k with Started _ => 3 | Requesting _ _ _ => 2 | Answered _ _ => 1 end.

Definition work (s : Pass) : nat :=
  5 * length (ps_todo s) + 4 * match ps_next s with Some _ => 1 | None => 0 end + sum_list (map steps_left (ps_running s)).

(** The repositories a pass still accounts for. *)
Definition accounted (s : Pass) : list string :=
  ps_todo s ++ option_list (ps_next s) ++ map worker_repo (ps_running s) ++ map or_Repo (ps_observed s).

Lemma worker_returns_spec i k r s :
  ps_running s !! i = Some k ->
  (work (worker_returns i (worker_repo k) r s) < work s)%nat /\
  accounted (worker_returns i (worker_repo k) r s) ⊆+ accounted s.
Proof.
  intros Hi. unfold work, accounted, worker_returns. simpl. around Hi.
  rewrite (sum_list_perm (map steps_left (ps_running s)) (map steps_left (k :: rest))) by (by rewrite Hp).
  split; [destruct k; simpl; lia|]. rewrite Hp. simpl. destruct r as [[rel|]|e]; rewrite ?map_app; simpl; solve_submseteq.
Qed.

Lemma set_worker_spec i k k' s :
  ps_running s !! i = Some k -> worker_repo k' = worker_repo k -> (steps_left k' < steps_left k)%nat ->
  (work (set_worker i k' s) < work s)%nat /\ accounted (set_worker i k' s) ⊆+ accounted s.
Proof.
  intros Hi Hr Hs. unfold work, accounted, set_worker. simpl. around Hi.
  rewrite (sum_list_perm (map steps_left (ps_running s)) (map steps_left (k :: rest))) by (by rewrite Hp).
  rewrite (sum_list_perm (map steps_left (<[i:=k']> (ps_running s))) (map steps_left (k' :: rest))) by (by rewrite Hins).
  split; [simpl; lia|]. rewrite Hins, Hp. simpl. rewrite Hr. solve_submseteq.
Qed.

Lemma elem_of_choices workers s c :
  c ∈ choices workers s ->
  (c = Check /\ ps_next s = None /\ ps_todo s <> []) \/ (c = Launch /\ is_Some (ps_next s)) \/
  (exists i k, c = Proceed i /\ ps_running s !! i = Some k) \/
  (exists i repo owner name, c = Interrupt i /\ ps_running s !! i = Some (Requesting repo owner name) /\ cancelled s = true).
Proof.
  unfold choices. rewrite !elem_of_app. intros [Hc|[Hc|Hc]].
  - destruct (ps_next s) as [n|].
    + destruct (below_limit _ _); [|by apply elem_of_nil in Hc]. apply list_elem_of_singleton in Hc as ->. eauto.
    + case_bool_decide; [by apply elem_of_nil in Hc|]. apply list_elem_of_singleton in Hc as ->. eauto.
  - apply list_elem_of_fmap in Hc as (i & -> & Hi%elem_of_seq). right; right; left.
    destruct (lookup_lt_is_Some_2 (ps_running s) i) as [k ?]; [lia|]. eauto.
  - destruct (cancelled s); [|by apply elem_of_nil in Hc].
    apply list_elem_of_fmap in Hc as (i & -> & Hi). right; right; right.
    apply list_elem_of_In, filter_In in Hi as [_ Hi].
    destruct (ps_running s !! i) as [[]|] eqn:Hk; try done. by eauto 10.
Qed.

(** Every possible step succeeds, uses up work, keeps the account and only
    talks to GitHub. *)
Lemma proceed_step_spec ctx i k s w :
  ps_running s !! i = Some k ->
  exists s' w', proceed_step ctx i s w = (Ok s', w') /\ (work s' < work s)%nat /\
    accounted s' ⊆+ accounted s /\ github_step w w'.
Proof.
  intros Hi. unfold proceed_step. rewrite Hi. destruct k as [repo|repo owner name|repo answer].
  - unfold begin_step, mbind, M_bind. destruct (fetch_begin_quiet (cancelled s) repo w) as [target ->].
    do 2 eexists. split; [reflexivity|]. destruct target as [[owner name]|].
    + destruct (set_worker_spec i _ (Requesting repo owner name) s Hi) as [? ?]; [done|simpl; lia|].
      split_and!; [done..|apply github_step_ticked].
    + destruct (worker_returns_spec i _ (Ok None) s Hi) as [? ?]. split_and!; [done..|apply github_step_ticked].
  - unfold answer_step, mbind, M_bind, attempt. pose proof (gh_GetLatestRelease_frame ctx owner name w) as Hf.
    unfold wp in Hf. destruct (gh_GetLatestRelease ctx owner name w) as [r w']. do 2 eexists. split; [reflexivity|].
    destruct (set_worker_spec i _ (Answered repo r) s Hi) as [? ?]; [done|simpl; lia|]. done.
  - do 2 eexists. split; [reflexivity|]. destruct (worker_returns_spec i _ (fetch_end answer) s Hi) as [? ?].
    split_and!; [done..|reflexivity].
Qed.

Lemma pass_step_spec workers ctx c s w :
  c ∈ choices workers s ->
  exists s' w', pass_step ctx c s w = (Ok s', w') /\ (work s' < work s)%nat /\
    accounted s' ⊆+ accounted s /\ github_step w w'.
Proof.
  intros [(-> & Hn & Ht)|[(-> & n & Hn)|[(i & k & -> & Hi)|(i & repo & owner & name & -> & Hi & _)]]]%elem_of_choices; simpl.
  - unfold check_step, work, accounted. destruct (ps_todo s) as [|repo todo]; [done|].
    unfold ctx_Done, mbind, M_bind, oracle, mret, M_ret. do 2 eexists. split; [reflexivity|].
    rewrite Hn. destruct (cancelled s || _); simpl; (split_and!; [lia| |apply github_step_ticked]); solve_submseteq.
  - unfold launch_step, work, accounted. rewrite Hn. do 2 eexists. split; [reflexivity|]. simpl.
    rewrite !map_app, sum_list_with_app. simpl. split_and!; [lia| |done]. solve_submseteq.
  - by apply proceed_step_spec with k.
  - unfold interrupt_step. rewrite Hi. do 2 eexists. split; [reflexivity|].
    destruct (set_worker_spec i _ (Answered repo (Err (Sentinel context_Canceled))) s Hi) as [? ?]; [done|simpl; lia|].
    split_and!; [done..|reflexivity].
Qed.

(** The next step of a goroutine that has just taken one. *)
Lemma proceed_set_worker ctx i k s :
  is_Some (ps_running s !! i) ->
  proceed_step ctx i (set_worker i k s) =
    match k with
    | Started repo => begin_step i repo (set_worker i k s)
    | Requesting repo owner name => answer_step ctx i repo owner name (set_worker i k s)
    | Answered repo answer => mret (finish_step i repo answer (set_worker i k s))
    end.
Proof. intros Hi%lookup_lt_is_Some. unfold proceed_step. simpl. by rewrite list_lookup_insert_eq. Qed.

Lemma set_worker_twice i k k' s : set_worker i k (set_worker i k' s) = set_worker i k s.
Proof. unfold set_worker. simpl. by rewrite list_insert_insert_eq. Qed.

Lemma worker_returns_set i repo r k s : worker_returns i repo r (set_worker i k s) = worker_returns i repo r s.
Proof.
  unfold worker_returns, set_worker, remove_nth. simpl. by rewrite take_insert_ge, drop_insert_lt by lia.
Qed.

(** A goroutine that takes its three steps without a pause is [fetchRelease] and
    the return of its result. *)
Lemma goroutine_alone ctx i repo s w :
  ps_running s !! i = Some (Started repo) ->
  let '(r, w') := fetchRelease ctx (cancelled s) repo w in
  exists n, (n <= 3)%nat /\
    Nat.iter n (fun m => m ≫= proceed_step ctx i) (mret s) w = (Ok (worker_returns i repo r s), w').
Proof.
  intros Hi. unfold fetchRelease, mbind at 1, M_bind at 1.
  destruct (fetch_begin_quiet (cancelled s) repo w) as [target Hb]. rewrite Hb.
  assert (proceed_step ctx i s w = (Ok match target with
      | None => worker_returns i repo (Ok None) s
      | Some (owner, name) => set_worker i (Requesting repo owner name) s
      end, ticked w)) as H1.
  { unfold proceed_step, begin_step. rewrite Hi. unfold mbind, M_bind. by rewrite Hb. }
  destruct target as [[owner name]|]; [|by exists 1%nat; split; [lia|]].
  unfold mbind at 1, M_bind at 1, attempt. destruct (gh_GetLatestRelease ctx owner name (ticked w)) as [r w'] eqn:Hr.
  exists 3%nat. split; [lia|]. simpl. unfold mbind, M_bind. unfold mret at 1, M_ret at 1. rewrite H1.
  rewrite (proceed_set_worker ctx i (Requesting repo owner name)) by done.
  unfold answer_step, mbind, M_bind, attempt. rewrite Hr. unfold mret at 1, M_ret at 1.
  rewrite set_worker_twice, (proceed_set_worker ctx i (Answered repo r)) by done.
  unfold finish_step. by rewrite worker_returns_set.
Qed.

Lemma choices_possible workers s : workers <> 0 -> finished s = false -> choices workers s <> [].
Proof.
  intros Hw Hf. unfold choices, finished in *. intros [Hc [Hm _]%app_eq_nil]%app_eq_nil. apply map_eq_nil in Hm.
  assert (ps_running s = []) as Hr by (destruct (ps_running s); done). rewrite Hr in *.
  destruct (ps_next s) as [n|].
  - destruct (below_limit workers (length [])) eqn:Hb; [done|].
    apply orb_false_iff in Hb as [H1%Z.ltb_ge H2%Z.ltb_ge]. simpl in H2. lia.
  - by case_bool_decide.
Qed.

(** ** The whole pass *)

Lemma pass_loop_spec workers sched ctx fuel s w :
  workers <> 0 -> (work s <= fuel)%nat ->
  exists s' w', pass_loop fuel workers sched ctx s w = Some (Ok s', w') /\ finished s' = true /\
    accounted s' ⊆+ accounted s /\ github_step w w'.
Proof.
  intros Hw. revert s w. induction fuel as [|fuel IH]; intros s w Hle; simpl.
  - assert (finished s = true) as Hf; [|rewrite Hf; exists s, w; split_and!; [done..|reflexivity]].
    unfold finished, work in *. destruct (ps_todo s), (ps_next s), (ps_running s) as [|[] ?]; simpl in *; done || lia.
  - destruct (finished s) eqn:Hf; [exists s, w; split_and!; [done..|reflexivity]|].
    pose proof (choices_possible workers s Hw Hf) as Hne.
    destruct (lookup_lt_is_Some_2 (choices workers s) (sched fuel mod length (choices workers s))%nat) as [c Hc].
    { apply Nat.mod_upper_bound. by destruct (choices workers s). }
    rewrite Hc. apply list_elem_of_lookup_2 in Hc.
    destruct (pass_step_spec workers ctx c s w Hc) as (s1 & w1 & -> & Hlt & Hacc & Hg).
    destruct (IH s1 w1) as (s2 & w2 & -> & Hfin & Hacc2 & Hg2); [lia|].
    exists s2, w2. split_and!; [done..|by etrans|by etrans].
Qed.

Lemma Scan_spec workers sched ctx repos w :
  workers <> 0 ->
  exists obs w', Scan workers sched ctx repos w = Some (Ok obs, w') /\
    map or_Repo obs ⊆+ repos /\ github_step w w'.
Proof.
  intros Hw. unfold Scan.
  destruct (pass_loop_spec workers sched ctx (scan_fuel repos) (initial_pass repos) w Hw) as
    (s & w' & -> & Hfin & Hacc & Hg).
  { unfold work, scan_fuel. simpl. lia. }
  exists (ps_observed s), w'. split_and!; [done| |done].
  etrans; [|etrans; [exact Hacc|]]; unfold accounted; simpl; [|by rewrite app_nil_r].
  repeat apply submseteq_inserts_l. done.
Qed.

(** With no worker the first [g.Go] waits for ever. *)
Lemma pass_loop_blocked fuel sched ctx s w :
  is_Some (ps_next s) -> ps_running s = [] -> pass_loop fuel 0 sched ctx s w = None.
Proof.
  intros [repo Hn] Hr. assert (finished s = false) as Hf.
  { unfold finished. rewrite Hn. by rewrite andb_false_r. }
  destruct fuel as [|k]; simpl; rewrite Hf; [done|].
  assert (choices 0 s = []) as ->; [|done]. unfold choices, below_limit. rewrite Hn, Hr. simpl. by destruct (cancelled s).
Qed.

Lemma Scan_blocked fuel sched ctx repo repos w :
  env_done (w_tick w) = None -> pass_loop fuel 0 sched ctx (initial_pass (repo :: repos)) w = None.
Proof.
  intros Hd. destruct fuel as [|k]; [done|]. cbn [pass_loop]. assert (finished (initial_pass (repo :: repos)) = false) as -> by done.
  change (choices 0 (initial_pass (repo :: repos))) with [Check]. simpl length. rewrite Nat.mod_1_r. simpl.
  unfold mbind, M_bind, ctx_Done, oracle. rewrite Hd. simpl. by apply pass_loop_blocked.
Qed.

(** *** After a failure *)

(** The requests in flight, and the repositories whose goroutine is past its check. *)
Definition in_flight (s : Pass) : list (string * string) :=
  omap (fun k => match k with Requesting _ owner name => Some (owner, name) | _ => None end) (ps_running s).
Definition past_check (s : Pass) : list string :=
  omap (fun k => match k with Started _ => None | Requesting repo _ _ | Answered repo _ => Some repo end) (ps_running s).

(** What one call of [GetLatestRelease] asks of the outside. *)
Definition asks (ctx : Ctx) (target : string * string) (l : list Ext) : Prop :=
  exists w, w_trace (snd (gh_GetLatestRelease ctx (fst target) (snd target) w)) = w_trace w ++ l.

(** From [w] to [w'] nothing was asked but by one call for each of [targets]. *)
Definition asked (ctx : Ctx) (targets : list (string * string)) w w' : Prop :=
  exists ls, w_trace w' = w_trace w ++ concat ls /\ Forall2 (asks ctx) targets ls.

Lemma asked_nothing ctx w w' : w_trace w' = w_trace w -> asked ctx [] w w'.
Proof. intros Ht. exists []. by rewrite app_nil_r. Qed.

Lemma asked_app ctx t1 t2 w1 w2 w3 : asked ctx t1 w1 w2 -> asked ctx t2 w2 w3 -> asked ctx (t1 ++ t2) w1 w3.
Proof.
  intros (l1 & H1 & Ha1) (l2 & H2 & Ha2). exists (l1 ++ l2). rewrite H2, H1, concat_app, app_assoc.
  split; [done|by apply Forall2_app].
Qed.

(** How a pass whose context is cancelled goes on: the reason stays, what is
    observed comes from goroutines past their check, and what is asked from
    requests in flight. *)
Definition winds_down (ctx : Ctx) (s : Pass) w (s' : Pass) w' : Prop :=
  ps_failed s' = ps_failed s /\
  exists late targets, ps_observed s' = ps_observed s ++ late /\
    map or_Repo late ++ past_check s' ⊆+ past_check s /\
    targets ++ in_flight s' ⊆+ in_flight s /\ asked ctx targets w w'.

Lemma winds_down_refl ctx s w : winds_down ctx s w s w.
Proof. split; [done|]. exists [], []. rewrite app_nil_r. split_and!; [done..|by apply asked_nothing]. Qed.

Lemma winds_down_trans ctx s1 w1 s2 w2 s3 w3 :
  winds_down ctx s1 w1 s2 w2 -> winds_down ctx s2 w2 s3 w3 -> winds_down ctx s1 w1 s3 w3.
Proof.
  intros (Hf1 & l1 & t1 & Ho1 & Hp1 & Hi1 & Ha1) (Hf2 & l2 & t2 & Ho2 & Hp2 & Hi2 & Ha2).
  split; [congruence|]. exists (l1 ++ l2), (t1 ++ t2). split_and!.
  - by rewrite Ho2, Ho1, app_assoc.
  - rewrite map_app, <- app_assoc. etrans; [|exact Hp1]. by apply submseteq_app.
  - rewrite <- app_assoc. etrans; [|exact Hi1]. by apply submseteq_app.
  - by eapply asked_app.
Qed.

(** A step that observes [late] from goroutine [k] or asks for [targets] from it. *)
Lemma winds_down_at ctx i k (late : list ObservedRelease) targets (s s' : Pass) w w' rest' :
  ps_running s !! i = Some k -> ps_failed s' = ps_failed s -> ps_observed s' = ps_observed s ++ late ->
  ps_running s' ≡ₚ rest' ++ remove_nth i (ps_running s) ->
  (map or_Repo late ++ omap (fun k => match k with Started _ => None | Requesting r _ _ | Answered r _ => Some r end) rest' ⊆+
   omap (fun k => match k with Started _ => None | Requesting r _ _ | Answered r _ => Some r end) [k]) ->
  (targets ++ omap (fun k => match k with Requesting _ o n => Some (o, n) | _ => None end) rest' ⊆+
   omap (fun k => match k with Requesting _ o n => Some (o, n) | _ => None end) [k]) ->
  asked ctx targets w w' -> winds_down ctx s w s' w'.
Proof.
  intros Hi Hf Ho Hr Hp Ht Ha. apply remove_nth_perm in Hi. split; [done|]. exists late, targets.
  unfold past_check, in_flight. change (?k :: ?l) with ([k] ++ l) in Hi. rewrite Hi, Hr, !omap_app, !app_assoc.
  split_and!; [done| | |done]; by apply submseteq_app.
Qed.

Lemma proceed_step_cancelled ctx i k s w :
  ps_running s !! i = Some k -> cancelled s = true ->
  exists s' w', proceed_step ctx i s w = (Ok s', w') /\ winds_down ctx s w s' w'.
Proof.
  intros Hi Hc. unfold proceed_step. rewrite Hi.
  assert (exists e, ps_failed s = Some e) as [e He] by (unfold cancelled in Hc; by apply bool_decide_eq_true in Hc).
  destruct k as [repo|repo owner name|repo answer].
  - unfold begin_step, mbind, M_bind. rewrite Hc, fetch_begin_cancelled. do 2 eexists. split; [reflexivity|].
    eapply (winds_down_at ctx i _ [] [] s _ w _ []); try done; [simpl; by rewrite app_nil_r|by apply asked_nothing].
  - unfold answer_step, mbind, M_bind, attempt. pose proof (gh_GetLatestRelease_frame ctx owner name w) as Hf.
    unfold wp in Hf. destruct (gh_GetLatestRelease ctx owner name w) as [r w'] eqn:Hr.
    destruct Hf as (_ & _ & _ & _ & _ & l & Ht & _). do 2 eexists. split; [reflexivity|].
    eapply (winds_down_at ctx i _ [] [(owner, name)] s _ w _ [Answered repo r]); try done.
    + simpl. by rewrite app_nil_r.
    + by apply insert_nth_perm with (Requesting repo owner name).
    + exists [l]. simpl. rewrite app_nil_r. split; [done|]. constructor; [|done]. exists w. simpl. by rewrite Hr.
  - do 2 eexists. split; [reflexivity|]. unfold finish_step, worker_returns.
    eapply (winds_down_at ctx i _ (match fetch_end answer with Ok (Some rel) => [{| or_Repo := repo; or_Release := rel |}] | _ => [] end)
      [] s _ w w []); try done; cbn [ps_failed ps_observed ps_running].
    + rewrite He. by destruct (fetch_end answer).
    + destruct (fetch_end answer) as [[rel|]|e']; by rewrite ?app_nil_r.
    + simpl. destruct (fetch_end answer) as [[rel|]|e']; [done|apply submseteq_nil_l..].
    + by apply asked_nothing.
Qed.

Lemma pass_step_cancelled workers ctx c s w :
  c ∈ choices workers s -> cancelled s = true ->
  exists s' w', pass_step ctx c s w = (Ok s', w') /\ winds_down ctx s w s' w'.
Proof.
  intros [(-> & Hn & Ht)|[(-> & n & Hn)|[(i & k & -> & Hi)|(i & repo & owner & name & -> & Hi & _)]]]%elem_of_choices Hc; simpl.
  - unfold check_step. destruct (ps_todo s); [done|]. unfold ctx_Done, mbind, M_bind, oracle, mret, M_ret.
    rewrite Hc. do 2 eexists. split; [reflexivity|]. split; [done|]. exists [], []. simpl. rewrite app_nil_r.
    split_and!; [done..|by apply asked_nothing].
  - unfold launch_step. rewrite Hn. do 2 eexists. split; [reflexivity|]. split; [done|]. exists [], []. simpl.
    unfold past_check, in_flight. simpl. rewrite !omap_app. simpl. rewrite !app_nil_r. split_and!; [done..|by apply asked_nothing].
  - by apply proceed_step_cancelled with k.
  - unfold interrupt_step. rewrite Hi. do 2 eexists. split; [reflexivity|].
    eapply (winds_down_at ctx i _ [] [] s _ w w [Answered repo _]); try done; simpl.
    + by rewrite app_nil_r.
    + by apply insert_nth_perm with (Requesting repo owner name).
    + apply submseteq_nil_l.
    + by apply asked_nothing.
Qed.

Lemma pass_loop_cancelled workers sched ctx fuel s w s' w' :
  cancelled s = true -> pass_loop fuel workers sched ctx s w = Some (Ok s', w') -> winds_down ctx s w s' w'.
Proof.
  revert s w. induction fuel as [|fuel IH]; intros s w Hc; simpl;
    (destruct (finished s); [intros [= <- <-]; apply winds_down_refl|]); [done|].
  destruct (choices workers s !! _) as [c|] eqn:Hl; [|done]. apply list_elem_of_lookup_2 in Hl.
  destruct (pass_step_cancelled workers ctx c s w Hl Hc) as (s1 & w1 & -> & H1).
  intros Hrun. eapply winds_down_trans; [exact H1|]. apply IH; [|done]. unfold cancelled in *. by rewrite (proj1 H1).
Qed.
End Pass.

(** ** Order does not matter *)

Section Deterministic.
Context {D : Type} {E : Env} {G : ReleaseSource D} (answers : string -> string -> res Release).
(** GitHub's answer for a repository does not change during the pass ... *)
Hypothesis source_answers : forall ctx owner name (w : World D), fst (gh_GetLatestRelease ctx owner name w) = answers owner name.
(** ... nothing it answers aborts the pass, and nobody stops the scanner. *)
Hypothesis benign : forall owner name e, answers owner name = Err e -> handleReleaseError e = None.
Hypothesis never_done : forall n, env_done n = None.

Definition release_of (repo : string) (r : res Release) : option ObservedRelease :=
  match r with Ok rel => Some {| or_Repo := repo; or_Release := rel |} | Err _ => None end.
Definition expected_one (repo : string) : option ObservedRelease :=
  match ParseRepo repo with
  | Ok (owner, name) => release_of repo (answers owner name)
  | Err _ => None
  end.
Definition expected (repos : list string) : list ObservedRelease := omap expected_one repos.
#[local] Arguments expected : simpl never.

(** What a goroutine is still to observe. *)
Definition worker_expected (k : Worker) : option ObservedRelease :=
  match k with
  | Started repo => expected_one repo
  | Requesting repo owner name => release_of repo (answers owner name)
  | Answered repo r => release_of repo r
  end.

(** What a pass has observed and is still to observe. *)
Definition outlook (s : Pass) : list ObservedRelease :=
  ps_observed s ++ expected (ps_todo s ++ option_list (ps_next s)) ++ omap worker_expected (ps_running s).

(** Nothing has failed and no answer that has come will fail. *)
Definition harmless (k : Worker) : Prop :=
  match k with Answered _ (Err e) => handleReleaseError e = None | _ => True end.
Definition calm (s : Pass) : Prop := cancelled s = false /\ Forall harmless (ps_running s).

Lemma fetch_begin_calm repo (w : World D) :
  fetch_begin false repo w = (Ok match ParseRepo repo with Ok target => Some target | Err _ => None end, ticked w).
Proof.
  unfold fetch_begin, ctx_Done, mbind, M_bind, oracle. rewrite never_done. simpl. by destruct (ParseRepo repo).
Qed.

Lemma answers_harmless repo owner name : harmless (Answered repo (answers owner name)).
Proof. unfold harmless. destruct (answers owner name) eqn:He; [done|by eapply benign]. Qed.

Global Instance expected_perm : Proper ((≡ₚ) ==> (≡ₚ)) expected.
Proof. intros l1 l2 Hl. unfold expected. by rewrite Hl. Qed.

(** A goroutine that moves on, and one that returns. *)
Lemma set_worker_calm i k k' s :
  ps_running s !! i = Some k -> worker_expected k' = worker_expected k -> harmless k' -> calm s ->
  calm (set_worker i k' s) /\ outlook (set_worker i k' s) ≡ₚ outlook s.
Proof.
  intros Hi He Hk [Hc Hr]. unfold calm, outlook. simpl. around Hi. rewrite Hins, Hp in *.
  apply Forall_cons in Hr as [_ Hr]. split; [split; [done|by constructor]|]. simpl. by rewrite He.
Qed.

Lemma worker_returns_calm i k (r : option Release) s :
  ps_running s !! i = Some k -> option_list (worker_expected k) = option_list (r ≫= fun rel => release_of (worker_repo k) (Ok rel)) ->
  calm s ->
  calm (worker_returns i (worker_repo k) (Ok r) s) /\ outlook (worker_returns i (worker_repo k) (Ok r) s) ≡ₚ outlook s.
Proof.
  intros Hi He [Hc Hr]. unfold calm, outlook, worker_returns, cancelled in *. simpl. around Hi. rewrite Hp in *.
  apply Forall_cons in Hr as [_ Hr]. split; [split; [by destruct (ps_failed s)|done]|]. simpl.
  destruct r as [rel|], (worker_expected k) as [o|]; simpl in He |- *; try done.
  injection He as <-. solve_Permutation.
Qed.

Lemma proceed_step_expected ctx i k s (w : World D) :
  ps_running s !! i = Some k -> calm s ->
  exists s' w', proceed_step ctx i s w = (Ok s', w') /\ calm s' /\ outlook s' ≡ₚ outlook s.
Proof.
  intros Hi Hs. unfold proceed_step. rewrite Hi. destruct k as [repo|repo owner name|repo answer].
  - unfold begin_step, mbind, M_bind. rewrite (proj1 Hs), fetch_begin_calm. do 2 eexists. split; [reflexivity|].
    destruct (ParseRepo repo) as [[owner name]|e] eqn:Hp.
    + apply (set_worker_calm i (Started repo)); try done. simpl. unfold expected_one. by rewrite Hp.
    + apply (worker_returns_calm i (Started repo)); try done. simpl. unfold expected_one. by rewrite Hp.
  - unfold answer_step, mbind, M_bind, attempt. pose proof (source_answers ctx owner name w) as Ha.
    destruct (gh_GetLatestRelease ctx owner name w) as [r w']. simpl in Ha. subst r. do 2 eexists. split; [reflexivity|].
    apply (set_worker_calm i (Requesting repo owner name)); try done. apply answers_harmless.
  - do 2 eexists. split; [reflexivity|]. unfold finish_step.
    assert (exists r, fetch_end answer = Ok r /\
      option_list (release_of repo answer) = option_list (r ≫= fun rel => release_of repo (Ok rel))) as (r & -> & Hr).
    { unfold fetch_end. destruct answer as [rel|e]; [by eexists|].
      pose proof (proj2 Hs) as Hh. rewrite Forall_forall in Hh. apply list_elem_of_lookup_2 in Hi.
      specialize (Hh _ Hi). simpl in Hh. rewrite Hh. by eexists. }
    by apply (worker_returns_calm i (Answered repo answer)).
Qed.

Lemma pass_step_expected workers ctx c s (w : World D) :
  c ∈ choices workers s -> calm s ->
  exists s' w', pass_step ctx c s w = (Ok s', w') /\ calm s' /\ outlook s' ≡ₚ outlook s.
Proof.
  intros [(-> & Hn & Ht)|[(-> & n & Hn)|[(i & k & -> & Hi)|(i & ? & ? & ? & -> & Hi & Hcc)]]]%elem_of_choices Hs; simpl.
  - unfold check_step. destruct (ps_todo s) as [|repo todo] eqn:Htd; [done|].
    unfold ctx_Done, mbind, M_bind, oracle, mret, M_ret. rewrite (proj1 Hs), never_done. simpl.
    do 2 eexists. split_and!; [done|split; apply Hs|]. unfold outlook. simpl. rewrite Hn, Htd.
    f_equiv. f_equiv. apply expected_perm. simpl. solve_Permutation.
  - unfold launch_step. rewrite Hn. do 2 eexists. split_and!; [done| |].
    + split; [apply Hs|]. simpl. apply Forall_app. split; [apply Hs|by repeat constructor].
    + unfold outlook. simpl. rewrite Hn, app_nil_r, omap_app. unfold expected. rewrite omap_app. simpl.
      destruct (expected_one n); simpl; solve_Permutation.
  - by apply proceed_step_expected with k.
  - by rewrite (proj1 Hs) in Hcc.
Qed.

Lemma pass_loop_expected workers sched ctx fuel s (w : World D) s' w' :
  calm s -> pass_loop fuel workers sched ctx s w = Some (Ok s', w') -> ps_observed s' ≡ₚ outlook s.
Proof.
  revert s w. induction fuel as [|fuel IH]; intros s w Hc; simpl;
    (destruct (finished s) eqn:Hf; [intros [= <- <-]; unfold finished in Hf; rewrite !andb_true_iff, !bool_decide_eq_true in Hf;
      destruct Hf as [[Ht Hn] Hr]; unfold outlook; rewrite Ht, Hn, Hr; simpl; by rewrite app_nil_r|]); [done|].
  destruct (choices workers s !! _) as [c|] eqn:Hl; [|done]. apply list_elem_of_lookup_2 in Hl.
  destruct (pass_step_expected workers ctx c s w Hl Hc) as (s1 & w1 & -> & Hc1 & Hp).
  intros Hrun. by rewrite (IH s1 w1 Hc1 Hrun).
Qed.
End Deterministic.

(** The errgroup pass meets the interface of [watch.scanner], for any scheduler
    and any non-zero limit; the default is never reached ([Scan_spec]). *)
Definition total_Scan {D} {E : Env} {G : ReleaseSource D} (workers : Z) (sched : nat -> nat)
    (ctx : Ctx) (repos : list string) : M D (list ObservedRelease) := fun w =>
  match Scan workers sched ctx repos w with Some out => out | None => (Ok [], w) end.

Lemma total_Scan_spec {D} {E : Env} {G : ReleaseSource D} workers sched ctx repos (w : World D) :
  workers <> 0 -> NoDup repos ->
  wp (total_Scan workers sched ctx repos) (fun r w' => github_step w w' /\
    match r with Ok obs => NoDup (map or_Repo obs) /\ map or_Repo obs ⊆ repos | Err _ => True end) w.
Proof.
  intros Hw Hnd. destruct (Scan_spec workers sched ctx repos w Hw) as (obs & w' & Hs & Hsub & Hg).
  unfold wp, total_Scan. rewrite Hs. simpl. pose proof Hsub as [rest Hp]%submseteq_Permutation.
  split_and!; [done|rewrite Hp in Hnd; by apply NoDup_app in Hnd as (? & _)|].
  intros x Hx. by eapply elem_of_submseteq.
Qed.

Definition Errgroup_ReleaseScanner {D} {E : Env} {G : ReleaseSource D} (workers : Z) (sched : nat -> nat)
    (Hw : workers <> 0) : ReleaseScanner D :=
  {| sc_Scan := total_Scan workers sched; sc_Scan_spec ctx repos w := total_Scan_spec workers sched ctx repos w Hw |}.

(** ** The watch list is a map *)

Notation WatchMap := (gmap string (option string * Z)).

(** Repository to its last seen tag and its number of subscribers. *)
Definition abs_watch (d : ScanDB) : WatchMap :=
  table_map wr_RepoName (fun r => (wr_LastSeenTag r, wr_SubscriberCount r)) (watched_repos d).

Definition scan_inv (d : ScanDB) : Prop :=
  unique_on wr_RepoName (watched_repos d) /\
  Forall (fun r => 1 <= wr_SubscriberCount r <= int32_max) (watched_repos d).

Definition add_subscriber (v : option (option string * Z)) : option (option string * Z) :=
  match v with None => Some (None, 1) | Some (tag, n) => Some (tag, n + 1) end.
Definition drop_subscriber (v : option (option string * Z)) : option (option string * Z) :=
  match v with None => None | Some (tag, n) => if 1 <? n then Some (tag, n - 1) else None end.

(** What the messages of a subject do to the watch list. *)
Definition watch_spec `{Validators} (subject data : string) (m : WatchMap) : WatchMap :=
  if String.eqb subject SubjectSubscriptionConfirmed then
    match Unmarshal (T := SubscriptionConfirmed) data with
    | Ok ev => partial_alter add_subscriber (sc_RepoName ev) m | Err _ => m end
  else if String.eqb subject SubjectSubscriptionRemoved then
    match Unmarshal (T := SubscriptionRemoved) data with
    | Ok ev => partial_alter drop_subscriber (sr_RepoName ev) m | Err _ => m end
  else if String.eqb subject SubjectReleaseNotified then
    match Unmarshal (T := ReleaseNotified) data with
    | Ok ev => if rn_SentCount ev <=? 0 then m
               else alter (fun v => (Some (rn_Tag ev), snd v)) (rn_RepoName ev) m
    | Err _ => m end
  else m.

Lemma update_where_ext {R} (p q : R -> bool) f t :
  (forall r, p r = q r) -> update_where p f t = update_where q f t.
Proof. intros Hpq. unfold update_where. apply map_ext. intros r. by rewrite Hpq. Qed.

Section Watchlist.
Implicit Types d : ScanDB.

Lemma abs_watch_row d r : scan_inv d -> r ∈ watched_repos d ->
  abs_watch d !! wr_RepoName r = Some (wr_LastSeenTag r, wr_SubscriberCount r).
Proof. intros [Hu _] Hr. apply table_map_lookup; [done|]. eauto. Qed.

Lemma row_of_key d repo :
  scan_inv d -> exists_where (key_is wr_RepoName repo) (watched_repos d) = true ->
  exists r, r ∈ watched_repos d /\ wr_RepoName r = repo /\ 1 <= wr_SubscriberCount r <= int32_max /\
    (forall r', r' ∈ watched_repos d -> wr_RepoName r' = repo -> r' = r).
Proof.
  intros [Hu Hc] (r & Hr & Hk%bool_decide_eq_true)%exists_where_true. exists r.
  rewrite Forall_forall in Hc. split_and!; [done..|by apply Hc|by apply Hc|].
  intros r' Hr' Hk'. apply (unique_on_eq wr_RepoName (watched_repos d)); congruence.
Qed.

Lemma increment_spec repo sc d d' :
  increment_stmt repo sc d = inr (tt, d') -> scan_inv d ->
  scan_inv d' /\ abs_watch d' = partial_alter add_subscriber repo (abs_watch d).
Proof.
  unfold increment_stmt. cbv zeta. destruct (exists_where (fun r => _ && _) _) eqn:Hov; [done|].
  rewrite exists_where_false in Hov. intros Hst Hinv. pose proof Hinv as [Hu Hc].
  destruct (exists_where (key_is wr_RepoName repo) (watched_repos d)) eqn:Hex; injection Hst as <-.
  - destruct (row_of_key d repo Hinv Hex) as (r & Hr & Hk & Hn & _). split.
    + split; simpl; [by apply unique_on_update|].
      rewrite Forall_forall in *. intros r' (r0 & Hr0 & ->)%elem_of_update.
      specialize (Hc r0 Hr0). specialize (Hov r0 Hr0). destruct (key_is wr_RepoName repo r0); [|done].
      simpl in *. lia.
    + unfold abs_watch at 1. cbn [watched_repos].
      rewrite (update_where_ext _ (fun r => key_is wr_RepoName repo r && true)) by (intros; by rewrite andb_true_r).
      rewrite (table_map_update _ _ repo (fun _ => true) _ (fun v => (fst v, snd v + 1))) by done.
      apply map_eq. intros k. destruct (decide (k = repo)) as [->|Hne].
      * rewrite lookup_alter_eq, lookup_partial_alter_eq. fold (abs_watch d).
        rewrite <- Hk, abs_watch_row by done. done.
      * by rewrite lookup_alter_ne, lookup_partial_alter_ne.
  - split.
    + split; simpl; [by apply unique_on_insert|]. apply Forall_app. split; [done|].
      constructor; [|done]. simpl. unfold int32_max. lia.
    + unfold abs_watch at 1. cbn [watched_repos]. rewrite table_map_insert by done. simpl.
      apply map_eq. intros k. destruct (decide (k = repo)) as [->|Hne].
      * rewrite lookup_insert_eq, lookup_partial_alter_eq. unfold abs_watch. by rewrite table_map_absent.
      * by rewrite lookup_insert_ne, lookup_partial_alter_ne.
Qed.

Lemma decrement_spec repo sc d d' :
  decrement_stmt repo sc d = inr (tt, d') -> scan_inv d ->
  scan_inv d' /\ abs_watch d' = partial_alter drop_subscriber repo (abs_watch d).
Proof.
  unfold decrement_stmt. cbv zeta. intros [= <-] Hinv. pose proof Hinv as [Hu Hc].
  destruct (exists_where (fun r => _ && _) _) eqn:Hmany.
  - apply exists_where_true in Hmany as (r & Hr & [Hk%bool_decide_eq_true Hn%Z.ltb_lt]%andb_true_iff). split.
    + split; simpl; [by apply unique_on_update|].
      rewrite Forall_forall in *. intros r' (r0 & Hr0 & ->)%elem_of_update.
      specialize (Hc r0 Hr0). destruct (_ && _) eqn:Hb; [|done]. apply andb_true_iff in Hb as [_ ?%Z.ltb_lt]. simpl. lia.
    + unfold abs_watch at 1. cbn [watched_repos].
      rewrite (table_map_update _ _ repo (fun r => 1 <? wr_SubscriberCount r) _
        (fun v => if 1 <? snd v then (fst v, snd v - 1) else v)); [|done|by intros r'; simpl; destruct (1 <? _)|done].
      apply map_eq. intros k. destruct (decide (k = repo)) as [->|Hne].
      * rewrite lookup_alter_eq, lookup_partial_alter_eq. fold (abs_watch d). rewrite <- Hk, abs_watch_row by done.
        simpl. destruct (Z.ltb_spec 1 (wr_SubscriberCount r)); [done|lia].
      * by rewrite lookup_alter_ne, lookup_partial_alter_ne.
  - rewrite exists_where_false in Hmany. split.
    + split; simpl; [by apply unique_on_delete|]. rewrite Forall_forall in *. intros r [Hr _]%elem_of_delete. auto.
    + unfold abs_watch at 1. cbn [watched_repos]. rewrite table_map_delete.
      apply map_eq. intros k. destruct (decide (k = repo)) as [->|Hne].
      * rewrite lookup_delete_eq, lookup_partial_alter_eq. fold (abs_watch d).
        destruct (abs_watch d !! repo) as [[tag n]|] eqn:Hl; [|done].
        apply table_map_lookup in Hl as (r & Hr & <- & [= <- <-]); [|done]. specialize (Hmany r Hr).
        unfold key_is in Hmany. rewrite bool_decide_eq_true_2 in Hmany by done. simpl in Hmany |- *. by rewrite Hmany.
      * by rewrite lookup_delete_ne, lookup_partial_alter_ne.
Qed.

Lemma advance_tag_spec repo tag sc d d' :
  advance_tag_stmt repo tag sc d = inr (tt, d') -> scan_inv d ->
  scan_inv d' /\ abs_watch d' = alter (fun v => (Some tag, snd v)) repo (abs_watch d).
Proof.
  unfold advance_tag_stmt. intros [= <-] Hinv. pose proof Hinv as [Hu Hc]. split.
  - split; simpl; [by apply unique_on_update|].
    rewrite Forall_forall in *. intros r' (r0 & Hr0 & ->)%elem_of_update.
    specialize (Hc r0 Hr0). by destruct (key_is _ _ _).
  - unfold abs_watch at 1. cbn [watched_repos].
    rewrite (update_where_ext _ (fun r => key_is wr_RepoName repo r && true)) by (intros; by rewrite andb_true_r).
    by rewrite (table_map_update _ _ repo (fun _ => true) _ (fun v => (Some tag, snd v))).
Qed.
End Watchlist.

Section WatchConsumers.
Context {E : Env} {V : Validators}.
Implicit Types w : World ScanDB.

(** Handling an event whose effect on the watch list is [f]. *)
Definition watched (f : WatchMap -> WatchMap) w (r : res unit) w' : Prop :=
  scan_inv (w_db w') /\ w_trace w' = w_trace w /\
  ((w_db w' = w_db w /\ retryable r = true) \/ abs_watch (w_db w') = f (abs_watch (w_db w))).

Lemma watched_stmt pre1 pre2 (st : Stmt ScanDB unit) f w :
  scan_inv (w_db w) ->
  (forall sc d', st sc (w_db w) = inr (tt, d') -> scan_inv d' /\ abs_watch d' = f (abs_watch (w_db w))) ->
  wp (wrapping pre1 (wrapping pre2 (run QPool None st))) (watched f w) w.
Proof.
  intros Hinv Hst. wp_steps. apply wp_run_pool.
  - intros msg w' [Ht _] _ Hdb. split_and!; [by rewrite Hdb|done|by left].
  - intros sc [] d w' Hd [Ht _] _ Hdb. destruct (Hst sc d Hd) as [Hinv' Habs]. subst d.
    split; [|intros msg]; (split_and!; [done..|by right]).
Qed.

Lemma watched_same w r : scan_inv (w_db w) -> watched (fun m => m) w r w.
Proof. intros Hinv. split_and!; [done..|by right]. Qed.

Lemma consumer_watches spec ctx data w :
  spec ∈ scanner_startConsumers -> scan_inv (w_db w) ->
  wp (cs_Handler spec ctx data) (watched (watch_spec (cs_Subject spec) data) w) w.
Proof.
  intros Hspec Hinv. unfold scanner_startConsumers in Hspec.
  repeat (apply elem_of_cons in Hspec as [->|Hspec]); [..|by apply elem_of_nil in Hspec];
    unfold watch_spec; cbn [cs_Handler cs_Subject]; simpl (String.eqb _ _); cbv iota;
    apply wp_decoded; try (intros e Hu; rewrite Hu; by apply watched_same); intros ev Hu Hv; rewrite Hu.
  - apply watched_stmt; [done|]. intros sc d' Hst. by eapply increment_spec.
  - apply watched_stmt; [done|]. intros sc d' Hst. by eapply decrement_spec.
  - unfold AdvanceTag_Execute. destruct (rn_SentCount ev <=? 0); [by apply wp_ret, watched_same|].
    apply watched_stmt; [done|]. intros sc d' Hst. by eapply advance_tag_spec.
Qed.
End WatchConsumers.
