(* ===== verification/ScannerTheorems.v ===== *)
(** * The scanner's guarantees *)

From S2P Require Import Prelude GoErrors Effects Wp Sql Json JsonFacts RepoName Events Uuid Broker Consumers Libs.
From S2P Require Import GitHub Subscription SubscriptionUse Mailer Scanner ScannerFacts Quiet Concrete.

Open Scope string_scope.
Open Scope list_scope.
Open Scope Z_scope.

(** ** The fetch pass *)

(** C17: A fetch pass ends exactly when it has workers.  For every scheduling of the
    workers, every worker limit but zero, every answer and failure of GitHub and
    of the cache and every cancellation, [Scan] returns within its fuel, without
    an error; each repository asked for is observed at most once, nothing else
    is observed, and the pass does nothing but GitHub requests and cache writes.
    With the limit zero a pass over any repository never returns, however long it
    runs, unless its context is already done. *)
Theorem scan_pass_total {D} {E : Env} {G : ReleaseSource D} workers sched ctx repos (w : World D) :
  (workers <> 0 ->
   exists obs w', Scan workers sched ctx repos w = Some (Ok obs, w') /\
     map or_Repo obs ⊆+ repos /\ github_step w w') /\
  (workers = 0 -> repos <> [] -> env_done (w_tick w) = None ->
   forall fuel, pass_loop fuel workers sched ctx (initial_pass repos) w = None).
Proof. split; [apply Scan_spec|]. intros -> Hr Hd fuel. destruct repos as [|repo repos]; [done|]. by apply Scan_blocked. Qed.

(** The two answers that stop a pass. *)
Definition fatal (e : error) : bool := errors_Is e ErrUnauthorized || errors_Is e ErrRateLimited.

Lemma fetch_end_fails answer e : fetch_end answer = Err e <-> answer = Err e /\ fatal e = true.
Proof.
  unfold fetch_end, handleReleaseError, fatal. destruct answer as [rel|e']; [by split; [|intros [? _]]|].
  destruct (errors_Is e' ErrUnauthorized) eqn:Hu; [|destruct (errors_Is e' ErrRateLimited) eqn:Hr]; split; try done.
  - intros [= ->]. by rewrite Hu.
  - by intros [[= ->] _].
  - intros [= ->]. by rewrite Hr, orb_true_r.
  - by intros [[= ->] _].
  - intros [[= ->] H]. by rewrite Hu, Hr in H.
Qed.

Lemma pass_step_fails workers ctx c s e {D} {E : Env} {G : ReleaseSource D} (w : World D) s1 w1 :
  c ∈ choices workers s -> ps_failed s = None -> pass_step ctx c s w = (Ok s1, w1) ->
  ps_failed s1 = Some e <->
    exists i repo, c = Proceed i /\ ps_running s !! i = Some (Answered repo (Err e)) /\ fatal e = true.
Proof.
  intros [(-> & Hn & Ht)|[(-> & n & Hn)|[(i & k & -> & Hi)|(i & ? & ? & ? & -> & Hi & Hcc)]]]%elem_of_choices Hf; simpl.
  - unfold check_step. destruct (ps_todo s); [done|]. unfold ctx_Done, mbind, M_bind, oracle, mret, M_ret. intros [= <- _].
    destruct (cancelled s || _); simpl; rewrite Hf; naive_solver.
  - unfold launch_step. rewrite Hn. intros [= <- _]. simpl. rewrite Hf. naive_solver.
  - unfold proceed_step. rewrite Hi. destruct k as [repo|repo owner name|repo answer].
    + unfold begin_step, mbind, M_bind. destruct (fetch_begin_quiet (cancelled s) repo w) as [target ->]. intros [= <- _].
      destruct target as [[]|]; simpl; rewrite Hf; naive_solver.
    + unfold answer_step, mbind, M_bind, attempt. destruct (gh_GetLatestRelease ctx owner name w) as [r w']. intros [= <- _].
      simpl. rewrite Hf. naive_solver.
    + unfold finish_step, worker_returns. intros [= <- _]. simpl. rewrite Hf.
      pose proof (fetch_end_fails answer) as He. destruct (fetch_end answer) as [rel|e'].
      * split; [done|]. intros (j & repo' & [= <-] & Hj & Hfa). rewrite Hi in Hj. injection Hj as _ ->.
        discriminate (proj2 (He e) (conj eq_refl Hfa)).
      * split; [|intros (j & repo' & [= <-] & Hj & Hfa); rewrite Hi in Hj; injection Hj as _ ->].
        -- intros [= ->]. destruct (proj1 (He e)) as [-> ?]; [done|]. by exists i, repo.
        -- by injection (proj2 (He e) (conj eq_refl Hfa)) as ->.
  - unfold cancelled in Hcc. rewrite Hf in Hcc. done.
Qed.

(** C18: A pass that GitHub has refused stops asking.  Its context is cancelled
    exactly when a goroutine returns the first answer that says bad token or rate
    limit; no other answer stops a pass.  From then on, however the goroutines are
    scheduled, that reason stays, and only requests already in flight may still
    be made or answered, one call each; a goroutine that has not passed its
    check asks nothing, nor is a repository that the loop has not launched.  What
    is observed until then is kept, and what is observed afterwards comes from
    goroutines that were past their check. *)
Theorem scan_pass_aborts {D} {E : Env} {G : ReleaseSource D} workers sched ctx fuel c s e (w : World D) s1 w1 s2 w2 :
  c ∈ choices workers s -> ps_failed s = None -> pass_step ctx c s w = (Ok s1, w1) ->
  pass_loop fuel workers sched ctx s1 w1 = Some (Ok s2, w2) ->
  (ps_failed s1 = Some e <->
     exists i repo, c = Proceed i /\ ps_running s !! i = Some (Answered repo (Err e)) /\ fatal e = true) /\
  (ps_failed s1 = Some e ->
   ps_failed s2 = Some e /\
   exists late targets, ps_observed s2 = ps_observed s ++ late /\ map or_Repo late ⊆+ past_check s1 /\
     targets ⊆+ in_flight s1 /\ asked ctx targets w w2).
Proof.
  intros Hc Hf Hstep Hloop. pose proof (pass_step_fails workers ctx c s e w s1 w1 Hc Hf Hstep) as Hiff. split; [exact Hiff|].
  intros He. destruct (proj1 Hiff He) as (i & repo & -> & Hi & Hfa).
  assert (cancelled s1 = true) as Hc1 by (unfold cancelled; rewrite He; done).
  destruct (pass_loop_cancelled _ _ _ _ _ _ _ _ Hc1 Hloop) as (Hfl & late & targets & Ho & Hp & Ht & Ha).
  split; [congruence|]. simpl in Hstep. unfold proceed_step in Hstep. rewrite Hi in Hstep. injection Hstep as <- <-.
  exists late, targets. rewrite Ho. split_and!.
  - unfold finish_step, worker_returns. cbn [ps_observed]. rewrite (proj2 (fetch_end_fails (Err e) e)); done.
  - etrans; [|exact Hp]. by apply submseteq_inserts_r.
  - etrans; [|exact Ht]. by apply submseteq_inserts_r.
  - done.
Qed.

(** C19: The interleaving of the workers does not matter.  When GitHub's answers stay
    the same during the pass, none of them aborts it, and nobody stops the
    scanner meanwhile (its context is never done), a pass with any worker limit
    but zero (with zero it never ends) returns under every scheduler, and what it
    observes is, up to order, one release for each repository whose name is well
    formed and whose latest release GitHub reports: two passes under any two such
    limits and schedulers, with their own caches, observe the same. *)
Theorem scan_pass_deterministic {D} {E : Env} {G : ReleaseSource D} (answers : string -> string -> res Release)
    workers sched ctx repos (w : World D) :
  (forall ctx owner name (w : World D), fst (gh_GetLatestRelease ctx owner name w) = answers owner name) ->
  (forall owner name e, answers owner name = Err e -> handleReleaseError e = None) ->
  (forall n, env_done n = None) -> workers <> 0 ->
  exists obs w', Scan workers sched ctx repos w = Some (Ok obs, w') /\ obs ≡ₚ expected answers repos.
Proof.
  intros Ha Hb Hd Hw. unfold Scan.
  destruct (pass_loop_spec workers sched ctx (scan_fuel repos) (initial_pass repos) w Hw) as
    (s & w' & Hl & _); [unfold work, scan_fuel; simpl; lia|].
  rewrite Hl. exists (ps_observed s), w'. split; [done|].
  apply (pass_loop_expected answers Ha Hb Hd) in Hl; [|done]. rewrite Hl. unfold outlook. simpl. by rewrite !app_nil_r.
Qed.

(** ** The watch list *)

(** C31: The watch list counts subscribers: whichever of the scanner's consumers
    handles whatever bytes, with any behaviour of the database, every listed
    repository keeps between 1 and 2^31-1 subscribers, and either nothing
    changes and the message is redelivered, or the list changes exactly as the event
    says: a confirmation adds one (a new repository starts at one, with no tag),
    a removal takes one away and drops the repository with the last, and a
    notified release sets the last seen tag exactly when something was sent. *)
Theorem scanner_watch_list {E : Env} {V : Validators} spec ctx data (w : World ScanDB) :
  spec ∈ scanner_startConsumers -> scan_inv (w_db w) ->
  let '(r, w') := cs_Handler spec ctx data w in
  scan_inv (w_db w') /\ w_trace w' = w_trace w /\
  ((w_db w' = w_db w /\ retryable r = true) \/
   abs_watch (w_db w') = watch_spec (cs_Subject spec) data (abs_watch (w_db w))).
Proof.
  intros Hs Hinv. pose proof (consumer_watches spec ctx data w Hs Hinv) as Hp.
  unfold wp in Hp. by destruct (cs_Handler spec ctx data w).
Qed.

(** Redelivery of a confirmation is counted again: handling the same message
    twice, with a database that answers, succeeds twice and leaves the count two
    higher, as long as the column does not overflow. *)
Theorem confirmed_redelivery_overcounts {E : Env} {V : Validators} ctx data ev tag n (w : World ScanDB) :
  Unmarshal (T := SubscriptionConfirmed) data = Ok ev -> (forall k, env_db k = None) -> scan_inv (w_db w) ->
  abs_watch (w_db w) !! sc_RepoName ev = Some (tag, n) -> n + 2 <= int32_max ->
  exists w1 w2, Scanner_HandleConfirmed ctx data w = (Ok tt, w1) /\ Scanner_HandleConfirmed ctx data w1 = (Ok tt, w2) /\
    abs_watch (w_db w2) !! sc_RepoName ev = Some (tag, n + 2).
Proof.
  intros Hu Hdb Hinv Hl Hn.
  assert (forall (w : World ScanDB) n, scan_inv (w_db w) -> abs_watch (w_db w) !! sc_RepoName ev = Some (tag, n) ->
    n < int32_max -> exists w', Scanner_HandleConfirmed ctx data w = (Ok tt, w') /\ scan_inv (w_db w') /\
      abs_watch (w_db w') !! sc_RepoName ev = Some (tag, n + 1)) as Hone.
  { clear w n Hinv Hl Hn. intros w n Hinv Hl Hn.
    unfold Scanner_HandleConfirmed, decoded, Watchlist_Confirmed, IncrementSubscriber, wrapping, run. rewrite Hu, Hdb.
    destruct (increment_stmt (sc_RepoName ev) _ _) as [msg|[[] d']] eqn:Hst.
    - exfalso. unfold increment_stmt in Hst. cbv zeta in Hst. destruct (exists_where (fun r => _ && _) _) eqn:Hov.
      + apply exists_where_true in Hov as (r & Hr & [Hk%bool_decide_eq_true Hge%Z.leb_le]%andb_true_iff).
        rewrite <- Hk, abs_watch_row in Hl by done. injection Hl as _ <-. simpl in Hge. lia.
      + by destruct (exists_where (key_is _ _) _).
    - destruct (increment_spec _ _ _ _ Hst Hinv) as [Hinv' Habs]. eexists. split; [done|]. split; [done|].
      simpl. rewrite Habs, lookup_partial_alter_eq. change (db_of QPool w) with (w_db w). by rewrite Hl. }
  destruct (Hone w n Hinv Hl ltac:(lia)) as (w1 & H1 & Hinv1 & Hl1).
  destruct (Hone w1 (n + 1) Hinv1 Hl1 ltac:(lia)) as (w2 & H2 & _ & Hl2).
  exists w1, w2. split_and!; [done..|]. rewrite Hl2. do 2 f_equal. lia.
Qed.

(** ** Detection *)

Lemma Forall2_compose {A} (R1 R2 R : relation A) l1 l2 l3 :
  (forall x y z, R1 x y -> R2 y z -> R x z) -> Forall2 R1 l1 l2 -> Forall2 R2 l2 l3 -> Forall2 R l1 l3.
Proof. intros HR H1. revert l3. induction H1; intros l3 H2; inversion H2; subst; constructor; eauto. Qed.

Section Detection.
Context {E : Env} {V : Validators} {U : UUIDLib} {P : PgxLib} {BP : BusPublisher ScanDB}.
Implicit Types (w : World ScanDB) (byName : gmap string WatchedRepo).

Lemma index_by_name_lookup ws n r :
  NoDup (map wr_RepoName ws) -> index_by_name ws !! n = Some r <-> r ∈ ws /\ wr_RepoName r = n.
Proof.
  unfold index_by_name. induction ws as [|x ws IH] using rev_ind; intros Hnd; simpl.
  - rewrite lookup_empty, elem_of_nil. naive_solver.
  - rewrite map_app in Hnd. apply NoDup_app in Hnd as (Hnd & Hx & _).
    rewrite foldl_app. simpl. rewrite elem_of_app, list_elem_of_singleton.
    destruct (decide (wr_RepoName x = n)) as [<-|Hne].
    + rewrite lookup_insert_eq. split; [intros [= <-]; auto|]. intros [[Hr| ->] He]; [|done].
      exfalso. apply (Hx (wr_RepoName x)); [|simpl; by left]. rewrite <- He. by apply list_elem_of_fmap_2.
    + rewrite lookup_insert_ne, IH by done. naive_solver.
Qed.

(** What the tag of an observed release means for its repository. *)
Definition is_new byName (o : ObservedRelease) : bool :=
  match byName !! or_Repo o with
  | Some r => match wr_LastSeenTag r with Some seen => negb (String.eqb seen (rel_TagName (or_Release o))) | None => false end
  | None => false
  end.
Definition is_unseeded byName (o : ObservedRelease) : bool :=
  match byName !! or_Repo o with
  | Some r => match wr_LastSeenTag r with Some _ => false | None => true end
  | None => false
  end.

Definition detected_event (id : string) (o : ObservedRelease) : ReleaseDetected :=
  {| rd_SagaID := id; rd_RepoName := or_Repo o; rd_Tag := rel_TagName (or_Release o);
     rd_ReleaseURL := rel_HTMLURL (or_Release o) |}.

(** A detection publishes its event once, or nothing when it is invalid. *)
Definition announced (o : ObservedRelease) (g : list Ext) : Prop :=
  exists id, (validate (detected_event id o) = false /\ g = []) \/
             exists ok, g = [XPublish SubjectReleaseDetected (encode_event (detected_event id o)) ok].

(** [o] is about the row [r], which had no tag when the pass began. *)
Definition to_seed byName (r : WatchedRepo) (o : ObservedRelease) : Prop :=
  or_Repo o = wr_RepoName r /\ is_unseeded byName o = true.

(** A row before and after: a missing tag is filled in with the tag observed for
    that repository; without such an observation the row stays as it is, and
    with one it can stay only because a call of the database failed. *)
Definition seeded byName (obs : list ObservedRelease) (r r' : WatchedRepo) : Prop :=
  wr_RepoName r' = wr_RepoName r /\ wr_SubscriberCount r' = wr_SubscriberCount r /\
  ((exists o, o ∈ obs /\ to_seed byName r o /\ wr_LastSeenTag r' = Some (rel_TagName (or_Release o))) \/
   (wr_LastSeenTag r' = wr_LastSeenTag r /\ ((exists o, o ∈ obs /\ to_seed byName r o) -> db_faults))).

Lemma seeded_refl byName obs l :
  (forall o, o ∈ obs -> is_unseeded byName o = true -> db_faults) -> Forall2 (seeded byName obs) l l.
Proof.
  intros Ho. induction l; constructor; [|done]. split_and!; [done..|right; split; [done|]].
  intros (o & ? & _ & ?). eauto.
Qed.

Lemma seeded_weaken byName o obs r r' :
  is_unseeded byName o = false -> seeded byName obs r r' -> seeded byName (o :: obs) r r'.
Proof.
  intros Hu (? & ? & [(o' & ? & ?)|[? Hf]]); split_and!; auto; [left; exists o'; split; [by right|done]|right; split; [done|]].
  intros (o' & [->|Ho']%elem_of_cons & Hs); [destruct Hs; congruence|eauto].
Qed.

Lemma seeded_trans byName o obs r1 r2 r3 :
  seeded byName [o] r1 r2 -> seeded byName obs r2 r3 -> seeded byName (o :: obs) r1 r3.
Proof.
  unfold seeded, to_seed. intros (Hn1 & Hc1 & Ht1) (Hn2 & Hc2 & Ht2). rewrite Hn1 in *. split_and!; [congruence..|].
  destruct Ht2 as [(o' & Ho' & Hs' & Ht')|[Ht2 Hf2]]; [left; exists o'; split_and!; [by right|apply Hs'|apply Hs'|done]|].
  destruct Ht1 as [(o' & ->%list_elem_of_singleton & Hs' & Ht')|[Ht1 Hf1]].
  - left. exists o. split_and!; [by left|apply Hs'|apply Hs'|congruence].
  - right. split; [congruence|]. intros (o' & [->|Ho']%elem_of_cons & Hs); [apply Hf1; exists o|apply Hf2; exists o'];
      (split; [by first [done|left]|exact Hs]).
Qed.

Lemma seeded_update byName o l :
  is_unseeded byName o = true ->
  Forall2 (seeded byName [o]) l
    (update_where (key_is wr_RepoName (or_Repo o)) (with_tag (rel_TagName (or_Release o))) l).
Proof.
  intros Hu. unfold update_where. induction l as [|r l IH]; simpl; constructor; [|done].
  unfold key_is. case_bool_decide as Hr; split_and!; [done..|left|done|done|right; split; [done|]].
  - exists o. split_and!; [by left|done..].
  - intros (o' & ->%list_elem_of_singleton & Hs & _). congruence.
Qed.

Lemma wp_pub_ReleaseDetected ctx id o (Q : res unit -> World ScanDB -> Prop) w :
  (forall r w' g, w_db w' = w_db w -> w_trace w' = w_trace w ++ g ->
     (validate (detected_event id o) = false /\ g = []) \/
     (exists ok, g = [XPublish SubjectReleaseDetected (encode_event (detected_event id o)) ok]) -> Q r w') ->
  wp (pub_ReleaseDetected ctx (detected_event id o)) Q w.
Proof.
  intros HQ. unfold pub_ReleaseDetected, publish, Marshal.
  destruct (validate (detected_event id o)) eqn:Hv.
  - apply wp_wrapping. eapply wp_mono; [|apply Publish_spec].
    intros r w' (Hdb & _ & _ & _ & _ & Ht). eapply HQ; [done|exact Ht|right; eauto].
  - apply wp_fail. eapply HQ; [done|by rewrite app_nil_r|by left].
Qed.

Lemma process_spec ctx byName o repo w :
  byName !! or_Repo o = Some repo -> wr_RepoName repo = or_Repo o ->
  wp (process ctx repo (or_Release o)) (fun r w' => exists oc groups, r = Ok oc /\
    (forall c, count oc c = {| ct_seeded := ct_seeded c + (if is_unseeded byName o then 1 else 0);
                               ct_detected := ct_detected c + (if is_new byName o then 1 else 0) |}) /\
    w_trace w' = w_trace w ++ concat groups /\
    Forall2 announced (if is_new byName o then [o] else []) groups /\
    Forall2 (seeded byName [o]) (watched_repos (w_db w)) (watched_repos (w_db w'))) w.
Proof.
  intros Hb Hn. unfold process. destruct (wr_LastSeenTag repo) as [seen|] eqn:Ht.
  - destruct (String.eqb seen (rel_TagName (or_Release o))) eqn:Heq.
    + apply wp_ret. exists outcomeUnchanged, []. unfold is_new, is_unseeded. rewrite Hb, Ht, Heq. simpl.
      split_and!; [done|intros []; simpl; f_equal; lia|by rewrite app_nil_r|constructor|apply seeded_refl].
      intros o' ->%list_elem_of_singleton. unfold is_unseeded. by rewrite Hb, Ht.
    + unfold uuid_NewString, fresh_uuid. wp_steps.
      change {| rd_SagaID := _ |} with (detected_event (uuid_String (env_uuid (w_tick w)))
        {| or_Repo := wr_RepoName repo; or_Release := or_Release o |}).
      rewrite Hn. apply wp_pub_ReleaseDetected. intros r w' g Hdb Htr Hg. wp_steps.
      exists outcomeDetected, [g]. unfold is_new, is_unseeded. rewrite Hb, Ht, Heq. simpl in *. rewrite Hdb, app_nil_r.
      split_and!; [done|intros []; simpl; f_equal; lia|done| |apply seeded_refl].
      * constructor; [|constructor]. destruct o. eexists. exact Hg.
      * intros o' ->%list_elem_of_singleton. unfold is_unseeded. by rewrite Hb, Ht.
  - unfold Repo_AdvanceTag. wp_steps.
    assert (is_unseeded byName o = true) as Hus by (unfold is_unseeded; by rewrite Hb, Ht).
    assert (is_new byName o = false) as Hnw by (unfold is_new; by rewrite Hb, Ht).
    assert (forall w' : World ScanDB, w_trace w' = w_trace w ->
      Forall2 (seeded byName [o]) (watched_repos (w_db w)) (watched_repos (w_db w')) ->
      exists oc groups, Ok (A := outcome) outcomeSeeded = Ok oc /\
        (forall c, count oc c = {| ct_seeded := ct_seeded c + (if is_unseeded byName o then 1 else 0);
                                   ct_detected := ct_detected c + (if is_new byName o then 1 else 0) |}) /\
        w_trace w' = w_trace w ++ concat groups /\ Forall2 announced (if is_new byName o then [o] else []) groups /\
        Forall2 (seeded byName [o]) (watched_repos (w_db w)) (watched_repos (w_db w'))) as Hdone.
    { intros w' Htr Hs. exists outcomeSeeded, []. rewrite Hus, Hnw. simpl. rewrite app_nil_r.
      split_and!; [done|intros []; simpl; f_equal; lia|done|constructor|done]. }
    apply wp_run_pool_why.
    + intros msg w' [Hf|[sc Hst]] [Htr _] _ Hdb; [|done]. wp_steps. apply Hdone; [done|]. rewrite Hdb. by apply seeded_refl.
    + intros sc [] d w' Hst [Htr _] _ Hdb. injection Hst as Hd.
      assert (Forall2 (seeded byName [o]) (watched_repos (w_db w)) (watched_repos (w_db w'))) as Hs.
      { rewrite Hdb, <- Hd. simpl. rewrite Hn. by apply seeded_update. }
      split; [|intros _ msg]; wp_steps; by apply Hdone.
Qed.

Lemma process_all_spec ctx byName obs c w :
  (forall n r, byName !! n = Some r -> wr_RepoName r = n) ->
  wp (process_all ctx byName obs c) (fun r w' => exists groups,
    r = Ok {| ct_seeded := ct_seeded c + Z.of_nat (length (List.filter (is_unseeded byName) obs));
              ct_detected := ct_detected c + Z.of_nat (length (List.filter (is_new byName) obs)) |} /\
    w_trace w' = w_trace w ++ concat groups /\
    Forall2 announced (List.filter (is_new byName) obs) groups /\
    Forall2 (seeded byName obs) (watched_repos (w_db w)) (watched_repos (w_db w'))) w.
Proof.
  intros Hname. revert c w. induction obs as [|o obs IH]; intros c w; cbn [process_all List.filter].
  - apply wp_ret. exists []. destruct c. simpl. rewrite app_nil_r, !Z.add_0_r.
    split_and!; [done..|constructor|apply seeded_refl; intros o Ho; by apply elem_of_nil in Ho].
  - pose proof (seeded_trans byName o obs) as Htrans.
    destruct (byName !! or_Repo o) as [repo|] eqn:Hb.
    + apply wp_bind. eapply wp_mono; [|by apply process_spec; [exact Hb|by apply Hname]].
      intros r w1 (oc & g1 & -> & Hoc & Ht1 & Ha1 & Hs1). eapply wp_mono; [|apply IH].
      intros r w2 (g2 & -> & Ht2 & Ha2 & Hs2). exists (g1 ++ g2).
      rewrite Hoc, Ht2, Ht1, concat_app, app_assoc. split_and!; [|done| |by eapply Forall2_compose].
      * simpl. destruct (is_unseeded byName o), (is_new byName o); simpl; do 2 f_equal; lia.
      * pose proof (Forall2_app Ha1 Ha2) as Ha. by destruct (is_new byName o).
    + assert (is_unseeded byName o = false) as -> by (unfold is_unseeded; by rewrite Hb).
      assert (is_new byName o = false) as -> by (unfold is_new; by rewrite Hb).
      eapply wp_mono; [|apply IH]. intros r w2 (g2 & -> & Ht2 & Ha2 & Hs2). exists g2. split_and!; [done..|].
      eapply Forall2_impl; [exact Hs2|]. intros r r'. apply seeded_weaken. unfold is_unseeded. by rewrite Hb.
Qed.

(** The rows of the watch list, by name. *)
Definition watch_rows (d : ScanDB) : gmap string WatchedRepo := index_by_name (watched_repos d).

Lemma ListWatched_spec (Q : res (list WatchedRepo) -> World ScanDB -> Prop) w :
  scan_inv (w_db w) ->
  (forall w', quiet_step w w' -> w_db w' = w_db w ->
     Q (Ok (watched_repos (w_db w))) w' /\ forall e, Q (Err e) w') ->
  wp ListWatched Q w.
Proof.
  intros [_ Hc] HQ. unfold ListWatched. wp_steps. eapply wp_query_pool; [done|]. intros w' Hq _ Hdb.
  split; [|intros msg; by apply HQ]. cbn [map_err]. wp_steps. rewrite CollectRows_match by done. apply wp_ret.
  unfold select_where. rewrite List_filter_all; [by apply HQ|].
  intros r Hr. rewrite Forall_forall in Hc. specialize (Hc r Hr). lia.
Qed.

Definition no_publish (x : Ext) : Prop := match x with XPublish _ _ _ => False | _ => True end.

Lemma github_no_publish l : Forall github_request l -> Forall no_publish l.
Proof. intros Hl. eapply Forall_impl; [exact Hl|]. by intros []. Qed.

(** What a pass that ends with [r] in [w'] did to the world [w]. *)
Definition pass_outcome w (r : res Counts) w' : Prop :=
  let rows := watch_rows (w_db w) in
  match r with
  | Err _ => w_db w' = w_db w /\ exists l, w_trace w' = w_trace w ++ l /\ Forall no_publish l
  | Ok c => exists obs l groups,
      NoDup (map or_Repo obs) /\ Forall (fun o => is_Some (rows !! or_Repo o)) obs /\
      w_trace w' = w_trace w ++ l ++ concat groups /\ Forall no_publish l /\
      Forall2 announced (List.filter (is_new rows) obs) groups /\
      Forall2 (seeded rows obs) (watched_repos (w_db w)) (watched_repos (w_db w')) /\
      ct_seeded c = Z.of_nat (length (List.filter (is_unseeded rows) obs)) /\
      ct_detected c = Z.of_nat (length (List.filter (is_new rows) obs))
  end.

Lemma watch_Run_spec {SC : ReleaseScanner ScanDB} ctx w :
  scan_inv (w_db w) -> wp (watch_Run ctx) (pass_outcome w) w.
Proof.
  intros Hinv. unfold pass_outcome. cbv zeta. set (rows := watch_rows (w_db w)).
  assert (forall n r, rows !! n = Some r <-> r ∈ watched_repos (w_db w) /\ wr_RepoName r = n) as Hrows.
  { intros n r. apply index_by_name_lookup, Hinv. }
  unfold watch_Run. wp_steps. apply ListWatched_spec; [done|]. intros w1 [Ht1 _] Hdb1.
  assert (rows = index_by_name (watched_repos (w_db w1))) as Hrw by (unfold rows, watch_rows; by rewrite Hdb1).
  clearbody rows. rewrite <- Ht1, <- Hdb1 in *.
  split; [|intros e; split; [done|]; exists []; by rewrite app_nil_r]. cbn [map_err]. case_bool_decide as Hnil.
  { apply wp_ret. exists [], [], []. simpl. rewrite !app_nil_r, Hnil. split_and!; try constructor; done. }
  wp_steps. eapply wp_mono; [|apply sc_Scan_spec, Hinv]. intros r w2 [(Hdb2 & _ & _ & _ & _ & l & Ht2 & Hl) Hobs].
  apply github_no_publish in Hl. destruct r as [obs|e]; cbn [map_err]; [|eauto]. destruct Hobs as [Hnd Hsub].
  rewrite <- Hrw. eapply wp_mono; [|apply process_all_spec; intros n r; apply Hrows].
  intros r w3 (groups & -> & Ht3 & Ha & Hs). exists obs, l, groups. simpl.
  rewrite Hdb2 in Hs. rewrite Ht3, Ht2, app_assoc. split_and!; try done.
  apply Forall_forall. intros o Ho.
  assert (or_Repo o ∈ map wr_RepoName (watched_repos (w_db w1))) as (r & He & Hr)%list_elem_of_fmap
    by (apply Hsub; by apply list_elem_of_fmap_2).
  exists r. by apply Hrows.
Qed.

(** C12: A scan pass announces exactly the new releases.  Either it fails before
    looking at any release, and then changes and publishes nothing; or it saw
    some releases of watched repositories, at most one each, and then
    publishes releases.detected once, in the order seen, for every repository
    whose recorded tag differs from the one seen (unless the event would be
    invalid), and nothing else; the tag seen of a repository without one is
    recorded, silently, and can stay missing only when a call of the database
    fails; every other tag, and all names and counts, stay as they were; and the
    pass reports how many it seeded and detected. *)
Theorem watch_run_detects {SC : ReleaseScanner ScanDB} ctx w :
  scan_inv (w_db w) ->
  let '(r, w') := watch_Run ctx w in
  let rows := watch_rows (w_db w) in
  match r with
  | Err _ => w_db w' = w_db w /\ exists l, w_trace w' = w_trace w ++ l /\ Forall no_publish l
  | Ok c => exists obs l groups,
      NoDup (map or_Repo obs) /\ Forall (fun o => is_Some (rows !! or_Repo o)) obs /\
      w_trace w' = w_trace w ++ l ++ concat groups /\ Forall no_publish l /\
      Forall2 announced (List.filter (is_new rows) obs) groups /\
      Forall2 (seeded rows obs) (watched_repos (w_db w)) (watched_repos (w_db w')) /\
      ct_seeded c = Z.of_nat (length (List.filter (is_unseeded rows) obs)) /\
      ct_detected c = Z.of_nat (length (List.filter (is_new rows) obs))
  end.
Proof.
  intros Hinv. pose proof (watch_Run_spec ctx w Hinv) as Hp. unfold wp, pass_outcome in Hp.
  by destruct (watch_Run ctx w).
Qed.

(** ** The scheduler *)

(** A row before and after: a recorded tag stays. *)
Definition tag_kept (r r' : WatchedRepo) : Prop :=
  wr_RepoName r' = wr_RepoName r /\ wr_SubscriberCount r' = wr_SubscriberCount r /\
  (forall tag, wr_LastSeenTag r = Some tag -> wr_LastSeenTag r' = Some tag).

Definition only_detections (x : Ext) : Prop :=
  match x with XPublish subject _ _ => subject = SubjectReleaseDetected | _ => True end.

(** What any number of passes may do. *)
Definition watched_on w w' : Prop :=
  Forall2 tag_kept (watched_repos (w_db w)) (watched_repos (w_db w')) /\
  exists l, w_trace w' = w_trace w ++ l /\ Forall only_detections l.

Global Instance watched_on_preorder : PreOrder watched_on.
Proof.
  split.
  - intros w. split; [|exists []; by rewrite app_nil_r].
    induction (watched_repos (w_db w)); constructor; [by split_and!|done].
  - intros w1 w2 w3 [Hr1 (l1 & Ht1 & Hl1)] [Hr2 (l2 & Ht2 & Hl2)]. split.
    + eapply Forall2_compose; [|exact Hr1|exact Hr2]. intros x y z (? & ? & ?) (? & ? & ?).
      split_and!; [congruence..|auto].
    + exists (l1 ++ l2). split; [by rewrite Ht2, Ht1, app_assoc|by apply Forall_app].
Qed.

Lemma tag_kept_inv d d' :
  Forall2 tag_kept (watched_repos d) (watched_repos d') -> scan_inv d -> scan_inv d'.
Proof.
  intros Hk [Hu Hc]. split.
  - unfold unique_on in *. replace (map wr_RepoName (watched_repos d')) with (map wr_RepoName (watched_repos d)); [done|].
    clear Hu Hc. induction Hk as [|r r' l l' (Hn & _) Hk IH]; simpl; congruence.
  - clear Hu. induction Hk as [|r r' l l' (_ & Hn & _) Hk IH]; constructor; inversion Hc; subst; [congruence|auto].
Qed.

Lemma pass_outcome_watched w r w' : scan_inv (w_db w) -> pass_outcome w r w' -> watched_on w w'.
Proof.
  intros Hinv. unfold pass_outcome. cbv zeta. destruct r as [c|e].
  - intros (obs & l & groups & _ & _ & Ht & Hl & Ha & Hs & _ & _). split.
    + assert (forall r, r ∈ watched_repos (w_db w) -> watch_rows (w_db w) !! wr_RepoName r = Some r) as Hrow
        by (intros r Hr; by apply index_by_name_lookup; [apply Hinv|]).
      revert Hs Hrow. generalize (watched_repos (w_db w)) (watched_repos (w_db w')). intros l1 l2 Hs.
      induction Hs as [|r r' l1 l2 (Hn & Hc & Htag) Hs IH]; intros Hrow; constructor.
      * split_and!; [done..|]. intros tag Htg. destruct Htag as [(o & _ & [Ho Hu] & _)|[-> _]]; [exfalso|done].
        unfold is_unseeded in Hu. rewrite Ho, (Hrow r), Htg in Hu by by left. done.
      * apply IH. intros r0 Hr0. apply Hrow. by right.
    + exists (l ++ concat groups). split; [done|]. apply Forall_app. split.
      * eapply Forall_impl; [exact Hl|]. by intros [].
      * clear -Ha. induction Ha as [|o g os gs (id & [[_ ->]|[ok ->]]) Ha IH]; simpl; [done..|].
        by constructor.
  - intros [Hdb (l & Ht & Hl)]. split; [rewrite Hdb; apply (watched_on_preorder)|].
    exists l. split; [done|]. eapply Forall_impl; [exact Hl|]. by intros [].
Qed.

Lemma Scheduler_Start_spec {SC : ReleaseScanner ScanDB} signals ctx w :
  scan_inv (w_db w) ->
  wp (Scheduler_Start watch_Run signals ctx) (fun r w' => r = Ok tt /\ scan_inv (w_db w') /\ watched_on w w') w.
Proof.
  intros Hinv. set (I w' := scan_inv (w_db w') /\ watched_on w w').
  assert (forall w1, I w1 -> wp (sched_run watch_Run ctx) (fun r w' => r = Ok tt /\ I w') w1) as Hrun.
  { intros w1 [Hi1 Hw1]. unfold sched_run, uuid_NewString, fresh_uuid. wp_steps. apply wp_logged.
    eapply wp_mono; [|by apply watch_Run_spec]. intros r w2 Ho. split; [done|].
    apply pass_outcome_watched in Ho; [|done]. split; [by eapply tag_kept_inv; [apply Ho|]|].
    etrans; [exact Hw1|exact Ho]. }
  apply wp_bind. eapply wp_mono; [|apply Hrun; by split]. intros r w1 [-> Hw1]. by apply wp_ticker_loop.
Qed.

(** Passes never touch what they did not find empty: over the scheduler's
    immediate pass and any number of ticks, whatever GitHub, the database and the
    bus do, the scheduler never fails, the watch list keeps its repositories and
    counts, a recorded tag is never changed (only releases.notified advances it),
    and nothing but releases.detected is published. *)
Theorem scheduler_keeps_tags {SC : ReleaseScanner ScanDB} signals ctx w :
  scan_inv (w_db w) ->
  let '(r, w') := Scheduler_Start watch_Run signals ctx w in
  r = Ok tt /\ scan_inv (w_db w') /\
  Forall2 tag_kept (watched_repos (w_db w)) (watched_repos (w_db w')) /\
  exists l, w_trace w' = w_trace w ++ l /\ Forall only_detections l.
Proof.
  intros Hinv. pose proof (Scheduler_Start_spec signals ctx w Hinv) as Hs. unfold wp in Hs. destruct (Scheduler_Start watch_Run signals ctx w) as [r w']. destruct Hs as (? & ? & ? & ?). done.
Qed.
End Detection.

(** ** Witnesses *)

(** A GitHub that always reports the same release. *)
Definition demo_rel : Release := {| rel_TagName := "v2.0"; rel_HTMLURL := "https://g.test/2" |}.

Definition constant_source (D : Type) (r : res Release) : ReleaseSource D.
Proof.
  refine {| gh_GetLatestRelease _ _ _ := fun w => (r, w) |}. intros. unfold wp. simpl. reflexivity.
Defined.

(** GitHub over HTTP, and a GitHub that refuses the token. *)
Definition demo_http : Env := quiet_http (fun _ => inr {| resp_status := 200; resp_header := fun _ => "";
  resp_body := inr (encode_struct githubRelease_fields [FStr "v2.0"; FStr "https://g.test/2"]) |}).
Definition demo_refusal : Env := quiet_http (fun _ => inr {| resp_status := 401; resp_header := fun _ => "";
  resp_body := inr "" |}).
Definition demo_client (E : Env) : ReleaseSource ScanDB := Client_ReleaseSource (E := E) NewClient.

Definition demo_watch : ScanDB :=
  {| watched_repos := [{| wr_RepoName := "golang/go"; wr_LastSeenTag := Some "v1.0"; wr_SubscriberCount := 2 |};
                       {| wr_RepoName := "rocq/rocq"; wr_LastSeenTag := None; wr_SubscriberCount := 1 |}] |}.

Lemma demo_watch_inv : scan_inv demo_watch.
Proof.
  split.
  - apply NoDup_cons. split; [|apply NoDup_singleton]. intros [=]%list_elem_of_singleton.
  - repeat constructor; vm_compute; congruence.
Qed.

Lemma scan_pass_total_witness :
  exists obs w', Scan (E := demo_http) (G := demo_client demo_http) 2 (fun n => n * 7)%nat Background
      ["golang/go"; "not a repo"; "rocq/rocq"] (world_of demo_watch) = Some (Ok obs, w') /\
    map or_Repo obs ⊆+ ["golang/go"; "not a repo"; "rocq/rocq"] /\ github_step (world_of demo_watch) w'.
Proof.
  exact (proj1 (scan_pass_total (E := demo_http) (G := demo_client demo_http) 2 _ Background _ (world_of demo_watch)) ltac:(lia)).
Defined.

(** Two requests are in flight and the first is refused; the second is answered
    all the same, and the third repository is never asked for. *)
Definition demo_refused_once : Env := quiet_http (fun n => inr match n with
  | O => {| resp_status := 401; resp_header := fun _ => ""; resp_body := inr "" |}
  | _ => {| resp_status := 200; resp_header := fun _ => "";
            resp_body := inr (encode_struct githubRelease_fields [FStr "v2.0"; FStr "https://g.test/2"]) |}
  end).
Definition demo_refused_pass : Pass :=
  {| ps_todo := ["a/b"]; ps_next := None; ps_running := [Requesting "golang/go" "golang" "go"; Requesting "rocq/rocq" "rocq" "rocq"];
     ps_observed := []; ps_failed := None |}.

Lemma scan_pass_aborts_witness :
  let step := pass_step (E := demo_refused_once) (G := demo_client demo_refused_once) Background (Proceed 0) in
  exists s w s1 w1 s2 w2,
    step demo_refused_pass (world_of demo_watch) = (Ok s, w) /\ step s w = (Ok s1, w1) /\
    pass_loop (E := demo_refused_once) (G := demo_client demo_refused_once) 9 2 (fun _ => 1%nat) Background s1 w1 = Some (Ok s2, w2) /\
    ps_failed s = None /\ ps_failed s1 = Some (Sentinel ErrUnauthorized) /\ ps_failed s2 = Some (Sentinel ErrUnauthorized) /\
    ps_observed s2 = [{| or_Repo := "rocq/rocq"; or_Release := demo_rel |}] /\
    length (w_trace w1) = 1%nat /\ length (w_trace w2) = 2%nat /\
    exists targets, targets ⊆+ [("rocq", "rocq")] /\
      asked (G := demo_client demo_refused_once) Background targets w w2.
Proof.
  cbv zeta.
  assert (exists s w s1 w1 s2 w2,
    pass_step (E := demo_refused_once) (G := demo_client demo_refused_once) Background (Proceed 0) demo_refused_pass
      (world_of demo_watch) = (Ok s, w) /\
    pass_step (E := demo_refused_once) (G := demo_client demo_refused_once) Background (Proceed 0) s w = (Ok s1, w1) /\
    pass_loop (E := demo_refused_once) (G := demo_client demo_refused_once) 9 2 (fun _ => 1%nat) Background s1 w1 = Some (Ok s2, w2) /\
    ps_failed s = None /\ ps_failed s1 = Some (Sentinel ErrUnauthorized) /\
    ps_observed s2 = [{| or_Repo := "rocq/rocq"; or_Release := demo_rel |}] /\
    length (w_trace w1) = 1%nat /\ length (w_trace w2) = 2%nat /\ Proceed 0 ∈ choices 2 s /\
    in_flight s1 = [("rocq", "rocq")])
    as (s & w & s1 & w1 & s2 & w2 & H0 & H1 & Hl & Hf & Hf1 & Ho & Hn1 & Hn2 & Hc & Hin)
    by (do 6 eexists; split_and!; try (vm_compute; reflexivity); vm_compute; right; left).
  destruct (scan_pass_aborts (E := demo_refused_once) (G := demo_client demo_refused_once) 2 (fun _ => 1%nat) Background 9
    (Proceed 0) s (Sentinel ErrUnauthorized) w s1 w1 s2 w2 Hc Hf H1 Hl) as [_ Hrest].
  destruct (Hrest Hf1) as (Hf2 & late & targets & _ & _ & Ht & Ha). rewrite Hin in Ht.
  exists s, w, s1, w1, s2, w2. split_and!; try done. by exists targets.
Defined.

Lemma scan_pass_deterministic_witness :
  exists obs w', Scan (E := quiet_env) (G := constant_source ScanDB (Ok demo_rel)) 3 (fun n => n * n)%nat Background
      ["golang/go"; "not a repo"; "rocq/rocq"] (world_of demo_watch) = Some (Ok obs, w') /\
    obs ≡ₚ [{| or_Repo := "golang/go"; or_Release := demo_rel |}; {| or_Repo := "rocq/rocq"; or_Release := demo_rel |}].
Proof.
  refine (scan_pass_deterministic (E := quiet_env) (G := constant_source ScanDB (Ok demo_rel)) (fun _ _ => Ok demo_rel)
    3 _ Background _ (world_of demo_watch) (fun _ _ _ _ => eq_refl) _ (fun _ => eq_refl) ltac:(lia)).
  by intros.
Defined.

Definition demo_confirmed : SubscriptionConfirmed :=
  {| sc_SagaID := hex_EncodeToString "0123456789abcdef"; sc_Email := "ann@example.test"; sc_RepoName := "golang/go";
     sc_UnsubToken := "aa" |}.

Lemma scanner_watch_list_witness :
  let '(r, w') := Scanner_HandleConfirmed (E := quiet_env) Background (encode_event demo_confirmed) (world_of demo_watch) in
  r = Ok tt /\ scan_inv (w_db w') /\ abs_watch (w_db w') !! "golang/go" = Some (Some "v1.0", 3).
Proof.
  pose proof (scanner_watch_list (E := quiet_env)
    {| cs_Stream := StreamSubscriptions; cs_Durable := "scanner-subscription-confirmed";
       cs_Subject := SubjectSubscriptionConfirmed; cs_Handler := Scanner_HandleConfirmed (E := quiet_env) |}
    Background (encode_event demo_confirmed) (world_of demo_watch) ltac:(left) demo_watch_inv) as H.
  cbn [cs_Handler cs_Subject] in H.
  assert (fst (Scanner_HandleConfirmed (E := quiet_env) Background (encode_event demo_confirmed) (world_of demo_watch)) = Ok tt)
    as Hr by (vm_compute; reflexivity).
  destruct (Scanner_HandleConfirmed Background _ (world_of demo_watch)) as [r w']. simpl in Hr. subst r.
  destruct H as (Hinv & _ & [[_ [=]]|Habs]). split_and!; [done..|]. rewrite Habs. vm_compute. reflexivity.
Defined.

Lemma confirmed_redelivery_overcounts_witness :
  exists w1 w2, Scanner_HandleConfirmed (E := quiet_env) Background (encode_event demo_confirmed) (world_of demo_watch) = (Ok tt, w1) /\
    Scanner_HandleConfirmed (E := quiet_env) Background (encode_event demo_confirmed) w1 = (Ok tt, w2) /\
    abs_watch (w_db w2) !! "golang/go" = Some (Some "v1.0", 2 + 2).
Proof.
  refine (confirmed_redelivery_overcounts (E := quiet_env) Background (encode_event demo_confirmed) demo_confirmed
    (Some "v1.0") 2 (world_of demo_watch) _ (fun _ => eq_refl) demo_watch_inv _ _); vm_compute; congruence.
Defined.

Lemma watch_run_detects_witness :
  exists c w', watch_Run (E := demo_http) (BP := @Conn_BusPublisher ScanDB demo_http)
      (SC := Errgroup_ReleaseScanner (E := demo_http) (G := demo_client demo_http) 2 (fun n => n) (ltac:(lia) : 2 <> 0))
      Background (world_of demo_watch) = (Ok c, w') /\
    ct_seeded c = 1 /\ ct_detected c = 1 /\ map wr_LastSeenTag (watched_repos (w_db w')) = [Some "v1.0"; Some "v2.0"] /\
    exists l groups, w_trace w' = [] ++ l ++ concat groups /\ Forall no_publish l /\ length groups = 1%nat.
Proof.
  set (SC := Errgroup_ReleaseScanner (E := demo_http) (G := demo_client demo_http) 2 (fun n => n) _).
  pose proof (watch_run_detects (E := demo_http) (BP := @Conn_BusPublisher ScanDB demo_http) (SC := SC) Background (world_of demo_watch) demo_watch_inv) as H.
  assert (exists c w', watch_Run (E := demo_http) (BP := @Conn_BusPublisher ScanDB demo_http) (SC := SC) Background (world_of demo_watch) = (Ok c, w') /\
    ct_seeded c = 1 /\ ct_detected c = 1 /\ map wr_LastSeenTag (watched_repos (w_db w')) = [Some "v1.0"; Some "v2.0"])
    as (c & w' & Hw & Hs & Hd & Htags)
    by (vm_compute; do 2 eexists; split_and!; reflexivity).
  rewrite Hw in H. destruct H as (obs & l & groups & _ & _ & Ht & Hl & Ha & _ & _ & Hn).
  exists c, w'. split_and!; [done..|]. exists l, groups. split_and!; [done..|].
  apply Forall2_length in Ha. lia.
Defined.

Lemma scheduler_keeps_tags_witness :
  let '(r, w') := Scheduler_Start (E := demo_http) (watch_Run (E := demo_http) (BP := @Conn_BusPublisher ScanDB demo_http)
      (SC := Errgroup_ReleaseScanner (E := demo_http) (G := demo_client demo_http) 2 (fun n => n) (ltac:(lia) : 2 <> 0)))
      [TickerFired; ContextDone] Background (world_of demo_watch) in
  r = Ok tt /\ scan_inv (w_db w') /\ map wr_LastSeenTag (watched_repos (w_db w')) = [Some "v1.0"; Some "v2.0"].
Proof.
  set (SC := Errgroup_ReleaseScanner (E := demo_http) (G := demo_client demo_http) 2 (fun n => n) _).
  pose proof (scheduler_keeps_tags (E := demo_http) (BP := @Conn_BusPublisher ScanDB demo_http) (SC := SC)
    [TickerFired; ContextDone] Background (world_of demo_watch) demo_watch_inv) as H.
  assert (map wr_LastSeenTag (watched_repos (w_db (snd (Scheduler_Start (E := demo_http)
    (watch_Run (E := demo_http) (BP := @Conn_BusPublisher ScanDB demo_http) (SC := SC))
    [TickerFired; ContextDone] Background (world_of demo_watch))))) = [Some "v1.0"; Some "v2.0"]) as Ht
    by (vm_compute; reflexivity).
  destruct (Scheduler_Start _ _ _ _) as [r w']. destruct H as (? & ? & _). done.
Defined.
