(* ===== verification/Logging.v ===== *)
(** * Correlation ids and the log: [internal/infrastructure/logging]

    The ids a context carries, the HTTP edge that sets them, the interceptor
    that hands them from a client to a server, and the chain of [slog] handlers that
    writes them on every record. *)

From Stdlib Require Import Ascii.
From S2P Require Import Prelude GoErrors Effects Wp Json Events Uuid Consumers SubscriptionUse Quiet Concrete.

Open Scope string_scope.
Open Scope list_scope.
Open Scope Z_scope.

(** ** Context values: request_id.go, scan_id.go, saga_id.go, edge.go *)

Definition WithRequestID (ctx : Ctx) (id : string) : Ctx :=
  {| ctx_tx := ctx_tx ctx; ctx_sagaID := ctx_sagaID ctx; ctx_scanID := ctx_scanID ctx;
     ctx_requestID := id; ctx_protocol := ctx_protocol ctx |}.
Definition WithProtocol (ctx : Ctx) (protocol : string) : Ctx :=
  {| ctx_tx := ctx_tx ctx; ctx_sagaID := ctx_sagaID ctx; ctx_scanID := ctx_scanID ctx;
     ctx_requestID := ctx_requestID ctx; ctx_protocol := protocol |}.

(** An absent value is the empty string. *)
Definition RequestID (ctx : Ctx) : string := ctx_requestID ctx.
Definition ScanID (ctx : Ctx) : string := ctx_scanID ctx.
Definition SagaID (ctx : Ctx) : string := ctx_sagaID ctx.
Definition Protocol (ctx : Ctx) : string := ctx_protocol ctx.

(** ** [net/http.Header] *)

Definition is_letter (c : ascii) : bool := in_range 65 90 (byte c) || in_range 97 122 (byte c).

(** The bytes of an RFC 7230 token. *)
Definition validHeaderFieldByte (c : ascii) : bool :=
  is_letter c || is_digit c || existsb (fun b => byte c =? b) [33; 35; 36; 37; 38; 39; 42; 43; 45; 46; 94; 95; 96; 124; 126].

Fixpoint all_bytes (p : ascii -> bool) (s : string) : bool :=
  match s with "" => true | String c s => p c && all_bytes p s end.

Fixpoint canonical (up : bool) (s : string) : string :=
  match s with
  | "" => ""
  | String c s => String (if up then upper c else lower c) (canonical (byte c =? 45) s)
  end.

(** [textproto.CanonicalMIMEHeaderKey] *)
Definition CanonicalMIMEHeaderKey (s : string) : string :=
  if all_bytes validHeaderFieldByte s then canonical true s else s.

Definition Header : Type := gmap string (list string).

Definition no_header : Header := (∅ : gmap string (list string)).

Definition Header_Get (h : Header) (key : string) : string :=
  match h !! CanonicalMIMEHeaderKey key with Some (v :: _) => v | _ => "" end.
Definition Header_Set (h : Header) (key value : string) : Header := <[CanonicalMIMEHeaderKey key := [value]]> h.

Lemma Header_Get_Set h k v k' :
  Header_Get (Header_Set h k v) k' =
    if decide (CanonicalMIMEHeaderKey k = CanonicalMIMEHeaderKey k') then v else Header_Get h k'.
Proof.
  unfold Header_Get, Header_Set, Header in *.
  case_decide as Hk; [by rewrite Hk, lookup_insert_eq|by rewrite lookup_insert_ne].
Qed.

(** ** edge.go *)

Definition requestIDHeader : string := "X-Request-Id".

Record HttpRequest := { hr_Header : Header; hr_Path : string }.

Definition HasPrefix (s p : string) : bool := String.prefix p s.

Definition DetectProtocol (r : HttpRequest) : string :=
  let ct := Header_Get (hr_Header r) "Content-Type" in
  if HasPrefix ct "application/grpc-web" then "grpc-web"
  else if HasPrefix ct "application/grpc" then "grpc"
  else if HasPrefix (hr_Path r) "/api/" then "rest"
  else "connect".

Section Edge.
Context {D : Type} {E : Env} {V : Validators} {U : UUIDLib}.

(** A handler gets the request's context, the request and the response header
    set so far. *)
Definition HttpHandler (A : Type) : Type := Ctx -> HttpRequest -> Header -> M D A.

Definition EdgeMiddleware {A} (next : HttpHandler A) : HttpHandler A := fun ctx r rh =>
  id ← (let id := Header_Get (hr_Header r) requestIDHeader in
        if String.eqb id "" then uuid_NewString else mret id);
  let rh := Header_Set rh requestIDHeader id in
  let ctx := WithProtocol (WithRequestID ctx id) (DetectProtocol r) in
  next ctx r rh.

(** ** connect_correlation.go *)

Definition requestIDMetaKey : string := "x-request-id".
Definition scanIDMetaKey : string := "x-scan-id".

Definition attachOutgoingIDs (ctx : Ctx) (h : Header) : Header :=
  let h := if String.eqb (RequestID ctx) "" then h else Header_Set h requestIDMetaKey (RequestID ctx) in
  if String.eqb (ScanID ctx) "" then h else Header_Set h scanIDMetaKey (ScanID ctx).

Definition readIncomingIDs (ctx : Ctx) (h : Header) : M D Ctx :=
  id ← (let id := Header_Get h requestIDMetaKey in
        if String.eqb id "" then uuid_NewString else mret id);
  let ctx := WithRequestID ctx id in
  let scanID := Header_Get h scanIDMetaKey in
  mret (if String.eqb scanID "" then ctx else WithScanID ctx scanID).

(** [NewConnectCorrelationInterceptor]: a client call goes on with the ids in
    its header, a server call with the ids of the header in its context. *)
Definition NewConnectCorrelationInterceptor {A} (isClient : bool) (next : Ctx -> Header -> M D A)
    (ctx : Ctx) (h : Header) : M D A :=
  if isClient then next ctx (attachOutgoingIDs ctx h)
  else ctx' ← readIncomingIDs ctx h; next ctx' h.
End Edge.

(** ** handler.go *)

(** A group or attributes added to a logger. *)
Inductive HandlerOp := OpAttrs (attrs : list (string * string)) | OpGroup (name : string).

(** [slog.JSONHandler] with what was added to it, wrapped by field handlers. *)
Inductive SlogHandler :=
| JSONHandler (ops : list HandlerOp)
| fieldHandler (inner : SlogHandler) (key : string) (extract : Ctx -> string).

(** [Handle]: what reaches the JSON handler, and the attributes of the record. *)
Fixpoint Handle (h : SlogHandler) (ctx : Ctx) (r : list (string * string)) : list HandlerOp * list (string * string) :=
  match h with
  | JSONHandler ops => (ops, r)
  | fieldHandler inner key extract =>
      Handle inner ctx (if String.eqb (extract ctx) "" then r else r ++ [(key, extract ctx)])
  end.

Fixpoint WithAttrs (h : SlogHandler) (attrs : list (string * string)) : SlogHandler :=
  match h with
  | JSONHandler ops => JSONHandler (ops ++ [OpAttrs attrs])
  | fieldHandler inner key extract => fieldHandler (WithAttrs inner attrs) key extract
  end.

Fixpoint WithGroup (h : SlogHandler) (name : string) : SlogHandler :=
  match h with
  | JSONHandler ops => JSONHandler (ops ++ [OpGroup name])
  | fieldHandler inner key extract => fieldHandler (WithGroup inner name) key extract
  end.

Definition newFieldHandler (inner : SlogHandler) (key : string) (extract : Ctx -> string) : SlogHandler :=
  fieldHandler inner key extract.
Definition NewRequestIDHandler (inner : SlogHandler) : SlogHandler := newFieldHandler inner "request_id" RequestID.
Definition NewScanIDHandler (inner : SlogHandler) : SlogHandler := newFieldHandler inner "scan_id" ScanID.
Definition NewSagaIDHandler (inner : SlogHandler) : SlogHandler := newFieldHandler inner "saga_id" SagaID.

(** The handler of the logger [bootstrap.launch] installs. *)
Definition launch_handler : SlogHandler :=
  NewRequestIDHandler (NewScanIDHandler (NewSagaIDHandler (JSONHandler []))).

(** A logger derived from it with [With] and [WithGroup]. *)
Definition derive (h : SlogHandler) (op : HandlerOp) : SlogHandler :=
  match op with OpAttrs attrs => WithAttrs h attrs | OpGroup name => WithGroup h name end.

(** ** What the log and the wire carry *)

(** The ids of a context, as a record carries them. *)
Definition ids_of (ctx : Ctx) : list (string * string) :=
  List.filter (fun kv => negb (String.eqb (snd kv) ""))
    [("request_id", RequestID ctx); ("scan_id", ScanID ctx); ("saga_id", SagaID ctx)].

Lemma Handle_derive h op ctx r :
  Handle (derive h op) ctx r = (fst (Handle h ctx r) ++ [op], snd (Handle h ctx r)).
Proof. revert r. induction h as [ops|inner IH key extract]; intros r; destruct op; simpl; [done..| |]; apply IH. Qed.

Lemma Handle_derive_all ops h ctx r :
  Handle (foldl derive h ops) ctx r = (fst (Handle h ctx r) ++ ops, snd (Handle h ctx r)).
Proof.
  revert h. induction ops as [|op ops IH]; intros h; simpl.
  - rewrite app_nil_r. by destruct (Handle h ctx r).
  - rewrite IH, Handle_derive. simpl. by rewrite <- app_assoc.
Qed.

(** Every record written through the service's logger, or
    through any logger derived from it with attributes and groups, reaches the JSON
    handler with those attributes and groups, in order, with its own attributes
    first and then exactly the non-empty ids of its context: the request, the scan
    and the saga it belongs to. *)
Theorem log_records_correlated ops ctx r :
  Handle (foldl derive launch_handler ops) ctx r = (ops, r ++ ids_of ctx).
Proof.
  rewrite Handle_derive_all. unfold ids_of. simpl.
  destruct (String.eqb (RequestID ctx) ""), (String.eqb (ScanID ctx) ""), (String.eqb (SagaID ctx) "");
    simpl; by rewrite ?app_nil_r, <- ?app_assoc.
Qed.

Section Propagation.
Context {D : Type} {E : Env} {V : Validators} {U : UUIDLib}.
Implicit Types (w : World D) (h : Header).

(** The id taken or made up is never empty. *)
Lemma id_or_fresh id w :
  exists id' w', (if String.eqb id "" then uuid_NewString else mret id : M D string) w = (Ok id', w') /\ id' <> "" /\
    (id <> "" -> id' = id /\ w' = w) /\ (w' = w \/ w' = ticked w).
Proof.
  destruct (String.eqb_spec id "") as [->|Hne].
  - eexists _, (ticked w). split; [reflexivity|]. split_and!; [apply uuid_String_nonempty|done|by right].
  - eexists id, w. split_and!; [done|done|done|by left].
Qed.

Lemma EdgeMiddleware_runs {A} (next : HttpHandler A) ctx r rh w :
  exists id w', EdgeMiddleware next ctx r rh w =
      next (WithProtocol (WithRequestID ctx id) (DetectProtocol r)) r (Header_Set rh requestIDHeader id) w' /\
    id <> "" /\ (Header_Get (hr_Header r) requestIDHeader <> "" -> id = Header_Get (hr_Header r) requestIDHeader /\ w' = w) /\
    (w' = w \/ w' = ticked w).
Proof.
  destruct (id_or_fresh (Header_Get (hr_Header r) requestIDHeader) w) as (id & w' & Hid & Hne & Hsame & Hw).
  exists id, w'. split_and!; [|done..]. unfold EdgeMiddleware, mbind, M_bind. by rewrite Hid.
Qed.

Lemma attach_Get_request ctx h :
  Header_Get (attachOutgoingIDs ctx h) requestIDMetaKey =
    if String.eqb (RequestID ctx) "" then Header_Get h requestIDMetaKey else RequestID ctx.
Proof.
  unfold attachOutgoingIDs. destruct (String.eqb (ScanID ctx) ""), (String.eqb (RequestID ctx) "");
    rewrite ?Header_Get_Set; repeat (case_decide as Hd; [vm_compute in Hd; try discriminate Hd|]); done.
Qed.

Lemma attach_Get_scan ctx h :
  Header_Get (attachOutgoingIDs ctx h) scanIDMetaKey =
    if String.eqb (ScanID ctx) "" then Header_Get h scanIDMetaKey else ScanID ctx.
Proof.
  unfold attachOutgoingIDs. destruct (String.eqb (ScanID ctx) ""), (String.eqb (RequestID ctx) "");
    rewrite ?Header_Get_Set; repeat (case_decide as Hd; [vm_compute in Hd; try discriminate Hd|]); done.
Qed.

(** C28: Correlation ids survive a call: the ids a client attaches
    to a request are the ids the server's context gets, whatever the capitalisation
    of the header, a call without a request id gets a fresh non-empty one, and the
    rest of the context is untouched; at the HTTP edge the handler's context carries
    the caller's request id, or a fresh one, the same id is sent back, and the
    protocol is one of the four. *)
Theorem request_ids_propagate {A} (client server ctx : Ctx) h (next : HttpHandler A) r rh w :
  Header_Get h requestIDMetaKey = "" -> Header_Get h scanIDMetaKey = "" ->
  (exists ctx' w', readIncomingIDs server (attachOutgoingIDs client h) w = (Ok ctx', w') /\
     RequestID ctx' <> "" /\ (RequestID client <> "" -> RequestID ctx' = RequestID client /\ w' = w) /\
     ScanID ctx' = (if String.eqb (ScanID client) "" then ScanID server else ScanID client) /\
     SagaID ctx' = SagaID server /\ Protocol ctx' = Protocol server /\ ctx_tx ctx' = ctx_tx server) /\
  (exists ctx' rh' w', EdgeMiddleware next ctx r rh w = next ctx' r rh' w' /\
     RequestID ctx' <> "" /\ Header_Get rh' "x-request-id" = RequestID ctx' /\
     (Header_Get (hr_Header r) "x-request-id" <> "" -> RequestID ctx' = Header_Get (hr_Header r) "x-request-id") /\
     Protocol ctx' ∈ ["grpc-web"; "grpc"; "rest"; "connect"] /\
     SagaID ctx' = SagaID ctx /\ ScanID ctx' = ScanID ctx).
Proof.
  intros Hreq Hscan. split.
  - unfold readIncomingIDs, mbind, M_bind.
    destruct (id_or_fresh (Header_Get (attachOutgoingIDs client h) requestIDMetaKey) w)
      as (id & w' & Hid & Hne & Hsame & _).
    cbv zeta. rewrite Hid, attach_Get_scan. rewrite attach_Get_request in Hsame. eexists _, w'. split; [reflexivity|].
    assert (RequestID client <> "" -> id = RequestID client /\ w' = w) as Hc.
    { intros Hc. destruct (String.eqb_spec (RequestID client) ""); [done|]. by apply Hsame. }
    destruct (String.eqb_spec (ScanID client) "") as [|Hs]; simpl.
    + rewrite Hscan. simpl. split_and!; done.
    + destruct (String.eqb_spec (ScanID client) ""); [done|]. split_and!; done.
  - destruct (EdgeMiddleware_runs next ctx r rh w) as (id & w' & Hrun & Hne & Hsame & _).
    eexists _, _, w'. split; [exact Hrun|]. change (Header_Get (hr_Header r) "x-request-id") with (Header_Get (hr_Header r) requestIDHeader).
    split_and!; [done|rewrite Header_Get_Set; by rewrite decide_True by reflexivity|by intros [-> _]%Hsame| |done|done].
    simpl. unfold DetectProtocol. repeat case_match; set_solver.
Qed.
End Propagation.

Lemma request_ids_propagate_witness :
  exists ctx' w', readIncomingIDs (D := unit) (E := quiet_env) Background
      (attachOutgoingIDs (WithScanID (WithRequestID Background "req-1") "scan-1") no_header) (world_of tt) = (Ok ctx', w') /\
    RequestID ctx' = "req-1" /\ ScanID ctx' = "scan-1".
Proof.
  destruct (proj1 (request_ids_propagate (D := unit) (E := quiet_env) (A := unit)
    (WithScanID (WithRequestID Background "req-1") "scan-1") Background Background no_header (fun _ _ _ => mret tt)
    {| hr_Header := no_header; hr_Path := "/" |} no_header (world_of tt) ltac:(vm_compute; reflexivity) ltac:(vm_compute; reflexivity)))
    as (ctx' & w' & Hrun & _ & Hreq & Hscan & _).
  exists ctx', w'. exact (conj Hrun (conj (proj1 (Hreq ltac:(discriminate))) Hscan)).
Defined.
