(* ===== verification/Timers.v ===== *)
(** * The background loops and their intervals

    [time.NewTicker] panics when the interval is not positive, and a panic in a
    goroutine ends the process.  The loops of [Scanner.v], [SubscriptionUse.v]
    and [Notifier.v] take the ticker as given; here they create it from the
    configured interval, where the sources do. *)

From S2P Require Import Prelude GoErrors Effects Wp Events Uuid Libs Broker Outbox Consumers Config Subscription SubscriptionUse.
From S2P Require Import Mailer Notifier Scanner Concrete.

Open Scope string_scope.
Open Scope list_scope.
Open Scope Z_scope.

(** How a goroutine ends. *)
Inductive LoopExit (D : Type) :=
| Ended (out : res unit * World D)
| Panicked (w : World D).
Arguments Ended {D} _.
Arguments Panicked {D} _.

Section Loops.
Context {D : Type}.

(** [first(); ticker := time.NewTicker(interval); for { select { ... } }] *)
Definition every (interval : Z) (first tick : M D unit) (signals : list TickerSignal) (w : World D) : LoopExit D :=
  match first w with
  | (Ok _, w') => if 0 <? interval then Ended (ticker_loop tick signals w') else Panicked w'
  | (Err e, w') => Ended (Err e, w')
  end.

Lemma every_positive interval first tick signals w :
  0 < interval -> every interval first tick signals w = Ended ((first ≫= fun _ => ticker_loop tick signals) w).
Proof.
  intros Hi. unfold every, mbind, M_bind. destruct (first w) as [[[]|e] w']; [|done]. by destruct (Z.ltb_spec 0 interval); [|lia].
Qed.

Lemma every_panics interval first tick signals w :
  interval <= 0 -> (exists a, fst (first w) = Ok a) -> every interval first tick signals w = Panicked (snd (first w)).
Proof.
  intros Hi [a Ha]. unfold every. destruct (first w) as [r w']. simpl in Ha. subst r. by destruct (Z.ltb_spec 0 interval); [lia|].
Qed.

(** [(s *Scheduler) Start] *)
Definition Scheduler_Start_every {E : Env} {V : Validators} {U : UUIDLib} {A} (interval : Z) (runner : Ctx -> M D A)
    (signals : list TickerSignal) (ctx : Ctx) : World D -> LoopExit D :=
  every interval (sched_run runner ctx) (sched_run runner ctx) signals.
End Loops.

(** [runCleanup] of [bootstrap/subscription/background.go] *)
Definition runCleanup_every {E : Env} {V : Validators} {U : UUIDLib} {P : PgxLib} (interval maxAge : Z)
    (signals : list TickerSignal) (ctx : Ctx) : World SubDB -> LoopExit SubDB :=
  let tick := logged (Cleanup_Run maxAge ctx) in
  every interval tick tick signals.

(** [runMaintenance] of [bootstrap/notifier/maintenance.go] *)
Definition runMaintenance_every {E : Env} {V : Validators} {U : UUIDLib} {P : PgxLib} {RS : ReleaseSender NotDB} {CS : ConfirmationSender NotDB}
    (baseURL : string) (cfg : RetryConfig) (interval processedTTL : Z) (signals : list TickerSignal) (ctx : Ctx)
    : World NotDB -> LoopExit NotDB :=
  every interval (mret tt) (maintenanceTick baseURL cfg processedTTL ctx) signals.

Lemma logged_ok {D A} (c : M D A) w : exists w', logged c w = (Ok tt, w').
Proof. unfold logged, mbind, M_bind, attempt. destruct (c w) as [r w']. by exists w'. Qed.

(** The configured intervals matter only by their sign.  With a positive one the
    loops are those of the services; with zero or a negative one the scheduler
    and the cleanup run once and then panic, and the maintenance panics at once. *)
Theorem loops_need_positive_intervals {E : Env} {V : Validators} {U : UUIDLib} {P : PgxLib} {RS : ReleaseSender NotDB}
    {CS : ConfirmationSender NotDB} {D A} (runner : Ctx -> M D A) interval maxAge baseURL cfg processedTTL signals ctx
    (w : World D) (ws : World SubDB) (wn : World NotDB) :
  (0 < interval ->
     Scheduler_Start_every interval runner signals ctx w = Ended (Scheduler_Start runner signals ctx w) /\
     runCleanup_every interval maxAge signals ctx ws = Ended (runCleanup maxAge signals ctx ws) /\
     runMaintenance_every baseURL cfg interval processedTTL signals ctx wn =
       Ended (runMaintenance baseURL cfg processedTTL signals ctx wn)) /\
  (interval <= 0 ->
     Scheduler_Start_every interval runner signals ctx w = Panicked (snd (sched_run runner ctx w)) /\
     runCleanup_every interval maxAge signals ctx ws = Panicked (snd (logged (Cleanup_Run maxAge ctx) ws)) /\
     runMaintenance_every baseURL cfg interval processedTTL signals ctx wn = Panicked wn).
Proof.
  split; intros Hi.
  - split_and!; [by apply every_positive|by apply every_positive|]. unfold runMaintenance_every. by rewrite every_positive.
  - split_and!.
    + apply every_panics; [done|]. unfold sched_run, mbind, M_bind at 1. destruct (uuid_NewString w) as [[id|e] w1] eqn:Hid; [|done].
      destruct (logged_ok (runner (WithScanID ctx id)) w1) as [w2 ->]. by exists tt.
    + apply every_panics; [done|]. destruct (logged_ok (Cleanup_Run maxAge ctx) ws) as [w2 ->]. by exists tt.
    + by apply every_panics; [|exists tt].
Qed.

(** The loaders take such intervals, and no worker at all, without complaint. *)
Definition zero_env : Environ := fun k =>
  if decide (k ∈ ["SCAN_INTERVAL"; "RETRY_INTERVAL"; "PENDING_CLEANUP_INTERVAL"]) then Some "0s"
  else if String.eqb k "SCAN_WORKERS" then Some "0" else required_env k.

Theorem zero_intervals_accepted :
  exists c1 c2 c3, @LoadScanner _ plain_envconfig zero_env = Ok c1 /\ @LoadNotifier _ plain_envconfig zero_env = Ok c2 /\
    @LoadSubscription _ plain_envconfig zero_env = Ok c3 /\
    cc_ScanInterval c1 = 0 /\ cc_WorkerCount c1 = 0 /\ nc_RetryInterval c2 = 0 /\ bc_PendingCleanupInterval c3 = 0.
Proof. do 3 eexists. split_and!; vm_compute; reflexivity. Qed.
