(* ===== verification/Metrics.v ===== *)
(** * Metrics: [internal/infrastructure/metrics] and the code it instruments

    The metric declarations and their registration; the instrumented versions of the
    operations that count themselves, as computations that also return the samples
    they take; the database tracer.  Values of observations (durations) are not
    modelled. *)

From Stdlib Require Import Ascii.
From S2P Require Import Prelude GoErrors Effects Wp Json Events Uuid Libs Broker GitHub Subscription SubscriptionUse.
From S2P Require Import SubscriptionApi Mailer Scanner Logging Quiet Concrete.

Open Scope string_scope.
Open Scope list_scope.
Open Scope Z_scope.

(** ** metrics.go *)

(** Bucket bounds are in units of 100 microseconds. *)
Inductive MetricKind := Counter | Histogram (buckets : list Z).

Record Metric := { mt_name : string; mt_labels : list string; mt_kind : MetricKind }.

Global Instance MetricKind_eq_dec : EqDecision MetricKind.
Proof. solve_decision. Defined.
Global Instance Metric_eq_dec : EqDecision Metric.
Proof. solve_decision. Defined.

(** [prometheus.DefBuckets] *)
Definition DefBuckets : list Z := [50; 100; 250; 500; 1000; 2500; 5000; 10000; 25000; 50000; 100000].

Definition counter (name : string) (labels : list string) : Metric :=
  {| mt_name := name; mt_labels := labels; mt_kind := Counter |}.
Definition histogram (name : string) (buckets : list Z) (labels : list string) : Metric :=
  {| mt_name := name; mt_labels := labels; mt_kind := Histogram buckets |}.

Definition RequestsTotal := counter "requests_total" ["protocol"; "procedure"; "code"].
Definition RequestDuration := histogram "request_duration_seconds" DefBuckets ["protocol"; "procedure"].
Definition ScannerRunsTotal := counter "scanner_runs_total" [].
Definition ScannerDuration := histogram "scanner_duration_seconds" DefBuckets [].
Definition EventsPublishedTotal := counter "events_published_total" ["subject"; "result"].
Definition EventsConsumedTotal := counter "events_consumed_total" ["subject"; "result"].
Definition GitHubAPIErrorsTotal := counter "github_api_errors_total" ["type"].
Definition SubscriptionOperationsTotal := counter "subscription_operations_total" ["operation"; "result"].
Definition ScannerErrorsTotal := counter "scanner_errors_total" ["reason"].
Definition DBQueriesTotal := counter "db_queries_total" ["operation"; "table"].
Definition DBQueryErrorsTotal := counter "db_query_errors_total" ["operation"; "table"].
Definition DBQueryDuration :=
  histogram "db_query_duration_seconds" [10; 50; 100; 250; 500; 1000; 2500; 5000; 10000] ["operation"; "table"].
Definition CacheOperationsTotal := counter "cache_operations_total" ["operation"; "result"].
Definition CacheOperationDuration :=
  histogram "cache_operation_duration_seconds" [5; 10; 50; 100; 250; 500; 1000] ["operation"].
Definition EmailSendsTotal := counter "email_sends_total" ["type"; "status"].
Definition EmailSendDuration := histogram "email_send_duration_seconds" DefBuckets ["type"].
Definition GitHubAPIRequestsTotal := counter "github_api_requests_total" ["operation"; "result"].
Definition GitHubAPIRequestDuration := histogram "github_api_request_duration_seconds" DefBuckets ["operation"].

(** The arguments of [prometheus.MustRegister] in [init]. *)
Definition registered : list Metric :=
  [RequestsTotal; RequestDuration; ScannerRunsTotal; ScannerDuration; EventsPublishedTotal; EventsConsumedTotal;
   GitHubAPIErrorsTotal; SubscriptionOperationsTotal; ScannerErrorsTotal; DBQueriesTotal; DBQueryErrorsTotal;
   DBQueryDuration; CacheOperationsTotal; CacheOperationDuration; EmailSendsTotal; EmailSendDuration;
   GitHubAPIRequestsTotal; GitHubAPIRequestDuration].

(** ** Samples *)

(** [m.WithLabelValues(values...).Inc()] or [.Observe(...)] *)
Record Sample := { sm_metric : Metric; sm_values : list string }.

Definition sample (m : Metric) (values : list string) : Sample := {| sm_metric := m; sm_values := values |}.

(** An instrumented computation: its outcome and the samples it took. *)
Definition Instrumented (D A : Type) : Type := World D -> (res A * World D) * list Sample.

Definition erase {D A} (c : Instrumented D A) : M D A := fun w => fst (c w).
Definition samples {D A} (c : Instrumented D A) (w : World D) : list Sample := snd (c w).

(** [defer func() { record }(); return c]: the samples depend on the outcome. *)
Definition counting {D A} (c : M D A) (record : res A -> list Sample) : Instrumented D A := fun w =>
  let out := c w in (out, record (fst out)).

(** ** helpers.go *)

Definition ResultLabel {A} (r : res A) : string := match r with Ok _ => "success" | Err _ => "error" end.

(** The samples of [RecordScanRun]. *)
Definition RecordScanRun : list Sample := [sample ScannerRunsTotal []; sample ScannerDuration []].

(** ** use_case_middleware.go *)

Definition Metered_Execute {D A} (operation : string) (inner : M D A) : Instrumented D A :=
  counting inner (fun r => [sample SubscriptionOperationsTotal [operation; ResultLabel r]]).

(** ** db_tracer.go *)

(** The values [WithDBOp] and [TraceQueryStart] leave in a query's context. *)
Record QueryCtx := { qc_op : option (string * string); qc_start : option Z }.

Definition WithDBOp (qc : QueryCtx) (operation table : string) : QueryCtx :=
  {| qc_op := Some (operation, table); qc_start := qc_start qc |}.
Definition TraceQueryStart (qc : QueryCtx) (now : Z) : QueryCtx := {| qc_op := qc_op qc; qc_start := Some now |}.

Definition TraceQueryEnd (qc : QueryCtx) (err : option error) : list Sample :=
  let '(operation, table) := match qc_op qc with Some op => op | None => ("unknown", "unknown") end in
  [sample DBQueriesTotal [operation; table]] ++
  match qc_start qc with Some _ => [sample DBQueryDuration [operation; table]] | None => [] end ++
  match err with
  | Some e => if errors_Is e pgx_ErrNoRows then [] else [sample DBQueryErrorsTotal [operation; table]]
  | None => []
  end.

(** ** The instrumented operations *)

Section Operations.
Context {D : Type} {E : Env}.

(** [(c *redisCache) Get] *)
Definition redisCache_Get (key : string) : Instrumented D (option string) :=
  counting (cache_Get key) (fun r =>
    [sample CacheOperationsTotal ["get"; match r with Err _ => "error" | Ok None => "miss" | Ok (Some _) => "hit" end];
     sample CacheOperationDuration ["get"]]).

(** [(c *redisCache) Set] *)
Definition redisCache_Set (key value : string) (ttl : Z) : Instrumented D unit :=
  counting (cache_Set key value ttl) (fun r =>
    [sample CacheOperationsTotal ["set"; ResultLabel r]; sample CacheOperationDuration ["set"]]).

(** [(c *Conn) Publish] *)
Definition metered_Publish (ctx : Ctx) (subject data : string) : Instrumented D unit :=
  counting (Conn_Publish ctx subject data) (fun r => [sample EventsPublishedTotal [subject; ResultLabel r]]).

(** [(c *Conn) dispatch] *)
Definition ack_label (k : AckKind) : string := match k with Ack => "ack" | Term => "term" | Nak => "nak" end.
Definition metered_dispatch (ctx : Ctx) (subject : string) (handler : Handler D) (data : string)
    : Instrumented D AckKind :=
  counting (dispatch ctx handler data) (fun r =>
    match r with Ok k => [sample EventsConsumedTotal [subject; ack_label k]] | Err _ => [] end).

(** [(c *Client) RepoExists] and [GetLatestRelease] *)
Definition github_samples {A} (operation : string) (r : res A) : list Sample :=
  [sample GitHubAPIRequestsTotal [operation; ResultLabel r]; sample GitHubAPIRequestDuration [operation]].
Definition metered_RepoExists (c : Client) (ctx : Ctx) (owner repo : string) : Instrumented D bool :=
  counting (RepoExists c ctx owner repo) (github_samples "repo_exists").
Definition metered_GetLatestRelease (c : Client) (ctx : Ctx) (owner repo : string) : Instrumented D Release :=
  counting (GetLatestRelease c ctx owner repo) (github_samples "latest_release").

(** [(m *Mailer) deliver]: the samples of a batch of [kind], by its errors. *)
Definition deliver_samples (kind : string) (errs : list (option error)) : list Sample :=
  sample EmailSendDuration [kind] ::
  map (fun e => sample EmailSendsTotal [kind; ResultLabel (match e with Some e => Err e | None => Ok tt end)]) errs.

(** [handleReleaseError] of the scanner *)
Definition release_error_samples (e : error) : list Sample :=
  if errors_Is e ErrUnauthorized then [sample GitHubAPIErrorsTotal ["unauthorized"]]
  else if errors_Is e ErrRateLimited then [sample GitHubAPIErrorsTotal ["rate_limited"]]
  else if errors_Is e ErrNoRelease || errors_Is e context_Canceled then []
  else [sample GitHubAPIErrorsTotal ["other"]; sample ScannerErrorsTotal ["fetch_release"]].
End Operations.

(** ** The API, instrumented *)

(** [connect.Code.String] *)
Definition code_String (c : Code) : string :=
  match c with
  | CodeInvalidArgument => "invalid_argument"
  | CodeNotFound => "not_found"
  | CodeAlreadyExists => "already_exists"
  | CodeUnauthenticated => "unauthenticated"
  | CodeInternal => "internal"
  end.

Section Api.
Context {E : Env} {V : Validators} {U : UUIDLib} {P : PgxLib} {J : JwtLib} {G : RepoChecker SubDB}.
Context {PV : ProtoValidator Request}.
Variable tokens : Tokenizer.
Variable baseURL : string.

(** The names of the generated procedures. *)
Variable procedure : Request -> string.

Definition MeteredFunc : Type := Ctx -> Request -> Instrumented SubDB Reply.

Definition metered_reply {A} (c : Instrumented SubDB A) (k : A -> Response) : Instrumented SubDB Reply := fun w =>
  let '((r, w'), s) := c w in
  ((Ok (match r with Err e => inl (domainError e) | Ok a => inr (k a) end), w'), s).

(** [NewService] on the metered use cases of [buildUseCases]. *)
Definition metered_handle : MeteredFunc := fun ctx req =>
  match req with
  | SubscribeRequest email repo =>
      metered_reply (Metered_Execute "subscribe" (Subscribe_Execute tokens baseURL ctx email repo))
        (fun _ => MessageResponse "subscription successful, confirmation email sent")
  | ConfirmRequest token =>
      metered_reply (Metered_Execute "confirm" (Confirm_Execute tokens ctx token))
        (fun _ => MessageResponse "subscription confirmed successfully")
  | UnsubscribeRequest token =>
      metered_reply (Metered_Execute "unsubscribe" (Unsubscribe_Execute ctx token))
        (fun _ => MessageResponse "unsubscribed successfully")
  | ListSubscriptionsRequest email =>
      metered_reply (Metered_Execute "list" (List_Execute ctx email))
        (fun views => ListSubscriptionsResponse (toProtoSubscriptions views))
  end.

(** Refused before the service: no sample of its own. *)
Definition refused (code : Code) (message : string) : Instrumented SubDB Reply :=
  fun w => ((Ok (inl (connect_NewError code message)), w), []).

Definition metered_auth (apiKey header : string) (next : MeteredFunc) : MeteredFunc := fun ctx req =>
  if String.eqb apiKey "" || negb (protectedProcedures req) then next ctx req
  else if negb (String.eqb (bearerToken header) apiKey) then refused CodeUnauthenticated "unauthorized"
  else next ctx req.

Definition metered_validation (next : MeteredFunc) : MeteredFunc := fun ctx req =>
  match pv_Validate req with
  | Some field => refused CodeInvalidArgument (validationMessage field)
  | None => next ctx req
  end.

(** [NewConnectObservabilityInterceptor] *)
Definition code_label (r : res Reply) : string :=
  match r with
  | Ok (inr _) => "ok"
  | Ok (inl e) => code_String (ce_code e)
  | Err _ => "unknown"
  end.
Definition NewConnectObservabilityInterceptor (protocol : Ctx -> string) (next : MeteredFunc) : MeteredFunc :=
  fun ctx req w =>
    let '((r, w'), s) := next ctx req w in
    let proto := if String.eqb (protocol ctx) "" then "unknown" else protocol ctx in
    ((r, w'), s ++ [sample RequestsTotal [proto; procedure req; code_label r];
                    sample RequestDuration [proto; procedure req]]).

(** [NewConnectHandler], with all its interceptors. *)
Definition metered_NewConnectHandler (apiKey header : string) : MeteredFunc :=
  NewConnectObservabilityInterceptor Protocol (metered_auth apiKey header (metered_validation metered_handle)).

(** *** What instrumenting does *)

Definition operation_of (req : Request) : string :=
  match req with
  | SubscribeRequest _ _ => "subscribe"
  | ConfirmRequest _ => "confirm"
  | UnsubscribeRequest _ => "unsubscribe"
  | ListSubscriptionsRequest _ => "list"
  end.

Lemma metered_reply_runs {A} op (c : M SubDB A) k w :
  exists r w', reply c k w = (Ok r, w') /\
    metered_reply (Metered_Execute op c) k w =
      ((Ok r, w'), [sample SubscriptionOperationsTotal [op; match r with inr _ => "success" | inl _ => "error" end]]).
Proof.
  unfold reply, metered_reply, Metered_Execute, counting, mbind, M_bind, attempt.
  destruct (c w) as [[a|e] w']; by eexists _, w'.
Qed.

Lemma metered_handle_runs ctx req w :
  exists r w', Service_handle tokens baseURL ctx req w = (Ok r, w') /\
    metered_handle ctx req w =
      ((Ok r, w'), [sample SubscriptionOperationsTotal [operation_of req; match r with inr _ => "success" | inl _ => "error" end]]).
Proof. destruct req; apply metered_reply_runs. Qed.

(** The request reaches the service. *)
Definition admitted (apiKey header : string) (req : Request) : bool :=
  (String.eqb apiKey "" || negb (protectedProcedures req) || String.eqb (bearerToken header) apiKey) &&
  match pv_Validate req with None => true | Some _ => false end.

(** C26: Instrumenting the API changes nothing but the metrics, and
    the metrics are right: the instrumented handler gives every request the answer
    and the database effect of the plain one, and counts it once under its protocol,
    procedure and the code of that very answer; a request that passes
    authentication and validation is also counted once under its operation, as a
    success exactly when it was answered without an error. *)
Theorem api_metrics_faithful apiKey header ctx req w :
  exists r w', NewConnectHandler tokens baseURL apiKey header ctx req w = (Ok r, w') /\
    erase (metered_NewConnectHandler apiKey header ctx req) w = (Ok r, w') /\
    samples (metered_NewConnectHandler apiKey header ctx req) w =
      (if admitted apiKey header req
       then [sample SubscriptionOperationsTotal [operation_of req; match r with inr _ => "success" | inl _ => "error" end]]
       else []) ++
      [sample RequestsTotal [if String.eqb (Protocol ctx) "" then "unknown" else Protocol ctx; procedure req; code_label (Ok r)];
       sample RequestDuration [if String.eqb (Protocol ctx) "" then "unknown" else Protocol ctx; procedure req]].
Proof.
  unfold NewConnectHandler, NewAuthInterceptor, NewValidationInterceptor, metered_NewConnectHandler,
    NewConnectObservabilityInterceptor, metered_auth, metered_validation, admitted, erase, samples, refused.
  destruct (metered_handle_runs ctx req w) as (r & w' & Hplain & Hmet).
  destruct (String.eqb apiKey ""), (protectedProcedures req), (String.eqb (bearerToken header) apiKey), (pv_Validate req);
    simpl; rewrite ?Hmet; simpl; eauto 6.
Qed.
End Api.

(** ** Well-typed metrics *)

Definition name_byte (c : ascii) : bool := is_letter c || (byte c =? 95).

(** [a-zA-Z_][a-zA-Z0-9_]* without a leading double underscore *)
Definition valid_name (s : string) : bool :=
  match s with
  | "" => false
  | String c s' => name_byte c && all_bytes (fun c => name_byte c || is_digit c) s' && negb (String.prefix "__" s)
  end.

Fixpoint increasing (l : list Z) : bool :=
  match l with
  | x :: (y :: _) as l' => (x <? y) && increasing l'
  | _ => true
  end.

(** A declaration the Prometheus client accepts. *)
Definition metric_ok (m : Metric) : bool :=
  valid_name (mt_name m) && forallb valid_name (mt_labels m) && bool_decide (NoDup (mt_labels m)) &&
  match mt_kind m with
  | Counter => true
  | Histogram buckets => increasing buckets && negb (bool_decide ("le" ∈ mt_labels m))
  end.

(** A sample of a registered metric with as many values as it has labels:
    anything else makes [WithLabelValues] panic. *)
Definition sample_ok (s : Sample) : Prop :=
  sm_metric s ∈ registered /\ length (sm_values s) = length (mt_labels (sm_metric s)).

Lemma sample_registered m values i :
  registered !! i = Some m -> length values = length (mt_labels m) -> sample_ok (sample m values).
Proof. intros Hi Hl. split; [by eapply list_elem_of_lookup_2|done]. Qed.

Ltac sample_solve :=
  repeat apply List.Forall_cons; try apply List.Forall_nil;
  (split; [apply (bool_decide_unpack _); vm_compute; exact I|reflexivity]).

Section WellTyped.
Context {D : Type} {E : Env}.

Lemma operation_samples_ok (w : World D) :
  (forall key, Forall sample_ok (samples (redisCache_Get key) w)) /\
  (forall key v ttl, Forall sample_ok (samples (redisCache_Set key v ttl) w)) /\
  (forall ctx subject data, Forall sample_ok (samples (metered_Publish ctx subject data) w)) /\
  (forall ctx subject h data, Forall sample_ok (samples (metered_dispatch ctx subject h data) w)) /\
  (forall c ctx owner repo, Forall sample_ok (samples (metered_RepoExists c ctx owner repo) w)) /\
  (forall c ctx owner repo, Forall sample_ok (samples (metered_GetLatestRelease c ctx owner repo) w)).
Proof.
  unfold samples, redisCache_Get, redisCache_Set, metered_Publish, metered_dispatch, metered_RepoExists,
    metered_GetLatestRelease, counting, github_samples. split_and!; intros; simpl; try sample_solve.
  destruct (fst (dispatch ctx h data w)); sample_solve.
Qed.

Lemma deliver_samples_ok kind errs : Forall sample_ok (deliver_samples kind errs).
Proof.
  apply List.Forall_cons; [sample_solve|]. apply Forall_map, Forall_true. intros e. sample_solve.
Qed.
End WellTyped.

(** No metric panics: the metrics registered at start-up have
    valid, pairwise different names, valid labels and increasing buckets, and every
    sample of the use cases, the cache, the bus, GitHub, the mailer, the scanner and
    the database is of a registered metric with exactly its number of label values. *)
Theorem metrics_well_typed {D} {E : Env} (w : World D) :
  NoDup (map mt_name registered) /\ forallb metric_ok registered = true /\
  (forall key, Forall sample_ok (samples (redisCache_Get key) w)) /\
  (forall key v ttl, Forall sample_ok (samples (redisCache_Set key v ttl) w)) /\
  (forall ctx subject data, Forall sample_ok (samples (metered_Publish ctx subject data) w)) /\
  (forall ctx subject h data, Forall sample_ok (samples (metered_dispatch ctx subject h data) w)) /\
  (forall c ctx owner repo, Forall sample_ok (samples (metered_RepoExists c ctx owner repo) w)) /\
  (forall c ctx owner repo, Forall sample_ok (samples (metered_GetLatestRelease c ctx owner repo) w)) /\
  (forall op A (c : M D A), Forall sample_ok (samples (Metered_Execute op c) w)) /\
  (forall kind errs, Forall sample_ok (deliver_samples kind errs)) /\
  (forall e, Forall sample_ok (release_error_samples e)) /\
  (forall qc err, Forall sample_ok (TraceQueryEnd qc err)) /\
  Forall sample_ok RecordScanRun.
Proof.
  destruct (operation_samples_ok w) as (H1 & H2 & H3 & H4 & H5 & H6).
  split_and!; [|vm_compute; reflexivity|done..| | | | |].
  - apply (bool_decide_unpack _). vm_compute. exact I.
  - intros op A c. sample_solve.
  - apply deliver_samples_ok.
  - intros e. unfold release_error_samples. repeat case_match; sample_solve.
  - intros [op start] err. unfold TraceQueryEnd. simpl. destruct op as [[op table]|], start, err as [e|]; simpl;
      try destruct (errors_Is e pgx_ErrNoRows); sample_solve.
  - sample_solve.
Qed.

(** An answer from the cache is counted as a GitHub API request although no
    request is made. *)
Theorem cache_hit_counted_as_request {D} {E : Env} c ctx owner repo val (w : World D) :
  gh_cache c = true -> env_cache_get (w_tick w) = inr (Some val) ->
  samples (metered_RepoExists c ctx owner repo) w =
    [sample GitHubAPIRequestsTotal ["repo_exists"; "success"]; sample GitHubAPIRequestDuration ["repo_exists"]] /\
  w_trace (snd (erase (metered_RepoExists c ctx owner repo) w)) = w_trace w.
Proof.
  intros Hc Hget. unfold samples, erase, metered_RepoExists, counting, RepoExists.
  rewrite Hc. unfold mbind, M_bind, attempt, cache_Get, mbind, M_bind, oracle. rewrite Hget. done.
Qed.

(** ** Witnesses *)

Definition demo_empty : SubDB := {| repositories := []; subscriptions := []; sub_outbox := [] |}.
Definition demo_github : RepoChecker SubDB := Client_RepoChecker (E := quiet_env) NewClient.

Lemma api_metrics_faithful_witness :
  exists r w', NewConnectHandler (E := quiet_env) (G := demo_github) (PV := {| pv_Validate _ := None |})
      {| tk_secret := "s"; tk_ttl := 5 |} "http://b" "key" "Bearer wrong" (WithProtocol Background "rest")
      (ListSubscriptionsRequest "a@b") (world_of demo_empty) = (Ok (inl r), w') /\
    samples (metered_NewConnectHandler (E := quiet_env) (G := demo_github) (PV := {| pv_Validate _ := None |})
      {| tk_secret := "s"; tk_ttl := 5 |} "http://b" operation_of "key" "Bearer wrong" (WithProtocol Background "rest")
      (ListSubscriptionsRequest "a@b")) (world_of demo_empty) =
      [sample RequestsTotal ["rest"; "list"; "unauthenticated"]; sample RequestDuration ["rest"; "list"]].
Proof.
  destruct (api_metrics_faithful (E := quiet_env) (G := demo_github) (PV := {| pv_Validate _ := None |})
    {| tk_secret := "s"; tk_ttl := 5 |} "http://b" operation_of "key" "Bearer wrong" (WithProtocol Background "rest")
    (ListSubscriptionsRequest "a@b") (world_of demo_empty)) as (r & w' & Hrun & _ & Hs).
  assert (r = inl {| ce_code := CodeUnauthenticated; ce_message := "unauthorized" |}) as Hr.
  { vm_compute in Hrun. congruence. }
  exists {| ce_code := CodeUnauthenticated; ce_message := "unauthorized" |}, w'. split.
  - rewrite <- Hr. exact Hrun.
  - rewrite Hs, Hr. vm_compute. reflexivity.
Defined.
