(* ===== verification/WatchMetrics.v ===== *)
(** * The counters of a watch pass

    [watch.Run], the fetch pass and the scanner's publisher as they are in the
    sources, with the samples they take: the writer [Instrumented] of
    [Metrics.v] made a monad.  Erasing the samples gives the plain definitions of
    [Scanner.v], and the samples add up to what the pass did. *)

From S2P Require Import Prelude GoErrors Effects Wp Json RepoName Events Uuid Libs Broker Consumers GitHub Scanner ScannerFacts.
From S2P Require Import ScannerTheorems Subscription SubscriptionUse SubscriptionApi Mailer Logging Metrics Quiet Concrete.

Open Scope string_scope.
Open Scope list_scope.
Open Scope Z_scope.

Global Instance Sample_eq_dec : EqDecision Sample.
Proof. solve_decision. Defined.

(** How often a metric was sampled with these values. *)
Definition tally (m : Metric) (values : list string) (l : list Sample) : Z :=
  Z.of_nat (length (List.filter (fun s => bool_decide (s = sample m values)) l)).

Lemma tally_app m values l1 l2 : tally m values (l1 ++ l2) = tally m values l1 + tally m values l2.
Proof. unfold tally. rewrite List.filter_app, length_app. lia. Qed.

Lemma tally_none m values l : (forall s, s ∈ l -> s <> sample m values) -> tally m values l = 0.
Proof.
  intros Hl. unfold tally. induction l as [|s l IH]; simpl; [done|].
  rewrite bool_decide_eq_false_2 by (apply Hl; by left). apply IH. intros s' Hs'. apply Hl. by right.
Qed.

(** ** Computations that take samples *)

Section Writer.
Context {D : Type}.

Definition pure {A} (a : A) : Instrumented D A := fun w => ((Ok a, w), []).
Definition lift {A} (c : M D A) : Instrumented D A := fun w => (c w, []).
Definition take_samples (l : list Sample) : Instrumented D unit := fun w => ((Ok tt, w), l).

Definition ibind {A B} (c : Instrumented D A) (k : A -> Instrumented D B) : Instrumented D B := fun w =>
  match c w with
  | ((Ok a, w'), l) => let '(out, l') := k a w' in (out, l ++ l')
  | ((Err e, w'), l) => ((Err e, w'), l)
  end.

(** [x, err := c] *)
Definition iattempt {A} (c : Instrumented D A) : Instrumented D (res A) := fun w =>
  let '(out, l) := c w in (attempt (fun _ => out) w, l).

(** [if err != nil { return fmt.Errorf("pre: %w", err) }] *)
Definition iwrapping {A} (pre : string) (c : Instrumented D A) : Instrumented D A := fun w =>
  let '(out, l) := c w in (wrapping pre (fun _ => out) w, l).

(** [if err != nil { count; ... }] *)
Definition on_error {A} (l : list Sample) (c : Instrumented D A) : Instrumented D A := fun w =>
  let '((r, w'), l0) := c w in ((r, w'), l0 ++ match r with Ok _ => [] | Err _ => l end).

Lemma erase_ibind {A B} (c : Instrumented D A) (k : A -> Instrumented D B) (k' : A -> M D B) w :
  (forall a w, erase (k a) w = k' a w) -> erase (ibind c k) w = (erase c ≫= k') w.
Proof.
  intros Hk. unfold erase, ibind, mbind, M_bind. destruct (c w) as [[[a|e] w'] l]; simpl; [|done].
  rewrite <- Hk. unfold erase. by destruct (k a w').
Qed.
End Writer.

(** ** The fetch pass *)

Section Fetch.
Context {D : Type} {E : Env}.
Variable c : Client.
#[local] Instance client_source : ReleaseSource D := Client_ReleaseSource c.

(** [fetchRelease] before its request. *)
Definition metered_fetch_begin (cancelled : bool) (repoName : string) : Instrumented D (option (string * string)) :=
  ibind (lift ctx_Done) (fun stopped =>
  if cancelled || bool_decide (is_Some stopped) then pure None else
  match ParseRepo repoName with
  | Err _ => ibind (take_samples [sample ScannerErrorsTotal ["parse_repo"]]) (fun _ => pure None)
  | Ok target => pure (Some target)
  end).

(** The steps of a goroutine: up to its request, the request, answered or given
    up, and what it does with the answer. *)
Definition metered_begin_step (i : nat) (repo : string) (s : Pass) : Instrumented D Pass :=
  ibind (metered_fetch_begin (cancelled s) repo) (fun target =>
  pure (match target with
        | None => worker_returns i repo (Ok None) s
        | Some (owner, name) => set_worker i (Requesting repo owner name) s
        end)).

Definition metered_answer_step (ctx : Ctx) (i : nat) (repo owner name : string) (s : Pass) : Instrumented D Pass :=
  ibind (iattempt (metered_GetLatestRelease c ctx owner name)) (fun answer =>
  pure (set_worker i (Answered repo answer) s)).

Definition metered_finish_step (i : nat) (repo : string) (answer : res Release) (s : Pass) : Instrumented D Pass :=
  ibind (take_samples (match answer with Ok _ => [] | Err e => release_error_samples e end)) (fun _ =>
  pure (finish_step i repo answer s)).

Definition metered_proceed_step (ctx : Ctx) (i : nat) (s : Pass) : Instrumented D Pass :=
  match ps_running s !! i with
  | None => pure s
  | Some (Started repo) => metered_begin_step i repo s
  | Some (Requesting repo owner name) => metered_answer_step ctx i repo owner name s
  | Some (Answered repo answer) => metered_finish_step i repo answer s
  end.

(** A call that gives up is counted like any other that fails. *)
Definition metered_interrupt_step (i : nat) (s : Pass) : Instrumented D Pass :=
  ibind (take_samples (github_samples "latest_release" (Err (A := Release) (Sentinel context_Canceled)))) (fun _ =>
  pure (interrupt_step i s)).

Definition metered_pass_step (ctx : Ctx) (ch : Choice) (s : Pass) : Instrumented D Pass :=
  match ch with
  | Proceed i => metered_proceed_step ctx i s
  | Interrupt i => metered_interrupt_step i s
  | Check | Launch => lift (pass_step ctx ch s)
  end.

Fixpoint metered_pass_loop (fuel : nat) (workers : Z) (sched : nat -> nat) (ctx : Ctx) (s : Pass) (w : World D)
    : option ((res Pass * World D) * list Sample) :=
  if finished s then Some ((Ok s, w), []) else
  match fuel with
  | O => None
  | S k =>
      match choices workers s !! (sched k mod length (choices workers s))%nat with
      | None => None
      | Some ch =>
          match metered_pass_step ctx ch s w with
          | ((Ok s', w'), l) =>
              match metered_pass_loop k workers sched ctx s' w' with
              | Some (out, l') => Some (out, l ++ l')
              | None => None
              end
          | ((Err e, w'), l) => Some ((Err e, w'), l)
          end
      end
  end.

(** [Scan], with its samples. *)
Definition metered_Scan (workers : Z) (sched : nat -> nat) (ctx : Ctx) (repos : list string) (w : World D)
    : option ((res (list ObservedRelease) * World D) * list Sample) :=
  match metered_pass_loop (scan_fuel repos) workers sched ctx (initial_pass repos) w with
  | Some ((Ok s, w'), l) => Some ((Ok (ps_observed s), w'), l)
  | Some ((Err e, w'), l) => Some ((Err e, w'), l)
  | None => None
  end.

(** What a fetch pass counts. *)
Definition scan_sample (s : Sample) : Prop :=
  sample_ok s /\
  (sm_metric s ∈ [GitHubAPIRequestsTotal; GitHubAPIRequestDuration; GitHubAPIErrorsTotal] \/
   s = sample ScannerErrorsTotal ["parse_repo"] \/ s = sample ScannerErrorsTotal ["fetch_release"]).

Lemma erase_fetch_begin b repo (w : World D) : erase (metered_fetch_begin b repo) w = fetch_begin b repo w.
Proof.
  unfold metered_fetch_begin, fetch_begin. apply erase_ibind. intros stopped w1.
  destruct (_ || _); [done|]. by destruct (ParseRepo repo).
Qed.

Lemma erase_pass_step ctx ch s (w : World D) : erase (metered_pass_step ctx ch s) w = pass_step ctx ch s w.
Proof.
  destruct ch as [| |i|i]; [done..| |done]. simpl. unfold metered_proceed_step, proceed_step.
  destruct (ps_running s !! i) as [[repo|repo owner name|repo answer]|]; [| |done..].
  - unfold metered_begin_step, begin_step. erewrite erase_ibind by (intros; reflexivity).
    unfold mbind, M_bind. by rewrite erase_fetch_begin.
  - unfold metered_answer_step, answer_step. by erewrite (erase_ibind (iattempt _)) by (intros; reflexivity).
Qed.

Lemma erase_pass_loop fuel workers sched ctx s (w : World D) :
  fst <$> metered_pass_loop fuel workers sched ctx s w = pass_loop fuel workers sched ctx s w.
Proof.
  revert s w. induction fuel as [|k IH]; intros s w; simpl; (destruct (finished s); [done|]); [done|].
  destruct (choices workers s !! _) as [ch|]; [|done]. pose proof (erase_pass_step ctx ch s w) as He. unfold erase in He.
  rewrite <- He. destruct (metered_pass_step ctx ch s w) as [[[s'|e] w'] l]; simpl; [|done].
  rewrite <- IH. by destruct (metered_pass_loop k workers sched ctx s' w') as [[out l']|].
Qed.

Lemma erase_Scan workers sched ctx repos (w : World D) :
  fst <$> metered_Scan workers sched ctx repos w = Scan workers sched ctx repos w.
Proof.
  unfold metered_Scan, Scan. rewrite <- erase_pass_loop.
  by destruct (metered_pass_loop _ _ _ _ _ _) as [[[[s|e] w'] l]|].
Qed.

Ltac scan_sample_solve :=
  repeat apply List.Forall_cons; try apply List.Forall_nil;
  (split; [split; [apply (bool_decide_unpack _); vm_compute; exact I|reflexivity]|]);
  first [left; apply (bool_decide_unpack _); vm_compute; exact I|right; left; reflexivity|right; right; reflexivity].

Lemma release_error_scan_samples e : Forall scan_sample (release_error_samples e).
Proof. unfold release_error_samples. repeat case_match; scan_sample_solve. Qed.

Lemma pass_step_samples ctx ch s (w : World D) : Forall scan_sample (samples (metered_pass_step ctx ch s) w).
Proof.
  unfold samples. destruct ch as [| |i|i]; [constructor..| |simpl; scan_sample_solve]. simpl. unfold metered_proceed_step.
  destruct (ps_running s !! i) as [[repo|repo owner name|repo answer]|]; [| | |constructor].
  - unfold metered_begin_step, metered_fetch_begin, ibind, lift, pure, take_samples. simpl.
    destruct (_ || _); [constructor|]. destruct (ParseRepo repo) as [[owner name]|e]; simpl; [constructor|scan_sample_solve].
  - unfold metered_answer_step, ibind, iattempt, metered_GetLatestRelease, counting, github_samples, attempt, pure.
    destruct (GetLatestRelease c ctx owner name w) as [[rel|e] w']; simpl; scan_sample_solve.
  - unfold metered_finish_step, ibind, take_samples, pure. simpl. rewrite app_nil_r.
    destruct answer; [constructor|apply release_error_scan_samples].
Qed.

Lemma pass_loop_samples fuel workers sched ctx s (w : World D) out l :
  metered_pass_loop fuel workers sched ctx s w = Some (out, l) -> Forall scan_sample l.
Proof.
  revert s w l. induction fuel as [|k IH]; intros s w l; simpl; (destruct (finished s); [intros [= _ <-]; constructor|]); [done|].
  destruct (choices workers s !! _) as [ch|]; [|done]. pose proof (pass_step_samples ctx ch s w) as Hs. unfold samples in Hs.
  destruct (metered_pass_step ctx ch s w) as [[[s'|e] w'] l1]; simpl in Hs; [|by intros [= _ <-]].
  destruct (metered_pass_loop k workers sched ctx s' w') as [[out' l']|] eqn:Hl; [|done]. intros [= <- <-].
  apply Forall_app. split; [done|]. by eapply IH.
Qed.
End Fetch.

(** ** The watch pass *)

(** The fetch pass behind [watch.scanner], with its samples. *)
Class MeteredScanner {SC : ReleaseScanner ScanDB} := {
  ms_Scan : Ctx -> list string -> Instrumented ScanDB (list ObservedRelease);
  ms_Scan_erase : forall ctx repos w, erase (ms_Scan ctx repos) w = sc_Scan ctx repos w;
  ms_Scan_samples : forall ctx repos w, Forall scan_sample (samples (ms_Scan ctx repos) w);
}.

(** The errgroup pass is one, for any scheduler and any non-zero limit. *)
Program Definition Errgroup_MeteredScanner {E : Env} (c : Client) (workers : Z) (sched : nat -> nat) (Hw : workers <> 0) :
  MeteredScanner (SC := Errgroup_ReleaseScanner (G := Client_ReleaseSource c) workers sched Hw) :=
  {| ms_Scan ctx repos w := match metered_Scan c workers sched ctx repos w with Some out => out | None => ((Ok [], w), []) end |}.
Next Obligation.
  intros E c workers sched Hw ctx repos w. unfold erase. simpl. unfold total_Scan. rewrite <- erase_Scan.
  by destruct (metered_Scan c workers sched ctx repos w) as [[out l]|].
Qed.
Next Obligation.
  intros E c workers sched Hw ctx repos w. unfold samples, metered_Scan.
  destruct (metered_pass_loop c _ workers sched ctx _ w) as [[[[s|e] w'] l]|] eqn:Hl; simpl; [| |constructor];
    by eapply pass_loop_samples.
Qed.

Section Watch.
Context {E : Env} {V : Validators} {U : UUIDLib} {P : PgxLib} {SC : ReleaseScanner ScanDB} {MS : MeteredScanner}.

Definition reason (r : string) : Sample := sample ScannerErrorsTotal [r].

(** [enqueue] of the scanner's publisher, over the instrumented bus. *)
Definition metered_publish {T} `{Event T} (ctx : Ctx) (subject : string) (ev : T) : Instrumented ScanDB unit :=
  match Marshal ev with
  | Err e => lift (fail (Errorf ("marshal " +:+ subject) e))
  | Ok data => iwrapping ("publish " +:+ subject) (metered_Publish ctx subject data)
  end.

Definition metered_process (ctx : Ctx) (repo : WatchedRepo) (release : Release) : Instrumented ScanDB outcome :=
  let tag := rel_TagName release in
  match wr_LastSeenTag repo with
  | None =>
      ibind (iattempt (on_error [reason "seed_tag"] (lift (Repo_AdvanceTag (wr_RepoName repo) tag))))
        (fun _ => pure outcomeSeeded)
  | Some seen =>
      if String.eqb seen tag then pure outcomeUnchanged
      else ibind (lift uuid_NewString) (fun id =>
        ibind (iattempt (on_error [reason "publish_detected"] (metered_publish ctx SubjectReleaseDetected
          {| rd_SagaID := id; rd_RepoName := wr_RepoName repo; rd_Tag := tag; rd_ReleaseURL := rel_HTMLURL release |})))
        (fun _ => pure outcomeDetected))
  end.

Fixpoint metered_process_all (ctx : Ctx) (byName : gmap string WatchedRepo) (observed : list ObservedRelease) (c : Counts)
    : Instrumented ScanDB Counts :=
  match observed with
  | [] => pure c
  | rel :: rest =>
      match byName !! or_Repo rel with
      | None => metered_process_all ctx byName rest c
      | Some repo => ibind (metered_process ctx repo (or_Release rel)) (fun o => metered_process_all ctx byName rest (count o c))
      end
  end.

(** [Run] before its deferred [RecordScanRun]. *)
Definition metered_watch_body (ctx : Ctx) : Instrumented ScanDB Counts :=
  let zero := {| ct_seeded := 0; ct_detected := 0 |} in
  ibind (on_error [reason "list_repos"] (iwrapping "list watched repos" (lift ListWatched))) (fun watched =>
  if bool_decide (watched = []) then pure zero else
  ibind (on_error [reason "scan"] (iwrapping "scan repos" (ms_Scan ctx (map wr_RepoName watched)))) (fun observed =>
  metered_process_all ctx (index_by_name watched) observed zero)).

Definition metered_watch_Run (ctx : Ctx) : Instrumented ScanDB Counts := fun w =>
  let '(out, l) := metered_watch_body ctx w in (out, l ++ RecordScanRun).

(** *** Erasure *)

Lemma erase_publish {T} `{Event T} ctx subject (ev : T) w : erase (metered_publish ctx subject ev) w = publish ctx subject ev w.
Proof. unfold metered_publish, publish. by destruct (Marshal ev). Qed.

Lemma erase_on_error {A} l (c : Instrumented ScanDB A) w : erase (iattempt (on_error l c)) w = attempt (erase c) w.
Proof. unfold erase, iattempt, on_error, attempt. by destruct (c w) as [[r w'] l']. Qed.

Lemma erase_process ctx repo release w : erase (metered_process ctx repo release) w = process ctx repo release w.
Proof.
  unfold metered_process, process. destruct (wr_LastSeenTag repo) as [seen|].
  - destruct (String.eqb seen _); [done|]. apply erase_ibind. intros id w1.
    erewrite (erase_ibind (iattempt _)) by (intros; reflexivity). unfold mbind, M_bind. rewrite erase_on_error.
    unfold attempt, pub_ReleaseDetected. by rewrite erase_publish.
  - erewrite (erase_ibind (iattempt _)) by (intros; reflexivity). unfold mbind, M_bind. by rewrite erase_on_error.
Qed.

Lemma erase_process_all ctx byName observed c w :
  erase (metered_process_all ctx byName observed c) w = process_all ctx byName observed c w.
Proof.
  revert c w. induction observed as [|rel rest IH]; intros c w; simpl; [done|].
  destruct (byName !! or_Repo rel) as [repo|]; [|apply IH]. erewrite erase_ibind by (intros; apply IH).
  unfold mbind, M_bind. by rewrite erase_process.
Qed.

Lemma erase_wrapped {A} l pre (c : Instrumented ScanDB A) w : erase (on_error l (iwrapping pre c)) w = wrapping pre (erase c) w.
Proof. unfold erase, on_error, iwrapping, wrapping. destruct (c w) as [[[a|e] w'] l']; done. Qed.

Lemma erase_watch_body ctx w : erase (metered_watch_body ctx) w = watch_Run ctx w.
Proof.
  unfold metered_watch_body, watch_Run. erewrite erase_ibind.
  - unfold mbind, M_bind. by rewrite erase_wrapped.
  - intros watched w1. cbv beta. destruct (bool_decide (watched = [])); [done|]. erewrite erase_ibind.
    + unfold mbind, M_bind. rewrite erase_wrapped. unfold wrapping. by rewrite ms_Scan_erase.
    + intros observed w2. apply erase_process_all.
Qed.

(** *** What the samples add up to *)

Definition detected_ok (l : list Sample) : Z := tally EventsPublishedTotal [SubjectReleaseDetected; "success"] l.
Definition errors_of (r : string) (l : list Sample) : Z := tally ScannerErrorsTotal [r] l.

(** [l] accounts for [detected] announcements and at most [seeded] failed seeds. *)
Definition accounts (l : list Sample) (detected seeded : Z) : Prop :=
  detected_ok l + errors_of "publish_detected" l = detected /\ 0 <= errors_of "seed_tag" l <= seeded /\
  errors_of "list_repos" l = 0 /\ errors_of "scan" l = 0 /\ tally ScannerRunsTotal [] l = 0.

Lemma accounts_app l1 l2 d1 d2 s1 s2 : accounts l1 d1 s1 -> accounts l2 d2 s2 -> accounts (l1 ++ l2) (d1 + d2) (s1 + s2).
Proof. unfold accounts, detected_ok, errors_of. rewrite !tally_app. lia. Qed.

Lemma scan_accounts l : Forall scan_sample l -> accounts l 0 0.
Proof.
  intros Hl. unfold accounts, detected_ok, errors_of. rewrite Forall_forall in Hl.
  assert (forall m values, sample m values <> sample ScannerErrorsTotal ["parse_repo"] ->
    sample m values <> sample ScannerErrorsTotal ["fetch_release"] ->
    m ∉ [GitHubAPIRequestsTotal; GitHubAPIRequestDuration; GitHubAPIErrorsTotal] -> tally m values l = 0) as Hz.
  { intros m values H1 H2 H3. apply tally_none. intros s Hs ->. by destruct (Hl _ Hs) as [_ [?|[?|?]]]. }
  rewrite !Hz; [lia|..]; try discriminate; apply (bool_decide_unpack _); vm_compute; exact I.
Qed.

Lemma process_accounts ctx repo release w :
  exists o w', fst (metered_process ctx repo release w) = (Ok o, w') /\
    accounts (samples (metered_process ctx repo release) w)
      (match o with outcomeDetected => 1 | _ => 0 end) (match o with outcomeSeeded => 1 | _ => 0 end).
Proof.
  assert (forall s d n, bool_decide (detected_ok [s] + errors_of "publish_detected" [s] = d) = true ->
    bool_decide (0 <= errors_of "seed_tag" [s] <= n /\ errors_of "list_repos" [s] = 0 /\ errors_of "scan" [s] = 0 /\
      tally ScannerRunsTotal [] [s] = 0) = true -> accounts [s] d n) as Hone.
  { intros s d n H1%bool_decide_eq_true H2%bool_decide_eq_true. by split. }
  unfold metered_process, samples. destruct (wr_LastSeenTag repo) as [seen|].
  - destruct (String.eqb seen _); [by exists outcomeUnchanged, w|].
    unfold ibind, lift, iattempt, on_error, attempt, pure, metered_publish. simpl.
    destruct (Marshal _) as [data|e]; simpl; [|by eexists outcomeDetected, _].
    unfold iwrapping, wrapping, metered_Publish, counting.
    destruct (Conn_Publish _ _ _ _) as [[[]|e] w']; simpl; by eexists outcomeDetected, _.
  - unfold ibind, lift, iattempt, on_error, attempt, pure. simpl.
    destruct (Repo_AdvanceTag _ _ w) as [[[]|e] w']; simpl; by eexists outcomeSeeded, _.
Qed.

Lemma process_all_accounts ctx byName observed c w :
  exists c' w', fst (metered_process_all ctx byName observed c w) = (Ok c', w') /\
    accounts (samples (metered_process_all ctx byName observed c) w) (ct_detected c' - ct_detected c)
      (ct_seeded c' - ct_seeded c).
Proof.
  revert c w. induction observed as [|rel rest IH]; intros c w; simpl.
  - exists c, w. rewrite !Z.sub_diag. done.
  - destruct (byName !! or_Repo rel) as [repo|]; [|apply IH]. unfold samples, ibind.
    destruct (process_accounts ctx repo (or_Release rel) w) as (o & w1 & Ho & Ha). unfold samples in Ha.
    destruct (metered_process ctx repo (or_Release rel) w) as [out l]. simpl in Ho, Ha. subst out.
    destruct (IH (count o c) w1) as (c' & w' & Hc & Hs). unfold samples in Hs.
    destruct (metered_process_all ctx byName rest (count o c) w1) as [out l']. simpl in Hc, Hs. subst out.
    exists c', w'. split; [done|]. simpl. pose proof (accounts_app _ _ _ _ _ _ Ha Hs) as H. unfold accounts in *.
    destruct o; simpl in *; lia.
Qed.

(** C27: The scanner's counters tell what its passes did.
    Instrumenting a watch pass changes neither its result nor its effects; every
    pass is counted exactly once as a run, however it ends; a pass that fails is
    counted under exactly one of list_repos and scan; a pass that ends well under
    neither, and the releases it reports as detected are exactly those the bus
    accepted plus those counted as publish_detected, its failed seeds at most
    those it reports as seeded. *)
Theorem watch_metrics_faithful ctx w :
  let l := samples (metered_watch_Run ctx) w in
  erase (metered_watch_Run ctx) w = watch_Run ctx w /\ tally ScannerRunsTotal [] l = 1 /\
  match fst (watch_Run ctx w) with
  | Err _ => errors_of "list_repos" l + errors_of "scan" l = 1 /\ detected_ok l = 0
  | Ok c => errors_of "list_repos" l = 0 /\ errors_of "scan" l = 0 /\
      detected_ok l + errors_of "publish_detected" l = ct_detected c /\
      0 <= errors_of "seed_tag" l <= ct_seeded c
  end.
Proof.
  cbv zeta.
  assert (erase (metered_watch_Run ctx) w = watch_Run ctx w) as He.
  { rewrite <- erase_watch_body. unfold erase, metered_watch_Run. by destruct (metered_watch_body ctx w). }
  split; [exact He|]. rewrite <- He. unfold erase, samples, metered_watch_Run.
  cut (let l := snd (metered_watch_body ctx w) in tally ScannerRunsTotal [] l = 0 /\
    match fst (fst (metered_watch_body ctx w)) with
    | Err _ => errors_of "list_repos" l + errors_of "scan" l = 1 /\ detected_ok l = 0
    | Ok c => accounts l (ct_detected c) (ct_seeded c)
    end).
  { cbv zeta. destruct (metered_watch_body ctx w) as [out l]. unfold errors_of, detected_ok, accounts. simpl.
    rewrite !tally_app. set (run := tally ScannerRunsTotal [] RecordScanRun). change run with 1.
    intros [Hr Ho]. split; [lia|]. destruct (fst out).
    all: repeat match goal with |- context [tally ?m ?v RecordScanRun] => change (tally m v RecordScanRun) with 0 end.
    all: unfold errors_of, detected_ok in Ho; lia. }
  unfold metered_watch_body, ibind, lift, on_error, iwrapping, wrapping. destruct (ListWatched w) as [[watched|e] w1]; simpl; [|done].
  destruct (bool_decide (watched = [])); [done|]. pose proof (ms_Scan_samples ctx (map wr_RepoName watched) w1) as Hs.
  apply scan_accounts in Hs. unfold samples in Hs. destruct (ms_Scan ctx (map wr_RepoName watched) w1) as [[[obs|e] w2] l1]; simpl in Hs |- *.
  - destruct (process_all_accounts ctx (index_by_name watched) obs {| ct_seeded := 0; ct_detected := 0 |} w2) as (c & w3 & Hc & Ha).
    unfold samples in Ha. destruct (metered_process_all _ _ _ _ w2) as [out l2]. simpl in *. subst out. simpl.
    rewrite app_nil_r. pose proof (accounts_app _ _ _ _ _ _ Hs Ha) as H. rewrite !Z.sub_0_r in H. split; [apply H|exact H].
  - unfold accounts, detected_ok, errors_of in *. rewrite !tally_app.
    change (tally ScannerErrorsTotal ["list_repos"] [reason "scan"]) with 0. change (tally ScannerErrorsTotal ["scan"] [reason "scan"]) with 1.
    change (tally ScannerRunsTotal [] [reason "scan"]) with 0.
    change (tally EventsPublishedTotal [SubjectReleaseDetected; "success"] [reason "scan"]) with 0.
    assert (0 <= tally EventsPublishedTotal [SubjectReleaseDetected; "success"] l1) by (unfold tally; lia).
    assert (0 <= tally ScannerErrorsTotal ["publish_detected"] l1) by (unfold tally; lia). lia.
Qed.
End Watch.
