(* ===== verification/Lifecycle.v ===== *)
(** * The life of a service process

    What a composition root does to the process: resources opened and closed,
    background tasks started, cancelled and awaited, servers started and shut
    down, and the external calls whose answers decide how it goes on.  [B] is the
    monad of the composition roots ([internal/bootstrap]), with Go's [defer];
    [play] is the discipline a run is judged by; [runs] and its rules verify a
    composition root against it. *)

From S2P Require Import Prelude GoErrors Consumers.

Open Scope string_scope.
Open Scope list_scope.

(** ** Events *)

Inductive Resource :=
| RRedis | RPool | RBroker | RMailer | RCompensator
| RMigrator (fs : string)
| RConsumer (durable : string).

Inductive Task := TRelay | TCleanup | TMaintenance | TScheduler.

Inductive Server := SMetrics | SPublic | SInternal.

(** Calls into libraries and the network that may fail. *)
Inductive Call :=
| CDotenv | CLoadConfig
| CRedisParseURL (url : string) | CRedisPing | CRedisClose
| CPoolParse (url : string) | CPoolNew | CPoolPing
| CMigrationSource (fs : string) | CMigrator (fs table : string) | CMigrateUp (fs : string) | CMigratorClose (fs : string)
| CNatsConnect (url : string) | CJetStream | CEnsureStream (name : string) (subjects : list string) | CDrain
| CCreateConsumer (stream durable subject : string) | CStartConsume (durable : string)
| CMailClient
| CValidator | CTranscoder
| CListenAndServe (s : Server) | CServerShutdown (s : Server).

Global Instance Resource_eq_dec : EqDecision Resource.
Proof. solve_decision. Defined.
Global Instance Task_eq_dec : EqDecision Task.
Proof. solve_decision. Defined.
Global Instance Server_eq_dec : EqDecision Server.
Proof. solve_decision. Defined.

Inductive Life :=
| LCall (c : Call) (failure : option error)   (* a call and its answer *)
| LOpen (r : Resource)
| LClose (r : Resource)
| LSpawn (t : Task)           (* go, with a channel that is closed when it ends *)
| LDetach (t : Task)          (* go, without *)
| LCancel (ts : list Task)    (* cancel the context of these tasks *)
| LJoin (ts : list Task)      (* wait until they have ended *)
| LListen (s : Server) (addr : string)
| LShutdown (s : Server).

(** ** The discipline *)

(** Calls whose failure is only logged. *)
Definition closing (c : Call) : bool :=
  match c with
  | CDotenv | CRedisClose | CMigratorClose _ | CDrain | CServerShutdown _ => true
  | _ => false
  end.

(** Failures that are not failures. *)
Definition benign (c : Call) (e : error) : bool :=
  match c with
  | CMigrateUp _ => errors_Is e migrate_ErrNoChange
  | CListenAndServe _ => errors_Is e http_ErrServerClosed
  | _ => false
  end.

Definition fatal (c : Call) (e : error) : bool := negb (closing c) && negb (benign c e).

(** Where a process stands. *)
Record Live := {
  lv_open : list Resource;      (* latest first *)
  lv_streams : list string;     (* ensured *)
  lv_tasks : list Task;         (* started and to be awaited *)
  lv_cancelled : list Task;
  lv_servers : list Server;
  lv_failed : bool;             (* a call failed *)
}.

Definition live0 : Live :=
  {| lv_open := []; lv_streams := []; lv_tasks := []; lv_cancelled := []; lv_servers := []; lv_failed := false |}.

Definition upd_open (os : list Resource) (st : Live) : Live :=
  {| lv_open := os; lv_streams := lv_streams st; lv_tasks := lv_tasks st; lv_cancelled := lv_cancelled st;
     lv_servers := lv_servers st; lv_failed := lv_failed st |}.
Definition upd_streams (ss : list string) (st : Live) : Live :=
  {| lv_open := lv_open st; lv_streams := ss; lv_tasks := lv_tasks st; lv_cancelled := lv_cancelled st;
     lv_servers := lv_servers st; lv_failed := lv_failed st |}.
Definition upd_tasks (ts cs : list Task) (st : Live) : Live :=
  {| lv_open := lv_open st; lv_streams := lv_streams st; lv_tasks := ts; lv_cancelled := cs;
     lv_servers := lv_servers st; lv_failed := lv_failed st |}.
Definition upd_servers (ss : list Server) (st : Live) : Live :=
  {| lv_open := lv_open st; lv_streams := lv_streams st; lv_tasks := lv_tasks st; lv_cancelled := lv_cancelled st;
     lv_servers := ss; lv_failed := lv_failed st |}.
Definition upd_failed (b : bool) (st : Live) : Live :=
  {| lv_open := lv_open st; lv_streams := lv_streams st; lv_tasks := lv_tasks st; lv_cancelled := lv_cancelled st;
     lv_servers := lv_servers st; lv_failed := b |}.

(** What has to be up before a consumer delivers messages or a task runs. *)
Definition may_open (r : Resource) (st : Live) : bool :=
  match r with
  | RConsumer _ =>
      bool_decide (RPool ∈ lv_open st) && bool_decide (RBroker ∈ lv_open st) &&
      bool_decide (map fst event_streams ⊆ lv_streams st)
  | _ => true
  end.
Definition may_start (t : Task) (st : Live) : bool :=
  bool_decide (RPool ∈ lv_open st) &&
  match t with TCleanup => true | _ => bool_decide (RBroker ∈ lv_open st) end.

Definition when (b : bool) (st : Live) : option Live := if b then Some st else None.

(** One event: [None] is a breach of the discipline.  After a failure nothing
    is opened, started or asked any more; resources are closed in reverse order of
    opening, after the tasks have been awaited and the servers shut down; a task
    is awaited only once cancelled. *)
Definition step (st : Live) (ev : Life) : option Live :=
  match ev with
  | LCall c None =>
      when (closing c || negb (lv_failed st))
        (match c with CEnsureStream n _ => upd_streams (n :: lv_streams st) st | _ => st end)
  | LCall c (Some e) =>
      when (closing c || negb (lv_failed st)) (if fatal c e then upd_failed true st else st)
  | LOpen r => when (negb (lv_failed st) && may_open r st) (upd_open (r :: lv_open st) st)
  | LClose r =>
      match lv_open st, lv_tasks st, lv_servers st with
      | r' :: os, [], [] => when (bool_decide (r = r')) (upd_open os st)
      | _, _, _ => None
      end
  | LSpawn t => when (negb (lv_failed st) && may_start t st) (upd_tasks (t :: lv_tasks st) (lv_cancelled st) st)
  | LDetach t => when (negb (lv_failed st) && may_start t st) st
  | LCancel ts => when (bool_decide (ts ⊆ lv_tasks st)) (upd_tasks (lv_tasks st) (ts ++ lv_cancelled st) st)
  | LJoin ts =>
      when (bool_decide (ts ⊆ lv_cancelled st)) 
        (upd_tasks (list_difference (lv_tasks st) ts) (list_difference (lv_cancelled st) ts) st)
  | LListen s _ => when (negb (lv_failed st)) (upd_servers (s :: lv_servers st) st)
  | LShutdown s =>
      match lv_tasks st with
      | [] => when (bool_decide (s ∈ lv_servers st)) (upd_servers (list_difference (lv_servers st) [s]) st)
      | _ => None
      end
  end.

Fixpoint play (st : Live) (evs : list Life) : option Live :=
  match evs with
  | [] => Some st
  | ev :: evs => match step st ev with Some st' => play st' evs | None => None end
  end.

Lemma play_app st evs evs' :
  play st (evs ++ evs') = match play st evs with Some st' => play st' evs' | None => None end.
Proof. revert st. induction evs as [|ev evs IH]; intros st; simpl; [done|]. by destruct (step st ev). Qed.

(** ** The monad of composition roots *)

Record Boot := { bt_tick : nat; bt_life : list Life }.

Definition boot0 : Boot := {| bt_tick := 0; bt_life := [] |}.

(** The answers of the outside world, by the number of calls made so far;
    [be_listens] is what the servers' [ListenAndServe] returned, in order, before the
    select of [serve] saw the context done. *)
Class BootEnv := {
  be_answer : nat -> Call -> option error;
  be_listens : nat -> list (Server * error);
}.

Definition B (A : Type) : Type := Boot -> res A * Boot.

Global Instance B_ret : MRet B := fun A a s => (Ok a, s).
Global Instance B_bind : MBind B := fun A A' f c s =>
  match c s with
  | (Ok a, s') => f a s'
  | (Err e, s') => (Err e, s')
  end.

Definition bfail {A} (e : error) : B A := fun s => (Err e, s).

(** [if err != nil { return fmt.Errorf("pre: %w", err) }] *)
Definition bwrap {A} (pre : string) (c : B A) : B A := fun s =>
  let '(r, s') := c s in (map_err (Errorf pre) r, s').

(** [x, err := c] *)
Definition battempt {A} (c : B A) : B (res A) := fun s => let '(r, s') := c s in (Ok r, s').

(** [defer cleanup(); k] *)
Definition defer {A} (cleanup : B unit) (k : B A) : B A := fun s =>
  let '(r, s1) := k s in let '(_, s2) := cleanup s1 in (r, s2).

Definition live (ev : Life) : B unit := fun s => (Ok tt, {| bt_tick := bt_tick s; bt_life := bt_life s ++ [ev] |}).

Definition call `{BootEnv} (c : Call) : B unit := fun s =>
  let o := be_answer (bt_tick s) c in
  (match o with None => Ok tt | Some e => Err e end,
   {| bt_tick := S (bt_tick s); bt_life := bt_life s ++ [LCall c o] |}).

(** [if err := c; err != nil { log }] *)
Definition blogged {A} (c : B A) : B unit := _ ← battempt c; mret tt.

(** ** Rules *)

(** Run from [st], [c] keeps the discipline and ends as [Q] says. *)
Definition runs {A} (c : B A) (st : Live) (Q : res A -> Live -> Prop) : Prop :=
  forall s, exists tr st', bt_life (snd (c s)) = bt_life s ++ tr /\ play st tr = Some st' /\ Q (fst (c s)) st'.

Lemma runs_mono {A} (c : B A) st (Q Q' : res A -> Live -> Prop) :
  runs c st Q -> (forall r st', Q r st' -> Q' r st') -> runs c st Q'.
Proof. intros Hc HQ s. destruct (Hc s) as (tr & st' & Htr & Hp & Hq). exists tr, st'. auto. Qed.

Lemma runs_ret {A} (a : A) st (Q : res A -> Live -> Prop) : Q (Ok a) st -> runs (mret a) st Q.
Proof. intros HQ s. exists [], st. by rewrite app_nil_r. Qed.

Lemma runs_fail {A} e st (Q : res A -> Live -> Prop) : Q (Err e) st -> runs (bfail e) st Q.
Proof. intros HQ s. exists [], st. by rewrite app_nil_r. Qed.

Lemma runs_bind {A A'} (c : B A) (f : A -> B A') st (Q : res A' -> Live -> Prop) :
  runs c st (fun r st' => match r with Ok a => runs (f a) st' Q | Err e => Q (Err e) st' end) ->
  runs (c ≫= f) st Q.
Proof.
  intros Hc s. destruct (Hc s) as (tr & st' & Htr & Hp & Hq). unfold mbind, B_bind.
  destruct (c s) as [[a|e] s'] eqn:Hcs; simpl in *; [|by exists tr, st'].
  destruct (Hq s') as (tr' & st'' & Htr' & Hp' & Hq'). exists (tr ++ tr'), st''.
  split_and!; [by rewrite Htr', Htr, app_assoc| |done]. by rewrite play_app, Hp.
Qed.

Lemma runs_wrap {A} pre (c : B A) st (Q : res A -> Live -> Prop) :
  runs c st (fun r => Q (map_err (Errorf pre) r)) -> runs (bwrap pre c) st Q.
Proof. intros Hc s. specialize (Hc s). unfold bwrap. by destruct (c s). Qed.

Lemma runs_attempt {A} (c : B A) st (Q : res (res A) -> Live -> Prop) :
  runs c st (fun r => Q (Ok r)) -> runs (battempt c) st Q.
Proof. intros Hc s. specialize (Hc s). unfold battempt. by destruct (c s). Qed.

Lemma runs_defer {A} cleanup (k : B A) st (Q : res A -> Live -> Prop) :
  runs k st (fun r st' => runs cleanup st' (fun _ => Q r)) -> runs (defer cleanup k) st Q.
Proof.
  intros Hk s. destruct (Hk s) as (tr & st' & Htr & Hp & Hq). unfold defer.
  destruct (k s) as [r s1]; simpl in *.
  destruct (Hq s1) as (tr' & st'' & Htr' & Hp' & Hq'). destruct (cleanup s1) as [r' s2]; simpl in *.
  exists (tr ++ tr'), st''. split_and!; [by rewrite Htr', Htr, app_assoc| |done]. by rewrite play_app, Hp.
Qed.

Lemma runs_live ev st st' (Q : res unit -> Live -> Prop) :
  step st ev = Some st' -> Q (Ok tt) st' -> runs (live ev) st Q.
Proof. intros Hstep HQ s. exists [ev], st'. simpl. by rewrite Hstep. Qed.

(** A startup call: from a process that has not failed. *)
Lemma runs_call `{BootEnv} c st (Q : res unit -> Live -> Prop) :
  closing c = false -> lv_failed st = false ->
  Q (Ok tt) (match c with CEnsureStream n _ => upd_streams (n :: lv_streams st) st | _ => st end) ->
  (forall e, Q (Err e) (if benign c e then st else upd_failed true st)) ->
  runs (call c) st Q.
Proof.
  intros Hc Hf Hok Herr s. unfold call. destruct (be_answer (bt_tick s) c) as [e|]; simpl.
  - exists [LCall c (Some e)]. eexists. split_and!; [done| |apply (Herr e)]. simpl.
    unfold fatal. rewrite Hc, Hf. simpl. by destruct (benign c e).
  - exists [LCall c None]. eexists. split_and!; [done| |apply Hok]. simpl. rewrite Hf, orb_true_r. by destruct c.
Qed.

(** A closing call changes nothing, whatever its answer. *)
Lemma runs_closing `{BootEnv} c st (Q : res unit -> Live -> Prop) :
  closing c = true -> (forall r, Q r st) -> runs (call c) st Q.
Proof.
  intros Hc HQ s. unfold call. destruct (be_answer (bt_tick s) c) as [e|]; simpl;
    eexists [_], st; (split_and!; [done| |apply HQ]); simpl; unfold fatal; rewrite ?Hc; simpl; by destruct c.
Qed.
