(* ===== verification/Bootstrap.v ===== *)
(** * Composition roots: [internal/bootstrap] and the connections it opens

    [internal/bootstrap/bootstrap.go] and the four packages below it, with the
    connecting half of [internal/infrastructure/{db,cache,broker}].  Each [Run] is
    the source's sequence of steps with its early returns and defers, in the monad
    of Lifecycle; the components it builds are those of the service models, set up
    from the configuration of Config. *)

From Stdlib Require Import Ascii.
From S2P Require Import Prelude GoErrors Effects Events Uuid Libs Broker Outbox Consumers Saga GitHub Subscription.
From S2P Require Import SubscriptionUse SubscriptionApi Mailer Notifier Scanner Config Lifecycle.

Open Scope string_scope.
Open Scope list_scope.
Open Scope Z_scope.

Section Connections.
Context {BE : BootEnv}.

(** ** [infrastructure/cache] and [ConnectRedis] *)

Definition redisCache_Close : B unit :=
  defer (live (LClose RRedis)) (bwrap "close redis client" (call CRedisClose)).

Definition NewRedisCache (redisURL : string) : B unit :=
  _ ← bwrap "parse redis URL" (call (CRedisParseURL redisURL));
  _ ← live (LOpen RRedis);
  r ← battempt (bwrap "ping redis" (call CRedisPing));
  match r with
  | Ok _ => mret tt
  | Err e =>
      closed ← battempt (defer (live (LClose RRedis)) (call CRedisClose));
      bfail (errors_Join e (match closed with Err e' => Some e' | Ok _ => None end))
  end.

(** The closer that [ConnectRedis] returns logs a failure. *)
Definition closeRedis : B unit := blogged redisCache_Close.

Definition ConnectRedis (url : string) : B unit := bwrap "connect to redis" (NewRedisCache url).

(** ** [infrastructure/broker] and [ConnectBroker] *)

Definition Connect (url : string) : B unit :=
  _ ← bwrap "connect nats" (call (CNatsConnect url));
  _ ← live (LOpen RBroker);
  r ← battempt (bwrap "create jetstream context" (call CJetStream));
  match r with
  | Ok _ => mret tt
  | Err e => _ ← live (LClose RBroker); bfail e
  end.

Definition EnsureStream (name : string) (subjects : list string) : B unit :=
  bwrap ("ensure stream " +:+ fmt_q name) (call (CEnsureStream name subjects)).

(** [Drain] closes the connection once the messages in flight are handled. *)
Definition Conn_Close : B unit := defer (live (LClose RBroker)) (bwrap "drain nats" (call CDrain)).

Definition Consume {D} (spec : ConsumerSpec D) : B unit :=
  _ ← bwrap ("create consumer " +:+ fmt_q (cs_Durable spec))
        (call (CCreateConsumer (cs_Stream spec) (cs_Durable spec) (cs_Subject spec)));
  _ ← bwrap ("start consume " +:+ fmt_q (cs_Durable spec)) (call (CStartConsume (cs_Durable spec)));
  live (LOpen (RConsumer (cs_Durable spec))).

Definition closeBroker : B unit := blogged Conn_Close.

Definition ConnectBroker (url stream : string) (subjects : list string) : B unit :=
  _ ← bwrap "connect broker" (Connect url);
  r ← battempt (bwrap "ensure stream" (EnsureStream stream subjects));
  match r with
  | Ok _ => mret tt
  | Err e => _ ← closeBroker; bfail e
  end.

Fixpoint ensure_streams (streams : list (string * list string)) : B unit :=
  match streams with
  | [] => mret tt
  | (name, subjects) :: streams =>
      _ ← bwrap ("ensure stream " +:+ fmt_q name) (EnsureStream name subjects);
      ensure_streams streams
  end.

Definition EnsureEventStreams : B unit := ensure_streams event_streams.

(** [stops] are the durable names of the consumers started, latest first. *)
Fixpoint stopAll (stops : list string) : B unit :=
  match stops with
  | [] => mret tt
  | d :: stops => _ ← live (LClose (RConsumer d)); stopAll stops
  end.

Fixpoint start_loop {D} (specs : list (ConsumerSpec D)) (stops : list string) : B (list string) :=
  match specs with
  | [] => mret stops
  | s :: specs =>
      r ← battempt (Consume s);
      match r with
      | Ok _ => start_loop specs (cs_Durable s :: stops)
      | Err e => _ ← stopAll stops; bfail (Errorf ("consume " +:+ fmt_q (cs_Durable s)) e)
      end
  end.

(** Returns what the stop function stops, in the order it stops them. *)
Definition StartConsumers {D} (specs : list (ConsumerSpec D)) : B (list string) := start_loop specs [].

(** ** [infrastructure/db] *)

Definition pool_Close : B unit := live (LClose RPool).

Definition NewPool (databaseURL : string) : B unit :=
  _ ← bwrap "parse pool config" (call (CPoolParse databaseURL));
  _ ← bwrap "create pool" (call CPoolNew);
  _ ← live (LOpen RPool);
  r ← battempt (bwrap "ping db" (call CPoolPing));
  match r with
  | Ok _ => mret tt
  | Err e => _ ← pool_Close; bfail e
  end.

(** [RunMigrationsFS] of the embedded file system [fs]; [table] is the option
    [WithMigrationsTable], "" without it. *)
Definition RunMigrationsFS (fs table : string) : B unit :=
  _ ← bwrap "create migration source" (call (CMigrationSource fs));
  _ ← bwrap "create migrator" (call (CMigrator fs table));
  _ ← live (LOpen (RMigrator fs));
  defer (_ ← blogged (call (CMigratorClose fs)); live (LClose (RMigrator fs))) (
  r ← battempt (call (CMigrateUp fs));
  match r with
  | Ok _ => mret tt
  | Err e => if errors_Is e migrate_ErrNoChange then mret tt else bfail (Errorf "run migrations" e)
  end).

(** The two runs of a service with an outbox. *)
Definition outboxMigrations : B unit :=
  bwrap "run outbox migrations" (RunMigrationsFS "outbox" "outbox_schema_migrations").

(** ** HTTP servers *)

(** What a request is answered by. *)
Inductive Endpoint :=
| Transcoder                  (* the public API behind [vanguard] *)
| CompensationService
| GrpcHealth | GrpcReflection
| HealthOK                    (* 200 and a JSON status *)
| Metrics                     (* [promhttp.Handler] *)
| NotFound.

(** The paths that generated code and the gRPC helper packages give their
    handlers: subtrees, ending in a slash. *)
Class RpcPaths := {
  healthPath : string;
  reflectV1Path : string;
  reflectV1AlphaPath : string;
  compensationPath : string;
}.

(** [http.ServeMux]: a pattern that ends in a slash matches the paths below it,
    any other only itself; the longest matching pattern wins.  (Its redirects to
    clean paths are left out.) *)
Definition Mux : Type := list (string * Endpoint).

Fixpoint ends_in_slash (s : string) : bool :=
  match s with
  | "" => false
  | String c "" => Ascii.eqb c "/"%char
  | String _ s => ends_in_slash s
  end.

Definition pattern_matches (pattern path : string) : bool :=
  if ends_in_slash pattern then String.prefix pattern path else String.eqb pattern path.

Fixpoint mux_find (m : Mux) (path : string) : option (string * Endpoint) :=
  match m with
  | [] => None
  | (pattern, ep) :: m =>
      let rest := mux_find m path in
      if pattern_matches pattern path then
        match rest with
        | Some (p, _) => if (String.length pattern <? String.length p)%nat then rest else Some (pattern, ep)
        | None => Some (pattern, ep)
        end
      else rest
  end.
Definition mux_route (m : Mux) (path : string) : Endpoint :=
  match mux_find m path with Some (_, ep) => ep | None => NotFound end.

Record HttpServer := {
  srv_Addr : string;
  srv_Handler : Mux;
  srv_Edge : bool;                 (* wrapped in [logging.EdgeMiddleware] *)
  srv_ReadHeaderTimeout : Z;
  srv_UnencryptedHTTP2 : bool;     (* with HTTP/1: the default protocols are HTTP/1 only *)
}.

Definition ShutdownTimeout : Z := 5 * second.

Definition MetricsHandler : Mux := [("/metrics", Metrics); ("/health", HealthOK)].

(** The server of the three services without an API. *)
Definition metricsSrv (port : string) : HttpServer :=
  {| srv_Addr := ":" +:+ port; srv_Handler := MetricsHandler; srv_Edge := false;
     srv_ReadHeaderTimeout := ShutdownTimeout; srv_UnencryptedHTTP2 := false |}.

(** ** Serving *)

(** What the select of [serve] sees first: [ListenAndServe] errors other than
    [ErrServerClosed] are sent to the channel. *)
Fixpoint await_servers (returned : list (Server * error)) : B unit :=
  match returned with
  | [] => mret tt
  | (s, e) :: returned =>
      _ ← live (LCall (CListenAndServe s) (Some e));
      if errors_Is e http_ErrServerClosed then await_servers returned else bfail (Errorf "server error" e)
  end.

Fixpoint listen_all (servers : list (Server * HttpServer)) : B unit :=
  match servers with
  | [] => mret tt
  | (s, srv) :: servers => _ ← live (LListen s (srv_Addr srv)); listen_all servers
  end.

(** [serve]: the same in the four packages up to its servers and shutdown. *)
Definition serve (servers : list (Server * HttpServer)) (gracefulShutdown : B unit) : B unit :=
  _ ← listen_all servers;
  r ← battempt (fun s => await_servers (be_listens (bt_tick s)) s);
  _ ← gracefulShutdown;
  match r with Ok _ => mret tt | Err e => bfail e end.

Definition Server_Shutdown (s : Server) : B unit :=
  _ ← blogged (call (CServerShutdown s)); live (LShutdown s).

(** [cancel(); <-done] *)
Definition cancel_and_wait (ts : list Task) : B unit := _ ← live (LCancel ts); live (LJoin ts).

(** ** [Main] and [launch] *)

Definition launch {C} (load : res C) (run : C -> B unit) : B unit :=
  _ ← blogged (call CDotenv);
  cfg ← bwrap "load config"
          (match load with
           | Ok cfg => mret cfg
           | Err e => _ ← live (LCall CLoadConfig (Some e)); bfail e
           end);
  run cfg.

(** The exit status of the process. *)
Definition Main {C} (load : res C) (run : C -> B unit) (s : Boot) : Z * Boot :=
  match launch load run s with
  | (Ok _, s') => (0, s')
  | (Err _, s') => (1, s')
  end.
End Connections.

Definition relayBatchSize : Z := 100.

(** ** [bootstrap/notifier] *)

Module NotifierBoot.
Section Notifier.
Context {BE : BootEnv} {E : Env} {V : Validators} {P : PgxLib} {ML : MailLib}.
Implicit Types cfg : NotifierConfig.

Record components := {
  eventConsumer : list (ConsumerSpec NotDB);
  maintenance : list TickerSignal -> Ctx -> M NotDB unit;
  relay : list RelaySignal -> Ctx -> World NotDB -> option (World NotDB);
}.

Definition retryConfig cfg : RetryConfig :=
  {| rt_MaxRetries := nc_MaxRetries cfg; rt_ConfirmationTTL := nc_ConfirmationTTL cfg |}.

Definition buildComponents cfg : components :=
  let RS : ReleaseSender NotDB := Mailer_ReleaseSender (smtp_FromEmail (nc_SMTP cfg)) in
  let CS : ConfirmationSender NotDB := Mailer_ConfirmationSender (smtp_FromEmail (nc_SMTP cfg)) in
  {| eventConsumer := notifier_startConsumers (nc_BaseURL cfg);
     maintenance := runMaintenance (nc_BaseURL cfg) (retryConfig cfg) (nc_ProcessedTTL cfg);
     relay := Outbox.Run relayBatchSize |}.

Definition NewMailer : B unit := _ ← bwrap "create mail client" (call CMailClient); live (LOpen RMailer).
Definition shutdownMailer : B unit := live (LClose RMailer).

Definition startMaintenance : B unit := live (LSpawn TMaintenance).

Definition gracefulShutdown : B unit := _ ← cancel_and_wait [TMaintenance]; Server_Shutdown SMetrics.

Definition serve cfg : B unit := serve [(SMetrics, metricsSrv (nc_Port cfg))] gracefulShutdown.

Definition Run cfg : B unit :=
  _ ← bwrap "create mailer" NewMailer;
  defer shutdownMailer (
  _ ← bwrap "run migrations" (RunMigrationsFS "notifier" "");
  _ ← outboxMigrations;
  _ ← bwrap "connect to database" (NewPool (nc_DatabaseURL cfg));
  defer pool_Close (
  _ ← ConnectBroker (nc_NATSURL cfg) StreamNotifications SubjectsNotifications;
  defer closeBroker (
  _ ← EnsureEventStreams;
  stops ← bwrap "start consumers" (StartConsumers (eventConsumer (buildComponents cfg)));
  defer (stopAll stops) (
  _ ← live (LDetach TRelay);
  _ ← startMaintenance;
  serve cfg)))).
End Notifier.
End NotifierBoot.

(** ** [bootstrap/saga] *)

Module SagaBoot.
Section Saga.
Context {BE : BootEnv} {E : Env} {V : Validators} {U : UUIDLib}.
Implicit Types cfg : SagaConfig.

Definition closeCompensator cfg : B unit :=
  if String.eqb (gc_CompensateTransport cfg) Compensators.transportGRPC
  then live (LClose RCompensator) else mret tt.

(** [compensationclient.Dial] only builds an HTTP client: it does not fail. *)
Definition newCoordinator cfg : B Compensator :=
  _ ← (if String.eqb (gc_CompensateTransport cfg) Compensators.transportGRPC
       then live (LOpen RCompensator) else mret tt);
  mret (Compensators.newCoordinator (gc_CompensateTransport cfg)).

Definition gracefulShutdown : B unit := Server_Shutdown SMetrics.

Definition serve cfg : B unit := serve [(SMetrics, metricsSrv (gc_Port cfg))] gracefulShutdown.

Definition Run cfg : B unit :=
  _ ← bwrap "run migrations" (RunMigrationsFS "saga" "");
  _ ← outboxMigrations;
  _ ← bwrap "connect to database" (NewPool (gc_DatabaseURL cfg));
  defer pool_Close (
  _ ← ConnectBroker (gc_NATSURL cfg) StreamSagas SubjectsSagas;
  defer closeBroker (
  _ ← EnsureEventStreams;
  coord ← newCoordinator cfg;
  defer (closeCompensator cfg) (
  stops ← bwrap "start consumers" (StartConsumers (@SagaConsumer.startConsumers E V U coord));
  defer (stopAll stops) (
  _ ← live (LDetach TRelay);
  serve cfg)))).
End Saga.
End SagaBoot.

(** ** [bootstrap/scanner] *)

Module ScannerBoot.
Section Scanner.
Context {BE : BootEnv} {E : Env} {V : Validators} {U : UUIDLib} {P : PgxLib} {BP : BusPublisher ScanDB}.
Implicit Types cfg : ScannerConfig.

Record components := {
  watch : Ctx -> M ScanDB Counts;
  eventConsumer : list (ConsumerSpec ScanDB);
}.

Definition buildComponents (scanner : ReleaseScanner ScanDB) : components :=
  {| watch := watch_Run; eventConsumer := scanner_startConsumers |}.

Definition startScheduler : B unit := live (LSpawn TScheduler).

Definition gracefulShutdown : B unit := _ ← cancel_and_wait [TScheduler]; Server_Shutdown SMetrics.

Definition serve cfg : B unit := serve [(SMetrics, metricsSrv (cc_Port cfg))] gracefulShutdown.

(** [scanner] is [scanneruc.New(gh, cfg.WorkerCount)]. *)
Definition Run (scanner : ReleaseScanner ScanDB) cfg : B unit :=
  _ ← ConnectRedis (cc_RedisURL cfg);
  defer closeRedis (
  _ ← bwrap "run migrations" (RunMigrationsFS "scanner" "");
  _ ← bwrap "connect to database" (NewPool (cc_DatabaseURL cfg));
  defer pool_Close (
  _ ← ConnectBroker (cc_NATSURL cfg) StreamReleases SubjectsReleases;
  defer closeBroker (
  _ ← EnsureEventStreams;
  stops ← bwrap "start consumers" (StartConsumers (eventConsumer (buildComponents scanner)));
  defer (stopAll stops) (
  _ ← startScheduler;
  serve cfg)))).
End Scanner.
End ScannerBoot.

(** ** [bootstrap/subscription] *)

Module SubscriptionBoot.
Section Subscription.
Context {BE : BootEnv} {E : Env} {V : Validators} {U : UUIDLib} {P : PgxLib} {J : JwtLib} {PV : ProtoValidator Request}
  {PC : ProtoValidator CompensateRequest} {RP : RpcPaths}.
Implicit Types cfg : SubscriptionConfig.

Definition cacheTTL : Z := 10 * 60 * second.

(** What [buildApp] hands to [Run]: the API behind its interceptors, the
    clean-up loop, the consumers, the compensation server, and the relay of the
    infrastructure. *)
Record app := {
  api : string -> UnaryFunc;
  cleanup : list TickerSignal -> Ctx -> M SubDB unit;
  consumer : list (ConsumerSpec SubDB);
  compensation : Ctx -> CompensateRequest -> M SubDB (ConnectError + bool);
  relay : list RelaySignal -> Ctx -> World SubDB -> option (World SubDB);
}.

Definition buildApp cfg : app :=
  let gh : RepoChecker SubDB := Client_RepoChecker (WithCache NewClient cacheTTL) in
  let tokens := {| tk_secret := bc_JWTSecret cfg; tk_ttl := bc_ConfirmTokenTTL cfg |} in
  {| api := NewConnectHandler tokens (bc_BaseURL cfg) (bc_APIKey cfg);
     cleanup := runCleanup (bc_ConfirmTokenTTL cfg);
     consumer := subscription_startConsumers;
     compensation := Server_handle;
     relay := Outbox.Run relayBatchSize |}.

(** [closers], latest first, run when the set-up fails or when [Run] returns. *)
Fixpoint cleanupClosers (closers : list (B unit)) : B unit :=
  match closers with
  | [] => mret tt
  | c :: closers => _ ← c; cleanupClosers closers
  end.

(** One step of the set-up: on an error the deferred function runs the closers. *)
Definition or_cleanup {A} (closers : list (B unit)) (c : B A) : B A :=
  r ← battempt c;
  match r with
  | Ok a => mret a
  | Err e => _ ← cleanupClosers closers; bfail e
  end.

Definition newInfrastructure cfg : B (list (B unit)) :=
  _ ← or_cleanup [] (bwrap "run migrations" (RunMigrationsFS "subscription" ""));
  _ ← or_cleanup [] outboxMigrations;
  _ ← or_cleanup [] (bwrap "connect to database" (NewPool (bc_DatabaseURL cfg)));
  let closers := [pool_Close] in
  _ ← or_cleanup closers (ConnectRedis (bc_RedisURL cfg));
  let closers := closeRedis :: closers in
  _ ← or_cleanup closers (ConnectBroker (bc_NATSURL cfg) StreamSubscriptions SubjectsSubscriptions);
  let closers := closeBroker :: closers in
  _ ← or_cleanup closers EnsureEventStreams;
  mret closers.

(** [NewHandler]: its mux, wrapped in [EdgeMiddleware]. *)
Definition NewHandler : B Mux :=
  _ ← bwrap "create validator" (call CValidator);
  _ ← bwrap "create transcoder" (call CTranscoder);
  mret [("/", Transcoder); (healthPath, GrpcHealth); (reflectV1Path, GrpcReflection);
        (reflectV1AlphaPath, GrpcReflection); ("/health", HealthOK); ("/metrics", Metrics)].

Definition newPublicServer cfg : B HttpServer :=
  handler ← NewHandler;
  mret {| srv_Addr := ":" +:+ bc_Port cfg; srv_Handler := handler; srv_Edge := true;
          srv_ReadHeaderTimeout := ShutdownTimeout; srv_UnencryptedHTTP2 := true |}.

Definition newInternalGRPCServer cfg : B HttpServer :=
  _ ← bwrap "create validator" (call CValidator);
  mret {| srv_Addr := ":" +:+ bc_GRPCPort cfg;
          srv_Handler := [(compensationPath, CompensationService); (healthPath, GrpcHealth);
                          (reflectV1Path, GrpcReflection); (reflectV1AlphaPath, GrpcReflection)];
          srv_Edge := true; srv_ReadHeaderTimeout := ShutdownTimeout; srv_UnencryptedHTTP2 := true |}.

Definition startBackground : B unit := _ ← live (LSpawn TRelay); live (LSpawn TCleanup).

Definition gracefulShutdown : B unit :=
  _ ← cancel_and_wait [TRelay; TCleanup];
  _ ← Server_Shutdown SPublic;
  Server_Shutdown SInternal.

Definition serve (publicSrv internalSrv : HttpServer) : B unit :=
  serve [(SPublic, publicSrv); (SInternal, internalSrv)] gracefulShutdown.

Definition Run cfg : B unit :=
  closers ← newInfrastructure cfg;
  defer (cleanupClosers closers) (
  stops ← bwrap "start consumers" (StartConsumers (consumer (buildApp cfg)));
  defer (stopAll stops) (
  publicSrv ← newPublicServer cfg;
  internalSrv ← newInternalGRPCServer cfg;
  _ ← startBackground;
  serve publicSrv internalSrv)).
End Subscription.
End SubscriptionBoot.

(** ** [src/cmd] *)

(** The processes, in the environment as it is when [.env] has been read. *)
Module Commands.
Section Commands.
Context {BE : BootEnv} {E : Env} {V : Validators} {U : UUIDLib} {P : PgxLib} {J : JwtLib} {ML : MailLib}
  {BP : BusPublisher ScanDB} {PV : ProtoValidator Request} {PC : ProtoValidator CompensateRequest} {RP : RpcPaths}
  `{EnvconfigLib}.
Implicit Types environ : Environ.

Definition notifier environ : Z * Boot := Main (LoadNotifier environ) NotifierBoot.Run boot0.
Definition saga_orchestrator environ : Z * Boot := Main (LoadSaga environ) SagaBoot.Run boot0.
Definition scanner (sc : ReleaseScanner ScanDB) environ : Z * Boot := Main (LoadScanner environ) (ScannerBoot.Run sc) boot0.
Definition subscription environ : Z * Boot := Main (LoadSubscription environ) SubscriptionBoot.Run boot0.
End Commands.
End Commands.
