(* ===== verification/BootstrapFacts.v ===== *)
(** * The services start and stop cleanly

    [acquires] says that a step of a composition root, run on an idle process,
    either succeeds and has opened some resources on top, or fails and leaves
    everything as it was; the four [Run] functions are built from such steps by
    sequencing and [defer].  The main theorem is [services_start_and_stop]. *)

From S2P Require Import Prelude GoErrors Effects Wp Events Uuid Libs Broker Outbox Consumers Saga GitHub Subscription.
From S2P Require Import SubscriptionUse SubscriptionApi Mailer Notifier Scanner Config Lifecycle Bootstrap Quiet Concrete.

Open Scope string_scope.
Open Scope list_scope.

(** No task and no server is running. *)
Definition idle (failed : bool) (ss : list string) (os : list Resource) : Live :=
  {| lv_open := os; lv_streams := ss; lv_tasks := []; lv_cancelled := []; lv_servers := []; lv_failed := failed |}.

Definition acquires {A} (ss : list string) (os : list Resource) (rs : A -> list Resource) (c : B A) : Prop :=
  runs c (idle false ss os) (fun r st' => exists ss', ss ⊆ ss' /\
    st' = match r with Ok a => idle false ss' (rs a ++ os) | Err _ => idle true ss' os end).

(** A step that opens nothing, or closes all it opened. *)
Notation tidy ss os c := (acquires ss os (fun _ => []) c).

Definition releases (rs : list Resource) (c : B unit) : Prop :=
  forall b ss os, runs c (idle b ss (rs ++ os)) (fun r st' => r = Ok tt /\ st' = idle b ss os).

Section Rules.
Context {BE : BootEnv}.
Implicit Types (ss : list string) (os : list Resource).

Lemma acquires_wrap {A} ss os rs pre (c : B A) : acquires ss os rs c -> acquires ss os rs (bwrap pre c).
Proof. intros Hc. apply runs_wrap. eapply runs_mono; [apply Hc|]. by intros [a|e]. Qed.

Lemma acquires_ret {A} ss os (a : A) : tidy ss os (mret a).
Proof. apply runs_ret. by exists ss. Qed.

Lemma tidy_bind {A A'} ss os rs (c : B A) (f : A -> B A') :
  tidy ss os c -> (forall a ss', ss ⊆ ss' -> acquires ss' os rs (f a)) -> acquires ss os rs (c ≫= f).
Proof.
  intros Hc Hf. apply runs_bind. eapply runs_mono; [apply Hc|]. intros [a|e] st' (ss' & Hss & ->); [|by exists ss'].
  eapply runs_mono; [by apply Hf|]. intros r st' (ss'' & Hss' & ->). exists ss''. split; [by etrans|done].
Qed.

(** Open, defer the closing, go on. *)
Lemma acquires_defer {A A'} ss os rs (c : B A) (cl : A -> B unit) (f : A -> B A') :
  acquires ss os rs c -> (forall a, releases (rs a) (cl a)) ->
  (forall a ss', ss ⊆ ss' -> tidy ss' (rs a ++ os) (f a)) ->
  tidy ss os (c ≫= fun a => defer (cl a) (f a)).
Proof.
  intros Hc Hcl Hf. apply runs_bind. eapply runs_mono; [apply Hc|]. intros [a|e] st' (ss' & Hss & ->); [|by exists ss'].
  apply runs_defer. eapply runs_mono; [by apply Hf|]. intros r st' (ss'' & Hss' & ->).
  assert ((match r with Ok _ => idle false ss'' ([] ++ rs a ++ os) | Err _ => idle true ss'' (rs a ++ os) end)
    = idle (negb (is_ok r)) ss'' (rs a ++ os)) as -> by by destruct r.
  eapply runs_mono; [apply Hcl|]. intros _ st' [_ ->]. exists ss''. split; [by etrans|]. by destruct r.
Qed.

(** A call that opens nothing. *)
Lemma tidy_call ss os c :
  closing c = false -> (forall e, benign c e = false) -> tidy ss os (call c).
Proof.
  intros Hc Hb. apply runs_call; [done|done| |].
  - destruct c; try (by exists ss). eexists. split; [|done]. set_solver.
  - intros e. rewrite Hb. by exists ss.
Qed.

Lemma releases_live r : releases [r] (live (LClose r)).
Proof. intros b ss os. eapply runs_live; [|done]. simpl. by rewrite bool_decide_eq_true_2. Qed.

Lemma releases_none : releases [] (mret tt).
Proof. intros b ss os. by apply runs_ret. Qed.

Lemma releases_logged {A} rs (c : B A) :
  (forall b ss os, runs c (idle b ss (rs ++ os)) (fun _ st' => st' = idle b ss os)) -> releases rs (blogged c).
Proof.
  intros Hc b ss os. apply runs_bind, runs_attempt. eapply runs_mono; [apply Hc|]. intros r st' ->. by apply runs_ret.
Qed.

(** A closing call followed by the closing itself. *)
Lemma runs_close_call {A} (k : B A) b ss os r :
  (forall st (Q : res A -> Live -> Prop), (forall res, Q res st) -> runs k st Q) ->
  runs (defer (live (LClose r)) k) (idle b ss (r :: os)) (fun _ st' => st' = idle b ss os).
Proof.
  intros Hk. apply runs_defer, Hk. intros res. eapply runs_mono; [apply (releases_live r)|]. by intros _ st' [_ ->].
Qed.

Lemma runs_closing_wrap pre c st (Q : res unit -> Live -> Prop) :
  closing c = true -> (forall r, Q r st) -> runs (bwrap pre (call c)) st Q.
Proof. intros Hc HQ. apply runs_wrap, runs_closing; [done|]. intros r. apply HQ. Qed.
End Rules.

Create HintDb boot.
#[export] Hint Resolve acquires_wrap acquires_ret releases_live releases_none : boot.
#[export] Hint Extern 1 (acquires _ _ _ (call _)) => apply tidy_call; [reflexivity|done] : boot.

(** ** Connections *)

Section Connections.
Context {BE : BootEnv}.
Implicit Types (ss : list string) (os : list Resource).

(** Undo after a failure: close and report. *)
Lemma runs_undo {A} (cl : B unit) rs e ss os (Q : res A -> Live -> Prop) :
  releases rs cl -> (Q (Err e) (idle true ss os)) ->
  runs (cl ≫= fun _ => bfail e) (idle true ss (rs ++ os)) Q.
Proof.
  intros Hcl HQ. apply runs_bind. eapply runs_mono; [apply Hcl|]. intros r st' [-> ->]. by apply runs_fail.
Qed.

(** Open a connection, try it, and close it again when the trial fails. *)
Lemma acquires_tried ss os r (trial : B unit) (undo : error -> B unit) :
  may_open r (idle false ss os) = true ->
  tidy ss (r :: os) trial ->
  (forall e ss', runs (undo e) (idle true ss' (r :: os)) (fun res st' => is_ok res = false /\ st' = idle true ss' os)) ->
  acquires ss os (fun _ => [r])
    (_ ← live (LOpen r); x ← battempt trial; match x with Ok _ => mret tt | Err e => undo e end).
Proof.
  intros Hopen Htrial Hundo. apply runs_bind. eapply runs_live; [simpl; by rewrite Hopen|].
  apply runs_bind, runs_attempt. eapply runs_mono; [apply Htrial|].
  intros [[]|e] st' (ss' & Hss & ->); [apply runs_ret; by exists ss'|].
  eapply runs_mono; [apply Hundo|]. intros [[]|e'] st' [Hres ->]; [done|]. by exists ss'.
Qed.

Lemma closeRedis_releases : releases [RRedis] closeRedis.
Proof.
  apply releases_logged. intros b ss os. apply (runs_close_call _ b ss os RRedis). intros. by apply runs_closing_wrap.
Qed.

Lemma ConnectRedis_acquires ss os url : acquires ss os (fun _ => [RRedis]) (ConnectRedis url).
Proof.
  apply acquires_wrap, tidy_bind; [auto with boot|]. intros [] ss' _.
  apply acquires_tried; [done|auto with boot|]. intros e ss''. apply runs_bind, runs_attempt.
  eapply runs_mono; [apply (runs_close_call (call CRedisClose)); intros; by apply runs_closing|].
  intros res st' ->. by apply runs_fail.
Qed.

Lemma Connect_acquires ss os url : acquires ss os (fun _ => [RBroker]) (Connect url).
Proof.
  apply tidy_bind; [auto with boot|]. intros [] ss' _.
  apply acquires_tried; [done|auto with boot|]. intros e ss''. by apply (runs_undo _ [RBroker]); [apply releases_live|].
Qed.

Lemma closeBroker_releases : releases [RBroker] closeBroker.
Proof.
  apply releases_logged. intros b ss os. apply (runs_close_call _ b ss os RBroker). intros. by apply runs_closing_wrap.
Qed.

Lemma EnsureStream_tidy ss os name subjects :
  runs (EnsureStream name subjects) (idle false ss os) (fun r st' =>
    st' = match r with Ok _ => idle false (name :: ss) os | Err _ => idle true ss os end).
Proof. apply runs_wrap, runs_call; done. Qed.

Lemma ConnectBroker_acquires ss os url stream subjects :
  acquires ss os (fun _ => [RBroker]) (ConnectBroker url stream subjects).
Proof.
  apply runs_bind. eapply runs_mono; [apply acquires_wrap, Connect_acquires|].
  intros [[]|e] st' (ss' & Hss & ->); [|by exists ss'].
  apply runs_bind, runs_attempt, runs_wrap. eapply runs_mono; [apply EnsureStream_tidy|].
  intros [[]|e] st' ->; simpl.
  - apply runs_ret. eexists. split; [|done]. set_solver.
  - apply (runs_undo _ [RBroker]); [apply closeBroker_releases|]. by exists ss'.
Qed.

Lemma ensure_streams_runs streams ss os :
  runs (ensure_streams streams) (idle false ss os) (fun r st' => exists ss', ss ⊆ ss' /\
    match r with
    | Ok _ => map fst streams ⊆ ss' /\ st' = idle false ss' os
    | Err _ => st' = idle true ss' os
    end).
Proof.
  revert ss. induction streams as [|[name subjects] streams IH]; intros ss; simpl.
  { apply runs_ret. exists ss. split; [done|]. split; [set_solver|done]. }
  apply runs_bind, runs_wrap. eapply runs_mono; [apply EnsureStream_tidy|].
  intros [[]|e] st' ->; simpl; [|by exists ss].
  eapply runs_mono; [apply IH|]. intros [[]|e] st' (ss' & Hss & Hq).
  - destruct Hq as [Hin ->]. exists ss'. split; [set_solver|]. split; [set_solver|done].
  - exists ss'. split; [set_solver|done].
Qed.

(** After [EnsureEventStreams] consumers may be started. *)
Lemma EnsureEventStreams_bind {A} ss os (f : B A) :
  (forall ss', ss ⊆ ss' -> map fst event_streams ⊆ ss' -> tidy ss' os f) ->
  tidy ss os (_ ← EnsureEventStreams; f).
Proof.
  intros Hf. apply runs_bind. eapply runs_mono; [apply ensure_streams_runs|].
  intros [[]|e] st' (ss' & Hss & Hq); [|by exists ss'; subst].
  destruct Hq as [Hin ->]. eapply runs_mono; [by apply Hf|]. intros r st' (ss'' & Hss' & ->).
  exists ss''. split; [by etrans|done].
Qed.

(** Consumers need the database, the broker and every event stream. *)
Definition consumable (ss : list string) (os : list Resource) : Prop :=
  RPool ∈ os /\ RBroker ∈ os /\ map fst event_streams ⊆ ss.

Lemma consumable_app ss ss' os rs : consumable ss os -> ss ⊆ ss' -> consumable ss' (rs ++ os).
Proof. intros (Hp & Hb & Hs) Hss. split_and!; [set_solver..|by etrans]. Qed.

Lemma may_open_consumer d ss os : consumable ss os -> may_open (RConsumer d) (idle false ss os) = true.
Proof. intros (Hp & Hb & Hs). simpl. by rewrite !bool_decide_eq_true_2. Qed.

Lemma Consume_acquires {D} ss os (spec : ConsumerSpec D) :
  consumable ss os -> acquires ss os (fun _ => [RConsumer (cs_Durable spec)]) (Consume spec).
Proof.
  intros Hc. do 2 (apply tidy_bind; [auto with boot|]; intros [] ? ?).
  eapply runs_live; [cbn [step]; rewrite may_open_consumer; [reflexivity|]|by eexists].
  apply (consumable_app ss _ os []); [done|by etrans].
Qed.

Lemma stopAll_releases stops : releases (map RConsumer stops) (stopAll stops).
Proof.
  induction stops as [|d stops IH]; intros b ss os; simpl; [by apply runs_ret|].
  apply runs_bind. eapply runs_live; [simpl; by rewrite bool_decide_eq_true_2|]. apply IH.
Qed.

(** All consumers are started, in order, or none is left running. *)
Lemma start_loop_runs {D} (specs : list (ConsumerSpec D)) stops ss os :
  consumable ss os ->
  runs (start_loop specs stops) (idle false ss (map RConsumer stops ++ os)) (fun r st' => exists ss', ss ⊆ ss' /\
    match r with
    | Ok stops' => stops' = rev (map cs_Durable specs) ++ stops /\ st' = idle false ss' (map RConsumer stops' ++ os)
    | Err _ => st' = idle true ss' os
    end).
Proof.
  revert stops ss. induction specs as [|s specs IH]; intros stops ss Hc; simpl.
  { apply runs_ret. by exists ss. }
  apply runs_bind, runs_attempt. eapply runs_mono; [by apply Consume_acquires, (consumable_app ss ss os)|].
  intros [[]|e] st' (ss' & Hss & ->).
  - eapply runs_mono; [apply (IH (cs_Durable s :: stops)); by apply (consumable_app ss ss' os [])|].
    intros r st' (ss'' & Hss' & Hr). exists ss''. split; [by etrans|]. destruct r as [stops'|]; [|done].
    by rewrite <- app_assoc.
  - apply (runs_undo _ (map RConsumer stops)); [apply stopAll_releases|]. by exists ss'.
Qed.

Definition opens (evs : list Life) : list Resource :=
  omap (fun ev => match ev with LOpen r => Some r | _ => None end) evs.
Definition closes (evs : list Life) : list Resource :=
  omap (fun ev => match ev with LClose r => Some r | _ => None end) evs.

Lemma stopAll_closes stops s :
  exists tr, stopAll stops s = (Ok tt, {| bt_tick := bt_tick s; bt_life := bt_life s ++ tr |}) /\
    opens tr = [] /\ closes tr = map RConsumer stops.
Proof.
  revert s. induction stops as [|d stops IH]; intros [n l].
  { exists []. by rewrite app_nil_r. }
  destruct (IH {| bt_tick := n; bt_life := l ++ [LClose (RConsumer d)] |}) as (tr & Hs & Ho & Hc).
  exists (LClose (RConsumer d) :: tr). simpl. unfold mbind, B_bind, live. simpl. rewrite Hs. simpl.
  by rewrite <- app_assoc, Ho, Hc.
Qed.

(** [StartConsumers] starts every consumer, in order, and returns a stop function
    that stops them in reverse; or it stops those it started in reverse and fails. *)
Theorem start_consumers_all_or_nothing {D} (specs : list (ConsumerSpec D)) s :
  let '(r, s') := StartConsumers specs s in
  exists tr, bt_life s' = bt_life s ++ tr /\
  match r with
  | Ok stops => opens tr = map RConsumer (map cs_Durable specs) /\ closes tr = [] /\ stops = rev (map cs_Durable specs)
  | Err _ => closes tr = rev (opens tr) /\ opens tr `prefix_of` map RConsumer (map cs_Durable specs)
  end.
Proof.
  unfold StartConsumers. enough (forall stops, let '(r, s') := start_loop specs stops s in
    exists tr, bt_life s' = bt_life s ++ tr /\
    match r with
    | Ok stops' => opens tr = map RConsumer (map cs_Durable specs) /\ closes tr = [] /\
                   stops' = rev (map cs_Durable specs) ++ stops
    | Err _ => closes tr = rev (opens tr) ++ map RConsumer stops /\
               opens tr `prefix_of` map RConsumer (map cs_Durable specs)
    end) as H.
  { specialize (H []). destruct (start_loop specs [] s) as [[stops'|e] s'], H as (tr & Htr & H); exists tr;
      rewrite ?app_nil_r in H; naive_solver. }
  revert s. induction specs as [|spec specs IH]; intros s stops.
  { exists []. by rewrite app_nil_r. }
  assert (exists n evs, opens evs = [] /\ closes evs = [] /\
    (Consume spec s = (Ok tt, {| bt_tick := n; bt_life := bt_life s ++ evs ++ [LOpen (RConsumer (cs_Durable spec))] |}) \/
     exists e, Consume spec s = (Err e, {| bt_tick := n; bt_life := bt_life s ++ evs |})))
    as (n & evs & Ho & Hc & Hcons).
  { unfold Consume, call, live, bwrap, mbind, B_bind.
    destruct (be_answer (bt_tick s) _); simpl; [|destruct (be_answer (S (bt_tick s)) _); simpl].
    - eexists _, [LCall _ _]. split_and!; [done..|]. right. eexists. reflexivity.
    - eexists _, [LCall _ _; LCall _ _]. split_and!; [done..|]. right. eexists. by rewrite <- app_assoc.
    - eexists _, [LCall _ _; LCall _ _]. split_and!; [done..|]. left. rewrite <- !app_assoc. reflexivity. }
  cbn [start_loop]. unfold mbind at 1, B_bind at 1, battempt. destruct Hcons as [-> | [e ->]].
  - specialize (IH {| bt_tick := n; bt_life := bt_life s ++ evs ++ [LOpen (RConsumer (cs_Durable spec))] |}
      (cs_Durable spec :: stops)). destruct (start_loop specs _ _) as [r s'], IH as (tr & Htr & Hr).
    exists (evs ++ [LOpen (RConsumer (cs_Durable spec))] ++ tr). simpl in Htr.
    split; [rewrite Htr; by rewrite <- !app_assoc|].
    unfold opens, closes in *. rewrite !omap_app, Ho, Hc. simpl. destruct r as [stops'|e].
    + destruct Hr as (-> & -> & ->). simpl. by rewrite <- app_assoc.
    + destruct Hr as [-> Hp]. split; [by rewrite <- app_assoc|by apply prefix_cons].
  - destruct (stopAll_closes stops {| bt_tick := n; bt_life := bt_life s ++ evs |}) as (tr & Hs & Ho' & Hc').
    unfold mbind, B_bind. rewrite Hs. simpl. exists (evs ++ tr). rewrite <- app_assoc. split; [done|].
    unfold opens, closes in *. rewrite !omap_app, Ho, Hc, Ho', Hc'. split; [done|apply prefix_nil].
Qed.

Lemma StartConsumers_acquires {D} ss os (specs : list (ConsumerSpec D)) :
  consumable ss os -> acquires ss os (map RConsumer) (StartConsumers specs).
Proof.
  intros Hc. eapply runs_mono; [by apply (start_loop_runs specs [] ss os)|].
  intros r st' (ss' & Hss & Hr). exists ss'. split; [done|]. destruct r; naive_solver.
Qed.

Lemma NewPool_acquires ss os url : acquires ss os (fun _ => [RPool]) (NewPool url).
Proof.
  do 2 (apply tidy_bind; [auto with boot|]; intros [] ? _).
  apply acquires_tried; [done|auto with boot|]. intros e ss''. by apply (runs_undo _ [RPool]); [apply releases_live|].
Qed.

Lemma RunMigrationsFS_tidy ss os fs table : tidy ss os (RunMigrationsFS fs table).
Proof.
  do 2 (apply tidy_bind; [auto with boot|]; intros [] ? _).
  apply (acquires_defer _ _ (fun _ => [RMigrator fs]) (live (LOpen (RMigrator fs)))
    (fun _ => _ ← blogged (call (CMigratorClose fs)); live (LClose (RMigrator fs)))).
  - eapply runs_live; [done|]. by eexists.
  - intros _ b ss1 os1. do 2 apply runs_bind. apply runs_attempt, runs_closing; [done|]. intros r. apply runs_ret.
    apply (releases_live (RMigrator fs)).
  - intros [] ss1 _. apply runs_bind, runs_attempt. apply runs_call; [done|done|apply runs_ret; by exists ss1|].
    intros e. simpl. destruct (errors_Is e migrate_ErrNoChange); [apply runs_ret|apply runs_fail]; by exists ss1.
Qed.

(** ** Serving *)

(** While the service runs: its tasks and its servers. *)
Definition serving (failed : bool) (ss : list string) (os : list Resource) (ts : list Task) (sv : list Server) : Live :=
  {| lv_open := os; lv_streams := ss; lv_tasks := ts; lv_cancelled := []; lv_servers := sv; lv_failed := failed |}.

Lemma listen_all_runs servers ss os ts sv :
  runs (listen_all servers) (serving false ss os ts sv)
    (fun r st' => r = Ok tt /\ st' = serving false ss os ts (rev (map fst servers) ++ sv)).
Proof.
  revert sv. induction servers as [|[s srv] servers IH]; intros sv; simpl; [by apply runs_ret|].
  apply runs_bind. eapply runs_live; [done|]. rewrite <- app_assoc. apply IH.
Qed.

Lemma await_servers_runs returned ss os ts sv :
  runs (await_servers returned) (serving false ss os ts sv)
    (fun r st' => st' = serving (negb (is_ok r)) ss os ts sv).
Proof.
  induction returned as [|[s e] returned IH]; simpl; [by apply runs_ret|].
  apply runs_bind. eapply runs_live; [simpl; reflexivity|].
  unfold fatal. simpl. destruct (errors_Is e http_ErrServerClosed); simpl; [apply IH|by apply runs_fail].
Qed.

(** A shutdown that cancels and awaits the tasks and stops the servers. *)
Definition shuts_down (ts : list Task) (sv : list Server) (c : B unit) : Prop :=
  forall b ss os, runs c (serving b ss os ts sv) (fun r st' => r = Ok tt /\ st' = idle b ss os).

Lemma serve_runs servers ts shutdown ss os :
  shuts_down ts (rev (map fst servers)) shutdown ->
  runs (serve servers shutdown) (serving false ss os ts [])
    (fun r st' => st' = idle (negb (is_ok r)) ss os).
Proof.
  intros Hsh. apply runs_bind. eapply runs_mono; [apply listen_all_runs|]. intros r st' [-> ->]. rewrite app_nil_r.
  apply runs_bind, runs_attempt. intros s. destruct (await_servers_runs (be_listens (bt_tick s)) ss os ts (rev (map fst servers)) s)
    as (tr & st' & Htr & Hp & ->). eexists tr, _. split_and!; [done|done|].
  apply runs_bind. eapply runs_mono; [apply Hsh|]. intros r st' [-> ->].
  destruct (await_servers _ s) as [[[]|e] s']; simpl; [by apply runs_ret|by apply runs_fail].
Qed.

Lemma Server_Shutdown_bind {A} sv s b ss os (f : B A) (Q : res A -> Live -> Prop) :
  s ∈ sv -> runs f (serving b ss os [] (list_difference sv [s])) Q ->
  runs (_ ← Server_Shutdown s; f) (serving b ss os [] sv) Q.
Proof.
  intros Hs Hf. do 3 apply runs_bind. apply runs_attempt, runs_closing; [done|]. intros r. apply runs_ret.
  eapply runs_live; [simpl; by rewrite bool_decide_eq_true_2|done].
Qed.

Lemma cancel_and_wait_bind {A} ts sv b ss os (f : B A) (Q : res A -> Live -> Prop) :
  NoDup ts -> runs f (serving b ss os [] sv) Q ->
  runs (_ ← cancel_and_wait ts; f) (serving b ss os ts sv) Q.
Proof.
  intros Hnd Hf. do 2 apply runs_bind. eapply runs_live; [simpl; by rewrite bool_decide_eq_true_2|].
  eapply runs_live; [simpl; rewrite bool_decide_eq_true_2; [done|]|].
  - simpl. set_solver.
  - rewrite app_nil_r. unfold upd_tasks. simpl.
    assert (list_difference ts ts = []) as ->; [|done].
    apply elem_of_nil_inv. intros t. rewrite list_elem_of_difference. naive_solver.
Qed.
End Connections.

#[export] Hint Resolve closeRedis_releases closeBroker_releases stopAll_releases ConnectRedis_acquires
  ConnectBroker_acquires NewPool_acquires RunMigrationsFS_tidy StartConsumers_acquires : boot.
#[export] Hint Extern 1 (releases _ pool_Close) => apply releases_live : boot.

(** ** The four services *)

Section Services.
Context {BE : BootEnv} {E : Env} {V : Validators} {U : UUIDLib} {P : PgxLib} {J : JwtLib} {ML : MailLib}
  {BP : BusPublisher ScanDB} {PV : ProtoValidator Request} {PC : ProtoValidator CompensateRequest} {RP : RpcPaths}.
Implicit Types (ss : list string) (os : list Resource).

Lemma outboxMigrations_tidy ss os : tidy ss os outboxMigrations.
Proof. apply acquires_wrap, RunMigrationsFS_tidy. Qed.

(** Spawn the tasks, serve, shut down. *)
Lemma serve_tidy {A} servers ts shutdown ss os (start : B A) :
  (forall (k : B unit) Q, runs k (serving false ss os ts []) Q -> runs (_ ← start; k) (idle false ss os) Q) ->
  shuts_down ts (rev (map fst servers)) shutdown ->
  tidy ss os (_ ← start; serve servers shutdown).
Proof.
  intros Hstart Hsh. apply Hstart. eapply runs_mono; [by apply serve_runs|].
  intros [[]|e] st' ->; by exists ss.
Qed.

Lemma may_start_task t ss os ts :
  RPool ∈ os -> RBroker ∈ os -> may_start t (serving false ss os ts []) = true.
Proof. intros Hp Hb. unfold may_start. simpl. rewrite !bool_decide_eq_true_2 by done. by destruct t. Qed.

Lemma runs_spawn {A} t ss os ts (k : B A) (Q : res A -> Live -> Prop) :
  RPool ∈ os -> RBroker ∈ os -> runs k (serving false ss os (t :: ts) []) Q ->
  runs (_ ← live (LSpawn t); k) (serving false ss os ts []) Q.
Proof. intros Hp Hb Hk. apply runs_bind. eapply runs_live; [|done]. cbn [step]. by rewrite may_start_task. Qed.

Lemma runs_detach {A} t ss os ts (k : B A) (Q : res A -> Live -> Prop) :
  RPool ∈ os -> RBroker ∈ os -> runs k (serving false ss os ts []) Q ->
  runs (_ ← live (LDetach t); k) (serving false ss os ts []) Q.
Proof. intros Hp Hb Hk. apply runs_bind. eapply runs_live; [|done]. cbn [step]. by rewrite may_start_task. Qed.

Lemma shutdown_one ts : NoDup ts ->
  shuts_down ts [SMetrics] (_ ← cancel_and_wait ts; Server_Shutdown SMetrics).
Proof.
  intros Hnd b ss os. apply cancel_and_wait_bind; [done|]. 
  do 2 apply runs_bind. apply runs_attempt, runs_closing; [done|]. intros r. apply runs_ret.
  by eapply runs_live.
Qed.

(** The part the services share: database, broker, event streams. *)
Lemma connected_tidy {A} ss os dburl url stream subjects (k : B A) :
  (forall ss', consumable ss' (RBroker :: RPool :: os) -> tidy ss' (RBroker :: RPool :: os) k) ->
  tidy ss os (
    _ ← bwrap "connect to database" (NewPool dburl);
    defer pool_Close (
    _ ← ConnectBroker url stream subjects;
    defer closeBroker (
    _ ← EnsureEventStreams; k))).
Proof.
  intros Hk.
  apply (acquires_defer _ _ (fun _ => [RPool]) _ (fun _ => pool_Close)); [auto with boot..|]. intros [] ss4 _.
  apply (acquires_defer _ _ (fun _ => [RBroker]) _ (fun _ => closeBroker)); [auto with boot..|]. intros [] ss5 _.
  apply EnsureEventStreams_bind. intros ss6 _ Hin. apply Hk. split_and!; [set_solver..|done].
Qed.

(** Consumers around the rest of the run. *)
Lemma consuming_tidy {A D} ss os pre (specs : list (ConsumerSpec D)) (k : B A) :
  consumable ss os ->
  (forall ss' os', RPool ∈ os' -> RBroker ∈ os' -> tidy ss' os' k) ->
  tidy ss os (stops ← bwrap pre (StartConsumers specs); defer (stopAll stops) k).
Proof.
  intros Hc Hk. apply (acquires_defer _ _ (map RConsumer) _ stopAll); [auto with boot..|]. intros stops ss' _.
  destruct Hc as (Hp & Hb & _). apply Hk; set_solver.
Qed.

Lemma NotifierBoot_tidy ss os cfg : tidy ss os (NotifierBoot.Run cfg).
Proof.
  apply (acquires_defer _ _ (fun _ => [RMailer]) _ (fun _ => NotifierBoot.shutdownMailer)).
  { apply acquires_wrap, tidy_bind; [auto with boot|]. intros [] ss' _. eapply runs_live; [done|by eexists]. }
  { auto with boot. }
  intros [] ss1 _. apply tidy_bind; [auto with boot|]. intros [] ss2 _.
  apply tidy_bind; [apply outboxMigrations_tidy|]. intros [] ss3 _.
  apply connected_tidy. intros ss4 Hc. apply consuming_tidy; [done|]. intros ss5 os5 Hp Hb.
  apply runs_detach; [done..|].
  apply (serve_tidy [(SMetrics, _)] [TMaintenance]); [|by apply shutdown_one, NoDup_singleton].
  intros k Q. by apply runs_spawn.
Qed.

Lemma SagaBoot_tidy ss os cfg : tidy ss os (SagaBoot.Run cfg).
Proof.
  apply tidy_bind; [auto with boot|]. intros [] ss2 _.
  apply tidy_bind; [apply outboxMigrations_tidy|]. intros [] ss3 _.
  apply connected_tidy. intros ss4 Hc.
  set (rs := if String.eqb (gc_CompensateTransport cfg) Compensators.transportGRPC then [RCompensator] else []).
  apply (acquires_defer _ _ (fun _ => rs) _ (fun _ => SagaBoot.closeCompensator cfg)).
  { subst rs. unfold SagaBoot.newCoordinator. apply runs_bind. destruct (String.eqb _ _).
    - eapply runs_live; [done|]. apply runs_ret. by eexists.
    - apply runs_ret, runs_ret. by eexists. }
  { intros _. subst rs. unfold SagaBoot.closeCompensator. destruct (String.eqb _ _); auto with boot. }
  intros coord ss5 Hss. apply consuming_tidy; [by eapply consumable_app|]. intros ss6 os6 Hp Hb.
  apply runs_detach; [done..|]. eapply runs_mono; [apply (serve_runs [(SMetrics, _)] [])|].
  - intros b ss' os'. do 2 apply runs_bind. apply runs_attempt, runs_closing; [done|]. intros r. apply runs_ret.
    by eapply runs_live.
  - intros [[]|e] st' ->; by exists ss6.
Qed.

Lemma ScannerBoot_tidy ss os sc cfg : tidy ss os (ScannerBoot.Run sc cfg).
Proof.
  apply (acquires_defer _ _ (fun _ => [RRedis]) _ (fun _ => closeRedis)); [auto with boot..|]. intros [] ss1 _.
  apply tidy_bind; [auto with boot|]. intros [] ss2 _.
  apply connected_tidy. intros ss3 Hc. apply consuming_tidy; [done|]. intros ss4 os4 Hp Hb.
  apply (serve_tidy [(SMetrics, _)] [TScheduler]); [|by apply shutdown_one, NoDup_singleton].
  intros k Q. by apply runs_spawn.
Qed.

(** *** [newInfrastructure] *)

(** A step of the set-up, holding what the closers release. *)
Lemma or_cleanup_bind {A A'} closers held rs (c : B A) (f : A -> B A') ss os (Q : res A' -> Live -> Prop) :
  releases held (SubscriptionBoot.cleanupClosers closers) ->
  acquires ss (held ++ os) rs c ->
  (forall e ss', Q (Err e) (idle true ss' os)) ->
  (forall a ss', ss ⊆ ss' -> runs (f a) (idle false ss' (rs a ++ held ++ os)) Q) ->
  runs (a ← SubscriptionBoot.or_cleanup closers c; f a) (idle false ss (held ++ os)) Q.
Proof.
  intros Hcl Hc He Hf. apply runs_bind, runs_bind, runs_attempt. eapply runs_mono; [apply Hc|].
  intros [a|e] st' (ss' & Hss & ->).
  - by apply runs_ret, Hf.
  - apply (runs_undo _ held); [done|]. apply He.
Qed.

Lemma cleanupClosers_cons r rs c cs :
  releases [r] c -> releases rs (SubscriptionBoot.cleanupClosers cs) ->
  releases (r :: rs) (SubscriptionBoot.cleanupClosers (c :: cs)).
Proof.
  intros Hc Hcs b ss os. apply runs_bind. eapply runs_mono; [apply (Hc b ss (rs ++ os))|].
  intros res st' [-> ->]. apply Hcs.
Qed.

Lemma newInfrastructure_runs ss os cfg :
  runs (SubscriptionBoot.newInfrastructure cfg) (idle false ss os) (fun r st' => exists ss',
    match r with
    | Ok closers => closers = [closeBroker; closeRedis; pool_Close] /\ map fst event_streams ⊆ ss' /\
                    st' = idle false ss' ([RBroker; RRedis; RPool] ++ os)
    | Err _ => st' = idle true ss' os
    end).
Proof.
  assert (releases [RPool] (SubscriptionBoot.cleanupClosers [pool_Close])) as H1
    by (apply cleanupClosers_cons; auto with boot).
  assert (releases [RRedis; RPool] (SubscriptionBoot.cleanupClosers [closeRedis; pool_Close])) as H2
    by (apply cleanupClosers_cons; auto with boot).
  assert (releases [RBroker; RRedis; RPool] (SubscriptionBoot.cleanupClosers [closeBroker; closeRedis; pool_Close])) as H3
    by (apply cleanupClosers_cons; auto with boot).
  apply (or_cleanup_bind [] [] (fun _ => [])); [auto with boot..|eauto|]. intros [] ss1 _.
  apply (or_cleanup_bind [] [] (fun _ => [])); [auto with boot|apply outboxMigrations_tidy|eauto|]. intros [] ss2 _.
  apply (or_cleanup_bind [] [] (fun _ => [RPool])); [auto with boot..|eauto|]. intros [] ss3 _.
  apply (or_cleanup_bind _ [RPool] (fun _ => [RRedis])); [auto with boot..|eauto|]. intros [] ss4 _.
  apply (or_cleanup_bind _ [RRedis; RPool] (fun _ => [RBroker])); [auto with boot..|eauto|]. intros [] ss5 _.
  apply runs_bind, runs_bind, runs_attempt. eapply runs_mono; [apply ensure_streams_runs|].
  intros [[]|e] st' (ss' & _ & Hr).
  - destruct Hr as [Hin ->]. apply runs_ret, runs_ret. by exists ss'.
  - subst st'. apply (runs_undo _ [RBroker; RRedis; RPool]); [done|]. by exists ss'.
Qed.

Lemma subscription_shutdown :
  shuts_down [TCleanup; TRelay] [SInternal; SPublic] SubscriptionBoot.gracefulShutdown.
Proof.
  intros b ss os. do 2 apply runs_bind. do 2 (eapply runs_live; [reflexivity|]).
  apply Server_Shutdown_bind; [set_solver|].
  do 2 apply runs_bind. apply runs_attempt, runs_closing; [done|]. intros r. apply runs_ret. by eapply runs_live.
Qed.

Lemma SubscriptionBoot_tidy os cfg : tidy [] os (SubscriptionBoot.Run cfg).
Proof.
  apply runs_bind. eapply runs_mono; [apply newInfrastructure_runs|].
  intros r st' (ss1 & Hr). destruct r as [closers|e]; [|subst; exists ss1; split; [set_solver|done]].
  destruct Hr as (-> & Hin & ->). apply runs_defer.
  assert (tidy ss1 ([RBroker; RRedis; RPool] ++ os) (
    stops ← bwrap "start consumers" (StartConsumers (SubscriptionBoot.consumer (SubscriptionBoot.buildApp cfg)));
    defer (stopAll stops) (
    publicSrv ← SubscriptionBoot.newPublicServer cfg;
    internalSrv ← SubscriptionBoot.newInternalGRPCServer cfg;
    _ ← SubscriptionBoot.startBackground;
    SubscriptionBoot.serve publicSrv internalSrv))) as Hrest.
  { apply consuming_tidy; [split_and!; [set_solver..|done]|]. intros ss2 os2 Hp Hb.
    apply tidy_bind; [repeat (apply tidy_bind; [auto with boot|intros]); auto with boot|]. intros publicSrv ss3 _.
    apply tidy_bind; [apply tidy_bind; [auto with boot|intros; auto with boot]|]. intros internalSrv ss4 _.
    apply (serve_tidy [(SPublic, _); (SInternal, _)] [TCleanup; TRelay]); [|apply subscription_shutdown].
    intros k Q Hk. apply runs_bind, runs_spawn; [done..|].
    eapply runs_live; [cbn [step]; by rewrite may_start_task|done]. }
  eapply runs_mono; [apply Hrest|]. intros r st' (ss' & _ & ->).
  assert (releases [RBroker; RRedis; RPool] (SubscriptionBoot.cleanupClosers [closeBroker; closeRedis; pool_Close])) as H3
    by (repeat apply cleanupClosers_cons; auto with boot).
  destruct r as [[]|e]; (eapply runs_mono; [apply (H3 _ ss' os)|]); intros _ st' [_ ->]; exists ss'; (split; [set_solver|done]).
Qed.

(** ** Processes *)

(** The process ends with the status its failures determine: 1 when a call
    failed, and by then everything is closed again. *)
Definition clean_exit (out : Z * Boot) : Prop :=
  exists ss, play live0 (bt_life (snd out)) = Some (idle (bool_decide (fst out = 1%Z)) ss []) /\
             (fst out = 0%Z \/ fst out = 1%Z).

Lemma Main_clean {C} (load : res C) (run : C -> B unit) :
  (forall cfg, tidy [] [] (run cfg)) -> clean_exit (Main load run boot0).
Proof.
  intros Hrun. assert (tidy [] [] (launch load run)) as Hl.
  { apply runs_bind, runs_bind, runs_attempt, runs_closing; [done|]. intros r0. apply runs_ret.
    apply runs_bind, runs_wrap. destruct load as [cfg|e].
    - apply runs_ret. apply Hrun.
    - apply runs_bind. eapply runs_live; [done|]. apply runs_fail. by exists []. }
  destruct (Hl boot0) as (tr & st' & Htr & Hp & ss' & _ & Hst). unfold clean_exit, Main. simpl in Htr.
  destruct (launch load run boot0) as [[[]|e] s']; simpl in *; subst; exists ss'; split; auto.
Qed.

(** A configuration that is not accepted: the process ends before it opens
    anything. *)
Definition refuses {C} (load : res C) (out : Z * Boot) : Prop :=
  is_ok load = false -> fst out = 1%Z /\ opens (bt_life (snd out)) = [].

Lemma Main_refuses {C} (load : res C) (run : C -> B unit) : refuses load (Main load run boot0).
Proof.
  intros Hl. destruct load as [cfg|e]; [done|]. done.
Qed.

(** C23: Whatever the libraries and the network answer, whatever is configured and
    whichever server fails, each of the four services keeps the discipline: it
    opens nothing and asks nothing after a failure, starts no consumer before the
    database, the broker and all event streams are there, awaits its cancellable
    tasks and stops its servers before it closes what they use, closes everything it
    opened exactly once and in reverse order, and exits with status 1 exactly when
    something failed; with a configuration that its loader does not accept it exits
    with status 1 and opens nothing. *)
Theorem services_start_and_stop `{EnvconfigLib} sc environ :
  (clean_exit (Commands.notifier environ) /\ refuses (LoadNotifier environ) (Commands.notifier environ)) /\
  (clean_exit (Commands.saga_orchestrator environ) /\ refuses (LoadSaga environ) (Commands.saga_orchestrator environ)) /\
  (clean_exit (Commands.scanner sc environ) /\ refuses (LoadScanner environ) (Commands.scanner sc environ)) /\
  clean_exit (Commands.subscription environ) /\ refuses (LoadSubscription environ) (Commands.subscription environ).
Proof.
  split_and!; try apply Main_refuses; apply Main_clean; intros cfg;
    [apply NotifierBoot_tidy|apply SagaBoot_tidy|apply ScannerBoot_tidy|apply SubscriptionBoot_tidy].
Qed.
End Services.

(** ** Witnesses *)

(** The paths of the gRPC packages, and those of a generated service. *)
Definition demo_paths : RpcPaths :=
  {| healthPath := "/grpc.health.v1.Health/"; reflectV1Path := "/grpc.reflection.v1.ServerReflection/";
     reflectV1AlphaPath := "/grpc.reflection.v1alpha.ServerReflection/";
     compensationPath := "/compensation.v1.CompensationService/" |}.

(** Nothing fails; the saga service runs until it is interrupted. *)
Definition smooth : BootEnv := {| be_answer _ _ := None; be_listens _ := [] |}.
(** The stream of the saga commands cannot be set up. *)
Definition no_sagas : BootEnv := {|
  be_answer _ c :=
    match c with
    | CEnsureStream n _ => if String.eqb n StreamSagas then Some (ErrText "timeout") else None
    | _ => None
    end;
  be_listens _ := [] |}.
(** The port of the metrics server is taken. *)
Definition port_taken : BootEnv := {|
  be_answer _ _ := None; be_listens _ := [(SMetrics, ErrText "address already in use")] |}.

(** The required variables are set, and the gRPC compensator is chosen. *)
Definition demo_environ : Environ := fun k =>
  if String.eqb k "SAGA_COMPENSATE_TRANSPORT" then Some "grpc" else required_env k.

(** A scanner that observes nothing. *)
#[program] Definition blind_scanner : ReleaseScanner ScanDB := {| sc_Scan _ _ := mret [] |}.
Next Obligation.
  intros ctx repos w _. apply wp_ret. split.
  - reflexivity.
  - split; [apply NoDup_nil_2|set_solver].
Qed.

Definition demo_saga_run (be : BootEnv) : Z * Boot :=
  @Commands.saga_orchestrator be quiet_env _ _ _ plain_envconfig demo_environ.

(** Where the public server sends requests. *)
Example public_routes :
  exists m s, SubscriptionBoot.NewHandler (BE := smooth) (RP := demo_paths) boot0 = (Ok m, s) /\
    map (mux_route m) ["/health"; "/metrics"; "/api/subscribe"; "/healthz"; "/grpc.health.v1.Health/Check"; "/"] =
      [HealthOK; Metrics; Transcoder; Transcoder; GrpcHealth; Transcoder] /\
    map (mux_route MetricsHandler) ["/health"; "/metrics"; "/api/subscribe"] = [HealthOK; Metrics; NotFound].
Proof. eexists _, _. split; [reflexivity|]. split; vm_compute; reflexivity. Qed.

Lemma services_start_and_stop_witness :
  clean_exit (demo_saga_run smooth) /\ clean_exit (demo_saga_run no_sagas) /\ clean_exit (demo_saga_run port_taken) /\
  map (fun be => fst (demo_saga_run be)) [smooth; no_sagas; port_taken] = [0%Z; 1%Z; 1%Z] /\
  opens (bt_life (snd (demo_saga_run no_sagas))) = [RMigrator "saga"; RMigrator "outbox"; RPool; RBroker] /\
  length (opens (bt_life (snd (demo_saga_run smooth)))) = 10%nat.
Proof.
  pose (RS (be : BootEnv) := proj1 (proj1 (proj2 (services_start_and_stop (BE := be) (E := quiet_env)
    (BP := @Conn_BusPublisher ScanDB quiet_env)
    (ML := {| mail_addr_error _ := None |}) (PV := {| pv_Validate _ := None |}) (PC := {| pv_Validate _ := None |})
    (RP := demo_paths) (H0 := plain_envconfig) blind_scanner demo_environ)))).
  split_and!; [apply (RS smooth)|apply (RS no_sagas)|apply (RS port_taken)|vm_compute; reflexivity..].
Defined.
