(* ===== verification/Migrations.v ===== *)
(** * The database migrations: the [migrations] directories and [RunMigrationsFS]

    The scripts as data definition statements over a catalogue of tables and
    indexes, the up and down script of every migration, and what a service's
    start-up makes of a database that an earlier release has left.  The SQL that the
    repositories send is checked against the catalogue: tables, columns, conflict
    targets, NOT NULL and identity columns, and what its results are scanned into. *)

From Stdlib Require Import Ascii.
From S2P Require Import Prelude GoErrors Effects Url Lifecycle.

Open Scope string_scope.
Open Scope list_scope.
Open Scope Z_scope.

(** ** The catalogue *)

Inductive ColType := UUIDType | TEXT | TIMESTAMPTZ | BOOLEAN | BIGINT | INTEGER | BYTEA.

Inductive Generation :=
| NoDefault
| Default (expr : string)
| AlwaysIdentity.   (* GENERATED ALWAYS AS IDENTITY *)

Record Column := { co_name : string; co_type : ColType; co_notnull : bool; co_gen : Generation }.

Inductive TableConstraint :=
| PrimaryKey (columns : list string)
| Unique (columns : list string)
| ForeignKey (column table ref : string)   (* REFERENCES table (ref) ON DELETE CASCADE *)
| CheckNonNegative (column : string).

Record Table := { tb_columns : list Column; tb_constraints : list TableConstraint }.

Record Schema := { sm_tables : gmap string Table; sm_indexes : gmap string (string * list string) }.

Global Instance ColType_eq_dec : EqDecision ColType.
Proof. solve_decision. Defined.
Global Instance Generation_eq_dec : EqDecision Generation.
Proof. solve_decision. Defined.
Global Instance Column_eq_dec : EqDecision Column.
Proof. solve_decision. Defined.
Global Instance TableConstraint_eq_dec : EqDecision TableConstraint.
Proof. solve_decision. Defined.
Global Instance Table_eq_dec : EqDecision Table.
Proof. solve_decision. Defined.
Global Instance Schema_eq_dec : EqDecision Schema.
Proof. solve_decision. Defined.

Definition empty_schema : Schema := {| sm_tables := ∅; sm_indexes := ∅ |}.

Definition column_of (t : Table) (c : string) : option Column :=
  List.find (fun col => String.eqb (co_name col) c) (tb_columns t).
Definition has_columns (t : Table) (cs : list string) : bool :=
  forallb (fun c => match column_of t c with Some _ => true | None => false end) cs.

(** The columns a constraint is about. *)
Definition constrained (k : TableConstraint) : list string :=
  match k with
  | PrimaryKey cs | Unique cs => cs
  | ForeignKey c _ _ | CheckNonNegative c => [c]
  end.

(** Some other table refers to [t]. *)
Definition referenced (s : Schema) (t : string) : bool :=
  existsb (fun '(name, tb) => negb (String.eqb name t) &&
    existsb (fun k => match k with ForeignKey _ t' _ => String.eqb t' t | _ => false end) (tb_constraints tb))
    (map_to_list (sm_tables s)).

(** The same set of columns, in whatever order. *)
Definition same_columns (cs cs' : list string) : bool :=
  forallb (fun c => bool_decide (c ∈ cs')) cs && forallb (fun c => bool_decide (c ∈ cs)) cs'.

(** Some key of the table is on exactly these columns. *)
Definition key_on (t : Table) (cs : list string) : bool :=
  existsb (fun k => match k with PrimaryKey cs' | Unique cs' => same_columns cs cs' | _ => false end) (tb_constraints t).

(** ** Data definition *)

Inductive DDL :=
| CreateTable (name : string) (columns : list Column) (constraints : list TableConstraint)   (* IF NOT EXISTS *)
| DropTable (name : string)                                                              (* IF EXISTS *)
| CreateIndex (name table : string) (columns : list string)                               (* IF NOT EXISTS *)
| DropIndex (name : string)                                                              (* IF EXISTS *)
| AddColumn (table : string) (column : Column)                                             (* IF NOT EXISTS *)
| DropColumn (table name : string).                                                      (* IF EXISTS *)

(** A primary key makes its columns NOT NULL. *)
Definition key_not_null (ks : list TableConstraint) (c : Column) : Column :=
  {| co_name := co_name c; co_type := co_type c;
     co_notnull := co_notnull c || existsb (fun k => match k with PrimaryKey cs => bool_decide (co_name c ∈ cs) | _ => false end) ks;
     co_gen := co_gen c |}.

Definition set_tables (ts : gmap string Table) (s : Schema) : Schema := {| sm_tables := ts; sm_indexes := sm_indexes s |}.

(** The indexes that remain when a table, or one of its columns, goes. *)
Definition indexes_without (t : string) (c : option string) (s : Schema) : gmap string (string * list string) :=
  filter (fun kv => String.eqb (fst (snd kv)) t && match c with Some c => bool_decide (c ∈ snd (snd kv)) | None => true end = false)
    (sm_indexes s).

Definition exec (q : DDL) (s : Schema) : string + Schema :=
  match q with
  | CreateTable t cs ks =>
      match sm_tables s !! t with
      | Some _ => inr s
      | None =>
          let tb := {| tb_columns := map (key_not_null ks) cs; tb_constraints := ks |} in
          let ok k := has_columns tb (constrained k) &&
            match k with
            | ForeignKey _ t' ref => match sm_tables s !! t' with Some tb' => key_on tb' [ref] | None => false end
            | _ => true
            end in
          if forallb ok ks then inr (set_tables (<[t := tb]> (sm_tables s)) s)
          else inl ("cannot create table " +:+ t)
      end
  | DropTable t =>
      if referenced s t then inl ("cannot drop table " +:+ t +:+ " because other objects depend on it")
      else inr {| sm_tables := delete t (sm_tables s); sm_indexes := indexes_without t None s |}
  | CreateIndex i t cs =>
      match sm_tables s !! t with
      | None => inl ("relation " +:+ t +:+ " does not exist")
      | Some tb =>
          match sm_indexes s !! i with
          | Some _ => inr s
          | None => if has_columns tb cs then inr {| sm_tables := sm_tables s; sm_indexes := <[i := (t, cs)]> (sm_indexes s) |}
                    else inl "column does not exist"
          end
      end
  | DropIndex i => inr {| sm_tables := sm_tables s; sm_indexes := delete i (sm_indexes s) |}
  | AddColumn t c =>
      match sm_tables s !! t with
      | None => inl ("relation " +:+ t +:+ " does not exist")
      | Some tb =>
          match column_of tb (co_name c) with
          | Some _ => inr s
          | None => inr (set_tables (<[t := {| tb_columns := tb_columns tb ++ [c]; tb_constraints := tb_constraints tb |}]> (sm_tables s)) s)
          end
      end
  | DropColumn t c =>
      match sm_tables s !! t with
      | None => inl ("relation " +:+ t +:+ " does not exist")
      | Some tb =>
          if referenced s t && key_on tb [c] then inl ("cannot drop column " +:+ c +:+ " because other objects depend on it")
          else inr {| sm_tables := <[t := {| tb_columns := List.filter (fun col => negb (String.eqb (co_name col) c)) (tb_columns tb);
                                             tb_constraints := List.filter (fun k => negb (bool_decide (c ∈ constrained k))) (tb_constraints tb) |}]> (sm_tables s);
                      sm_indexes := indexes_without t (Some c) s |}
      end
  end.

(** A script. *)
Fixpoint exec_all (qs : list DDL) (s : Schema) : string + Schema :=
  match qs with
  | [] => inr s
  | q :: qs => match exec q s with inl e => inl e | inr s' => exec_all qs s' end
  end.

Lemma exec_all_app qs1 qs2 s :
  exec_all (qs1 ++ qs2) s = match exec_all qs1 s with inl e => inl e | inr s' => exec_all qs2 s' end.
Proof. revert s. induction qs1 as [|q qs1 IH]; intros s; simpl; [done|]. by destruct (exec q s). Qed.

(** ** The scripts *)

Record Migration := { mi_version : Z; mi_up : list DDL; mi_down : list DDL }.

Global Instance DDL_eq_dec : EqDecision DDL.
Proof. solve_decision. Defined.
Global Instance Migration_eq_dec : EqDecision Migration.
Proof. solve_decision. Defined.

(** Columns as the scripts declare them. *)
Definition not_null (name : string) (ty : ColType) : Column :=
  {| co_name := name; co_type := ty; co_notnull := true; co_gen := NoDefault |}.
Definition nullable (name : string) (ty : ColType) : Column :=
  {| co_name := name; co_type := ty; co_notnull := false; co_gen := NoDefault |}.
Definition defaulted (name : string) (ty : ColType) (expr : string) : Column :=
  {| co_name := name; co_type := ty; co_notnull := true; co_gen := Default expr |}.
Definition identity_key (name : string) : Column :=
  {| co_name := name; co_type := BIGINT; co_notnull := false; co_gen := AlwaysIdentity |}.

(** [subscription/migrations] *)
Definition create_repositories : Migration := {|
  mi_version := 1;
  mi_up := [CreateTable "repositories"
    [{| co_name := "id"; co_type := UUIDType; co_notnull := false; co_gen := Default "gen_random_uuid()" |};
     not_null "name" TEXT; nullable "last_seen_tag" TEXT; nullable "checked_at" TIMESTAMPTZ;
     defaulted "created_at" TIMESTAMPTZ "NOW()"]
    [PrimaryKey ["id"]; Unique ["name"]]];
  mi_down := [DropTable "repositories"] |}.

Definition create_subscriptions : Migration := {|
  mi_version := 2;
  mi_up := [CreateTable "subscriptions"
    [{| co_name := "id"; co_type := UUIDType; co_notnull := false; co_gen := Default "gen_random_uuid()" |};
     not_null "repository_id" UUIDType; not_null "email" TEXT; not_null "confirm_token" TEXT;
     not_null "unsubscribe_token" TEXT; defaulted "confirmed" BOOLEAN "FALSE"; defaulted "created_at" TIMESTAMPTZ "NOW()"]
    [PrimaryKey ["id"]; ForeignKey "repository_id" "repositories" "id"; Unique ["confirm_token"];
     Unique ["unsubscribe_token"]; Unique ["email"; "repository_id"]]];
  mi_down := [DropTable "subscriptions"] |}.

Definition add_subscriptions_email_index : Migration := {|
  mi_version := 3;
  mi_up := [CreateIndex "idx_subscriptions_email" "subscriptions" ["email"]];
  mi_down := [DropIndex "idx_subscriptions_email"] |}.

Definition cutover_jwt_and_drop_tracking : Migration := {|
  mi_version := 4;
  mi_up := [DropColumn "subscriptions" "confirm_token"; DropColumn "repositories" "last_seen_tag";
            DropColumn "repositories" "checked_at"];
  mi_down := [AddColumn "repositories" (nullable "checked_at" TIMESTAMPTZ);
              AddColumn "repositories" (nullable "last_seen_tag" TEXT);
              AddColumn "subscriptions" (nullable "confirm_token" TEXT)] |}.

(** [notifier/migrations] *)
Definition create_subscriptions_read : Migration := {|
  mi_version := 1;
  mi_up := [CreateTable "subscriptions_read"
    [not_null "email" TEXT; not_null "repo_name" TEXT; not_null "unsub_token" TEXT] [PrimaryKey ["email"; "repo_name"]];
    CreateIndex "subscriptions_read_repo_name_idx" "subscriptions_read" ["repo_name"]];
  mi_down := [DropTable "subscriptions_read"] |}.

Definition create_failed_notifications : Migration := {|
  mi_version := 2;
  mi_up := [CreateTable "failed_notifications"
    [identity_key "id"; not_null "saga_id" TEXT; not_null "repo_name" TEXT; not_null "tag" TEXT; not_null "release_url" TEXT;
     not_null "email" TEXT; not_null "reason" TEXT; defaulted "retry_count" INTEGER "0"; defaulted "failed_at" TIMESTAMPTZ "NOW()"]
    [PrimaryKey ["id"]; Unique ["repo_name"; "tag"; "email"]];
    CreateIndex "failed_notifications_failed_at_idx" "failed_notifications" ["failed_at"]];
  mi_down := [DropTable "failed_notifications"] |}.

Definition create_processed_releases : Migration := {|
  mi_version := 3;
  mi_up := [CreateTable "processed_releases"
    [not_null "repo_name" TEXT; not_null "tag" TEXT; defaulted "processed_at" TIMESTAMPTZ "NOW()"]
    [PrimaryKey ["repo_name"; "tag"]]];
  mi_down := [DropTable "processed_releases"] |}.

Definition create_failed_confirmations : Migration := {|
  mi_version := 4;
  mi_up := [CreateTable "failed_confirmations"
    [identity_key "id"; not_null "saga_id" TEXT; not_null "email" TEXT; not_null "repo_name" TEXT; not_null "confirm_url" TEXT;
     not_null "reason" TEXT; defaulted "retry_count" INTEGER "0"; defaulted "failed_at" TIMESTAMPTZ "NOW()"]
    [PrimaryKey ["id"]; Unique ["email"; "repo_name"]];
    CreateIndex "failed_confirmations_failed_at_idx" "failed_confirmations" ["failed_at"]];
  mi_down := [DropTable "failed_confirmations"] |}.

(** [scanner/migrations], [saga/migrations], [infrastructure/outbox/migrations] *)
Definition create_watched_repos : Migration := {|
  mi_version := 1;
  mi_up := [CreateTable "watched_repos"
    [not_null "repo_name" TEXT; nullable "last_seen_tag" TEXT; defaulted "subscriber_count" INTEGER "0"]
    [CheckNonNegative "subscriber_count"; PrimaryKey ["repo_name"]]];
  mi_down := [DropTable "watched_repos"] |}.

Definition create_sagas : Migration := {|
  mi_version := 1;
  mi_up := [CreateTable "sagas"
    [nullable "id" UUIDType; not_null "type" TEXT; not_null "state" TEXT; not_null "email" TEXT; not_null "repo_name" TEXT;
     defaulted "created_at" TIMESTAMPTZ "now()"; defaulted "updated_at" TIMESTAMPTZ "now()"]
    [PrimaryKey ["id"]; Unique ["type"; "email"; "repo_name"]];
    CreateIndex "sagas_state_idx" "sagas" ["state"]];
  mi_down := [DropTable "sagas"] |}.

Definition create_outbox_messages : Migration := {|
  mi_version := 1;
  mi_up := [CreateTable "outbox_messages"
    [identity_key "id"; not_null "subject" TEXT; not_null "payload" BYTEA; defaulted "created_at" TIMESTAMPTZ "NOW()"]
    [PrimaryKey ["id"]]];
  mi_down := [DropTable "outbox_messages"] |}.

(** ** The embedded file systems and [RunMigrationsFS] *)

(** The scripts lie in one directory of the file system. *)
Record EmbedFS := { fs_dir : string; fs_files : list Migration }.

Definition submigrations : EmbedFS :=
  {| fs_dir := "."; fs_files := [create_repositories; create_subscriptions; add_subscriptions_email_index; cutover_jwt_and_drop_tracking] |}.
Definition notifmigrations : EmbedFS :=
  {| fs_dir := "."; fs_files := [create_subscriptions_read; create_failed_notifications; create_processed_releases; create_failed_confirmations] |}.
Definition scanmigrations : EmbedFS := {| fs_dir := "."; fs_files := [create_watched_repos] |}.
Definition sagamigrations : EmbedFS := {| fs_dir := "."; fs_files := [create_sagas] |}.
Definition outbox_Migrations : EmbedFS := {| fs_dir := "migrations"; fs_files := [create_outbox_messages] |}.

Definition migrationsRoot (fsys : EmbedFS) : string := if String.eqb (fs_dir fsys) "migrations" then "migrations" else ".".

(** The scripts [iofs.New] finds in a directory. *)
Definition files_in (fsys : EmbedFS) (root : string) : list Migration :=
  if String.eqb (fs_dir fsys) root then fs_files fsys else [].

(** A database: its catalogue, and the version that each table of versions holds. *)
Record Database := { da_schema : Schema; da_versions : gmap string Z }.

Global Instance Database_eq_dec : EqDecision Database.
Proof. solve_decision. Defined.

Definition version_in (table : string) (d : Database) : Z := default 0 (da_versions d !! table).

Definition pending (ms : list Migration) (v : Z) : list Migration := List.filter (fun m => v <? mi_version m) ms.

Definition defaultMigrationsTable : string := "schema_migrations".

Section Library.
Context {N : NetURL}.

(** The table of versions that the library's PostgreSQL driver takes from the
    URL of the database. *)
Definition migrations_table (databaseURL : string) : option string :=
  u ← url_Parse databaseURL;
  let table := Values_Get "x-migrations-table" (Query u) in
  Some (if String.eqb table "" then defaultMigrationsTable else table).

(** golang-migrate, with what its documentation says of [Up]: it applies the up
    scripts after the current version and records the last; with none to apply it
    reports [ErrNoChange]. *)
Class MigrateLib := {
  migrate_Up : list Migration -> string -> Database -> res unit * Database;
  migrate_Up_none : forall ms url table d, migrations_table url = Some table ->
    pending ms (version_in table d) = [] -> migrate_Up ms url d = (Err (Sentinel migrate_ErrNoChange), d);
  migrate_Up_some : forall ms url table d m later s, migrations_table url = Some table ->
    pending ms (version_in table d) = later ++ [m] -> exec_all (flat_map mi_up (later ++ [m])) (da_schema d) = inr s ->
    migrate_Up ms url d = (Ok tt, {| da_schema := s; da_versions := <[table := mi_version m]> (da_versions d) |});
}.

(** Names the table of versions in the URL. *)
Definition withMigrationsTable (databaseURL table : string) : string :=
  if String.eqb table "" then databaseURL
  else
    match url_Parse databaseURL with
    | None => databaseURL
    | Some u => url_String (set_RawQuery (Encode (Values_Set "x-migrations-table" table (Query u))) u)
    end.

Lemma withMigrationsTable_reread databaseURL table u :
  table <> "" -> url_Parse databaseURL = Some u -> exists u',
    url_Parse (withMigrationsTable databaseURL table) = Some u' /\ u_front u' = u_front u /\ u_Fragment u' = u_Fragment u /\
    Query u' = Values_Set "x-migrations-table" table (Query u).
Proof.
  intros Ht Hu. unfold withMigrationsTable. destruct (String.eqb_spec table "") as [|_]; [done|]. rewrite Hu.
  set (m := Values_Set "x-migrations-table" table (Query u)). destruct (parsed_parts _ _ Hu) as [Hf Hg].
  destruct (encoded_clean m) as [Hh Hc].
  rewrite (reparse u (Encode m)) by (try done; apply (encoded_not_empty m "x-migrations-table" table), lookup_insert_eq).
  eexists. split_and!; [done..|]. unfold Query. simpl. apply ParseQuery_Encode, valued_set, valued_parsed.
Qed.

Lemma withMigrationsTable_names databaseURL table old :
  table <> "" -> migrations_table databaseURL = Some old ->
  migrations_table (withMigrationsTable databaseURL table) = Some table.
Proof.
  unfold migrations_table. intros Ht Hold. destruct (url_Parse databaseURL) as [u|] eqn:Hu; [|done].
  destruct (withMigrationsTable_reread databaseURL table u Ht Hu) as (u' & -> & _ & _ & Hq). simpl. rewrite Hq.
  unfold Values_Get, Values_Set. rewrite lookup_insert_eq. by destruct (String.eqb_spec table "").
Qed.

(** C21: Naming the table of versions changes nothing else.
    For every database URL that can be parsed and every table, the URL that is
    handed to the migration library parses again, with the same scheme, user, host,
    path and fragment, and its query has the table as x-migrations-table and every
    other parameter, however it was escaped, with the values it had, in order. *)
Theorem migrations_table_named databaseURL table u :
  url_Parse databaseURL = Some u ->
  exists u', url_Parse (withMigrationsTable databaseURL table) = Some u' /\
    u_front u' = u_front u /\ u_Fragment u' = u_Fragment u /\
    (table <> "" -> Query u' !! "x-migrations-table" = Some [table]) /\
    forall key, table = "" \/ key <> "x-migrations-table" -> Query u' !! key = Query u !! key.
Proof.
  intros Hu. destruct (decide (table = "")) as [->|Ht].
  { exists u. by split_and!. }
  destruct (withMigrationsTable_reread databaseURL table u Ht Hu) as (u' & ? & ? & ? & Hq). exists u'. rewrite Hq. unfold Values_Set.
  split_and!; [done..|intros _; apply lookup_insert_eq|]. intros key [?|Hk]; [done|]. by rewrite lookup_insert_ne.
Qed.
End Library.

Definition MigrateOption : Type := string -> string.
Definition WithMigrationsTable (name : string) : MigrateOption := fun _ => name.

Section Run.
Context {N : NetURL} {ML : MigrateLib}.

(** [RunMigrationsFS] on a database it can reach. *)
Definition RunMigrationsFS (databaseURL : string) (fsys : EmbedFS) (opts : list MigrateOption) (d : Database) : res unit * Database :=
  let table := fold_left (fun cfg opt => opt cfg) opts "" in
  let source := files_in fsys (migrationsRoot fsys) in
  match migrate_Up source (withMigrationsTable databaseURL table) d with
  | (Err e, d') => if errors_Is e migrate_ErrNoChange then (Ok tt, d') else (Err (Errorf "run migrations" e), d')
  | (Ok _, d') => (Ok tt, d')
  end.

(** The services, and the migrations each runs before it opens its pool. *)
Inductive Service := SubscriptionService | NotifierService | ScannerService | SagaService.

Definition own_migrations (svc : Service) : EmbedFS :=
  match svc with
  | SubscriptionService => submigrations | NotifierService => notifmigrations
  | ScannerService => scanmigrations | SagaService => sagamigrations
  end.
Definition has_outbox (svc : Service) : bool := match svc with ScannerService => false | _ => true end.

Definition start_migrations (databaseURL : string) (svc : Service) (d : Database) : res unit * Database :=
  match RunMigrationsFS databaseURL (own_migrations svc) [] d with
  | (Err e, d') => (Err (Errorf "run migrations" e), d')
  | (Ok _, d') =>
      if has_outbox svc then
        match RunMigrationsFS databaseURL outbox_Migrations [WithMigrationsTable "outbox_schema_migrations"] d' with
        | (Err e, d'') => (Err (Errorf "run outbox migrations" e), d'')
        | (Ok _, d'') => (Ok tt, d'')
        end
      else (Ok tt, d')
  end.
End Run.

(** ** The SQL of the repositories *)

(** What a result column is scanned into. *)
Inductive GoType := GoUUID | GoString | GoStringPtr | GoBool | GoTime | GoInt | GoBytes.

Inductive Scan :=
| Exec                                      (* no result *)
| Computed                                   (* a value that is no column: SELECT EXISTS *)
| ScanInto (targets : list GoType)           (* [rows.Scan], by position *)
| ByName (fields : list (string * GoType)).  (* [pgx.RowToStructByName] *)

(** A statement: the columns it names, those it inserts and its conflict target,
    and its result as (name, table, column). *)
Record Statement := {
  st_name : string;
  st_uses : list (string * list string);
  st_insert : option (string * list string);
  st_conflict : option (list string);
  st_result : list (string * string * string);
  st_scan : Scan;
}.

(** A result that keeps the names of the columns of one table. *)
Definition columns (t : string) (cs : list string) : list (string * string * string) := map (fun c => (c, t, c)) cs.

Definition insert_into (name t : string) (cs : list string) (conflict : option (list string)) : Statement :=
  {| st_name := name; st_uses := []; st_insert := Some (t, cs); st_conflict := conflict; st_result := []; st_scan := Exec |}.
Definition statement (name : string) (uses : list (string * list string)) (result : list (string * string * string)) (scan : Scan) : Statement :=
  {| st_name := name; st_uses := uses; st_insert := None; st_conflict := None; st_result := result; st_scan := scan |}.

(** [subscription/adapter/repository] *)
Definition repositoryRow : list (string * GoType) := [("id", GoUUID); ("name", GoString); ("created_at", GoTime)].
Definition subscriptionRow : list (string * GoType) :=
  [("id", GoUUID); ("repository_id", GoUUID); ("email", GoString); ("unsubscribe_token", GoString); ("confirmed", GoBool);
   ("created_at", GoTime)].
Definition subscriptionViewRow : list (string * GoType) := [("email", GoString); ("repo", GoString); ("confirmed", GoBool)].
Definition removedRow : list (string * GoType) := [("email", GoString); ("repo", GoString)].

Definition GetOrCreate_sql : Statement := {|
  st_name := "GetOrCreate"; st_uses := []; st_insert := Some ("repositories", ["name"]); st_conflict := Some ["name"];
  st_result := columns "repositories" ["id"; "name"; "created_at"]; st_scan := ByName repositoryRow |}.
Definition Create_sql : Statement :=
  insert_into "Create" "subscriptions" ["repository_id"; "email"; "unsubscribe_token"; "confirmed"] (Some ["email"; "repository_id"]).
Definition FindByEmailAndRepo_sql : Statement :=
  statement "FindByEmailAndRepo" [("subscriptions", ["email"; "repository_id"])]
    (columns "subscriptions" ["id"; "repository_id"; "email"; "unsubscribe_token"; "confirmed"; "created_at"]) (ByName subscriptionRow).
Definition Confirm_sql : Statement :=
  statement "Confirm" [("subscriptions", ["confirmed"; "repository_id"; "email"]); ("repositories", ["id"; "name"])]
    (columns "subscriptions" ["unsubscribe_token"]) (ScanInto [GoString]).
Definition Delete_sql : Statement :=
  statement "Delete" [("subscriptions", ["unsubscribe_token"; "email"; "repository_id"]); ("repositories", ["id"])]
    [("email", "subscriptions", "email"); ("name", "repositories", "name")] (ScanInto [GoString; GoString]).
Definition DeletePendingByEmailAndRepo_sql : Statement :=
  statement "DeletePendingByEmailAndRepo"
    [("subscriptions", ["repository_id"; "email"; "confirmed"]); ("repositories", ["id"; "name"])] [] Exec.
Definition DeleteExpiredPending_sql : Statement :=
  statement "DeleteExpiredPending"
    [("subscriptions", ["confirmed"; "created_at"; "email"; "repository_id"]); ("repositories", ["id"])]
    [("email", "subscriptions", "email"); ("name", "repositories", "name")] (ByName removedRow).
Definition GetByEmail_sql : Statement :=
  statement "GetByEmail" [("repositories", ["id"]); ("subscriptions", ["repository_id"; "email"; "created_at"])]
    [("email", "subscriptions", "email"); ("repo", "repositories", "name"); ("confirmed", "subscriptions", "confirmed")]
    (ByName subscriptionViewRow).

(** [notifier/adapter/repository] *)
Definition recipientRow : list (string * GoType) := [("email", GoString); ("unsub_token", GoString)].
Definition failedNotificationRow : list (string * GoType) :=
  [("id", GoInt); ("saga_id", GoString); ("repo_name", GoString); ("tag", GoString); ("release_url", GoString);
   ("email", GoString); ("reason", GoString); ("retry_count", GoInt)].
Definition failedConfirmationRow : list (string * GoType) :=
  [("id", GoInt); ("saga_id", GoString); ("email", GoString); ("repo_name", GoString); ("confirm_url", GoString);
   ("reason", GoString); ("retry_count", GoInt)].
Definition failed_confirmation_columns : list string :=
  ["id"; "saga_id"; "email"; "repo_name"; "confirm_url"; "reason"; "retry_count"].

Definition SubscriptionsRead_sql : list Statement :=
  [{| st_name := "Upsert"; st_uses := [("subscriptions_read", ["unsub_token"])];
      st_insert := Some ("subscriptions_read", ["email"; "repo_name"; "unsub_token"]);
      st_conflict := Some ["email"; "repo_name"]; st_result := []; st_scan := Exec |};
   statement "Delete" [("subscriptions_read", ["email"; "repo_name"])] [] Exec;
   statement "RecipientsByRepo" [("subscriptions_read", ["repo_name"])]
     (columns "subscriptions_read" ["email"; "unsub_token"]) (ByName recipientRow);
   statement "Recipient" [("subscriptions_read", ["email"; "repo_name"])]
     (columns "subscriptions_read" ["email"; "unsub_token"]) (ByName recipientRow)].
Definition FailedNotifications_sql : list Statement :=
  [insert_into "Add" "failed_notifications" ["saga_id"; "repo_name"; "tag"; "release_url"; "email"; "reason"]
     (Some ["repo_name"; "tag"; "email"]);
   statement "ListRetryable" [("failed_notifications", ["retry_count"; "failed_at"])]
     (columns "failed_notifications" ["id"; "saga_id"; "repo_name"; "tag"; "release_url"; "email"; "reason"; "retry_count"])
     (ByName failedNotificationRow);
   statement "IncrementRetry" [("failed_notifications", ["retry_count"; "id"])] [] Exec;
   statement "Delete" [("failed_notifications", ["id"])] [] Exec].
Definition FailedConfirmations_sql : list Statement :=
  [insert_into "Add" "failed_confirmations" ["saga_id"; "email"; "repo_name"; "confirm_url"; "reason"] (Some ["email"; "repo_name"]);
   statement "ListRetryable" [("failed_confirmations", ["retry_count"; "failed_at"])]
     (columns "failed_confirmations" failed_confirmation_columns) (ByName failedConfirmationRow);
   statement "ListExpired" [("failed_confirmations", ["failed_at"])]
     (columns "failed_confirmations" failed_confirmation_columns) (ByName failedConfirmationRow);
   statement "IncrementRetry" [("failed_confirmations", ["retry_count"; "id"])] [] Exec;
   statement "Delete" [("failed_confirmations", ["id"])] [] Exec].
Definition ProcessedReleases_sql : list Statement :=
  [statement "Exists" [("processed_releases", ["repo_name"; "tag"])] [] Computed;
   insert_into "Mark" "processed_releases" ["repo_name"; "tag"] (Some ["repo_name"; "tag"]);
   statement "DeleteProcessedBefore" [("processed_releases", ["processed_at"])] [] Exec].

(** [scanner/adapter/repository] *)
Definition watchedRepoRow : list (string * GoType) := [("repo_name", GoString); ("last_seen_tag", GoStringPtr); ("subscriber_count", GoInt)].

Definition WatchedRepos_sql : list Statement :=
  [{| st_name := "IncrementSubscriber"; st_uses := [("watched_repos", ["subscriber_count"])];
      st_insert := Some ("watched_repos", ["repo_name"; "subscriber_count"]); st_conflict := Some ["repo_name"];
      st_result := []; st_scan := Exec |};
   statement "DecrementSubscriber" [("watched_repos", ["subscriber_count"; "repo_name"])] [] Exec;
   statement "ListWatched" [("watched_repos", ["subscriber_count"])]
     (columns "watched_repos" ["repo_name"; "last_seen_tag"; "subscriber_count"]) (ByName watchedRepoRow);
   statement "AdvanceTag" [("watched_repos", ["last_seen_tag"; "repo_name"])] [] Exec].

(** [saga/adapter/repository] *)
Definition Sagas_sql : list Statement :=
  [{| st_name := "Start"; st_uses := [("sagas", ["id"; "state"; "updated_at"])];
      st_insert := Some ("sagas", ["id"; "type"; "state"; "email"; "repo_name"]); st_conflict := Some ["type"; "email"; "repo_name"];
      st_result := []; st_scan := Exec |};
   statement "TransitionByID" [("sagas", ["state"; "updated_at"; "id"])] [] Exec;
   statement "TransitionByEmailRepo" [("sagas", ["state"; "updated_at"; "type"; "email"; "repo_name"])] [] Exec;
   statement "Get" [("sagas", ["id"])]
     (columns "sagas" ["id"; "type"; "state"; "email"; "repo_name"; "created_at"; "updated_at"])
     (ScanInto [GoUUID; GoString; GoString; GoString; GoString; GoTime; GoTime])].

(** [infrastructure/outbox] *)
Definition Outbox_sql : list Statement :=
  [insert_into "Enqueue" "outbox_messages" ["subject"; "payload"] None;
   statement "selectLocked" [("outbox_messages", ["id"])]
     (columns "outbox_messages" ["id"; "subject"; "payload"]) (ScanInto [GoInt; GoString; GoBytes]);
   statement "flushBatch" [("outbox_messages", ["id"])] [] Exec].

Definition statements (svc : Service) : list Statement :=
  match svc with
  | SubscriptionService =>
      [GetOrCreate_sql; Create_sql; FindByEmailAndRepo_sql; Confirm_sql; Delete_sql; DeletePendingByEmailAndRepo_sql;
       DeleteExpiredPending_sql; GetByEmail_sql] ++ Outbox_sql
  | NotifierService =>
      SubscriptionsRead_sql ++ FailedNotifications_sql ++ FailedConfirmations_sql ++ ProcessedReleases_sql ++ Outbox_sql
  | ScannerService => WatchedRepos_sql
  | SagaService => Sagas_sql ++ Outbox_sql
  end.

(** *** When a statement fits the catalogue *)

Definition scannable (c : Column) (g : GoType) : bool :=
  match g, co_type c with
  | GoStringPtr, TEXT => true
  | GoUUID, UUIDType | GoString, TEXT | GoBool, BOOLEAN | GoTime, TIMESTAMPTZ | GoInt, BIGINT | GoInt, INTEGER
  | GoBytes, BYTEA => co_notnull c
  | _, _ => false
  end.

Definition result_column (s : Schema) (t c : string) : option Column := sm_tables s !! t ≫= fun tb => column_of tb c.

Definition fits_scan (s : Schema) (result : list (string * string * string)) (scan : Scan) : bool :=
  match scan with
  | Exec | Computed => bool_decide (result = [])
  | ScanInto gs =>
      bool_decide (length gs = length result) &&
      forallb (fun '((_, t, c), g) => match result_column s t c with Some col => scannable col g | None => false end) (zip result gs)
  | ByName fields =>
      same_columns (map (fun '(n, _, _) => n) result) (map fst fields) &&
      forallb (fun '(n, t, c) =>
        match result_column s t c, List.find (fun '(f, _) => String.eqb f n) fields with
        | Some col, Some (_, g) => scannable col g
        | _, _ => false
        end) result
  end.

(** The columns that a row must be given. *)
Definition required_columns (tb : Table) : list string :=
  map co_name (List.filter (fun c => co_notnull c && match co_gen c with NoDefault => true | _ => false end) (tb_columns tb)).
Definition generated_columns (tb : Table) : list string :=
  map co_name (List.filter (fun c => bool_decide (co_gen c = AlwaysIdentity)) (tb_columns tb)).

Definition fits (s : Schema) (st : Statement) : bool :=
  forallb (fun '(t, cs) => match sm_tables s !! t with Some tb => has_columns tb cs | None => false end) (st_uses st) &&
  match st_insert st with
  | None => true
  | Some (t, cs) =>
      match sm_tables s !! t with
      | None => false
      | Some tb =>
          has_columns tb cs && forallb (fun c => bool_decide (c ∈ cs)) (required_columns tb) &&
          forallb (fun c => negb (bool_decide (c ∈ cs))) (generated_columns tb) &&
          match st_conflict st with Some target => key_on tb target | None => true end
      end
  end &&
  fits_scan s (st_result st) (st_scan st).

(** ** What start-up makes of a database *)

(** The catalogue after these migrations. *)
Definition schema_at (ms : list Migration) : Schema :=
  match exec_all (flat_map mi_up ms) empty_schema with inr s => s | inl _ => empty_schema end.

Definition outbox_files (svc : Service) : list Migration := if has_outbox svc then fs_files outbox_Migrations else [].

Definition recorded (table : string) (v : nat) (vs : gmap string Z) : gmap string Z :=
  match v with O => vs | _ => <[table := Z.of_nat v]> vs end.

(** The database of a service whose releases so far have brought it to version
    [k] of its own migrations and [j] of the outbox's; a new one is [0] and [0]. *)
Definition left_by (svc : Service) (k j : nat) : Database := {|
  da_schema := schema_at (take k (fs_files (own_migrations svc)) ++ take j (outbox_files svc));
  da_versions := recorded defaultMigrationsTable k (recorded "outbox_schema_migrations" j ∅) |}.

Definition up_to_date (svc : Service) : Database :=
  left_by svc (length (fs_files (own_migrations svc))) (length (outbox_files svc)).

Section Guarantees.
Context {N : NetURL} {ML : MigrateLib} (databaseURL : string).

(** [Up] as far as its documentation determines it. *)
Definition documented_Up (ms : list Migration) (url table : string) (d : Database) : res unit * Database :=
  let p := pending ms (version_in table d) in
  match last p, exec_all (flat_map mi_up p) (da_schema d) with
  | None, _ => (Err (Sentinel migrate_ErrNoChange), d)
  | Some m, inr s => (Ok tt, {| da_schema := s; da_versions := <[table := mi_version m]> (da_versions d) |})
  | Some _, inl _ => migrate_Up ms url d
  end.

Lemma migrate_Up_documented ms url table d :
  migrations_table url = Some table -> migrate_Up ms url d = documented_Up ms url table d.
Proof.
  intros Ht. unfold documented_Up. destruct (last (pending ms (version_in table d))) as [m|] eqn:Hl.
  - apply last_Some in Hl as [later Hp]. rewrite Hp. destruct (exec_all _ _) as [|s] eqn:Hs; [done|].
    by eapply migrate_Up_some.
  - apply last_None in Hl. by eapply migrate_Up_none.
Qed.

Definition documented_run (fsys : EmbedFS) (url table : string) (d : Database) : res unit * Database :=
  match documented_Up (files_in fsys (migrationsRoot fsys)) url table d with
  | (Err e, d') => if errors_Is e migrate_ErrNoChange then (Ok tt, d') else (Err (Errorf "run migrations" e), d')
  | (Ok _, d') => (Ok tt, d')
  end.

Definition documented_start (svc : Service) (d : Database) : res unit * Database :=
  match documented_run (own_migrations svc) databaseURL defaultMigrationsTable d with
  | (Err e, d') => (Err (Errorf "run migrations" e), d')
  | (Ok _, d') =>
      if has_outbox svc then
        match documented_run outbox_Migrations (withMigrationsTable databaseURL "outbox_schema_migrations") "outbox_schema_migrations" d' with
        | (Err e, d'') => (Err (Errorf "run outbox migrations" e), d'')
        | (Ok _, d'') => (Ok tt, d'')
        end
      else (Ok tt, d')
  end.

Lemma start_documented svc d :
  migrations_table databaseURL = Some defaultMigrationsTable -> start_migrations databaseURL svc d = documented_start svc d.
Proof.
  intros Hu. unfold start_migrations, documented_start, documented_run, RunMigrationsFS.
  change (withMigrationsTable databaseURL _) with databaseURL at 1. rewrite (migrate_Up_documented _ _ _ _ Hu).
  destruct (documented_Up _ _ _) as [[[]|e] d1]; [|destruct (errors_Is _ _); [|done]]; (destruct (has_outbox svc); [|done]);
    by erewrite migrate_Up_documented by by eapply withMigrationsTable_names.
Qed.

(** From every version on, by evaluation. *)
Definition brings_up_to_date (svc : Service) (k j : nat) : bool :=
  match documented_start svc (left_by svc k j) with (Ok _, d) => bool_decide (d = up_to_date svc) | _ => false end.

Lemma started_brings svc k j :
  (k <= length (fs_files (own_migrations svc)))%nat -> (j <= length (outbox_files svc))%nat -> brings_up_to_date svc k j = true.
Proof.
  intros Hk Hj.
  assert (forallb (fun k => forallb (brings_up_to_date svc k) (seq 0 (S (length (outbox_files svc)))))
    (seq 0 (S (length (fs_files (own_migrations svc))))) = true) as Hall by (destruct svc; vm_compute; reflexivity).
  rewrite forallb_forall in Hall. specialize (Hall k ltac:(apply in_seq; lia)).
  rewrite forallb_forall in Hall. apply Hall, in_seq. lia.
Qed.

(** C20: Start-up brings the database to the schema that the code is
    written for.  With a database URL that can be parsed and names no table of
    versions itself, whatever earlier version of its own and of the outbox's
    migrations a service's database is at, none at all included, the start-up
    migrations succeed and leave the same catalogue and the same recorded versions,
    so that the next start changes nothing; and against that catalogue every
    statement of the service's repositories is well formed: its tables and columns
    exist, an INSERT gives every column that must be given and no identity column,
    its conflict target is a key, and what it returns can be scanned into the fields
    the code names.  The one exception is the clean-up's DELETE, which returns a
    column under a name that its row type does not have. *)
Theorem migrations_fit_code svc k j :
  migrations_table databaseURL = Some defaultMigrationsTable ->
  (k <= length (fs_files (own_migrations svc)))%nat -> (j <= length (outbox_files svc))%nat ->
  let '(r, d) := start_migrations databaseURL svc (left_by svc k j) in
  r = Ok tt /\ d = up_to_date svc /\
  forall st, st ∈ statements svc -> fits (da_schema d) st = true <-> st_name st <> "DeleteExpiredPending".
Proof.
  intros Hu Hk Hj. rewrite start_documented by done. pose proof (started_brings svc k j Hk Hj) as H.
  unfold brings_up_to_date in H.
  destruct (documented_start _ _) as [[[]|] d]; [|done]. apply bool_decide_eq_true in H as ->. split_and!; [done..|].
  intros st Hst. assert (forallb (fun st => Bool.eqb (fits (da_schema (up_to_date svc)) st)
    (negb (String.eqb (st_name st) "DeleteExpiredPending"))) (statements svc) = true) as Hall by (destruct svc; vm_compute; reflexivity).
  rewrite forallb_forall in Hall. apply list_elem_of_In, Hall, Bool.eqb_prop in Hst as ->.
  rewrite negb_true_iff. apply String.eqb_neq.
Qed.
End Guarantees.

(** *** Why the outbox has a table of versions of its own *)

(** Under the service's own table the outbox's only migration counts as applied:
    start-up reports success, and the outbox is never created. *)
Theorem outbox_needs_its_own_versions {N : NetURL} {ML : MigrateLib} databaseURL d :
  migrations_table databaseURL = Some defaultMigrationsTable -> version_in defaultMigrationsTable d = 1 ->
  RunMigrationsFS databaseURL outbox_Migrations [] d = (Ok tt, d).
Proof.
  intros Hu Hv. unfold RunMigrationsFS. change (withMigrationsTable databaseURL _) with databaseURL. erewrite migrate_Up_none; [done|exact Hu|].
  unfold files_in, pending. simpl. by rewrite Hv.
Qed.

(** ** Down *)

Definition all_migrations : list EmbedFS := [submigrations; notifmigrations; scanmigrations; sagamigrations; outbox_Migrations].

(** Tables and the names of their columns. *)
Definition column_names (s : Schema) : gmap string (gset string) :=
  (fun tb => list_to_set (map co_name (tb_columns tb))) <$> sm_tables s.

(** One migration undone and done again, as a test. *)
Definition step_undoable (m : Migration) (before after : Schema) : bool :=
  bool_decide (exec_all (mi_up m) before = inr after) && bool_decide (exec_all (mi_up m) after = inr after) &&
  match exec_all (mi_down m) after with
  | inl _ => false
  | inr s => bool_decide (column_names s = column_names before) && bool_decide (exec_all (mi_up m) s = inr after) &&
             (bool_decide (m = cutover_jwt_and_drop_tracking) || bool_decide (s = before))
  end.

Lemma step_undoable_spec m before after :
  step_undoable m before after = true ->
  exec_all (mi_up m) before = inr after /\ exec_all (mi_up m) after = inr after /\
  exists s, exec_all (mi_down m) after = inr s /\ column_names s = column_names before /\
    exec_all (mi_up m) s = inr after /\ (m <> cutover_jwt_and_drop_tracking -> s = before).
Proof.
  unfold step_undoable. intros [[H1 H2]%andb_prop H]%andb_prop. destruct (exec_all (mi_down m) after) as [|s]; [done|].
  apply andb_prop in H as [[H3 H4]%andb_prop H5].
  repeat match goal with H : bool_decide _ = true |- _ => apply bool_decide_eq_true in H end.
  split_and!; [done..|]. exists s. split_and!; [done..|]. intros Hm.
  apply orb_prop in H5 as [H5|H5]; apply bool_decide_eq_true in H5; done.
Qed.

Definition undoable (fsys : EmbedFS) : bool :=
  bool_decide (exec_all (flat_map mi_down (reverse (fs_files fsys))) (schema_at (fs_files fsys)) = inr empty_schema) &&
  forallb (fun k => match fs_files fsys !! k with
    | Some m => step_undoable m (schema_at (take k (fs_files fsys))) (schema_at (take (S k) (fs_files fsys)))
    | None => true
    end) (seq 0 (length (fs_files fsys))).

(** C22: Every migration can be undone and done again.  Its down script, run
    right after its up script, succeeds, leaves the tables and columns there were
    before, and the up script then leads to where it led before; the catalogue is
    exactly the earlier one, except for the cut-over to stateless tokens, whose
    column comes back nullable and without its UNIQUE constraint, as its script
    says.  Running an up script twice changes nothing more, and undoing all
    migrations leaves an empty catalogue. *)
Theorem migrations_reversible fsys :
  fsys ∈ all_migrations ->
  exec_all (flat_map mi_down (reverse (fs_files fsys))) (schema_at (fs_files fsys)) = inr empty_schema /\
  forall k m, fs_files fsys !! k = Some m ->
    let before := schema_at (take k (fs_files fsys)) in
    let after := schema_at (take (S k) (fs_files fsys)) in
    exec_all (mi_up m) before = inr after /\ exec_all (mi_up m) after = inr after /\
    exists s, exec_all (mi_down m) after = inr s /\ column_names s = column_names before /\
      exec_all (mi_up m) s = inr after /\ (m <> cutover_jwt_and_drop_tracking -> s = before).
Proof.
  intros Hf. assert (forallb undoable all_migrations = true) as Hall by (vm_compute; reflexivity).
  rewrite forallb_forall in Hall. apply list_elem_of_In, Hall in Hf as [Hd Hs]%andb_prop. split.
  { by apply bool_decide_eq_true in Hd. }
  intros k m Hk. rewrite forallb_forall in Hs. assert (k < length (fs_files fsys))%nat by by eapply lookup_lt_Some.
  specialize (Hs k ltac:(apply in_seq; lia)). rewrite Hk in Hs. by apply step_undoable_spec.
Qed.

(** What is lost: the token's column is no key any more. *)
Example cutover_not_restored :
  exists s tb, exec_all (mi_down cutover_jwt_and_drop_tracking) (schema_at (fs_files submigrations)) = inr s /\
    sm_tables s !! "subscriptions" = Some tb /\ key_on tb ["confirm_token"] = false /\
    co_notnull <$> column_of tb "confirm_token" = Some false.
Proof. do 2 eexists. split_and!; vm_compute; reflexivity. Qed.

(** ** Witnesses *)

(** URLs without anything to escape before the query. *)
#[program] Definition plain_url : NetURL := {|
  url_front s := if contains "?" s || contains "#" s || containsCTL s then None else Some s;
  url_fragment s := Some s |}.
Next Obligation.
  intros s f. simpl. destruct (contains "?" s) eqn:H1, (contains "#" s) eqn:H2, (containsCTL s) eqn:H3; simpl; try done.
  intros [= <-]. done.
Qed.
Next Obligation. intros s f. simpl. destruct (_ || _) eqn:H; [done|]. intros [= <-]. by rewrite H. Qed.
Next Obligation. intros s f Hs [= <-]. done. Qed.
#[local] Existing Instance plain_url.

Definition demo_url : string := "postgres://saga:p%40ss@db:5432/saga?sslmode=disable&options=-c%20search_path%3Dsaga".

Definition demo_parsed : URL := {|
  u_front := "postgres://saga:p%40ss@db:5432/saga"; u_ForceQuery := false;
  u_RawQuery := "sslmode=disable&options=-c%20search_path%3Dsaga"; u_Fragment := "" |}.

(** The library with nothing but its documentation. *)
#[program] Definition plain_migrate : MigrateLib := {|
  migrate_Up ms url d :=
    let table := default "" (migrations_table url) in
    let p := pending ms (version_in table d) in
    match last p, exec_all (flat_map mi_up p) (da_schema d) with
    | None, _ => (Err (Sentinel migrate_ErrNoChange), d)
    | Some m, inr s => (Ok tt, {| da_schema := s; da_versions := <[table := mi_version m]> (da_versions d) |})
    | Some _, inl e => (Err (ErrText e), d)
    end |}.
Next Obligation. intros ms url table d Ht Hp. simpl. rewrite Ht. simpl. by rewrite Hp. Qed.
Next Obligation. intros ms url table d m later s Ht Hp Hs. simpl. rewrite Ht. simpl. by rewrite Hp, last_snoc, Hs. Qed.

Lemma migrations_fit_code_witness :
  fst (start_migrations (ML := plain_migrate) demo_url SagaService (left_by SagaService 0 0)) = Ok tt /\
  dom (sm_tables (da_schema (up_to_date SagaService))) = {["sagas"; "outbox_messages"]} /\
  fits (da_schema (up_to_date SagaService)) (insert_into "Enqueue" "outbox_messages" ["subject"; "payload"] None) = true.
Proof.
  pose proof (migrations_fit_code (N := plain_url) (ML := plain_migrate) demo_url SagaService 0 0 ltac:(vm_compute; reflexivity) ltac:(simpl; lia) ltac:(simpl; lia)) as H.
  destruct (start_migrations demo_url SagaService (left_by SagaService 0 0)) as [r d]. destruct H as (-> & -> & Hfit).
  split_and!; [reflexivity|vm_compute; reflexivity|]. apply Hfit; [|discriminate]. do 4 right. left.
Defined.

Lemma migrations_table_named_witness :
  withMigrationsTable demo_url "outbox_schema_migrations" =
    "postgres://saga:p%40ss@db:5432/saga?options=-c+search_path%3Dsaga&sslmode=disable&x-migrations-table=outbox_schema_migrations" /\
  exists u', url_Parse (withMigrationsTable demo_url "outbox_schema_migrations") = Some u' /\
    Query u' !! "options" = Some ["-c search_path=saga"].
Proof.
  split; [vm_compute; reflexivity|].
  destruct (migrations_table_named (N := plain_url) demo_url "outbox_schema_migrations" demo_parsed ltac:(vm_compute; reflexivity)) as (u' & Hu & _ & _ & _ & Hq).
  exists u'. split; [exact Hu|]. rewrite Hq by (right; discriminate). vm_compute. reflexivity.
Defined.

Lemma migrations_reversible_witness :
  exec_all (mi_up create_sagas) empty_schema = inr (schema_at [create_sagas]) /\
  exec_all (mi_down create_sagas) (schema_at [create_sagas]) = inr empty_schema.
Proof.
  destruct (migrations_reversible sagamigrations ltac:(do 3 right; left)) as [_ H].
  destruct (H 0%nat create_sagas eq_refl) as (H1 & _ & s & H2 & _ & _ & H3). split; [exact H1|].
  rewrite H3 in H2; [exact H2|discriminate].
Defined.

(** In a database where the saga service's own migrations are at version 1. *)
Lemma outbox_needs_its_own_versions_witness :
  RunMigrationsFS (ML := plain_migrate) demo_url outbox_Migrations [] (left_by SagaService 1 0) = (Ok tt, left_by SagaService 1 0) /\
  sm_tables (da_schema (left_by SagaService 1 0)) !! "outbox_messages" = None.
Proof. split; [by apply (outbox_needs_its_own_versions (ML := plain_migrate)); vm_compute|vm_compute; reflexivity]. Defined.
