(* ===== verification/Relays.v ===== *)
(** * Several relays on one outbox

    Every instance of a service runs a relay, and the use cases commit new
    messages while a relay is at work.  [Outbox.v] takes the rows that other
    sessions hold as given; here they are those of the other relays.  A session
    is what [flushBatch] does between [Begin] and [Commit] ([flushBatch_session]),
    cut where the database and the bus see it: the SELECT that locks a batch, each
    publication, and the commit of the DELETE, which applies to the outbox as it
    is then.  A session may end at any time without a commit. *)

From S2P Require Import Prelude GoErrors Effects Wp Sql Json Events Broker Outbox OutboxFacts Quiet.

Open Scope string_scope.
Open Scope list_scope.
Open Scope Z_scope.

(** An open transaction of a relay: the rows it has locked, those of them the
    bus has acknowledged, and whether a publication was refused. *)
Record Session := { ss_batch : list OutboxRow; ss_sent : list OutboxRow; ss_refused : bool }.

(** What the session publishes next. *)
Definition ss_next (ss : Session) : option OutboxRow :=
  if ss_refused ss then None else head (drop (length (ss_sent ss)) (ss_batch ss)).

Section Relays.
Context {D : Type} {HO : HasOutbox D}.
Variable batchSize : Z.

(** The committed database and the open sessions; with every row that was ever in
    the outbox, the publications acknowledged, and those of them whose session
    ended without a commit. *)
Record Relays := {
  rl_db : D;
  rl_open : list Session;
  rl_seen : list OutboxRow;
  rl_delivered : list OutboxRow;
  rl_lost : list OutboxRow;
}.

Definition rl_start (d : D) : Relays :=
  {| rl_db := d; rl_open := []; rl_seen := outbox d; rl_delivered := []; rl_lost := [] |}.

(** The rows that are locked. *)
Definition held (l : list Session) : list OutboxRow := flat_map ss_batch l.

(** Statements run in a context that knows these locks. *)
Definition sees_locks (l : list Session) (sc : SqlCtx) : Prop :=
  forall id, sc_locked sc id = true <-> id ∈ map om_id (held l).

Definition open_with (l : list Session) (s : Relays) : Relays :=
  {| rl_db := rl_db s; rl_open := l; rl_seen := rl_seen s; rl_delivered := rl_delivered s; rl_lost := rl_lost s |}.

Inductive rl_step (s : Relays) : Relays -> Prop :=
| RlSelect sc rows d :
    sees_locks (rl_open s) sc -> select_locked_stmt batchSize sc (rl_db s) = inr (rows, d) -> rows <> [] ->
    rl_step s (open_with (rl_open s ++ [{| ss_batch := rows; ss_sent := []; ss_refused := false |}]) s)
| RlAccepted pre ss post r :
    rl_open s = pre ++ ss :: post -> ss_next ss = Some r ->
    rl_step s
      {| rl_db := rl_db s;
         rl_open := pre ++ {| ss_batch := ss_batch ss; ss_sent := ss_sent ss ++ [r]; ss_refused := false |} :: post;
         rl_seen := rl_seen s; rl_delivered := rl_delivered s ++ [r]; rl_lost := rl_lost s |}
| RlRefused pre ss post r :
    rl_open s = pre ++ ss :: post -> ss_next ss = Some r ->
    rl_step s (open_with (pre ++ {| ss_batch := ss_batch ss; ss_sent := ss_sent ss; ss_refused := true |} :: post) s)
| RlCommit pre ss post sc d :
    rl_open s = pre ++ ss :: post -> ss_next ss = None -> ss_sent ss <> [] ->
    delete_published_stmt (map om_id (ss_sent ss)) sc (rl_db s) = inr (tt, d) ->
    rl_step s
      {| rl_db := d; rl_open := pre ++ post; rl_seen := rl_seen s; rl_delivered := rl_delivered s; rl_lost := rl_lost s |}
| RlEnd pre ss post :
    rl_open s = pre ++ ss :: post ->
    rl_step s
      {| rl_db := rl_db s; rl_open := pre ++ post; rl_seen := rl_seen s; rl_delivered := rl_delivered s;
         rl_lost := rl_lost s ++ ss_sent ss |}
| RlEnqueue subject payload sc d :
    (* the sequence hands out no id twice *)
    sc_nextval sc ∉ map om_id (rl_seen s) ->
    insert_outbox_stmt subject payload sc (rl_db s) = inr (tt, d) ->
    rl_step s
      {| rl_db := d; rl_open := rl_open s;
         rl_seen := rl_seen s ++ [{| om_id := sc_nextval sc; om_subject := subject; om_payload := payload; om_created_at := sc_now sc |}];
         rl_delivered := rl_delivered s; rl_lost := rl_lost s |}
| RlOther d :
    outbox d = outbox (rl_db s) ->
    rl_step s
      {| rl_db := d; rl_open := rl_open s; rl_seen := rl_seen s; rl_delivered := rl_delivered s; rl_lost := rl_lost s |}.

(** ** The invariant *)

Definition in_flight (l : list Session) : list OutboxRow := flat_map ss_sent l.

Record relays_inv (s : Relays) : Prop := {
  ri_seen : unique_on om_id (rl_seen s);
  ri_held : NoDup (map om_id (held (rl_open s)));
  ri_outbox : held (rl_open s) ⊆ outbox (rl_db s);
  ri_sent : Forall (fun ss => ss_sent ss `prefix_of` ss_batch ss) (rl_open s);
  ri_account : exists gone,
    rl_seen s ≡ₚ outbox (rl_db s) ++ gone /\ rl_delivered s ≡ₚ gone ++ in_flight (rl_open s) ++ rl_lost s;
  ri_lost : rl_lost s ⊆ rl_seen s;
}.

Lemma in_flight_held l : Forall (fun ss => ss_sent ss `prefix_of` ss_batch ss) l -> in_flight l ⊆ held l.
Proof.
  induction 1 as [|ss l [rest Hp] _ IH]; [done|]. unfold in_flight, held in *. simpl. rewrite Hp. set_solver.
Qed.

Lemma in_flight_NoDup l :
  Forall (fun ss => ss_sent ss `prefix_of` ss_batch ss) l -> NoDup (map om_id (held l)) -> NoDup (in_flight l).
Proof.
  induction 1 as [|ss l [rest Hp] Hs IH]; [constructor|]. unfold in_flight, held in *. simpl.
  rewrite map_app. intros (H1 & H2 & H3)%NoDup_app. apply NoDup_app. split_and!; [| |by apply IH].
  - apply (NoDup_fmap_1 om_id). rewrite Hp, map_app in H1. by apply NoDup_app in H1 as [? _].
  - intros r Hr Hr'. apply (H2 (om_id r)); apply list_elem_of_fmap_2; [rewrite Hp; set_solver|].
    by apply in_flight_held in Hr'.
Qed.

Lemma ri_unique s : relays_inv s -> unique_on om_id (outbox (rl_db s)).
Proof.
  intros [Hu _ _ _ (gone & Hs & _) _]. unfold unique_on in *. rewrite Hs, map_app in Hu. by apply NoDup_app in Hu as [? _].
Qed.

Lemma held_middle pre ss post : held (pre ++ ss :: post) ≡ₚ ss_batch ss ++ held (pre ++ post).
Proof. unfold held. rewrite !flat_map_app. simpl. by rewrite Permutation_app_swap_app. Qed.

Lemma in_flight_middle pre ss post : in_flight (pre ++ ss :: post) ≡ₚ ss_sent ss ++ in_flight (pre ++ post).
Proof. unfold in_flight. rewrite !flat_map_app. simpl. by rewrite Permutation_app_swap_app. Qed.

(** A session that ends frees its rows. *)
Lemma held_rest pre ss post :
  NoDup (map om_id (held (pre ++ ss :: post))) ->
  NoDup (map om_id (held (pre ++ post))) /\ NoDup (map om_id (ss_batch ss)) /\
  forall r r', r ∈ ss_batch ss -> r' ∈ held (pre ++ post) -> om_id r <> om_id r'.
Proof.
  rewrite held_middle, map_app. intros (H1 & H2 & H3)%NoDup_app. split_and!; [done..|].
  intros r r' Hr Hr' He. apply (H2 (om_id r)); [by apply list_elem_of_fmap_2|rewrite He; by apply list_elem_of_fmap_2].
Qed.

Lemma sent_middle (pre : list Session) ss post :
  Forall (fun ss => ss_sent ss `prefix_of` ss_batch ss) (pre ++ ss :: post) ->
  ss_sent ss `prefix_of` ss_batch ss /\ Forall (fun ss => ss_sent ss `prefix_of` ss_batch ss) (pre ++ post).
Proof. rewrite !Forall_app, Forall_cons. tauto. Qed.

(** A session that goes on with the same rows. *)
Lemma session_inv s pre ss post sent refused acc :
  relays_inv s -> rl_open s = pre ++ ss :: post -> sent `prefix_of` ss_batch ss -> sent = ss_sent ss ++ acc ->
  relays_inv
    {| rl_db := rl_db s; rl_open := pre ++ {| ss_batch := ss_batch ss; ss_sent := sent; ss_refused := refused |} :: post;
       rl_seen := rl_seen s; rl_delivered := rl_delivered s ++ acc; rl_lost := rl_lost s |}.
Proof.
  intros [Hu Hh Ho Hs (gone & H1 & H2) Hlo] He Hp Hacc. rewrite He in *. apply sent_middle in Hs as [_ Hs].
  split; simpl; [done| | | | |done].
  - by rewrite held_middle in Hh |- *.
  - intros r Hr. apply Ho. by rewrite held_middle in Hr |- *.
  - apply Forall_app in Hs as [? ?]. apply Forall_app. split; [done|by constructor].
  - exists gone. split; [done|]. rewrite H2, !in_flight_middle, Hacc. simpl. solve_Permutation.
Qed.

(** What the commit deletes is what was published. *)
Lemma delete_sent (l sent : list OutboxRow) :
  unique_on om_id l -> NoDup (map om_id sent) -> sent ⊆ l ->
  l ≡ₚ delete_where (fun r => bool_decide (om_id r ∈ map om_id sent)) l ++ sent.
Proof.
  intros Hu Hn Hsub. apply NoDup_Permutation; [by apply unique_on_NoDup in Hu| |].
  - apply NoDup_app. split_and!; [by eapply unique_on_NoDup, unique_on_delete| |by eapply NoDup_fmap_1].
    intros r [_ Hr]%elem_of_delete Hin. apply bool_decide_eq_false in Hr. apply Hr. by apply list_elem_of_fmap_2.
  - intros r. rewrite elem_of_app, elem_of_delete. split; [intros Hr|by intros [[? _]|?%Hsub]].
    case_bool_decide as Hin; [right|by left]. apply list_elem_of_fmap in Hin as (r' & He & Hr').
    by rewrite (unique_on_eq om_id l r r') by auto.
Qed.

Lemma commit_inv s pre ss post sc d :
  relays_inv s -> rl_open s = pre ++ ss :: post ->
  delete_published_stmt (map om_id (ss_sent ss)) sc (rl_db s) = inr (tt, d) ->
  relays_inv
    {| rl_db := d; rl_open := pre ++ post; rl_seen := rl_seen s; rl_delivered := rl_delivered s; rl_lost := rl_lost s |}.
Proof.
  intros Hinv He [= <-]. pose proof (ri_unique s Hinv) as Huo. destruct Hinv as [Hu Hh Ho Hs (gone & H1 & H2) Hlo].
  rewrite He in *. apply sent_middle in Hs as [[rest Hp] Hs]. apply held_rest in Hh as (Hh & Hb & Hd).
  assert (ss_sent ss ⊆ ss_batch ss) as Hsb by (rewrite Hp; set_solver).
  assert (held (pre ++ post) ⊆ outbox (rl_db s) /\ ss_batch ss ⊆ outbox (rl_db s)) as [Hho Hbo].
  { split; intros r Hr; apply Ho; rewrite held_middle; set_solver. }
  assert (NoDup (map om_id (ss_sent ss))) as Hn.
  { rewrite Hp, map_app in Hb. by apply NoDup_app in Hb as [? _]. }
  split; simpl; rewrite ?outbox_set; [done..| |done| |done].
  - intros r Hr. apply elem_of_delete. split; [by apply Hho|]. apply bool_decide_eq_false.
    intros (r' & Hid & Hr')%list_elem_of_fmap. by apply (Hd r' r (Hsb _ Hr') Hr).
  - exists (gone ++ ss_sent ss). split.
    + rewrite H1. rewrite (delete_sent (outbox (rl_db s)) (ss_sent ss)) at 1 by (set_solver). solve_Permutation.
    + rewrite H2, in_flight_middle. solve_Permutation.
Qed.

Lemma batch_unique locked d : unique_on om_id (outbox d) -> NoDup (map om_id (batch batchSize locked d)).
Proof.
  intros Hu. unfold batch. assert (unique_on om_id (select_where (fun r => negb (locked (om_id r))) (order_by om_id (outbox d)))) as Hs.
  { apply unique_on_delete. unfold unique_on. by rewrite order_by_perm. }
  unfold unique_on in Hs. set (l := select_where _ _) in *. rewrite <- (take_drop (Z.to_nat batchSize) l), map_app in Hs. by apply NoDup_app in Hs as [? _].
Qed.

Lemma select_inv s sc rows d :
  relays_inv s -> sees_locks (rl_open s) sc -> select_locked_stmt batchSize sc (rl_db s) = inr (rows, d) ->
  relays_inv (open_with (rl_open s ++ [{| ss_batch := rows; ss_sent := []; ss_refused := false |}]) s).
Proof.
  intros Hinv Hl Hst. pose proof (ri_unique s Hinv) as Huo. destruct Hinv as [Hu Hh Ho Hs (gone & H1 & H2) Hlo].
  unfold select_locked_stmt in Hst. destruct (batchSize <? 0); [done|]. injection Hst as <- <-.
  fold (batch batchSize (sc_locked sc) (rl_db s)) in *. set (rows := batch batchSize (sc_locked sc) (rl_db s)).
  assert (forall r, r ∈ rows -> r ∈ outbox (rl_db s) /\ sc_locked sc (om_id r) = false) as Hrows.
  { intros r Hr. apply elem_of_take in Hr as (i & Hr & _). apply list_elem_of_lookup_2, elem_of_select in Hr as [Hr Hn].
    rewrite order_by_perm in Hr. by apply negb_true_iff in Hn. }
  pose proof (batch_unique (sc_locked sc) (rl_db s) Huo) as Hn. fold rows in Hn.
  pose proof (held_middle (rl_open s) {| ss_batch := rows; ss_sent := []; ss_refused := false |} []) as Hhm.
  pose proof (in_flight_middle (rl_open s) {| ss_batch := rows; ss_sent := []; ss_refused := false |} []) as Him.
  rewrite app_nil_r in Hhm, Him. simpl in Hhm, Him. split; simpl; [done| | | | |done].
  - rewrite Hhm, map_app. apply NoDup_app. split_and!; [done| |done]. intros id (r & -> & Hr)%list_elem_of_fmap Hin.
    apply Hrows in Hr as [_ Hr]. by rewrite (proj2 (Hl _) Hin) in Hr.
  - intros r Hr. rewrite Hhm, elem_of_app in Hr. destruct Hr as [Hr|Hr]; [by apply Hrows|by apply Ho].
  - apply Forall_app. split; [done|]. repeat constructor. apply prefix_nil.
  - exists gone. by rewrite Him.
Qed.

Lemma end_inv s pre ss post :
  relays_inv s -> rl_open s = pre ++ ss :: post ->
  relays_inv
    {| rl_db := rl_db s; rl_open := pre ++ post; rl_seen := rl_seen s; rl_delivered := rl_delivered s;
       rl_lost := rl_lost s ++ ss_sent ss |}.
Proof.
  intros [Hu Hh Ho Hs (gone & H1 & H2) Hlo] He. rewrite He in *. apply sent_middle in Hs as [Hss Hs].
  apply held_rest in Hh as (Hh & _). split; simpl; try done.
  - intros r Hr. apply Ho. rewrite held_middle. set_solver.
  - exists gone. split; [done|]. rewrite H2, in_flight_middle. solve_Permutation.
  - intros r [?%Hlo|Hr]%elem_of_app; [done|]. rewrite H1, elem_of_app. left. apply Ho. rewrite held_middle.
    apply elem_of_app. left. destruct Hss as [rest ->]. set_solver.
Qed.

Lemma enqueue_inv s subject payload sc d :
  relays_inv s -> sc_nextval sc ∉ map om_id (rl_seen s) ->
  insert_outbox_stmt subject payload sc (rl_db s) = inr (tt, d) ->
  relays_inv
    {| rl_db := d; rl_open := rl_open s;
       rl_seen := rl_seen s ++ [{| om_id := sc_nextval sc; om_subject := subject; om_payload := payload; om_created_at := sc_now sc |}];
       rl_delivered := rl_delivered s; rl_lost := rl_lost s |}.
Proof.
  intros [Hu Hh Ho Hs (gone & H1 & H2) Hlo] Hid Hst. unfold insert_outbox_stmt in Hst.
  destruct (bigint_max <? sc_nextval sc); [done|]. destruct (exists_where _ _); [done|]. injection Hst as <-.
  set (row := {| om_id := _ |}). split; simpl; rewrite ?outbox_set; unfold insert_row; try done.
  - unfold unique_on in *. rewrite map_app. apply NoDup_app. split_and!; [done| |apply NoDup_singleton].
    by intros id Hin ->%list_elem_of_singleton.
  - intros r Hr. apply elem_of_app. left. by apply Ho.
  - exists gone. split; [|done]. rewrite H1. solve_Permutation.
  - intros r Hr. apply elem_of_app. left. by apply Hlo.
Qed.

Lemma rl_step_inv s s' : rl_step s s' -> relays_inv s -> relays_inv s'.
Proof.
  intros Hstep Hinv. destruct Hstep as [sc rows d Hl Hst _|pre ss post r He Hn|pre ss post r He Hn|pre ss post sc d He _ _ Hst|
    pre ss post He|subject payload sc d Hid Hst|d Hd].
  - by eapply select_inv.
  - apply (session_inv s pre ss post _ _ [r]); [done..| |done]. pose proof (ri_sent s Hinv) as Hs. rewrite He in Hs.
    apply sent_middle in Hs as [[rest Hp] _]. unfold ss_next in Hn. destruct (ss_refused ss); [done|].
    rewrite Hp, drop_app_length in Hn. destruct rest as [|r' rest]; [done|]. injection Hn as ->.
    exists rest. by rewrite Hp, <- app_assoc.
  - pose proof (ri_sent s Hinv) as Hs. rewrite He in Hs. apply sent_middle in Hs as [Hp _].
    pose proof (session_inv s pre ss post _ true [] Hinv He Hp ltac:(by rewrite app_nil_r)) as H. by rewrite app_nil_r in H.
  - by eapply commit_inv.
  - by apply end_inv.
  - by eapply enqueue_inv.
  - destruct Hinv as [Hu Hh Ho Hs Ha Hlo]. by split; simpl; rewrite ?Hd.
Qed.

Lemma rl_run_inv s s' : rtc rl_step s s' -> relays_inv s -> relays_inv s'.
Proof. induction 1; eauto using rl_step_inv. Qed.

Lemma rl_start_inv d : unique_on om_id (outbox d) -> relays_inv (rl_start d).
Proof.
  intros Hu. split; simpl; [done|constructor|by intros r ?%elem_of_nil|constructor| |by intros r ?%elem_of_nil].
  exists []. by rewrite app_nil_r.
Qed.
(** ** A batch is a session *)

Lemma session_publishes rows sent0 sent rest l db seen del lost :
  rows = sent0 ++ sent ++ rest ->
  rtc rl_step
    {| rl_db := db; rl_open := l ++ [{| ss_batch := rows; ss_sent := sent0; ss_refused := false |}]; rl_seen := seen;
       rl_delivered := del; rl_lost := lost |}
    {| rl_db := db; rl_open := l ++ [{| ss_batch := rows; ss_sent := sent0 ++ sent; ss_refused := false |}]; rl_seen := seen;
       rl_delivered := del ++ sent; rl_lost := lost |}.
Proof.
  revert sent0 del. induction sent as [|r sent IH]; intros sent0 del Hrows; [by rewrite !app_nil_r|].
  eapply rtc_l; [eapply (RlAccepted _ l _ [] r); [done|]|].
  - unfold ss_next. simpl. by rewrite Hrows, drop_app_length.
  - simpl. rewrite (cons_middle r sent0 sent), (cons_middle r del sent), (app_assoc sent0), (app_assoc del).
    apply IH. by rewrite Hrows, <- !app_assoc.
Qed.

(** Locks that do not change while a relay is at work. *)
Lemma flushBatch_session {E : Env} {BP : BusPublisher D} ctx (w w' : World D) r s :
  rl_db s = w_db w -> w_tx w = None -> (forall n id, env_locked n id = true <-> id ∈ map om_id (held (rl_open s))) ->
  flushBatch batchSize ctx w = (r, w') ->
  exists s' sent, rtc rl_step s s' /\ rl_db s' = w_db w' /\ rl_open s' = rl_open s /\ rl_seen s' = rl_seen s /\
    rl_delivered s' = rl_delivered s ++ sent /\ accepted (w_trace w') = accepted (w_trace w) ++ map wire sent.
Proof.
  intros Hdb Htx Hl Hf. pose proof (flushBatch_spec batchSize ctx w Htx) as Hp. unfold wp in Hp. rewrite Hf in Hp.
  destruct Hp as (_ & _ & locked & sent & refused & _ & Htr & (Hpre & Hall & n & ->) & Hend). simpl in *.
  rewrite Htr, accepted_app, accepted_batch. set (rows := batch batchSize (env_locked n) (w_db w)) in *.
  destruct (decide (rows = [])) as [He|Hne].
  { rewrite He in Hpre. apply prefix_nil_inv in Hpre. apply app_nil in Hpre as [-> Hpre].
    exists s, []. rewrite app_nil_r. split_and!; try done. destruct Hend as [[? _]|(_ & ? & _)]; [congruence|done]. }
  destruct Hpre as [rest Hrows]. rewrite <- app_assoc in Hrows.
  set (sc := {| sc_now := 0; sc_uuid := ""; sc_nextval := 0; sc_locked := env_locked n |}).
  set (ss := fun sent refused => {| ss_batch := rows; ss_sent := sent; ss_refused := refused |}).
  set (at_ := fun l x => {| rl_db := rl_db s; rl_open := l; rl_seen := rl_seen s; rl_delivered := rl_delivered s ++ x; rl_lost := rl_lost s |}).
  assert (rtc rl_step s (at_ (rl_open s ++ [ss sent (match refused with Some _ => true | None => false end)]) sent)) as Hpub.
  { eapply rtc_l; [apply (RlSelect s sc rows (rl_db s)); [intros id; apply Hl| |done]|].
    { unfold select_locked_stmt. destruct (Z.ltb_spec batchSize 0); [|by rewrite Hdb].
      exfalso. apply Hne. unfold rows, batch. by rewrite Z2Nat.nonpos by lia. }
    etrans; [exact (session_publishes rows [] sent (option_list refused ++ rest) _ _ _ _ _ Hrows)|].
    destruct refused as [m|]; [|done]. apply rtc_once.
    refine (RlRefused (at_ (rl_open s ++ [ss sent false]) sent) (rl_open s) (ss sent false) [] m eq_refl _). unfold ss_next. simpl. by rewrite Hrows, drop_app_length. }
  destruct Hend as [[Hdb' _]|(Hdb' & Hs & _)].
  - eexists _, sent. split; [eapply rtc_r; [exact Hpub|exact (RlEnd (at_ _ sent) (rl_open s) _ [] eq_refl)]|]. simpl. rewrite app_nil_r. split_and!; congruence.
  - eexists _, sent. split; [eapply rtc_r; [exact Hpub|]|].
    + refine (RlCommit (at_ _ sent) (rl_open s) (ss sent _) [] sc _ eq_refl _ Hs eq_refl). unfold ss_next. simpl.
      destruct refused; [done|]. destruct (Hall eq_refl) as [?|Hr]; [done|]. rewrite Hr at 1. by rewrite drop_all.
    + simpl. rewrite app_nil_r. split_and!; [|done..]. by rewrite Hdb', Hdb.
Qed.

(** ** Guarantees *)

(** C3: Any number of relays can share an outbox.  However their
    batches, publications, refusals, commits and crashes interleave with each
    other and with transactions that enqueue: no row is in two batches at once;
    no message is lost, since every row that was ever committed to the outbox is
    still there or was delivered; nothing else is delivered; and apart from the
    deliveries whose session ended without committing the DELETE, no row is
    delivered twice. *)
Theorem relays_share_outbox d s :
  unique_on om_id (outbox d) -> rtc rl_step (rl_start d) s ->
  NoDup (map om_id (held (rl_open s))) /\
  (forall r, r ∈ rl_seen s -> r ∈ outbox (rl_db s) \/ r ∈ rl_delivered s) /\
  (forall r, r ∈ rl_delivered s -> r ∈ rl_seen s) /\
  exists once, rl_delivered s ≡ₚ once ++ rl_lost s /\ NoDup once /\
    forall r, r ∈ rl_seen s -> r ∉ outbox (rl_db s) -> r ∈ once.
Proof.
  intros Hu Hrun. pose proof (rl_run_inv _ _ Hrun (rl_start_inv d Hu)) as Hinv.
  pose proof (ri_lost s Hinv) as Hlost.
  destruct Hinv as [Hseen Hh Ho Hs (gone & H1 & H2)].
  assert (in_flight (rl_open s) ⊆ held (rl_open s)) as Hif by by apply in_flight_held.
  assert (NoDup (rl_seen s)) as Hn by by eapply unique_on_NoDup.
  rewrite H1 in Hn. apply NoDup_app in Hn as (Hno & Hdisj & Hng).
  split; [done|]. split_and!.
  - intros r. rewrite H1, H2, !elem_of_app. tauto.
  - intros r. rewrite H2, H1, !elem_of_app. intros [?|[?|Hr]]; [by right|left; by apply Ho, Hif|].
    apply Hlost in Hr. by rewrite H1, elem_of_app in Hr.
  - exists (gone ++ in_flight (rl_open s)). rewrite <- app_assoc. split_and!; [done| |].
    + apply NoDup_app. split_and!; [done|intros r Hr Hr'; apply (Hdisj r); [by apply Ho, Hif|done]|].
      by apply in_flight_NoDup.
    + intros r. rewrite H1, !elem_of_app. tauto.
Qed.
End Relays.

(** ** Two relays at work *)

(** A statement context in which these sessions hold their rows. *)
Definition among (l : list Session) : SqlCtx :=
  {| sc_now := 0; sc_uuid := ""; sc_nextval := 0; sc_locked id := bool_decide (id ∈ map om_id (held l)) |}.

Lemma among_sees l : sees_locks l (among l).
Proof. intros id. apply bool_decide_eq_true. Qed.

Definition relays_at (db : list OutboxRow) (open : list Session) (delivered lost : list OutboxRow) : Relays (D := list OutboxRow) :=
  {| rl_db := db; rl_open := open; rl_seen := rows3; rl_delivered := delivered; rl_lost := lost |}.
Definition session_of (ids sent : list Z) : Session :=
  {| ss_batch := map row3 ids; ss_sent := map row3 sent; ss_refused := false |}.

Lemma select_to (s s' : Relays (D := list OutboxRow)) :
  match select_locked_stmt 2 (among (rl_open s)) (rl_db s) with
  | inr (r :: rows, _) => s' = open_with (rl_open s ++ [{| ss_batch := r :: rows; ss_sent := []; ss_refused := false |}]) s
  | _ => False
  end -> rl_step 2 s s'.
Proof.
  destruct (select_locked_stmt _ _ _) as [|[[|r rows] d]] eqn:Hs; try done. intros ->.
  by eapply (RlSelect 2 s _ (r :: rows) d (among_sees _) Hs).
Qed.

(** The first relay holds the messages 1 and 2 while the second delivers 3 and
    commits; then the first delivers 1 and crashes, and a third starts over. *)
Lemma overtaken_run : rtc (rl_step 2) (rl_start rows3) (relays_at [row3 1; row3 2] [session_of [1; 2] []] [row3 3] []).
Proof.
  apply (rtc_l _ _ (relays_at rows3 [session_of [1; 2] []] [] [])).
  { by apply select_to. }
  apply (rtc_l _ _ (relays_at rows3 [session_of [1; 2] []; session_of [3] []] [] [])).
  { by apply select_to. }
  apply (rtc_l _ _ (relays_at rows3 [session_of [1; 2] []; session_of [3] [3]] [row3 3] [])).
  { exact (RlAccepted 2 (relays_at rows3 [session_of [1; 2] []; session_of [3] []] [] []) [session_of [1; 2] []] (session_of [3] []) [] _ eq_refl eq_refl). }
  apply rtc_once.
  exact (RlCommit 2 (relays_at rows3 [session_of [1; 2] []; session_of [3] [3]] [row3 3] []) [session_of [1; 2] []] (session_of [3] [3]) []
    (among []) _ eq_refl eq_refl ltac:(done) eq_refl).
Qed.

Lemma crashed_run :
  rtc (rl_step 2) (rl_start rows3) (relays_at [] [] [row3 3; row3 1; row3 1; row3 2] [row3 1]).
Proof.
  etrans; [exact overtaken_run|].
  apply (rtc_l _ _ (relays_at [row3 1; row3 2] [session_of [1; 2] [1]] [row3 3; row3 1] [])).
  { exact (RlAccepted 2 (relays_at [row3 1; row3 2] [session_of [1; 2] []] [row3 3] []) [] (session_of [1; 2] []) [] _ eq_refl eq_refl). }
  apply (rtc_l _ _ (relays_at [row3 1; row3 2] [] [row3 3; row3 1] [row3 1])).
  { exact (RlEnd 2 (relays_at [row3 1; row3 2] [session_of [1; 2] [1]] [row3 3; row3 1] []) [] (session_of [1; 2] [1]) [] eq_refl). }
  apply (rtc_l _ _ (relays_at [row3 1; row3 2] [session_of [1; 2] []] [row3 3; row3 1] [row3 1])).
  { by apply select_to. }
  etrans; [exact (session_publishes 2 _ [] [row3 1; row3 2] [] [] _ _ _ _ eq_refl)|]. apply rtc_once.
  exact (RlCommit 2 (relays_at [row3 1; row3 2] [session_of [1; 2] [1; 2]] [row3 3; row3 1; row3 1; row3 2] [row3 1]) [] (session_of [1; 2] [1; 2]) []
    (among []) _ eq_refl eq_refl ltac:(done) eq_refl).
Qed.

(** With a second relay the order of the messages is lost: 3 is delivered while
    1 is still waiting, although nothing has failed. *)
Theorem relays_may_reorder :
  exists s, rtc (rl_step 2) (rl_start rows3) s /\ rl_lost s = [] /\
    row3 3 ∈ rl_delivered s /\ row3 1 ∈ outbox (rl_db s) /\ row3 1 ∉ rl_delivered s.
Proof.
  eexists. split; [exact overtaken_run|]. simpl. split_and!; [done|left|left|]. by intros ?%list_elem_of_singleton.
Qed.

Lemma relays_share_outbox_witness :
  exists once, [row3 3; row3 1; row3 1; row3 2] ≡ₚ once ++ [row3 1] /\ NoDup once /\ row3 3 ∈ once.
Proof.
  destruct (relays_share_outbox (HO := list_HasOutbox) 2 rows3 _ rows3_unique crashed_run) as (_ & _ & _ & once & H1 & H2 & H3).
  exists once. split_and!; [exact H1|exact H2|]. apply H3; simpl; [left|by intros ?%elem_of_nil].
Defined.
