(* ===== verification/Replicas.v ===== *)
(** * The replicas of the subscriptions

    The notifier's read model and the scanner's watch list are fed by the
    subscription service's messages.  To the read model a message is a write of
    one entry, so that a run of messages is replayed by its last write to each
    entry: repeated messages and messages about other subscriptions commute.
    To the watch list it is a step of a counter, which is right when each
    message is counted once. *)

From S2P Require Import Prelude GoErrors Effects Wp Sql Json JsonFacts RepoName Events Broker Delivery Outbox OutboxFacts Consumers.
From S2P Require Import Notifier NotifierFacts Scanner ScannerFacts.

Open Scope string_scope.
Open Scope list_scope.
Open Scope Z_scope.

(** ** The transport *)

(** Subject and payload. *)
Notation Msg := (string * string)%type.

(** What the transport guarantees.  A consumer reads one subject and has at most
    one message outstanding ([MaxAckPending: 1]), so that the messages of a
    subject are handled in order; each subject has a consumer of its own. *)
Inductive Transport :=
| AnyOrder        (* nothing more *)
| PerSubscription (* the messages about one subscription are handled in order *)
| ExactlyOnce.    (* in addition each takes effect once *)

Global Instance Transport_eq_dec : EqDecision Transport.
Proof. solve_decision. Defined.

(** The messages the bus may have stored after the publications of a trace: it
    stores what it accepts, and maybe what it seems to refuse. *)
Definition attempted (tr : list Ext) : list Msg :=
  omap (fun x => match x with XPublish s d _ => Some (s, d) | _ => None end) tr.

Definition stored (tr : list Ext) (l : list Msg) : Prop := l = accepted tr \/ l = attempted tr.

(** The subjects a service consumes. *)
Definition listens (subjects : list string) (m : Msg) : bool := bool_decide (fst m ∈ subjects).

(** A message leaves the queue when it is settled; otherwise it is delivered again. *)
Definition remaining (a : AckKind) (heard : bool) (todo rest : list Msg) : list Msg :=
  if settles a heard then rest else todo.

Lemma remaining_settled a todo rest : a <> Nak -> remaining a true todo rest = rest.
Proof. by destruct a. Qed.

(** ** Replaying a run of writes *)

Section LastWrite.
Context {K A : Type} `{EqDecision K} (write : Msg -> option (K * A)).
Implicit Types (m : Msg) (l : list Msg) (k : K).

(** The last write to an entry. *)
Fixpoint last_write k l : option A :=
  match l with
  | [] => None
  | m :: l =>
      match last_write k l with
      | Some v => Some v
      | None => match write m with Some (k', v) => if decide (k' = k) then Some v else None | None => None end
      end
  end.

(** What a run of messages makes of an entry that was [v]. *)
Definition written k l (v : A) : A := default v (last_write k l).

(** What one message makes of it. *)
Definition write_at k m (v : A) : A :=
  match write m with Some (k', v') => if decide (k' = k) then v' else v | None => v end.

Lemma last_write_app k l1 l2 :
  last_write k (l1 ++ l2) = match last_write k l2 with Some v => Some v | None => last_write k l1 end.
Proof.
  induction l1 as [|m l1 IH]; simpl; [by destruct (last_write k l2)|]. rewrite IH. by destruct (last_write k l2).
Qed.

Lemma written_app k l1 l2 v : written k (l1 ++ l2) v = written k l2 (written k l1 v).
Proof. unfold written. rewrite last_write_app. by destruct (last_write k l2). Qed.

Lemma written_cons k m l v : written k (m :: l) v = written k l (write_at k m v).
Proof.
  unfold written, write_at. simpl. destruct (last_write k l); [done|].
  destruct (write m) as [[k' v']|]; [|done]. by case_decide.
Qed.

(** The writes one after the other. *)
Lemma written_writes k l v :
  written k l v =
  foldl (fun v o => match o with Some (k', v') => if decide (k' = k) then v' else v | None => v end) v (map write l).
Proof. revert v. induction l as [|m l IH]; intros v; [done|]. by rewrite written_cons, IH. Qed.

(** Publishing a run of messages again changes nothing. *)
Lemma written_again k l1 l2 l3 v : written k (l1 ++ l2 ++ l2 ++ l3) v = written k (l1 ++ l2 ++ l3) v.
Proof.
  unfold written. rewrite !last_write_app. by destruct (last_write k l3), (last_write k l2).
Qed.

(** Publishing a prefix of what is due, once more or for good, changes nothing
    of what is outstanding. *)
Lemma written_relay k todo sent refused rest l keep v :
  l = sent \/ l = sent ++ refused ->
  written k (todo ++ l ++ (if keep : bool then sent ++ refused ++ rest else refused ++ rest)) v =
  written k (todo ++ sent ++ refused ++ rest) v.
Proof.
  intros [->| ->]; destruct keep; rewrite <- ?app_assoc.
  - apply written_again.
  - done.
  - pose proof (written_again k todo (sent ++ refused) rest v) as H. by rewrite <- !app_assoc in H.
  - pose proof (written_again k (todo ++ sent) refused rest v) as H. by rewrite <- !app_assoc in H.
Qed.

(** *** Messages about different entries *)

(** Not both about the same entry. *)
Definition unrelated m m' : Prop := forall k v v', write m = Some (k, v) -> write m' = Some (k, v') -> False.

Lemma last_write_unrelated m k v l :
  write m = Some (k, v) -> Forall (unrelated m) l -> last_write k l = None.
Proof.
  intros Hm. induction 1 as [|m' l Hu _ IH]; simpl; [done|]. rewrite IH.
  destruct (write m') as [[k' v']|] eqn:Hm'; [|done]. case_decide; [|done]. subst. by destruct (Hu k v v').
Qed.

Lemma written_early k pre m post v :
  Forall (unrelated m) pre -> written k (pre ++ post) (write_at k m v) = written k (pre ++ m :: post) v.
Proof.
  intros Hu. rewrite !written_app, written_cons. f_equal. unfold write_at.
  destruct (write m) as [[k' v']|] eqn:Hm; [|done]. case_decide as Hk; [subst|done].
  unfold written. by erewrite last_write_unrelated.
Qed.

(** Without a message, the entries it does not write are the same. *)
Lemma written_skip k pre m post v :
  fst <$> write m <> Some k -> written k (pre ++ post) v = written k (pre ++ m :: post) v.
Proof.
  intros Hk. rewrite !written_app, written_cons. f_equal. unfold write_at.
  destruct (write m) as [[k' v']|]; [|done]. case_decide; [|done]. subst. by destruct Hk.
Qed.

(** A message among later ones that do not concern it is as good as the last. *)
Lemma written_insert k l1 m l2 v :
  Forall (unrelated m) l2 -> written k (l1 ++ m :: l2) v = written k (l1 ++ l2 ++ [m]) v.
Proof.
  intros Hu. rewrite !written_app, written_cons, (written_cons _ m []). unfold write_at.
  destruct (write m) as [[k' v']|] eqn:Hm; [|done]. case_decide as Hk; [subst|done].
  unfold written. by rewrite (last_write_unrelated m k v').
Qed.

Lemma written_twice k pre m post v :
  written k (pre ++ m :: post) (write_at k m v) = written k (pre ++ m :: post) v.
Proof.
  rewrite !written_app, !written_cons. f_equal. unfold write_at.
  destruct (write m) as [[k' v']|] eqn:Hm; [|done]. by case_decide.
Qed.

Lemma last_write_idle k l : Forall (fun m => write m = None) l -> last_write k l = None.
Proof. induction 1 as [|m l Hm _ IH]; simpl; [done|]. by rewrite IH, Hm. Qed.

Lemma last_write_filter (p : Msg -> bool) k l :
  (forall m, p m = false -> write m = None) -> last_write k (List.filter p l) = last_write k l.
Proof.
  intros Hp. induction l as [|m l IH]; simpl; [done|]. destruct (p m) eqn:Hm; simpl; rewrite IH; [done|].
  rewrite (Hp m Hm). by destruct (last_write k l).
Qed.
Lemma written_filter_mid (p : Msg -> bool) l1 l2 l3 k v :
  (forall m, p m = false -> write m = None) ->
  written k ((l1 ++ List.filter p l2) ++ l3) v = written k (l1 ++ l2 ++ l3) v.
Proof. intros Hp. unfold written. by rewrite <- app_assoc, !last_write_app, last_write_filter. Qed.

(** Message [m] is next for its consumer: nothing of its subject is ahead of it,
    nor, in an ordered transport, anything about the same subscription. *)
Definition next_message (tr : Transport) (todo pre : list Msg) (m : Msg) (post : list Msg) : Prop :=
  todo = pre ++ m :: post /\ Forall (fun m' => fst m' <> fst m) pre /\ (tr <> AnyOrder -> Forall (unrelated m) pre).

(** Handling such a message, or handling it and being asked again, leaves the
    rest of the run to do what is still to be done. *)
Lemma written_next tr todo pre m post k v :
  tr <> AnyOrder -> next_message tr todo pre m post -> written k (pre ++ post) (write_at k m v) = written k todo v.
Proof. intros Htr (-> & _ & Hu). by apply written_early, Hu. Qed.

Lemma written_kept tr todo pre m post k v :
  next_message tr todo pre m post -> written k todo (write_at k m v) = written k todo v.
Proof. intros (-> & _). apply written_twice. Qed.

End LastWrite.

(** Entries that are true or false. *)
Section Flags.
Context {K : Type} `{EqDecision K} (write : Msg -> option (K * bool)).

Lemma written_true k l :
  (forall m, m ∈ l -> write m <> Some (k, false)) -> written write k l true = true.
Proof.
  induction l as [|m l IH]; intros Hl; [done|]. rewrite written_cons. unfold write_at.
  destruct (write m) as [[k' v]|] eqn:Hm; [|apply IH; set_solver]. case_decide; [subst|apply IH; set_solver].
  destruct v; [apply IH; set_solver|]. exfalso. apply (Hl m); [left|done].
Qed.

Lemma written_mono k l (b b' : bool) :
  (b = true -> b' = true) -> written write k l b = true -> written write k l b' = true.
Proof. intros Hb. unfold written. destruct (last_write write k l); [done|exact Hb]. Qed.
End Flags.

Section Replay.
Context {V : Validators}.
Implicit Types (m : Msg) (l : list Msg) (rm : ReadMap).

(** The entry a message writes, and what: a token, or nothing. *)
Definition write_of m : option ((string * string) * option string) :=
  if String.eqb (fst m) SubjectSubscriptionConfirmed then
    match Unmarshal (T := SubscriptionConfirmed) (snd m) with
    | Ok ev => Some ((sc_Email ev, sc_RepoName ev), Some (sc_UnsubToken ev)) | Err _ => None end
  else if String.eqb (fst m) SubjectSubscriptionRemoved then
    match Unmarshal (T := SubscriptionRemoved) (snd m) with
    | Ok ev => Some ((sr_Email ev, sr_RepoName ev), None) | Err _ => None end
  else None.

Definition apply_msg rm m : ReadMap := read_spec (fst m) (snd m) rm.

Definition replay l rm : ReadMap := foldl apply_msg rm l.

Definition apply_write rm (o : option ((string * string) * option string)) : ReadMap :=
  match o with Some (k, v) => partial_alter (fun _ => v) k rm | None => rm end.

Lemma apply_msg_write rm m : apply_msg rm m = apply_write rm (write_of m).
Proof.
  unfold apply_msg, read_spec, write_of. repeat (destruct (String.eqb _ _)); try done; by destruct (Unmarshal _).
Qed.

Lemma apply_write_lookup rm o k :
  apply_write rm o !! k =
  match o with Some (k', v) => if decide (k' = k) then v else rm !! k | None => rm !! k end.
Proof.
  destruct o as [[k' v]|]; [|done]. simpl. case_decide; [subst; by rewrite lookup_partial_alter_eq|].
  by rewrite lookup_partial_alter_ne.
Qed.

Lemma apply_msg_lookup rm m k :
  apply_msg rm m !! k =
  match write_of m with Some (k', v) => if decide (k' = k) then v else rm !! k | None => rm !! k end.
Proof. by rewrite apply_msg_write, apply_write_lookup. Qed.

Lemma replay_writes l rm : replay l rm = foldl apply_write rm (map write_of l).
Proof. revert rm. induction l as [|m l IH]; intros rm; simpl; [done|]. by rewrite IH, apply_msg_write. Qed.

Lemma apply_msg_at rm m k : apply_msg rm m !! k = write_at write_of k m (rm !! k).
Proof. apply apply_msg_lookup. Qed.

Lemma replay_lookup l rm k : replay l rm !! k = written write_of k l (rm !! k).
Proof. revert rm. induction l as [|m l IH]; intros rm; simpl; [done|]. by rewrite IH, written_cons, apply_msg_at. Qed.

Lemma replay_ext l l' rm rm' :
  (forall k, written write_of k l (rm !! k) = written write_of k l' (rm' !! k)) -> replay l rm = replay l' rm'.
Proof. intros He. apply map_eq. intros k. by rewrite !replay_lookup. Qed.

Lemma replay_app l1 l2 rm : replay (l1 ++ l2) rm = replay l2 (replay l1 rm).
Proof. apply foldl_app. Qed.

(** A message may be handled before unrelated earlier ones, and may be handled
    any number of times. *)
Lemma replay_early pre m post rm :
  Forall (unrelated write_of m) pre -> replay (pre ++ post) (apply_msg rm m) = replay (pre ++ m :: post) rm.
Proof. intros Hu. apply replay_ext. intros k. by rewrite apply_msg_at, written_early. Qed.

Lemma replay_twice pre m post rm : replay (pre ++ m :: post) (apply_msg rm m) = replay (pre ++ m :: post) rm.
Proof. apply replay_ext. intros k. by rewrite apply_msg_at, written_twice. Qed.

(** Messages that write nothing change nothing, and can be left out. *)
Lemma replay_idle l rm : Forall (fun m => write_of m = None) l -> replay l rm = rm.
Proof. intros Hl. apply map_eq. intros k. rewrite replay_lookup. unfold written. by rewrite last_write_idle. Qed.

Lemma replay_filter (p : Msg -> bool) l rm :
  (forall m, p m = false -> write_of m = None) -> replay (List.filter p l) rm = replay l rm.
Proof. intros Hp. apply replay_ext. intros k. unfold written. by rewrite last_write_filter. Qed.

Lemma replay_filter_mid (p : Msg -> bool) l1 l2 l3 rm :
  (forall m, p m = false -> write_of m = None) ->
  replay ((l1 ++ List.filter p l2) ++ l3) rm = replay (l1 ++ l2 ++ l3) rm.
Proof. intros Hp. by rewrite <- app_assoc, !replay_app, replay_filter. Qed.

(** *** Counting *)

(** A message is in step with the entries: a confirmation of a new entry, a
    removal of an existing one. *)
Definition fits_write rm (o : option ((string * string) * option string)) : Prop :=
  match o with
  | Some (k, Some _) => rm !! k = None
  | Some (k, None) => is_Some (rm !! k)
  | None => True
  end.

Definition fits rm m : Prop := fits_write rm (write_of m).

Fixpoint coherent rm l : Prop :=
  match l with
  | [] => True
  | m :: l => fits rm m /\ coherent (apply_msg rm m) l
  end.

Lemma coherent_app rm l1 l2 : coherent rm (l1 ++ l2) <-> coherent rm l1 /\ coherent (replay l1 rm) l2.
Proof. revert rm. induction l1 as [|m l1 IH]; intros rm; simpl; [tauto|]. rewrite IH. tauto. Qed.

Lemma apply_unrelated rm m m' :
  unrelated write_of m m' -> apply_msg (apply_msg rm m) m' = apply_msg (apply_msg rm m') m.
Proof.
  intros Hu. apply map_eq. intros k. rewrite !apply_msg_lookup.
  destruct (write_of m) as [[k1 v1]|] eqn:H1, (write_of m') as [[k2 v2]|] eqn:H2; try done.
  repeat case_decide; subst; try done. by destruct (Hu k v1 v2).
Qed.

Lemma fits_unrelated rm m m' : unrelated write_of m m' -> fits (apply_msg rm m') m <-> fits rm m.
Proof.
  intros Hu. unfold fits, fits_write. destruct (write_of m) as [[k v]|] eqn:Hm; [|done]. rewrite apply_msg_lookup.
  destruct (write_of m') as [[k' v']|] eqn:Hm'; [|done]. case_decide; [|done]. subst. by destruct (Hu k v v').
Qed.

Lemma unrelated_sym m m' : unrelated write_of m m' -> unrelated write_of m' m.
Proof. intros Hu k v v' H1 H2. by eapply Hu. Qed.

Lemma coherent_early rm pre m post :
  Forall (unrelated write_of m) pre -> coherent rm (pre ++ m :: post) -> fits rm m /\ coherent (apply_msg rm m) (pre ++ post).
Proof.
  intros Hu. revert rm. induction Hu as [|m' pre Hm _ IH]; intros rm; simpl; [tauto|].
  intros [Hf [Hfm Hc]%IH]. rewrite fits_unrelated in Hfm by done.
  split_and!; [done|by rewrite fits_unrelated by by apply unrelated_sym|]. by rewrite apply_unrelated.
Qed.

Lemma coherent_insert rm l1 m l2 :
  Forall (unrelated write_of m) l2 -> coherent rm (l1 ++ l2 ++ [m]) -> coherent rm (l1 ++ m :: l2).
Proof.
  intros Hu. rewrite !coherent_app. intros [H1 H2]. split; [done|]. revert H2. generalize (replay l1 rm). clear - Hu.
  induction Hu as [|m' l2 Hm Hu IH]; intros rm; simpl; [tauto|]. intros [[Hf' Hc1] Hc2].
  destruct (IH _ (conj Hc1 Hc2)) as [Hf Hc']. rewrite fits_unrelated in Hf by done. split_and!; [done| |by rewrite apply_unrelated].
  rewrite fits_unrelated; [done|by apply unrelated_sym].
Qed.

Lemma coherent_filter (p : Msg -> bool) rm l :
  (forall m, p m = false -> write_of m = None) -> coherent rm (List.filter p l) <-> coherent rm l.
Proof.
  intros Hp. revert rm. induction l as [|m l IH]; intros rm; simpl; [done|].
  destruct (p m) eqn:Hm; simpl; [by rewrite IH|]. rewrite IH. unfold fits. rewrite (Hp m Hm). simpl.
  assert (apply_msg rm m = rm) as ->; [|tauto].
  apply map_eq. intros k. by rewrite apply_msg_lookup, (Hp m Hm).
Qed.

Lemma coherent_filter_mid (p : Msg -> bool) l1 l2 l3 rm :
  (forall m, p m = false -> write_of m = None) ->
  coherent rm (l1 ++ l2 ++ l3) -> coherent rm ((l1 ++ List.filter p l2) ++ l3).
Proof.
  intros Hp. rewrite <- app_assoc, !coherent_app, coherent_filter, replay_filter by done. tauto.
Qed.
End Replay.

(** ** The watch list counts the entries *)

Definition subscriber_count (m : WatchMap) (repo : string) : Z :=
  match m !! repo with Some (_, n) => n | None => 0 end.
Definition subscribers (m : ReadMap) (repo : string) : Z :=
  Z.of_nat (size (filter (fun kv : (string * string) * string => snd (fst kv) = repo) m)).

(** The counts are right, and every listed repository has a subscriber. *)
Definition agree (m : WatchMap) (rm : ReadMap) : Prop :=
  (forall repo, subscriber_count m repo = subscribers rm repo) /\ (forall repo tag n, m !! repo = Some (tag, n) -> 1 <= n).

Lemma subscribers_insert rm email repo tok repo' :
  rm !! (email, repo) = None ->
  subscribers (<[(email, repo) := tok]> rm) repo' = subscribers rm repo' + (if bool_decide (repo = repo') then 1 else 0).
Proof.
  intros Hn. unfold subscribers. case_bool_decide as Hr.
  - rewrite map_filter_insert_True by done. rewrite map_size_insert_None; [lia|].
    rewrite map_lookup_filter_None. by left.
  - rewrite map_filter_insert_False by done. rewrite delete_id by done. lia.
Qed.

Lemma subscribers_delete rm email repo tok repo' :
  rm !! (email, repo) = Some tok ->
  subscribers (delete (email, repo) rm) repo' = subscribers rm repo' - (if bool_decide (repo = repo') then 1 else 0).
Proof.
  intros Hs. pose proof (subscribers_insert (delete (email, repo) rm) email repo tok repo'
    (lookup_delete_eq _ _)) as Hi.
  rewrite insert_delete_eq, insert_id in Hi by done. lia.
Qed.

Lemma subscriber_count_alter m f repo repo' :
  subscriber_count (partial_alter f repo m) repo' =
  if bool_decide (repo = repo') then match f (m !! repo) with Some (_, n) => n | None => 0 end
  else subscriber_count m repo'.
Proof.
  unfold subscriber_count. case_bool_decide as Hr.
  - subst. by rewrite lookup_partial_alter_eq.
  - by rewrite lookup_partial_alter_ne.
Qed.

Lemma agree_confirmed m rm email repo tok :
  agree m rm -> rm !! (email, repo) = None ->
  agree (partial_alter add_subscriber repo m) (<[(email, repo) := tok]> rm).
Proof.
  intros [Hc Hp] Hn. split.
  - intros repo'. rewrite subscribers_insert, subscriber_count_alter, <- Hc by done.
    case_bool_decide as Hr; [|lia]. subst. unfold subscriber_count. destruct (m !! repo') as [[tag n]|]; simpl; lia.
  - intros repo' tag n. destruct (decide (repo = repo')) as [->|Hne]; [|rewrite lookup_partial_alter_ne by done; apply Hp].
    rewrite lookup_partial_alter_eq. destruct (m !! repo') as [[tag0 n0]|] eqn:Hl; simpl; intros [= <- <-]; [|lia].
    specialize (Hp _ _ _ Hl). lia.
Qed.

Lemma agree_removed m rm email repo tok :
  agree m rm -> rm !! (email, repo) = Some tok ->
  agree (partial_alter drop_subscriber repo m) (delete (email, repo) rm).
Proof.
  intros [Hc Hp] Hs. split.
  - intros repo'. rewrite (subscribers_delete _ _ _ tok), subscriber_count_alter, <- Hc by done.
    case_bool_decide as Hr; [|lia]. subst. unfold subscriber_count at 1.
    assert (1 <= subscriber_count m repo') as Hpos.
    { rewrite Hc. unfold subscribers.
      assert (size (filter (fun kv : (string * string) * string => snd (fst kv) = repo') rm) <> 0%nat); [|lia].
      apply map_size_ne_0_lookup. exists (email, repo'). rewrite map_lookup_filter_Some_2 with (x := tok); [by eexists|done..]. }
    unfold subscriber_count in *. destruct (m !! repo') as [[tag n]|]; simpl; [|lia].
    destruct (Z.ltb_spec 1 n); lia.
  - intros repo' tag n. destruct (decide (repo = repo')) as [->|Hne]; [|rewrite lookup_partial_alter_ne by done; apply Hp].
    rewrite lookup_partial_alter_eq. destruct (m !! repo') as [[tag0 n0]|] eqn:Hl; simpl; [|done].
    destruct (Z.ltb_spec 1 n0); [|done]. intros [= <- <-]. lia.
Qed.

(** Only the counts matter. *)
Lemma agree_counts wm wm' rm :
  (forall repo, snd <$> wm' !! repo = snd <$> wm !! repo) -> agree wm rm -> agree wm' rm.
Proof.
  intros Hs [Hc Hp]. assert (forall repo tag n, wm' !! repo = Some (tag, n) -> exists tag', wm !! repo = Some (tag', n)) as Hl.
  { intros repo tag n Hr. specialize (Hs repo). rewrite Hr in Hs. destruct (wm !! repo) as [[tag' n']|]; [|done].
    simpl in Hs. injection Hs as <-. by eexists. }
  split; [|intros repo tag n Hr; destruct (Hl _ _ _ Hr) as [tag' ?]; by eapply Hp].
  intros repo. rewrite <- Hc. unfold subscriber_count. specialize (Hs repo).
  by destruct (wm' !! repo) as [[]|], (wm !! repo) as [[]|]; simplify_eq/=.
Qed.

(** Handling one message in step keeps the counts right. *)
Lemma agree_message `{Validators} m wm rm :
  fits rm m -> agree wm rm -> agree (watch_spec (fst m) (snd m) wm) (apply_msg rm m).
Proof.
  intros Hf Hag. unfold fits, fits_write, write_of in Hf. unfold watch_spec, apply_msg, read_spec.
  destruct (String.eqb (fst m) SubjectSubscriptionConfirmed).
  { destruct (Unmarshal (snd m)) as [ev|]; [|done]. by apply agree_confirmed. }
  destruct (String.eqb (fst m) SubjectSubscriptionRemoved).
  { destruct (Unmarshal (snd m)) as [ev|]; [|done]. destruct Hf as [tok Htok]. by eapply agree_removed. }
  destruct (String.eqb (fst m) SubjectReleaseNotified); [|done]. destruct (Unmarshal (snd m)) as [ev|]; [|done].
  destruct (_ <=? _); [done|]. eapply agree_counts; [|exact Hag]. intros repo.
  destruct (decide (rn_RepoName ev = repo)) as [->|Hne]; [rewrite lookup_alter_eq|by rewrite lookup_alter_ne].
  by destruct (wm !! repo).
Qed.
