(* ===== verification/Convergence.v ===== *)
(** * The services' stores converge

    The subscription service owns the subscriptions; the notifier and the
    scanner keep copies of the confirmed ones, fed through the outbox, the relay
    and the bus.  [sys_step] interleaves everything that touches these stores:
    API requests, compensations, cleanup, relay batches, consumed messages, the
    notifier's maintenance and the scanner's passes, each with any faults.  When
    nothing is left to publish and to handle, the copies are exact, under
    conditions on the transport that are part of the statement. *)

From S2P Require Import Prelude GoErrors Effects Wp Sql Json JsonFacts RepoName Events Uuid Libs Broker Delivery Outbox OutboxFacts.
From S2P Require Import Consumers GitHub Subscription SubscriptionUse SubscriptionApi SubscriptionFacts SubscriptionTheorems.
From S2P Require Import Mailer Notifier NotifierFacts RetryFacts NotifierTheorems Scanner ScannerFacts ScannerTheorems.
From S2P Require Import Replicas Quiet Concrete.

Open Scope string_scope.
Open Scope list_scope.
Open Scope Z_scope.

(** ** The subscriptions as entries *)

(** The token of a confirmed subscription. *)
Definition confirmed_token (v : option (bool * string)) : option string :=
  match v with Some (true, tok) => Some tok | _ => None end.

(** The entries are exactly the confirmed subscriptions, those in [ks] aside. *)
Definition reflects_but (ks : list (string * string)) (rm : ReadMap) (v : SubView) : Prop :=
  forall e r, (e, r) ∉ ks -> rm !! (e, r) = confirmed_token (v e r).
Definition reflects : ReadMap -> SubView -> Prop := reflects_but [].

Lemma reflects_at rm v e r : reflects rm v -> rm !! (e, r) = confirmed_token (v e r).
Proof. intros Hr. apply Hr, not_elem_of_nil. Qed.

(** The entries that messages are about. *)
Definition entries_of `{Validators} (l : list Msg) : list (string * string) := omap (fun m => fst <$> write_of m) l.

Lemma entries_of_skip `{Validators} m l e r : (e, r) ∉ entries_of (m :: l) -> fst <$> write_of m <> Some (e, r) /\ (e, r) ∉ entries_of l.
Proof. unfold entries_of. simpl. destruct (fst <$> write_of m); rewrite ?elem_of_cons; intros Hn; split; [|tauto|done..]. intros [= ->]. tauto. Qed.

(** PostgreSQL stores text in UTF-8 only. *)
Definition utf8_subs (d : SubDB) : Prop :=
  forall e r b tok, sub_at d e r = Some (b, tok) ->
    valid_utf8 e = true /\ valid_utf8 r = true /\ valid_utf8 tok = true.

(** The write that announces an event. *)
Definition event_write (ev : SubEvent) : option ((string * string) * option string) :=
  match ev with
  | EvConfirmed e r tok => Some ((e, r), Some tok)
  | EvRemoved e r => Some ((e, r), None)
  | EvPending _ _ _ | EvExpired _ _ => None
  end.

(** Decodes the payload of a valid event whose text is UTF-8. *)
Ltac decoded_event Hv :=
  rewrite Unmarshal_encode; [done|exact Hv|];
  match type of Hv with validate ?p = true => destruct p end; unfold validate in Hv; unfold encodable; simpl in *;
  rewrite !andb_true_iff in Hv; rewrite !andb_true_iff; intuition eauto.

Section Announced.
Context {V : Validators} {U : UUIDLib}.
Hypothesis uuid_utf8 : forall s, v_uuid s = true -> valid_utf8 s = true.

(** The entry an event is about holds text. *)
Definition event_utf8 (d : SubDB) (ev : SubEvent) : Prop :=
  match ev with
  | EvConfirmed e r tok => sub_at d e r = Some (false, tok)
  | EvRemoved e r => exists b tok, sub_at d e r = Some (b, tok)
  | EvPending _ _ _ | EvExpired _ _ => True
  end.

Lemma announced_write d ev row :
  utf8_subs d -> event_utf8 d ev -> announces ev row -> write_of (wire row) = event_write ev.
Proof.
  intros Hu He Ha. destruct ev as [e r link|e r tok|e r|e r]; destruct Ha as [Hs Ha];
    unfold write_of, wire; simpl; rewrite Hs; simpl; try done.
  - destruct Ha as (p & Hv & <- & <- & <- & ->). destruct (Hu _ _ _ _ He) as (? & ? & ?). by decoded_event Hv.
  - destruct Ha as (p & Hv & <- & <- & ->). destruct He as (b & tok & He). destruct (Hu _ _ _ _ He) as (? & ? & _).
    by decoded_event Hv.
Qed.

Lemma announced_writes d evs rows :
  utf8_subs d -> Forall (event_utf8 d) evs -> Forall2 announces evs rows ->
  map write_of (map wire rows) = map event_write evs.
Proof.
  intros Hu He Ha. induction Ha as [|ev row evs rows Ha _ IH]; simpl; [done|]. apply Forall_cons in He as [He1 He].
  by rewrite (announced_write d ev row), IH.
Qed.
End Announced.

Lemma spec_events d op ok evs d' :
  sub_spec (sub_at d) op ok evs (sub_at d') -> Forall (event_utf8 d) evs.
Proof. destruct 1; repeat constructor; simpl; eauto. Qed.

Lemma reflects_same ks rm v v' : same_view v v' -> reflects_but ks rm v -> reflects_but ks rm v'.
Proof. intros Hv Hr e r Hk. rewrite Hv. by apply Hr. Qed.

Lemma reflects_upd ks rm v v' e r x :
  same_view (upd v e r x) v' -> reflects_but ks rm v -> reflects_but ks (apply_write rm (Some ((e, r), confirmed_token x))) v'.
Proof.
  intros Hv Hr e' r' Hk. rewrite Hv, apply_write_lookup. unfold upd.
  destruct (decide ((e', r') = (e, r))) as [->|Hne]; [by rewrite decide_True|]. rewrite decide_False by congruence. by apply Hr.
Qed.

Lemma reflects_quiet ks rm v v' e r x :
  same_view (upd v e r x) v' -> confirmed_token x = confirmed_token (v e r) -> reflects_but ks rm v -> reflects_but ks rm v'.
Proof.
  intros Hv Hx Hr e' r' Hk. rewrite Hv. unfold upd. case_decide as Hd; [|by apply Hr]. injection Hd as -> ->.
  rewrite Hx. by apply Hr.
Qed.

(** A step of the contract and its events keep the entries exact. *)
Lemma spec_entries ks m op ok evs m' rm :
  sub_spec m op ok evs m' -> reflects_but ks rm m -> reflects_but ks (foldl apply_write rm (map event_write evs)) m'.
Proof.
  intros Hs Hr. destruct Hs as [op m' Hm|ok e r tok links link m' Hn _ Hm|ok e r tok links link m' Hp _ Hm|ok e r links link m' _ Hm|ok e r tok m' Hp Hm|ok e r m' Hnp Hm|
    ok e r b tok m' Hp Hm|ok e r tok m' Hp Hm|ok e r m' Hnp Hm|ok m' Hm]; simpl;
    try (by eapply reflects_same); try (eapply reflects_quiet; [exact Hm| |exact Hr]; by rewrite ?Hn, ?Hp).
  - by apply (reflects_upd ks rm m m' e r (Some (true, tok))).
  - by apply (reflects_upd ks rm m m' e r None).
Qed.

Lemma spec_length m op ok evs m' : sub_spec m op ok evs m' -> (length evs <= 1)%nat.
Proof. destruct 1; simpl; lia. Qed.

(** The events are in step with the entries, except for the removal of a
    subscription that was never confirmed. *)
Lemma spec_fits m op ok evs m' rm :
  sub_spec m op ok evs m' -> reflects rm m ->
  (forall tok, op = OpUnsubscribe tok -> forall e r, m e r <> Some (false, tok)) ->
  Forall (fun ev => fits_write rm (event_write ev)) evs.
Proof.
  intros Hs Hr Hun. destruct Hs as [| | | |ok e r tok m' Hp Hm| |ok e r b tok m' Hp Hm| | |];
    repeat constructor; simpl; rewrite (reflects_at _ _ _ _ Hr), Hp; [done|]. destruct b; [by eexists|]. by destruct (Hun tok eq_refl e r).
Qed.

(** *** Counting confirmed subscriptions *)

Definition confirmed_in (d : SubDB) (repo : string) (s : Subscription) : bool :=
  sub_Confirmed s && bool_decide (repo ∈ joined_names d s).

Definition confirmed_count (d : SubDB) (repo : string) : Z :=
  Z.of_nat (length (select_where (confirmed_in d repo) (subscriptions d))).

Lemma confirmed_in_spec d repo s :
  confirmed_in d repo s = true <-> sub_Confirmed s = true /\ at_key d (sub_Email s) repo s.
Proof.
  unfold confirmed_in, at_key. rewrite andb_true_iff, bool_decide_eq_true, joined_names_spec. naive_solver.
Qed.

Lemma reflects_count rm d repo : sub_inv d -> reflects rm (sub_at d) -> subscribers rm repo = confirmed_count d repo.
Proof.
  intros Hi Hr. unfold subscribers, confirmed_count. f_equal. set (l := select_where _ _).
  rewrite <- length_map_to_list, <- (length_map (fun s => ((sub_Email s, repo), sub_UnsubscribeToken s)) l).
  assert (forall s, s ∈ l <-> s ∈ subscriptions d /\ sub_Confirmed s = true /\ at_key d (sub_Email s) repo s) as Hl.
  { intros s. unfold l. by rewrite elem_of_select, confirmed_in_spec. }
  apply Permutation_length, NoDup_Permutation; [apply NoDup_map_to_list| |].
  - apply NoDup_fmap_2_strong; [|by apply NoDup_ListNoDup, List.NoDup_filter, NoDup_ListNoDup; eapply unique_on_NoDup, inv_sub_id].
    intros s1 s2 (H1 & _ & Hk1)%Hl (H2 & _ & Hk2)%Hl [= He _]. rewrite He in Hk1. by eapply at_key_row.
  - intros [[e r] tok]. rewrite elem_of_map_to_list, map_lookup_filter_Some, (reflects_at _ _ _ _ Hr), list_elem_of_fmap. simpl. split.
    + intros [Ht ->]. destruct (sub_at d e repo) as [[[] tok']|] eqn:Hat; try done. simplify_eq/=.
      apply sub_at_Some in Hat as (s & Hs & Hk & [= Hc ->]); [|done]. exists s. pose proof Hk as [<- _]. split; [done|]. by apply Hl.
    + intros (s & [= -> -> ->] & (Hs & Hc & Hk)%Hl). split; [|done].
      assert (sub_at d (sub_Email s) repo = Some (true, sub_UnsubscribeToken s)) as ->; [|done].
      apply sub_at_Some; [done|]. exists s. by rewrite Hc.
Qed.

(** ** The system *)

(** The three stores, the messages each service has still to handle, in
    stream order, and those that the bus gave up delivering to the notifier. *)
Record Sys := {
  s_sub : SubDB;
  s_not : NotDB;
  s_scan : ScanDB;
  s_not_todo : list Msg;
  s_scan_todo : list Msg;
  s_lost : list Msg;
}.

Definition notifier_subjects : list string :=
  [SubjectSubscriptionPending; SubjectSubscriptionConfirmed; SubjectSubscriptionRemoved; SubjectReleaseDetected].
Definition scanner_subjects : list string :=
  [SubjectSubscriptionConfirmed; SubjectSubscriptionRemoved; SubjectReleaseNotified].

Definition set_sub (d : SubDB) (s : Sys) : Sys :=
  {| s_sub := d; s_not := s_not s; s_scan := s_scan s; s_not_todo := s_not_todo s; s_scan_todo := s_scan_todo s;
     s_lost := s_lost s |}.
Definition set_not (d : NotDB) (todo : list Msg) (s : Sys) : Sys :=
  {| s_sub := s_sub s; s_not := d; s_scan := s_scan s; s_not_todo := todo; s_scan_todo := s_scan_todo s;
     s_lost := s_lost s |}.
Definition set_scan (d : ScanDB) (todo : list Msg) (s : Sys) : Sys :=
  {| s_sub := s_sub s; s_not := s_not s; s_scan := d; s_not_todo := s_not_todo s; s_scan_todo := todo;
     s_lost := s_lost s |}.
(** These messages have reached the bus. *)
Definition set_published (d : SubDB) (l : list Msg) (s : Sys) : Sys :=
  {| s_sub := d; s_not := s_not s; s_scan := s_scan s;
     s_not_todo := s_not_todo s ++ List.filter (listens notifier_subjects) l;
     s_scan_todo := s_scan_todo s ++ List.filter (listens scanner_subjects) l; s_lost := s_lost s |}.
(** The bus stops delivering the message to the notifier. *)
Definition set_lost (m : Msg) (todo : list Msg) (s : Sys) : Sys :=
  {| s_sub := s_sub s; s_not := s_not s; s_scan := s_scan s; s_not_todo := todo; s_scan_todo := s_scan_todo s;
     s_lost := m :: s_lost s |}.

(** The order of the ids of messages.  The transactions that announce a
    confirmation or a removal have changed the subscription's row, whose lock
    the later one waits for; it draws its id from the sequence after the earlier
    has committed.  Messages about different subscriptions may be committed in
    any order of their ids. *)
Definition lock_order `{Validators} (d d' : SubDB) : Prop :=
  forall old row k, old ∈ sub_outbox d -> row ∈ sub_outbox d' -> row ∉ sub_outbox d ->
    fst <$> write_of (wire old) = Some k -> fst <$> write_of (wire row) = Some k -> om_id old < om_id row.

(** The new message takes its place in the order of ids. *)
Lemma due_insert (d d' : SubDB) rows :
  sub_inv d' -> sub_outbox d' = sub_outbox d ++ rows -> (length rows <= 1)%nat ->
  exists l1 l2, due d = l1 ++ l2 /\ due d' = l1 ++ rows ++ l2 /\
    forall x row, x ∈ l2 -> row ∈ rows ->
      om_id row < om_id x /\ x ∈ sub_outbox d /\ row ∈ sub_outbox d' /\ row ∉ sub_outbox d.
Proof.
  intros Hi Ho Hl. unfold due. change (outbox d') with (sub_outbox d'). change (outbox d) with (sub_outbox d).
  destruct rows as [|row [|? ?]]; [|clear Hl|simpl in Hl; lia].
  { rewrite Ho, (app_nil_r (sub_outbox d)). exists (order_by om_id (sub_outbox d)), []. split_and!; [by rewrite app_nil_r..|]. by intros x row ?%elem_of_nil. }
  destruct (order_by_insert om_id row (sub_outbox d)) as (l1 & l2 & H1 & H2 & H3). rewrite Ho. exists l1, l2. split_and!; [done..|].
  intros x r Hx ->%list_elem_of_singleton. assert (x ∈ sub_outbox d) as Hxd by (rewrite <- (order_by_perm om_id), H1; set_solver).
  split_and!; [by apply H3|done|set_solver|]. intros Hin.
  pose proof (SubscriptionFacts.inv_outbox d' Hi) as Hu. rewrite Ho in Hu. unfold unique_on in Hu. rewrite map_app in Hu.
  apply NoDup_app in Hu as (_ & Hd & _). apply (Hd (om_id row)); [by apply list_elem_of_fmap_2|set_solver].
Qed.

(** What is still to be handled by a service with these messages to go. *)
Definition outstanding (todo : list Msg) (d : SubDB) : list Msg := todo ++ map wire (due d).

Lemma lock_order_none `{Validators} (d d' : SubDB) : sub_outbox d' = sub_outbox d -> lock_order d d'.
Proof. intros Ho old row k _ Hin Hn. by rewrite Ho in Hin. Qed.

(** It comes after the messages it must come after. *)
Lemma outstanding_insert `{Validators} todo (d d' : SubDB) rows :
  sub_inv d' -> sub_outbox d' = sub_outbox d ++ rows -> (length rows <= 1)%nat -> lock_order d d' ->
  exists l1 l2, outstanding todo d = l1 ++ l2 /\ outstanding todo d' = l1 ++ map wire rows ++ l2 /\
    forall m, m ∈ map wire rows -> Forall (unrelated write_of m) l2.
Proof.
  intros Hi Ho Hl Hlock. destruct (due_insert d d' rows Hi Ho Hl) as (l1 & l2 & H1 & H2 & H3).
  exists (todo ++ map wire l1), (map wire l2). unfold outstanding. rewrite H1, H2, !map_app, <- !app_assoc.
  split_and!; [done..|]. intros m (row & -> & Hrow)%list_elem_of_fmap. apply Forall_forall.
  intros m (x & -> & Hx)%list_elem_of_fmap k v v' Hk Hk'. destruct (H3 x row Hx Hrow) as (Hlt & Hxd & Hr & Hn).
  specialize (Hlock x row k Hxd Hr Hn). rewrite Hk, Hk' in Hlock. specialize (Hlock eq_refl eq_refl). lia.
Qed.

Lemma replay_insert `{Validators} l1 (ms l2 : list Msg) rm :
  (length ms <= 1)%nat -> (forall m, m ∈ ms -> Forall (unrelated write_of m) l2) ->
  replay (l1 ++ ms ++ l2) rm = replay ((l1 ++ l2) ++ ms) rm.
Proof.
  destruct ms as [|m [|? ?]]; simpl; [by rewrite app_nil_r| |lia]. intros _ Hu. rewrite <- app_assoc.
  apply replay_ext. intros k. apply written_insert, Hu. left.
Qed.

(** *** Relay batches *)

Lemma attempted_batch sent refused : attempted (batch_trace sent refused) = map wire (sent ++ option_list refused).
Proof.
  unfold batch_trace, attempted. rewrite omap_app, map_app. f_equal; [|by destruct refused].
  induction sent as [|r sent IH]; [done|]. cbn. f_equal. exact IH.
Qed.

(** What a relay batch does to the store and the bus when no row is locked. *)
Lemma relay_batch {E : Env} {BP : BusPublisher SubDB} batchSize ctx l r (w w' : World SubDB) :
  sub_inv (w_db w) -> w_tx w = None -> w_trace w = [] -> (forall n id, env_locked n id = false) ->
  flushBatch batchSize ctx w = (r, w') -> stored (w_trace w') l ->
  (exists o, w_db w' = set_outbox o (w_db w)) /\ sub_inv (w_db w') /\
  exists sent refused rest keep, due (w_db w) = sent ++ refused ++ rest /\
    (l = map wire sent \/ l = map wire (sent ++ refused)) /\
    due (w_db w') = if keep : bool then sent ++ refused ++ rest else refused ++ rest.
Proof.
  intros Hi Htx Ht Hl Hf Hst. pose proof (flushBatch_spec batchSize ctx w Htx) as Hb. unfold wp in Hb.
  rewrite Hf in Hb. destruct Hb as (_ & _ & locked & sent & refused & _ & Htr & (Hpre & _ & n & ->) & Hdb). cbn [fst snd] in *.
  rewrite Ht in Htr. simpl in Htr. rewrite Htr in Hst. unfold stored in Hst. rewrite accepted_batch, attempted_batch in Hst.
  assert (exists rest, due (w_db w) = sent ++ option_list refused ++ rest) as [rest Hdue].
  { rewrite batch_due in Hpre.
    - destruct Hpre as [rest1 Heq]. exists (rest1 ++ drop (Z.to_nat batchSize) (due (w_db w))).
      rewrite !app_assoc, <- (app_assoc sent), app_assoc, <- Heq. by rewrite take_drop.
    - intros id. apply Hl. }
  destruct Hdb as [[Hdb _]|(Hdb & _ & _)]; rewrite Hdb.
  - split_and!; [exists (outbox (w_db w)); by rewrite set_outbox_same|done|].
    by exists sent, (option_list refused), rest, true.
  - split_and!; [by eexists| |].
    + destruct Hi. split; try done. by apply unique_on_delete.
    + exists sent, (option_list refused), rest, false. split_and!; [done..|].
      assert (take (length sent) (due (w_db w)) = sent) as Hs by (rewrite Hdue; by rewrite take_app_length).
      rewrite <- Hs at 1. rewrite due_without by apply Hi. by rewrite Hdue, drop_app_length.
Qed.

(** In quiet surroundings one batch empties the outbox. *)
Lemma quiet_drain {D} `{HasOutbox D} (d : D) :
  unique_on om_id (outbox d) ->
  exists n r w', flushBatch (E := quiet_env) (BP := Conn_BusPublisher (H := quiet_env)) n Background (world_of d) = (r, w') /\
    w_db w' = set_outbox [] d /\ accepted (w_trace w') = map wire (due d).
Proof.
  intros Hu. set (n := Z.of_nat (S (length (outbox d)))). exists n.
  pose proof (flushBatch_up (E := quiet_env) (BP := Conn_BusPublisher (H := quiet_env)) n (fun _ => eq_refl)
    (fun _ _ => eq_refl) (fun _ _ _ _ => eq_refl) ltac:(lia) Background (world_of d) eq_refl) as Hf. unfold wp in Hf.
  destruct (flushBatch (E := quiet_env) n Background (world_of d)) as [r w'] eqn:Hrun. cbn [fst snd w_db world_of] in Hf.
  assert (length (due d) = length (outbox d)) as Hlen by (unfold due; by rewrite order_by_perm).
  rewrite take_ge in Hf by (subst n; lia). destruct Hf as (_ & _ & Hdb & Htr). exists r, w'. split_and!; [done| |].
  - assert (outbox (w_db w') = []) as Hempty.
    { assert (due (w_db w') = []) as Hd.
      { pose proof (due_without (length (due d)) d Hu) as Hd. rewrite firstn_all, drop_all in Hd. by rewrite Hdb. }
      apply nil_length_inv. unfold due in Hd. by rewrite <- (order_by_perm om_id (outbox (w_db w'))), Hd. }
    rewrite Hdb in Hempty |- *. unfold without in *. by rewrite outbox_set in Hempty; rewrite Hempty.
  - rewrite Htr. simpl. by rewrite accepted_pub.
Qed.

Section System.
Context {V : Validators} {U : UUIDLib} {P : PgxLib} {J : JwtLib}.

(** They are those of the consumer tables. *)
Lemma notifier_subjects_ok {E : Env} {RS : ReleaseSender NotDB} {CS : ConfirmationSender NotDB} baseURL :
  map cs_Subject (notifier_startConsumers baseURL) = notifier_subjects.
Proof. done. Qed.

Lemma scanner_subjects_ok {E : Env} : map cs_Subject scanner_startConsumers = scanner_subjects.
Proof. done. Qed.

(** A service works on its store outside any transaction. *)
Definition at_rest {D} (d : D) (ctx : Ctx) (w : World D) : Prop :=
  w_db w = d /\ w_tx w = None /\ txFromContext ctx = false.

(** One step.  A Subscribe request that others interleave with is its two
    writing parts, [GetOrCreate] and [emitPending], at different times: what it
    read in between may be out of date, but rows of repositories are never
    changed or removed.  Each step has surroundings of its own: what its environment
    answers, and how GitHub, SMTP and the bus behave. *)
Inductive sys_step (tr : Transport) (s : Sys) : Sys -> Prop :=
| SysRequest (E : Env) {G : RepoChecker SubDB} {PV : ProtoValidator Request} tokens url apiKey header ctx req r w w' :
    at_rest (s_sub s) ctx w ->
    NewConnectHandler tokens url apiKey header ctx req w = (r, w') ->
    utf8_subs (w_db w') -> lock_order (s_sub s) (w_db w') ->
    (tr = ExactlyOnce -> forall token, req = UnsubscribeRequest token ->
       forall e r, sub_at (s_sub s) e r <> Some (false, token)) ->
    sys_step tr s (set_sub (w_db w') s)
| SysSubscribeRepo (E : Env) ctx repo r w w' :
    at_rest (s_sub s) ctx w -> GetOrCreate ctx repo w = (r, w') ->
    sys_step tr s (set_sub (w_db w') s)
| SysSubscribeEmit (E : Env) tokens url ctx email rp isNew r w w' :
    at_rest (s_sub s) ctx w -> rp ∈ repositories (s_sub s) ->
    emitPending tokens url ctx email (repo_Name rp) (repo_ID rp) isNew w = (r, w') ->
    utf8_subs (w_db w') -> lock_order (s_sub s) (w_db w') ->
    sys_step tr s (set_sub (w_db w') s)
| SysCompensate (E : Env) ctx data r w w' :
    at_rest (s_sub s) ctx w -> HandleCompensate ctx data w = (r, w') ->
    sys_step tr s (set_sub (w_db w') s)
| SysCompensateCall (E : Env) {PC : ProtoValidator CompensateRequest} ctx req r w w' :
    at_rest (s_sub s) ctx w -> Server_handle ctx req w = (r, w') ->
    sys_step tr s (set_sub (w_db w') s)
| SysCleanup (E : Env) maxAge signals ctx r w w' :
    at_rest (s_sub s) ctx w -> runCleanup maxAge signals ctx w = (r, w') ->
    sys_step tr s (set_sub (w_db w') s)
| SysRelay (E : Env) {BP : BusPublisher SubDB} batchSize ctx l r w w' :
    at_rest (s_sub s) ctx w -> w_trace w = [] -> (forall n id, env_locked n id = false) ->
    flushBatch batchSize ctx w = (r, w') -> stored (w_trace w') l ->
    (tr = ExactlyOnce -> l ++ map wire (due (w_db w')) = map wire (due (s_sub s))) ->
    sys_step tr s (set_published (w_db w') l s)
| SysNotifier (E : Env) {RS : ReleaseSender NotDB} {CS : ConfirmationSender NotDB} baseURL pre m post spec ctx a heard w w' :
    next_message write_of tr (s_not_todo s) pre m post ->
    spec ∈ notifier_startConsumers baseURL -> cs_Subject spec = fst m ->
    at_rest (s_not s) ctx w -> dispatch ctx (cs_Handler spec) (snd m) w = (Ok a, w') ->
    sys_step tr s (set_not (w_db w') (remaining a heard (s_not_todo s) (pre ++ post)) s)
| SysNotifierGivesUp pre m post :
    next_message write_of AnyOrder (s_not_todo s) pre m post ->
    sys_step tr s (set_lost m (pre ++ post) s)
| SysNotifierRelease (E : Env) {RS : ReleaseSender NotDB} {CS : ConfirmationSender NotDB} baseURL spec ctx data a w w' :
    spec ∈ notifier_startConsumers baseURL -> cs_Subject spec ∈ SubjectsReleases ->
    at_rest (s_not s) ctx w -> dispatch ctx (cs_Handler spec) data w = (Ok a, w') ->
    sys_step tr s (set_not (w_db w') (s_not_todo s) s)
| SysMaintenance (E : Env) {RS : ReleaseSender NotDB} {CS : ConfirmationSender NotDB} baseURL cfg processedTTL signals ctx r w w' :
    at_rest (s_not s) ctx w -> runMaintenance baseURL cfg processedTTL signals ctx w = (r, w') ->
    sys_step tr s (set_not (w_db w') (s_not_todo s) s)
| SysScanner (E : Env) pre m post spec ctx a heard w w' :
    next_message write_of tr (s_scan_todo s) pre m post ->
    spec ∈ scanner_startConsumers -> cs_Subject spec = fst m ->
    at_rest (s_scan s) ctx w -> dispatch ctx (cs_Handler spec) (snd m) w = (Ok a, w') ->
    (tr = ExactlyOnce -> settles a heard = false -> w_db w' = s_scan s) ->
    sys_step tr s (set_scan (w_db w') (remaining a heard (s_scan_todo s) (pre ++ post)) s)
| SysScannerGivesUp pre m post :
    next_message write_of AnyOrder (s_scan_todo s) pre m post -> tr <> ExactlyOnce ->
    sys_step tr s (set_scan (s_scan s) (pre ++ post) s)
| SysScannerRelease (E : Env) spec ctx data a w w' :
    spec ∈ scanner_startConsumers -> cs_Subject spec ∈ SubjectsReleases ->
    at_rest (s_scan s) ctx w -> dispatch ctx (cs_Handler spec) data w = (Ok a, w') ->
    sys_step tr s (set_scan (w_db w') (s_scan_todo s) s)
| SysScheduler (E : Env) {SC : ReleaseScanner ScanDB} {BP : BusPublisher ScanDB} signals ctx r w w' :
    at_rest (s_scan s) ctx w -> Scheduler_Start watch_Run signals ctx w = (r, w') ->
    sys_step tr s (set_scan (w_db w') (s_scan_todo s) s).

(** ** What every run keeps *)

Hypothesis uuid_utf8 : forall s, v_uuid s = true -> valid_utf8 s = true.

Record sys_inv (tr : Transport) (s : Sys) : Prop := {
  si_sub : sub_inv (s_sub s);
  si_utf8 : utf8_subs (s_sub s);
  si_not : not_inv (s_not s);
  si_scan : scan_inv (s_scan s);
  si_read : tr <> AnyOrder ->
    reflects_but (entries_of (s_lost s)) (replay (outstanding (s_not_todo s) (s_sub s)) (abs_read (s_not s))) (sub_at (s_sub s));
  si_watch : tr = ExactlyOnce -> exists rm,
    agree (abs_watch (s_scan s)) rm /\ coherent rm (outstanding (s_scan_todo s) (s_sub s)) /\
    reflects (replay (outstanding (s_scan_todo s) (s_sub s)) rm) (sub_at (s_sub s));
}.

(** An operation of the subscription service that keeps its contract. *)
Lemma sub_step_inv tr s op ok evs rows d' :
  sys_inv tr s -> sub_inv d' -> utf8_subs d' -> lock_order (s_sub s) d' ->
  sub_spec (sub_at (s_sub s)) op ok evs (sub_at d') -> sub_outbox d' = sub_outbox (s_sub s) ++ rows ->
  Forall2 announces evs rows ->
  (tr = ExactlyOnce -> forall tok, op = OpUnsubscribe tok -> forall e r, sub_at (s_sub s) e r <> Some (false, tok)) ->
  sys_inv tr (set_sub d' s).
Proof.
  intros [Hi Hu Hn Hsc Hr Hw] Hi' Hu' Hlock Hs Ho Ha Hun. pose proof (spec_length _ _ _ _ _ Hs) as Hl.
  pose proof (announced_writes uuid_utf8 _ _ _ Hu (spec_events _ _ _ _ _ Hs) Ha) as Hwr.
  rewrite (Forall2_length _ _ _ Ha) in Hl.
  assert (length (map wire rows) <= 1)%nat as Hm by by rewrite length_map.
  split; simpl; try done.
  - intros Htr. destruct (outstanding_insert (s_not_todo s) _ _ _ Hi' Ho Hl Hlock) as (l1 & l2 & H1 & -> & Hun').
    rewrite (replay_insert _ _ _ _ Hm Hun'), <- H1, replay_app, replay_writes, Hwr. eapply spec_entries; [exact Hs|by apply Hr].
  - intros Htr. destruct (Hw Htr) as (rm & Hag & Hc & Hrm). exists rm.
    destruct (outstanding_insert (s_scan_todo s) _ _ _ Hi' Ho Hl Hlock) as (l1 & l2 & H1 & -> & Hun').
    rewrite (replay_insert _ _ _ _ Hm Hun'), <- H1, replay_app. split_and!; [done| |rewrite replay_writes, Hwr; by eapply spec_entries].
    pose proof (spec_fits _ _ _ _ _ _ Hs Hrm (Hun Htr)) as Hf.
    destruct rows as [|row [|? ?]]; [simpl; by rewrite <- H1| |simpl in Hl; lia]. destruct evs as [|ev [|? ?]]; [done| |done].
    simpl. apply coherent_insert; [apply Hun'; left|]. rewrite app_assoc, <- H1. apply coherent_app. split; [done|].
    simpl in Hwr. injection Hwr as Hwr. split; [|done]. unfold fits. rewrite Hwr. by apply Forall_cons in Hf as [? _].
Qed.

(** Without an event the store only loses text. *)
Lemma compensate_utf8 d op ok evs d' e r :
  sub_spec (sub_at d) op ok evs (sub_at d') -> op = OpCompensate e r -> utf8_subs d -> utf8_subs d'.
Proof.
  intros Hs -> Hu e' r' b tok Ha. apply (Hu e' r' b tok). revert Ha.
  inversion Hs as [? ? Hv| | | | | | |? ? ? ? ? Hat Hv|? ? ? ? Hnp Hv|]; subst; rewrite Hv; try done.
  unfold upd. by case_decide.
Qed.

Lemma compensate_step_inv {E : Env} tr s e r {A} (x : res A) (w w' : World SubDB) :
  sys_inv tr s -> w_db w = s_sub s -> refines_op (OpCompensate e r) w x w' -> sys_inv tr (set_sub (w_db w') s).
Proof.
  intros Hinv Hdb (_ & Hi & _ & _ & evs & rows & Hs & Ho & Ha). rewrite Hdb in Hs, Ho.
  assert (evs = []) as -> by (by inversion Hs). inversion Ha; subst rows. rewrite app_nil_r in Ho.
  eapply (sub_step_inv tr s _ _ []); [done..| |by apply lock_order_none|exact Hs|by rewrite app_nil_r|done|done].
  eapply compensate_utf8; [exact Hs|done|apply Hinv].
Qed.

(** A repository's row may appear. *)
Lemma GetOrCreate_quiet {E : Env} ctx repo (w : World SubDB) r w' :
  txFromContext ctx = false -> sub_inv (w_db w) -> GetOrCreate ctx repo w = (r, w') ->
  sub_inv (w_db w') /\ same_view (sub_at (w_db w)) (sub_at (w_db w')) /\ sub_outbox (w_db w') = sub_outbox (w_db w).
Proof.
  intros Hctx Hi Hrun.
  assert (wp (GetOrCreate ctx repo) (fun _ w' => sub_inv (w_db w') /\ same_view (sub_at (w_db w)) (sub_at (w_db w')) /\
    sub_outbox (w_db w') = sub_outbox (w_db w)) w) as Hp by (apply wp_GetOrCreate; [done..|]; by intros).
  unfold wp in Hp. by rewrite Hrun in Hp.
Qed.

Lemma quiet_step_inv tr s d' :
  sys_inv tr s -> sub_inv d' -> same_view (sub_at (s_sub s)) (sub_at d') -> sub_outbox d' = sub_outbox (s_sub s) ->
  sys_inv tr (set_sub d' s).
Proof.
  intros Hinv Hi' Hv Ho. eapply (sub_step_inv tr s OpOther true [] []); [done..| | |by apply spec_other|by rewrite app_nil_r|constructor|done].
  - intros e r b tok. rewrite Hv. apply Hinv.
  - by apply lock_order_none.
Qed.

Lemma same_step_inv tr s d' : sys_inv tr s -> d' = s_sub s -> sys_inv tr (set_sub d' s).
Proof. intros Hinv ->. by destruct s. Qed.

(** *** The relay *)

Lemma relay_outstanding todo sent refused rest l keep rm :
  l = map wire sent \/ l = map wire (sent ++ refused) ->
  replay (todo ++ l ++ map wire (if keep : bool then sent ++ refused ++ rest else refused ++ rest)) rm =
  replay (todo ++ map wire (sent ++ refused ++ rest)) rm.
Proof.
  intros Hl. apply replay_ext. intros k. rewrite map_app in Hl.
  pose proof (written_relay write_of k todo (map wire sent) (map wire refused) (map wire rest) l keep (rm !! k) Hl) as Hw.
  destruct keep; rewrite !map_app; exact Hw.
Qed.

Lemma listens_writes subjects :
  SubjectSubscriptionConfirmed ∈ subjects -> SubjectSubscriptionRemoved ∈ subjects ->
  forall m, listens subjects m = false -> write_of m = None.
Proof.
  intros Hc Hr m Hm. unfold listens in Hm. apply bool_decide_eq_false in Hm. unfold write_of.
  destruct (String.eqb_spec (fst m) SubjectSubscriptionConfirmed) as [He|_]; [by rewrite He in Hm|].
  destruct (String.eqb_spec (fst m) SubjectSubscriptionRemoved) as [He|_]; [by rewrite He in Hm|done].
Qed.

Lemma notifier_listens m : listens notifier_subjects m = false -> write_of m = None.
Proof. apply listens_writes; [right; left|do 2 right; left]. Qed.

Lemma scanner_listens m : listens scanner_subjects m = false -> write_of m = None.
Proof. apply listens_writes; [left|right; left]. Qed.

Lemma relay_step_inv {E : Env} {BP : BusPublisher SubDB} tr s batchSize ctx l r (w w' : World SubDB) :
  sys_inv tr s -> at_rest (s_sub s) ctx w -> w_trace w = [] -> (forall n id, env_locked n id = false) ->
  flushBatch batchSize ctx w = (r, w') -> stored (w_trace w') l ->
  (tr = ExactlyOnce -> l ++ map wire (due (w_db w')) = map wire (due (s_sub s))) ->
  sys_inv tr (set_published (w_db w') l s).
Proof.
  intros [Hi Hu Hn Hsc Hr Hw] (Hdb & Htx & _) Ht Hl Hf Hst Hex. rewrite <- Hdb in *.
  destruct (relay_batch batchSize ctx l r w w') as ([o Hd'] & Hi' & sent & refused & rest & keep & Hdue & Hl' & Hdue');
    [done..|].
  assert (sub_at (w_db w') = sub_at (w_db w)) as Hat by by rewrite Hd'.
  assert (forall todo rm, replay (todo ++ l ++ map wire (due (w_db w'))) rm = replay (outstanding todo (w_db w)) rm) as Hrep.
  { intros todo rm. unfold outstanding. rewrite Hdue, Hdue'. by apply relay_outstanding. }
  split; simpl; try done.
  - intros e r' b tok. rewrite Hat. apply Hu.
  - intros Htr. unfold outstanding. rewrite replay_filter_mid by apply notifier_listens. rewrite Hrep, Hat. by apply Hr.
  - intros Htr. destruct (Hw Htr) as (rm & Hag & Hc & Hrm). exists rm. unfold outstanding at 1 2. split_and!; [done| |].
    + apply coherent_filter_mid; [apply scanner_listens|]. by rewrite (Hex Htr).
    + rewrite replay_filter_mid by apply scanner_listens. by rewrite Hrep, Hat.
Qed.

(** *** The notifier *)

Lemma not_step_inv tr s d' todo :
  sys_inv tr s -> not_inv d' ->
  (tr <> AnyOrder -> replay (outstanding todo (s_sub s)) (abs_read d') =
     replay (outstanding (s_not_todo s) (s_sub s)) (abs_read (s_not s))) ->
  sys_inv tr (set_not d' todo s).
Proof. intros [Hi Hu Hn Hsc Hr Hw] Hn' He. split; simpl; try done. intros Htr. rewrite He by done. by apply Hr. Qed.

(** A handled message: the outcome of the handler and the acknowledgement. *)
Lemma notifier_dispatched {E : Env} {RS : ReleaseSender NotDB} {CS : ConfirmationSender NotDB} baseURL spec ctx data a (w w' : World NotDB) :
  spec ∈ notifier_startConsumers baseURL -> at_rest (w_db w) ctx w -> not_inv (w_db w) ->
  dispatch ctx (cs_Handler spec) data w = (Ok a, w') ->
  not_inv (w_db w') /\
  ((a = Nak /\ abs_read (w_db w') = abs_read (w_db w)) \/
   abs_read (w_db w') = read_spec (cs_Subject spec) data (abs_read (w_db w))).
Proof.
  intros Hs (_ & Htx & Hctx) Hn Hd.
  pose proof (wp_dispatch ctx _ data _ w (consumer_projects baseURL spec ctx data w Hs Hctx Htx Hn)) as Hp.
  unfold wp in Hp. rewrite Hd in Hp. destruct Hp as (r & ack & (_ & Hn' & _ & Hp) & [= ->] & Hnak). split; [done|].
  destruct Hp as [[Hr Hret]|Hr]; [left|by right]. split; [by apply Hnak|done].
Qed.

Lemma notifier_step_inv {E : Env} {RS : ReleaseSender NotDB} {CS : ConfirmationSender NotDB} baseURL tr s pre m post spec ctx a heard (w w' : World NotDB) :
  sys_inv tr s -> next_message write_of tr (s_not_todo s) pre m post -> spec ∈ notifier_startConsumers baseURL ->
  cs_Subject spec = fst m -> at_rest (s_not s) ctx w ->
  dispatch ctx (cs_Handler spec) (snd m) w = (Ok a, w') ->
  sys_inv tr (set_not (w_db w') (remaining a heard (s_not_todo s) (pre ++ post)) s).
Proof.
  intros Hinv (Htodo & _ & Hpre) Hs Hsub Hw Hd. pose proof (si_not _ _ Hinv) as Hn. pose proof Hw as (Hdb & _). rewrite <- Hdb in *.
  apply (notifier_dispatched baseURL) in Hd as [Hn' Hr]; [|done..]. apply not_step_inv; [done..|].
  intros Htr. specialize (Hpre Htr). rewrite Hsub in Hr. rewrite Htodo, Hdb in *. unfold outstanding.
  unfold remaining. destruct Hr as [[-> ->]| ->]; [by rewrite settles_nak|]. fold (apply_msg (abs_read (s_not s)) m).
  destruct (settles a heard); rewrite <- !app_assoc; [by apply replay_early|by apply replay_twice].
Qed.

(** A message that is given up spoils its own entry only. *)
Lemma gives_up_inv tr s pre m post :
  sys_inv tr s -> next_message write_of AnyOrder (s_not_todo s) pre m post -> sys_inv tr (set_lost m (pre ++ post) s).
Proof.
  intros [Hi Hu Hn Hsc Hr Hw] (Htodo & _). split; simpl; try done. intros Htr e r [Hm Hk]%entries_of_skip.
  specialize (Hr Htr e r Hk). rewrite <- Hr, Htodo, !replay_lookup. unfold outstanding.
  rewrite <- !app_assoc. by apply written_skip.
Qed.

Lemma not_same_inv tr s d' :
  sys_inv tr s -> not_inv d' -> abs_read d' = abs_read (s_not s) -> sys_inv tr (set_not d' (s_not_todo s) s).
Proof. intros Hinv Hn' Hr. apply not_step_inv; [done..|]. intros _. by rewrite Hr. Qed.

(** *** The scanner *)

Lemma scan_step_inv tr s d' todo :
  sys_inv tr s -> scan_inv d' ->
  (tr = ExactlyOnce -> forall rm,
     agree (abs_watch (s_scan s)) rm -> coherent rm (outstanding (s_scan_todo s) (s_sub s)) ->
     exists rm', agree (abs_watch d') rm' /\ coherent rm' (outstanding todo (s_sub s)) /\
       replay (outstanding todo (s_sub s)) rm' = replay (outstanding (s_scan_todo s) (s_sub s)) rm) ->
  sys_inv tr (set_scan d' todo s).
Proof.
  intros [Hi Hu Hn Hsc Hr Hw] Hsc' He. split; simpl; try done. intros Htr.
  destruct (Hw Htr) as (rm & Hag & Hc & Hrm). destruct (He Htr rm Hag Hc) as (rm' & ? & ? & Heq).
  exists rm'. by rewrite Heq.
Qed.

Lemma scanner_dispatched {E : Env} spec ctx data a (w w' : World ScanDB) :
  spec ∈ scanner_startConsumers -> scan_inv (w_db w) -> dispatch ctx (cs_Handler spec) data w = (Ok a, w') ->
  scan_inv (w_db w') /\
  ((a = Nak /\ w_db w' = w_db w) \/ abs_watch (w_db w') = watch_spec (cs_Subject spec) data (abs_watch (w_db w))).
Proof.
  intros Hs Hi Hd.
  pose proof (wp_dispatch ctx _ data _ w (consumer_watches spec ctx data w Hs Hi)) as Hp.
  unfold wp in Hp. rewrite Hd in Hp. destruct Hp as (r & ack & (Hi' & _ & Hp) & [= ->] & Hnak). split; [done|].
  destruct Hp as [[Hr Hret]|Hr]; [left|by right]. split; [by apply Hnak|done].
Qed.

Lemma scanner_step_inv {E : Env} tr s pre m post spec ctx a heard (w w' : World ScanDB) :
  sys_inv tr s -> next_message write_of tr (s_scan_todo s) pre m post -> spec ∈ scanner_startConsumers ->
  cs_Subject spec = fst m -> at_rest (s_scan s) ctx w ->
  dispatch ctx (cs_Handler spec) (snd m) w = (Ok a, w') -> 
  (tr = ExactlyOnce -> settles a heard = false -> w_db w' = s_scan s) ->
  sys_inv tr (set_scan (w_db w') (remaining a heard (s_scan_todo s) (pre ++ post)) s).
Proof.
  intros Hinv (Htodo & _ & Hpre) Hs Hsub Hw Hd Hex. pose proof (si_scan _ _ Hinv) as Hi. pose proof Hw as (Hdb & _).
  rewrite <- Hdb in *. apply scanner_dispatched in Hd as [Hi' Hr]; [|done..]. apply scan_step_inv; [done..|].
  intros Htr rm Hag Hc. specialize (Hpre ltac:(by rewrite Htr)). rewrite Hsub, Hdb in Hr. rewrite Htodo in *.
  unfold remaining. destruct (settles a heard) eqn:Ha; [|exists rm; by rewrite (Hex Htr eq_refl), Hdb].
  destruct Hr as [[-> _]|Hr]; [by rewrite settles_nak in Ha|]. exists (apply_msg rm m). unfold outstanding in *. rewrite <- !app_assoc in *.
  apply coherent_early in Hc as [Hf Hc]; [|done]. split_and!; [|done|by apply replay_early].
  rewrite Hr. by apply agree_message.
Qed.

(** Counts kept, nothing else matters. *)
Lemma scan_same_inv tr s d' :
  sys_inv tr s -> scan_inv d' ->
  (forall repo, snd <$> abs_watch d' !! repo = snd <$> abs_watch (s_scan s) !! repo) ->
  sys_inv tr (set_scan d' (s_scan_todo s) s).
Proof.
  intros Hinv Hi' Hc. apply scan_step_inv; [done..|]. intros _ rm Hag Hco. exists rm. split_and!; [|done..].
  by eapply agree_counts.
Qed.


Lemma kept_counts d d' :
  Forall2 tag_kept (watched_repos d) (watched_repos d') ->
  forall repo, snd <$> abs_watch d' !! repo = snd <$> abs_watch d !! repo.
Proof.
  intros Hk repo. unfold abs_watch. induction Hk as [|r r' l l' (Hn & Hc & _) _ IH]; [done|].
  rewrite !table_map_cons, Hn. destruct (decide (wr_RepoName r = repo)) as [->|Hne]; simplify_map_eq; [by rewrite Hc|done].
Qed.

(** Messages of the release subjects do not concern the subscriptions. *)
Lemma release_read subject data rm : subject ∈ SubjectsReleases -> read_spec subject data rm = rm.
Proof.
  unfold SubjectsReleases. rewrite !elem_of_cons, elem_of_nil. by intros [->|[->|[]]].
Qed.

Lemma release_watch subject data wm repo :
  subject ∈ SubjectsReleases -> snd <$> watch_spec subject data wm !! repo = snd <$> wm !! repo.
Proof.
  unfold SubjectsReleases. rewrite !elem_of_cons, elem_of_nil. intros [->|[->|[]]]; [done|].
  unfold watch_spec. simpl. destruct (Unmarshal data) as [ev|]; [|done]. destruct (_ <=? _); [done|].
  destruct (decide (rn_RepoName ev = repo)) as [->|Hne]; [rewrite lookup_alter_eq|by rewrite lookup_alter_ne].
  by destruct (wm !! repo).
Qed.

Lemma sys_step_inv tr s s' : sys_step tr s s' -> sys_inv tr s -> sys_inv tr s'.
Proof.
  intros Hstep Hinv. pose proof (si_sub _ _ Hinv) as Hi. pose proof (si_not _ _ Hinv) as Hn.
  pose proof (si_scan _ _ Hinv) as Hsc.
  destruct Hstep as [E G PV tokens url apiKey header ctx req r w w' (Hdb & Htx & Hctx) Hrun Hu Hids Hun|
    E ctx repo r w w' (Hdb & Htx & Hctx) Hrun|E tokens url ctx email rp isNew r w w' (Hdb & Htx & Hctx) Hrp Hrun Hu Hids|
    E ctx data r w w' (Hdb & Htx & Hctx) Hrun|E PC ctx req r w w' (Hdb & Htx & Hctx) Hrun|
    E maxAge signals ctx r w w' (Hdb & Htx & Hctx) Hrun|E BP batchSize ctx l r w w' Hw Ht Hlk Hrun Hst Hex|
    E RS CS baseURL pre m post spec ctx a heard w w' Hnext Hspec Hsub Hw Hrun|pre m post Hnext|
    E RS CS baseURL spec ctx data a w w' Hspec Hrel Hw Hrun|
    E RS CS baseURL cfg ttl signals ctx r w w' (Hdb & Htx & Hctx) Hrun|
    E pre m post spec ctx a heard w w' Hnext Hspec Hsub Hw Hrun Hex|pre m post Hnext Htr|
    E spec ctx data a w w' Hspec Hrel (Hdb & Htx & Hctx) Hrun|E SC BP signals ctx r w w' (Hdb & Htx & Hctx) Hrun].
  - pose proof (handler_refines tokens url apiKey header ctx req w Hctx Htx ltac:(by rewrite Hdb)) as Hp.
    unfold wp in Hp. rewrite Hrun in Hp. destruct Hp as (_ & Hi' & _ & _ & evs & rows & Hs & Ho & Ha). simpl in *.
    rewrite Hdb in Hs, Ho. eapply sub_step_inv; [done..|exact Hs|exact Ho|exact Ha|].
    intros Htr tok Hop. apply (Hun Htr tok). destruct req; simpl in Hop; [done|by destruct (jwt_Parse _ _ _)|congruence|done].
  - apply GetOrCreate_quiet in Hrun as (Hi' & Hv & Ho); [|done|by rewrite Hdb]. rewrite Hdb in *. by apply quiet_step_inv.
  - pose proof (emitPending_late tokens url ctx email rp isNew w Hctx Htx ltac:(by rewrite Hdb) ltac:(by rewrite Hdb)) as Hp.
    unfold wp in Hp. rewrite Hrun in Hp. destruct Hp as (_ & Hi' & _ & _ & evs & rows & Hs & Ho & Ha). simpl in *.
    rewrite Hdb in Hs, Ho. eapply sub_step_inv; [done..|exact Hs|exact Ho|exact Ha|]. by destruct isNew.
  - pose proof (HandleCompensate_refines ctx data w Hctx Htx ltac:(by rewrite Hdb)) as Hp. unfold wp in Hp.
    rewrite Hrun in Hp. simpl in Hp. destruct (Unmarshal data) as [ev|e]; [destruct Hp as [Hp _]; by eapply compensate_step_inv|].
    apply same_step_inv; congruence.
  - apply Server_handle_refines in Hrun as [->|[x Hp]]; [by apply same_step_inv|by eapply compensate_step_inv|done|done|by rewrite Hdb].
  - pose proof (runCleanup_spec maxAge signals ctx w Hctx Htx ltac:(by rewrite Hdb)) as Hp. unfold wp in Hp.
    rewrite Hrun in Hp. apply same_step_inv; simpl in *; congruence.
  - by eapply relay_step_inv.
  - by eapply notifier_step_inv.
  - by apply gives_up_inv.
  - pose proof Hw as (Hdb & _). rewrite <- Hdb in *. apply (notifier_dispatched baseURL) in Hrun as [Hn' Hr]; [|done..].
    rewrite release_read in Hr by done. apply not_same_inv; [done..|]. rewrite <- Hdb. by destruct Hr as [[_ ?]|?].
  - pose proof (runMaintenance_spec baseURL cfg ttl signals ctx w Hctx Htx ltac:(by rewrite Hdb)) as Hp.
    unfold wp in Hp. rewrite Hrun in Hp. destruct Hp as (_ & Hn' & Hr & _). apply not_same_inv; [done..|].
    unfold abs_read. simpl in Hr. by rewrite Hr, Hdb.
  - by eapply scanner_step_inv.
  - by apply scan_step_inv.
  - rewrite <- Hdb in Hsc. apply scanner_dispatched in Hrun as [Hsc' Hr]; [|done..]. rewrite Hdb in *.
    apply scan_same_inv; [done..|]. intros repo. destruct Hr as [[_ ->]| ->]; [done|by apply release_watch].
  - pose proof (Scheduler_Start_spec signals ctx w ltac:(by rewrite Hdb)) as Hp. unfold wp in Hp.
    rewrite Hrun in Hp. destruct Hp as (_ & Hsc' & Hk & _). apply scan_same_inv; [done..|]. rewrite <- Hdb.
    by apply kept_counts.
Qed.


(** Nothing is in flight or lost, and the copies are exact. *)
Record consistent (s : Sys) : Prop := {
  co_sub : sub_inv (s_sub s);
  co_utf8 : utf8_subs (s_sub s);
  co_not : not_inv (s_not s);
  co_scan : scan_inv (s_scan s);
  co_outbox : sub_outbox (s_sub s) = [];
  co_not_todo : s_not_todo s = [];
  co_scan_todo : s_scan_todo s = [];
  co_lost : s_lost s = [];
  co_read : reflects (abs_read (s_not s)) (sub_at (s_sub s));
  co_watch : agree (abs_watch (s_scan s)) (abs_read (s_not s));
}.

Lemma outstanding_nil d : sub_outbox d = [] -> outstanding [] d = [].
Proof. intros Ho. unfold outstanding, due. change (outbox d) with (sub_outbox d). by rewrite Ho. Qed.

Lemma consistent_inv tr s : consistent s -> sys_inv tr s.
Proof.
  intros []. split; try done; intros _; rewrite ?co_not_todo0, ?co_scan_todo0, ?co_lost0, outstanding_nil by done; [done|].
  by exists (abs_read (s_not s)).
Qed.

Lemma sys_run_inv tr s s' : rtc (sys_step tr) s s' -> sys_inv tr s -> sys_inv tr s'.
Proof. induction 1; eauto using sys_step_inv. Qed.

(** No confirmation or removal is left to handle. *)
Definition caught_up (todo : list Msg) : Prop := Forall (fun m => write_of m = None) todo.

Lemma outstanding_idle todo d rm : sub_outbox d = [] -> caught_up todo -> replay (outstanding todo d) rm = rm.
Proof.
  intros Ho Ht. unfold outstanding, due. change (outbox d) with (sub_outbox d). rewrite Ho. simpl.
  rewrite app_nil_r. by apply replay_idle.
Qed.

(** *** Progress *)

(** The relay can publish everything that is due. *)
Lemma relay_drains tr s :
  sys_inv tr s -> exists s', sys_step tr s s' /\ sub_outbox (s_sub s') = [] /\
    sub_at (s_sub s') = sub_at (s_sub s) /\ s_lost s' = s_lost s.
Proof.
  intros Hinv. destruct (quiet_drain (s_sub s)) as (n & r & w' & Hrun & Hdb & Htr); [apply Hinv|].
  eexists. split; [refine (SysRelay tr s quiet_env (BP := Conn_BusPublisher (H := quiet_env)) n Background _ r
    (world_of (s_sub s)) w' _ eq_refl (fun _ _ => eq_refl) Hrun (or_introl eq_refl) _)|]; [done| |].
  - intros _. rewrite Htr, Hdb. unfold due at 2. simpl. by rewrite app_nil_r.
  - simpl. by rewrite Hdb.
Qed.

Definition about_entries (m : Msg) : Prop :=
  fst m = SubjectSubscriptionConfirmed \/ fst m = SubjectSubscriptionRemoved.

Global Instance about_entries_dec m : Decision (about_entries m).
Proof. unfold about_entries. apply _. Defined.

Lemma not_about_entries m : ~ about_entries m -> write_of m = None.
Proof.
  intros Hm. unfold write_of. destruct (String.eqb_spec (fst m) SubjectSubscriptionConfirmed); [by destruct Hm; left|].
  destruct (String.eqb_spec (fst m) SubjectSubscriptionRemoved); [by destruct Hm; right|done].
Qed.

(** The notifier's consumers of the two, in quiet surroundings. *)
Definition not_confirmed_spec : ConsumerSpec NotDB :=
  {| cs_Stream := StreamSubscriptions; cs_Durable := "notifier-subscription-confirmed";
     cs_Subject := SubjectSubscriptionConfirmed; cs_Handler := Notifier_HandleConfirmed (E := quiet_env) |}.
Definition not_removed_spec : ConsumerSpec NotDB :=
  {| cs_Stream := StreamSubscriptions; cs_Durable := "notifier-subscription-removed";
     cs_Subject := SubjectSubscriptionRemoved; cs_Handler := Notifier_HandleRemoved (E := quiet_env) |}.

(** The consumer of a confirmation or a removal succeeds, or drops a poison message. *)
Lemma entry_handled m (d : NotDB) :
  about_entries m -> exists spec a w', spec ∈ notifier_startConsumers (E := quiet_env) (RS := demo_RS quiet_env)
    (CS := demo_CS quiet_env) demo_base /\ cs_Subject spec = fst m /\ a <> Nak /\
    dispatch Background (cs_Handler spec) (snd m) (world_of d) = (Ok a, w').
Proof.
  assert (forall (h : Handler NotDB) T `{Event T} (k : T -> M NotDB unit), h Background (snd m) = decoded (snd m) k ->
    (forall ev, exists w', k ev (world_of d) = (Ok tt, w')) ->
    exists a w', a <> Nak /\ dispatch Background h (snd m) (world_of d) = (Ok a, w')) as Hh.
  { intros h T ? k Hh Hk. unfold dispatch, mbind, M_bind, attempt, decoded in *. rewrite Hh.
    destruct (Unmarshal (snd m)) as [ev|e]; [destruct (Hk ev) as [w' ->]; by eexists Ack, _|by eexists Term, _]. }
  intros [Hm|Hm]; [exists not_confirmed_spec|exists not_removed_spec]; cbn [cs_Handler].
  - destruct (Hh (Notifier_HandleConfirmed (E := quiet_env)) SubscriptionConfirmed _ _ eq_refl) as (a & w' & ? & ?);
      [intros ev; by eexists|]. exists a, w'. split_and!; [right; left|by rewrite Hm|done|done].
  - destruct (Hh (Notifier_HandleRemoved (E := quiet_env)) SubscriptionRemoved _ _ eq_refl) as (a & w' & ? & ?);
      [intros ev; by eexists|]. exists a, w'. split_and!; [do 2 right; left|by rewrite Hm|done|done].
Qed.

Lemma first_entry_message todo :
  caught_up todo \/ exists pre m post, todo = pre ++ m :: post /\ about_entries m /\ Forall (fun m' => ~ about_entries m') pre.
Proof.
  induction todo as [|m todo [IH|(pre & m' & post & -> & Hm & Hpre)]]; [by left; constructor| |].
  - destruct (decide (about_entries m)) as [Hm|Hm]; [right; by exists [], m, todo|].
    left. constructor; [by apply not_about_entries|done].
  - right. destruct (decide (about_entries m)) as [Hm'|Hm']; [by exists [], m, (pre ++ m' :: post)|].
    exists (m :: pre), m', post. split_and!; [done..|by constructor].
Qed.

(** The notifier can handle every confirmation and removal. *)
Lemma notifier_drains tr s :
  exists s', rtc (sys_step tr) s s' /\ caught_up (s_not_todo s') /\ s_sub s' = s_sub s /\ s_lost s' = s_lost s.
Proof.
  remember (length (s_not_todo s)) as n eqn:Hn. revert s Hn.
  induction n as [n IH] using (well_founded_induction lt_wf). intros s ->.
  destruct (first_entry_message (s_not_todo s)) as [Hc|(pre & m & post & Htodo & Hm & Hpre)]; [by exists s|].
  destruct (entry_handled m (s_not s) Hm) as (spec & a & w' & Hspec & Hsub & Ha & Hrun).
  destruct (IH (length (pre ++ post))) with (s := set_not (w_db w') (pre ++ post) s) as (s' & Hs & Hc & Hd & Hlo); [|done|].
  { rewrite Htodo, !length_app. simpl. lia. }
  exists s'. split_and!; [|done..]. eapply rtc_l; [|exact Hs].
  pose proof (SysNotifier tr s quiet_env (RS := demo_RS quiet_env) (CS := demo_CS quiet_env) demo_base pre m post spec Background a true (world_of (s_not s)) w') as Hstep.
  rewrite remaining_settled in Hstep by done. apply Hstep; [|done..].
  split_and!; [done| |intros _]; (eapply Forall_impl; [exact Hpre|]); intros m' Hm'; simpl.
  - intros He. apply Hm'. unfold about_entries in *. by rewrite He.
  - intros k v v' _ Hw. by rewrite not_about_entries in Hw.
Qed.

(** C6: The stores converge.  Over any interleaving of API requests,
    compensations, cleanups, relay batches, consumed messages, maintenance and
    watch passes, with any faults of the databases, the bus, GitHub and SMTP
    (lost commits and acknowledgements, messages published twice, redelivered or
    given up): if the messages about one subscription are handled in stream
    order, then whenever the outbox is empty and the notifier has handled its
    confirmations and removals, its read model holds exactly the confirmed
    subscriptions with their tokens, except those about which the bus gave up
    delivering a message.  If in addition each message takes effect once and only
    confirmed subscriptions are unsubscribed, then whenever the scanner has handled
    its confirmations and removals it watches exactly the repositories with a
    confirmed subscription, each with their number. *)
Theorem replicas_converge tr s0 s :
  consistent s0 -> rtc (sys_step tr) s0 s -> tr <> AnyOrder -> sub_outbox (s_sub s) = [] ->
  (caught_up (s_not_todo s) -> forall e r tok, (e, r) ∉ entries_of (s_lost s) ->
     (abs_read (s_not s) !! (e, r) = Some tok <-> sub_at (s_sub s) e r = Some (true, tok))) /\
  (tr = ExactlyOnce -> caught_up (s_scan_todo s) -> forall repo,
     subscriber_count (abs_watch (s_scan s)) repo = confirmed_count (s_sub s) repo /\
     (is_Some (abs_watch (s_scan s) !! repo) <-> 0 < confirmed_count (s_sub s) repo)).
Proof.
  intros Hc Hrun Htr Ho. destruct (sys_run_inv tr s0 s Hrun (consistent_inv tr s0 Hc)) as [Hi _ _ _ Hr Hw]. split.
  - intros Ht e r tok Hk. specialize (Hr Htr e r Hk). rewrite outstanding_idle in Hr by done. rewrite Hr.
    destruct (sub_at (s_sub s) e r) as [[[] ?]|]; simpl; naive_solver.
  - intros Hx Ht repo. destruct (Hw Hx) as (rm & [Hcnt Hpos] & _ & Hrm). rewrite outstanding_idle in Hrm by done.
    rewrite <- (reflects_count rm (s_sub s) repo), <- Hcnt by done. split; [done|]. unfold subscriber_count.
    destruct (abs_watch (s_scan s) !! repo) as [[tag n]|] eqn:Hl; [|split; [by intros [? ?]|lia]].
    specialize (Hpos _ _ _ Hl). split; [lia|by eexists].
Qed.

(** C8: The stores can always converge.  From every state a run
    reaches, whatever failed on the way, there is a continuation that publishes and
    handles what is left and gives up nothing more: the subscriptions stay as they
    are, the outbox is empty, and the notifier's read model holds exactly the
    confirmed subscriptions, except those about which a message was given up before. *)
Theorem replicas_can_converge tr s0 s :
  consistent s0 -> rtc (sys_step tr) s0 s -> tr <> AnyOrder ->
  exists s', rtc (sys_step tr) s s' /\ sub_at (s_sub s') = sub_at (s_sub s) /\ sub_outbox (s_sub s') = [] /\
    caught_up (s_not_todo s') /\ s_lost s' = s_lost s /\ forall e r tok, (e, r) ∉ entries_of (s_lost s) ->
      (abs_read (s_not s') !! (e, r) = Some tok <-> sub_at (s_sub s) e r = Some (true, tok)).
Proof.
  intros Hc Hrun Htr. pose proof (sys_run_inv tr s0 s Hrun (consistent_inv tr s0 Hc)) as Hinv.
  destruct (relay_drains tr s Hinv) as (s1 & Hs1 & Ho & Hat & Hl1). destruct (notifier_drains tr s1) as (s2 & Hs2 & Hcu & Hd & Hl2).
  assert (rtc (sys_step tr) s s2) as Hs by (by eapply rtc_l). exists s2. rewrite Hd, <- Hat. split_and!; [done..|congruence|].
  destruct (sys_run_inv tr s s2 Hs Hinv) as [_ _ _ _ Hr _]. specialize (Hr Htr). intros e r tok Hk.
  rewrite outstanding_idle in Hr; [|by rewrite Hd|done]. rewrite Hr, Hd by by rewrite Hl2, Hl1.
  destruct (sub_at (s_sub s1) e r) as [[[] ?]|]; simpl; naive_solver.
Qed.
End System.

(** ** Witnesses *)

(** A check of [utf8_subs] on the rows. *)
Definition utf8_rows (d : SubDB) : bool :=
  forallb (fun s => valid_utf8 (sub_Email s) && valid_utf8 (sub_UnsubscribeToken s)) (subscriptions d) &&
  forallb (fun rp => valid_utf8 (repo_Name rp)) (repositories d).

Lemma utf8_rows_subs d : sub_inv d -> utf8_rows d = true -> utf8_subs d.
Proof.
  intros Hi [Hs Hr]%andb_true_iff e r b tok (s & Hin & (<- & rp & Hrp & _ & <-) & [= -> ->])%sub_at_Some; [|done].
  rewrite forallb_forall in Hs, Hr. apply list_elem_of_In, Hs, andb_true_iff in Hin as [? ?].
  apply list_elem_of_In, Hr in Hrp. done.
Qed.

(** A check of [lock_order] on the rows. *)
Lemma lock_order_app d d' rows :
  sub_outbox d' = sub_outbox d ++ rows ->
  forallb (fun old => forallb (fun row => om_id old <? om_id row) rows) (sub_outbox d) = true -> lock_order d d'.
Proof.
  intros Ho Hc old row k Hold Hrow Hnew _ _. rewrite Ho, elem_of_app in Hrow. destruct Hrow as [?|Hrow]; [done|].
  rewrite forallb_forall in Hc. apply list_elem_of_In, Hc in Hold. rewrite forallb_forall in Hold.
  apply Z.ltb_lt, Hold. by apply list_elem_of_In.
Qed.

Definition no_repos : ScanDB := {| watched_repos := [] |}.
Definition no_subscribers : NotDB :=
  {| subscriptions_read := []; failed_notifications := []; failed_confirmations := []; processed_releases := [];
     not_outbox := [] |}.
(** Ann's subscription is pending. *)
Definition ann_pending : SubDB := {| repositories := [demo_repo]; subscriptions := [demo_ann]; sub_outbox := [] |}.

Definition demo_start : Sys :=
  {| s_sub := ann_pending; s_not := no_subscribers; s_scan := no_repos; s_not_todo := []; s_scan_todo := []; s_lost := [] |}.

Lemma ann_pending_inv : sub_inv ann_pending.
Proof.
  split; simpl; unfold unique_on; simpl; try (apply NoDup_ListNoDup; repeat constructor; set_solver).
  intros s Hs. exists demo_repo. set_solver.
Qed.

Lemma demo_start_consistent : consistent demo_start.
Proof.
  split; simpl; try done.
  - apply ann_pending_inv.
  - apply utf8_rows_subs; [apply ann_pending_inv|by vm_compute].
  - split; simpl; try apply NoDup_nil_2; constructor.
  - split; [apply NoDup_nil_2|constructor].
  - intros e r. destruct (sub_at ann_pending e r) as [[[] tok]|] eqn:Hat; try done.
    apply sub_at_Some in Hat as (s & Hs & _ & [= Hc _]); [|apply ann_pending_inv].
    apply list_elem_of_singleton in Hs as ->. done.
Qed.

#[local] Instance any_proto {A} : ProtoValidator A := {| pv_Validate _ := None |}.
#[local] Instance quiet_RS : ReleaseSender NotDB := demo_RS quiet_env.
#[local] Instance quiet_CS : ConfirmationSender NotDB := demo_CS quiet_env.
#[local] Instance quiet_SC : ReleaseScanner ScanDB :=
  Errgroup_ReleaseScanner (E := quiet_env) (G := constant_source ScanDB (Ok demo_rel)) 2 (fun n => n) (ltac:(lia) : 2 <> 0).
#[local] Instance quiet_checker : RepoChecker SubDB := demo_checker.

Definition ann_token : string :=
  match fst (Issue (E := quiet_env) demo_tokens "ann@example.test" "golang/go" (world_of tt)) with
  | Ok token => token | Err _ => "" end.

Definition ann_request (req : Request) (w : World SubDB) : World SubDB :=
  snd (NewConnectHandler (E := quiet_env) demo_tokens demo_base "key" "" Background req w).

Lemma ann_request_step tr s req w :
  w_db w = s_sub s -> w_tx w = None -> sub_inv (s_sub s) -> utf8_rows (w_db (ann_request req w)) = true ->
  lock_order (s_sub s) (w_db (ann_request req w)) ->
  (tr = ExactlyOnce -> forall token, req = UnsubscribeRequest token ->
     forall e r, sub_at (s_sub s) e r <> Some (false, token)) ->
  sys_step tr s (set_sub (w_db (ann_request req w)) s).
Proof.
  intros Hdb Htx Hi Hu Hids Hun.
  pose proof (handler_refines (E := quiet_env) demo_tokens demo_base "key" "" Background req w eq_refl Htx
    ltac:(by rewrite Hdb)) as (_ & Hi' & _).
  refine (SysRequest _ s quiet_env demo_tokens demo_base "key" "" Background req _ w (ann_request req w) _
    (surjective_pairing _) _ Hids Hun); [by unfold at_rest|by apply utf8_rows_subs].
Qed.

(** The rest of the steps, each succeeding in a fresh world. *)
Definition relay_all (w : World SubDB) : World SubDB :=
  snd (flushBatch (E := quiet_env) (BP := Conn_BusPublisher (H := quiet_env)) 10 Background w).
Definition notified (spec : ConsumerSpec NotDB) (m : Msg) (d : NotDB) : res AckKind * World NotDB :=
  dispatch Background (cs_Handler spec) (snd m) (world_of d).
Definition counted (spec : ConsumerSpec ScanDB) (m : Msg) (d : ScanDB) : res AckKind * World ScanDB :=
  dispatch Background (cs_Handler spec) (snd m) (world_of d).

Lemma demo_relay_step tr s w :
  w_db w = s_sub s -> w_tx w = None -> w_trace w = [] ->
  let l := accepted (w_trace (relay_all w)) in
  (tr = ExactlyOnce -> l ++ map wire (due (w_db (relay_all w))) = map wire (due (s_sub s))) ->
  sys_step tr s (set_published (w_db (relay_all w)) l s).
Proof.
  intros Hdb Htx Ht l Hex. refine (SysRelay _ s quiet_env (BP := Conn_BusPublisher (H := quiet_env)) 10 Background l _ w (relay_all w) _ Ht _ (surjective_pairing _) _ Hex);
    [by unfold at_rest|done|by left].
Qed.

(** The same with the end state computed. *)
Lemma demo_relay_to tr s w s' :
  w_db w = s_sub s -> w_tx w = None -> w_trace w = [] ->
  (tr = ExactlyOnce ->
     accepted (w_trace (relay_all w)) ++ map wire (due (w_db (relay_all w))) = map wire (due (s_sub s))) ->
  s' = set_published (w_db (relay_all w)) (accepted (w_trace (relay_all w))) s ->
  sys_step tr s s'.
Proof. intros Hdb Htx Ht Hex ->. by apply demo_relay_step. Qed.

Lemma ack_pair {A B} (x : A * B) a : fst x = a -> x = (a, snd x).
Proof. intros <-. apply surjective_pairing. Qed.

Lemma demo_notifier_step tr s pre m post spec :
  s_not_todo s = pre ++ m :: post -> spec ∈ notifier_startConsumers (E := quiet_env) demo_base ->
  cs_Subject spec = fst m -> Forall (fun m' => fst m' <> fst m) pre -> (tr <> AnyOrder -> Forall (unrelated write_of m) pre) ->
  fst (notified spec m (s_not s)) = Ok Ack ->
  sys_step tr s (set_not (w_db (snd (notified spec m (s_not s)))) (pre ++ post) s).
Proof.
  intros Htodo Hs Hsub Hord Hpre Hack.
  exact (SysNotifier _ s quiet_env demo_base pre m post spec Background Ack true (world_of (s_not s)) _
    (conj Htodo (conj Hord Hpre)) Hs Hsub (conj eq_refl (conj eq_refl eq_refl)) (ack_pair _ _ Hack)).
Qed.

Lemma demo_scanner_step tr s pre m post spec :
  s_scan_todo s = pre ++ m :: post -> spec ∈ scanner_startConsumers (E := quiet_env) ->
  cs_Subject spec = fst m -> Forall (fun m' => fst m' <> fst m) pre -> (tr <> AnyOrder -> Forall (unrelated write_of m) pre) ->
  fst (counted spec m (s_scan s)) = Ok Ack ->
  sys_step tr s (set_scan (w_db (snd (counted spec m (s_scan s)))) (pre ++ post) s).
Proof.
  intros Htodo Hs Hsub Hord Hpre Hack.
  refine (SysScanner _ s quiet_env pre m post spec Background Ack true (world_of (s_scan s)) _
    (conj Htodo (conj Hord Hpre)) Hs Hsub (conj eq_refl (conj eq_refl eq_refl)) (ack_pair _ _ Hack) _); discriminate.
Qed.

(** Ann confirms; the relay publishes, and both services handle the message. *)
Definition ann_confirmed : World SubDB := ann_request (ConfirmRequest ann_token) (world_of ann_pending).
Definition confirmed_msg : Msg :=
  match accepted (w_trace (relay_all ann_confirmed)) with m :: _ => m | [] => ("", "") end.

Definition scan_confirmed_spec : ConsumerSpec ScanDB :=
  {| cs_Stream := StreamSubscriptions; cs_Durable := "scanner-subscription-confirmed";
     cs_Subject := SubjectSubscriptionConfirmed; cs_Handler := Scanner_HandleConfirmed (E := quiet_env) |}.

Definition after_confirm : Sys := set_sub (w_db ann_confirmed) demo_start.
Definition after_relay : Sys :=
  {| s_sub := w_db (relay_all ann_confirmed); s_not := no_subscribers; s_scan := no_repos;
     s_not_todo := [confirmed_msg]; s_scan_todo := [confirmed_msg]; s_lost := [] |}.
Definition after_notifier : Sys :=
  set_not (w_db (snd (notified not_confirmed_spec confirmed_msg no_subscribers))) [] after_relay.

Definition ann_end : Sys :=
  set_scan (w_db (snd (counted scan_confirmed_spec confirmed_msg no_repos))) [] after_notifier.

Lemma confirm_step tr : sys_step tr demo_start after_confirm.
Proof.
  apply (ann_request_step _ demo_start); [done..|apply ann_pending_inv|by vm_compute| |done].
  intros old row k Hold. by apply elem_of_nil in Hold.
Qed.

Lemma publish_step tr : sys_step tr after_confirm after_relay.
Proof. apply (demo_relay_to _ _ ann_confirmed); by vm_compute. Qed.

Lemma ann_run : rtc (sys_step ExactlyOnce) demo_start ann_end.
Proof.
  apply (rtc_l _ _ after_confirm); [apply confirm_step|].
  apply (rtc_l _ _ after_relay); [apply publish_step|].
  apply (rtc_l _ _ after_notifier).
  { apply (demo_notifier_step _ after_relay [] confirmed_msg [] not_confirmed_spec);
      [reflexivity|right; left|by vm_compute|constructor|constructor|by vm_compute]. }
  apply rtc_once.
  apply (demo_scanner_step _ after_notifier [] confirmed_msg [] scan_confirmed_spec);
    [reflexivity|left|by vm_compute|constructor|constructor|by vm_compute].
Qed.

Lemma replicas_converge_witness :
  abs_read (s_not ann_end) !! ("ann@example.test", "golang/go") = Some "aa" /\
  subscriber_count (abs_watch (s_scan ann_end)) "golang/go" = 1.
Proof.
  pose proof (replicas_converge simple_uuid_utf8 ExactlyOnce demo_start ann_end demo_start_consistent
    ann_run ltac:(discriminate) ltac:(vm_compute; reflexivity)) as [Hread Hcount].
  split.
  - apply (proj2 (Hread ltac:(constructor) _ _ _ (not_elem_of_nil _))). vm_compute. reflexivity.
  - refine (eq_trans (proj1 (Hcount eq_refl ltac:(constructor) _)) _). vm_compute. reflexivity.
Defined.

(** ** The order across consumers matters *)

(** Ann confirms and unsubscribes before the notifier gets to see either. *)
Definition ann_gone : World SubDB := ann_request (UnsubscribeRequest "aa") ann_confirmed.
Definition gone_msgs : list Msg := accepted (w_trace (relay_all ann_gone)).
Definition removed_msg : Msg := match gone_msgs with [_; m] => m | _ => ("", "") end.

Definition after_unsubscribe : Sys := set_sub (w_db ann_gone) after_confirm.
Definition gone_published : Sys :=
  {| s_sub := w_db (relay_all ann_gone); s_not := no_subscribers; s_scan := no_repos;
     s_not_todo := [confirmed_msg; removed_msg]; s_scan_todo := [confirmed_msg; removed_msg]; s_lost := [] |}.
Definition removal_handled : Sys :=
  set_not (w_db (snd (notified not_removed_spec removed_msg no_subscribers))) [confirmed_msg] gone_published.
Definition ghost_subscriber : Sys :=
  set_not (w_db (snd (notified not_confirmed_spec confirmed_msg (s_not removal_handled)))) [] removal_handled.

(** The confirmed and the removed subjects have a consumer each, and nothing
    orders the two: when the removal is handled before the confirmation it
    revokes, the notifier keeps mailing an address that has unsubscribed, and
    nothing is left to correct it. *)
Theorem removal_overtakes_confirmation :
  rtc (sys_step AnyOrder) demo_start ghost_subscriber /\
  sub_outbox (s_sub ghost_subscriber) = [] /\ s_not_todo ghost_subscriber = [] /\
  sub_at (s_sub ghost_subscriber) "ann@example.test" "golang/go" = None /\
  abs_read (s_not ghost_subscriber) !! ("ann@example.test", "golang/go") = Some "aa".
Proof.
  split; [|split_and!; by vm_compute].
  apply (rtc_l _ _ after_confirm); [apply confirm_step|].
  apply (rtc_l _ _ after_unsubscribe).
  { apply (ann_request_step _ after_confirm (UnsubscribeRequest "aa") ann_confirmed); [by vm_compute|by vm_compute| |by vm_compute| |discriminate].
    - apply (handler_refines (E := quiet_env) demo_tokens demo_base "key" "" Background (ConfirmRequest ann_token)
        (world_of ann_pending)); [done..|apply ann_pending_inv].
    - apply (lock_order_app _ _ (drop 1 (sub_outbox (w_db ann_gone)))); by vm_compute. }
  apply (rtc_l _ _ gone_published).
  { apply (demo_relay_to _ _ ann_gone); [by vm_compute|by vm_compute|by vm_compute|discriminate|by vm_compute]. }
  apply (rtc_l _ _ removal_handled).
  { apply (demo_notifier_step _ gone_published [confirmed_msg] removed_msg [] not_removed_spec);
      [reflexivity|right; right; left|by vm_compute|constructor; [by vm_compute|constructor]|by intros []|by vm_compute]. }
  apply rtc_once.
  apply (demo_notifier_step _ removal_handled [] confirmed_msg [] not_confirmed_spec);
    [reflexivity|right; left|by vm_compute|constructor|by intros []|by vm_compute].
Qed.

(** Ann has confirmed, and nothing is published yet. *)
Lemma replicas_can_converge_witness :
  exists s', rtc (sys_step PerSubscription) after_confirm s' /\ sub_outbox (s_sub s') = [] /\
    abs_read (s_not s') !! ("ann@example.test", "golang/go") = Some "aa".
Proof.
  destruct (replicas_can_converge simple_uuid_utf8 PerSubscription demo_start after_confirm demo_start_consistent)
    as (s' & Hs & _ & Ho & _ & _ & Hread).
  - apply rtc_once, confirm_step.
  - discriminate.
  - exists s'. split_and!; [exact Hs|exact Ho|]. apply (proj2 (Hread _ _ _ (not_elem_of_nil _))). vm_compute. reflexivity.
Defined.
