(* ===== verification/SagaSystem.v ===== *)
(** * The saga across its two services

    The subscription service and the saga orchestrator share a Subscribe saga
    by messages only: the subscription service announces pending, confirmed and
    expired subscriptions, and the orchestrator, told that a confirmation mail
    is dead, commands the rollback.  [saga_step] interleaves everything that
    touches the two stores, with any faults; the invariant accounts for every
    pending subscription by an open saga, an announcement still to be handled
    or a command still to be carried out. *)

From S2P Require Import Prelude GoErrors Effects Wp Sql Json JsonFacts RepoName Events Uuid Libs Broker Delivery Outbox OutboxFacts.
From S2P Require Import Consumers Saga SagaFacts GitHub Subscription SubscriptionUse SubscriptionApi SubscriptionFacts.
From S2P Require Import SubscriptionTheorems Replicas Convergence Quiet Concrete.
Import Coordinator Compensators SagaConsumer.

Open Scope string_scope.
Open Scope list_scope.
Open Scope Z_scope.

(** ** Announcements as writes *)

(** The orchestrator has a saga for the subscription that is not over. *)
Definition open_saga (t : SagaMap) (k : string * string) : bool :=
  match t !! (SagaTypeSubscribe, fst k, snd k) with Some (_, st) => negb (terminal st) | None => false end.

(** What an event says about a subscription: its saga is to be open, or over. *)
Definition event_opens (ev : SubEvent) : option ((string * string) * bool) :=
  match ev with
  | EvPending e r _ => Some ((e, r), true)
  | EvConfirmed e r _ | EvExpired e r => Some ((e, r), false)
  | EvRemoved _ _ => None
  end.

Section Announcements.
Context {V : Validators} {U : UUIDLib} {J : JwtLib}.

(** The same of a message. *)
Definition opens (m : Msg) : option ((string * string) * bool) :=
  match decode_msg (fst m) (snd m) with
  | Some (MPending _ e r) => Some ((e, r), true)
  | Some (MConfirmed e r) | Some (MExpired e r) => Some ((e, r), false)
  | _ => None
  end.

(** The subscription service's subjects that the orchestrator consumes. *)
Definition saga_subjects : list string :=
  [SubjectSubscriptionPending; SubjectSubscriptionConfirmed; SubjectSubscriptionExpired].

Lemma saga_subjects_ok {E : Env} {C : Compensator} :
  map cs_Subject startConsumers =
  saga_subjects ++ [SubjectNotificationConfirmationSent; SubjectNotificationConfirmationDead].
Proof. done. Qed.

Lemma saga_listens m : listens saga_subjects m = false -> opens m = None.
Proof.
  unfold listens, opens, decode_msg. intros Hm. apply bool_decide_eq_false in Hm. unfold saga_subjects in Hm.
  destruct (String.eqb_spec (fst m) SubjectSubscriptionPending) as [He|_]; [destruct Hm; rewrite He; left|].
  destruct (String.eqb_spec (fst m) SubjectSubscriptionConfirmed) as [He|_]; [destruct Hm; rewrite He; right; left|].
  destruct (String.eqb_spec (fst m) SubjectSubscriptionExpired) as [He|_]; [destruct Hm; rewrite He; do 2 right; left|].
  by repeat (destruct (String.eqb _ _); [by destruct (Unmarshal _)|]).
Qed.

Hypothesis uuid_utf8 : forall s, v_uuid s = true -> valid_utf8 s = true.
Hypothesis uuid_parses : forall s, v_uuid s = true -> exists u, uuid_Parse s = inr u.
Hypothesis jwt_utf8 : forall secret c tok, jwt_Sign secret c = inr tok -> valid_utf8 tok = true.

Lemma confirm_link_utf8 tokens baseURL e r link :
  valid_utf8 baseURL = true -> confirm_link tokens baseURL e r link -> valid_utf8 link = true.
Proof.
  intros Hb (c & tok & Hs & _ & _ & ->). unfold ConfirmURL.
  apply valid_utf8_app; [done|]. apply valid_utf8_app; [done|]. by eapply jwt_utf8.
Qed.

(** An event of text only. *)
Definition event_text (ev : SubEvent) : Prop :=
  match ev with
  | EvPending e r link => valid_utf8 e = true /\ valid_utf8 r = true /\ valid_utf8 link = true
  | EvConfirmed e r tok => valid_utf8 e = true /\ valid_utf8 r = true /\ valid_utf8 tok = true
  | EvRemoved e r | EvExpired e r => valid_utf8 e = true /\ valid_utf8 r = true
  end.

Definition op_text (op : SubOp) : Prop :=
  match op with
  | OpSubscribe _ _ links => forall link, links link -> valid_utf8 link = true
  | OpAnnounce e r links =>
      valid_utf8 e = true /\ valid_utf8 r = true /\ forall link, links link -> valid_utf8 link = true
  | _ => True
  end.

Lemma spec_text d op ok evs d' :
  sub_spec (sub_at d) op ok evs (sub_at d') -> utf8_subs d -> utf8_subs d' -> op_text op -> Forall event_text evs.
Proof.
  intros Hs Hu Hu' Hl. unfold utf8_subs in Hu'. revert Hs Hu'. generalize (sub_at d'). intros v' Hs Hu'.
  destruct Hs as [|ok e r tok links link m' _ Hk Hv|ok e r tok links link m' Hp Hk _|ok e r links link m' Hk Hv|
    ok e r tok m' Hp _| |ok e r b tok m' Hp _| | |]; repeat constructor; simpl in *; try (by apply Hl); try (by destruct Hl as (? & ? & ?));
    try (by destruct (Hu _ _ _ _ Hp) as (? & ? & ?)).
  all: destruct (Hu' e r false tok) as (? & ? & ?); [rewrite Hv; unfold upd; by rewrite decide_True|done].
Qed.

Lemma announced_opens ev row : event_text ev -> announces ev row -> opens (wire row) = event_opens ev.
Proof.
  intros Ht Ha. destruct ev as [e r link|e r tok|e r|e r]; destruct Ha as [Hs Ha];
    unfold opens, decode_msg, wire; simpl; rewrite Hs; simpl; [| |done|].
  - destruct Ha as (p & Hv & <- & <- & <- & ->). by decoded_event Hv.
  - destruct Ha as (p & Hv & <- & <- & <- & ->). by decoded_event Hv.
  - destruct Ha as (p & Hv & <- & <- & ->). by decoded_event Hv.
Qed.

Lemma announced_all evs rows :
  Forall event_text evs -> Forall2 announces evs rows -> map opens (map wire rows) = map event_opens evs.
Proof.
  intros Ht Ha. induction Ha as [|ev row evs rows Ha _ IH]; simpl; [done|]. apply Forall_cons in Ht as [H1 H2].
  by rewrite (announced_opens ev row), IH.
Qed.
End Announcements.

(** ** What the orchestrator makes of the messages *)

Lemma open_started t e r id k :
  open_saga (<[(SagaTypeSubscribe, e, r) := (id, StatePending)]> t) k = if decide ((e, r) = k) then true else open_saga t k.
Proof.
  unfold open_saga. case_decide as Hk; [subst k; by rewrite lookup_insert_eq|]. rewrite lookup_insert_ne; [done|].
  intros [= -> ->]. by destruct k.
Qed.

Lemma open_over t e r to k :
  terminal to = true ->
  open_saga (alter (advance to) (SagaTypeSubscribe, e, r) t) k = if decide ((e, r) = k) then false else open_saga t k.
Proof.
  intros Hto. unfold open_saga. case_decide as Hk.
  - subst k. simpl. rewrite lookup_alter_eq. destruct (t !! _) as [[id st]|]; [|done]. simpl. unfold advance. simpl.
    destruct (may_move st to) eqn:Hm; simpl; [by rewrite Hto|]. by destruct st, to.
  - rewrite lookup_alter_ne; [done|]. intros [= -> ->]. by destruct k.
Qed.

(** A mail that was sent leaves the saga open. *)
Lemma open_sent t id k : open_saga (advance_id id StateConfirmationSent t) k = open_saga t k.
Proof.
  unfold open_saga, advance_id. rewrite lookup_fmap. destruct (t !! _) as [[id' st]|]; [|done]. simpl.
  case_bool_decide; [|done]. unfold advance. simpl. by destruct st.
Qed.

(** The id is this saga's and no other's. *)
Definition names_one (d : SagaDB) (s : Saga) : Prop :=
  forall s', s' ∈ sagas d -> sg_ID s' = sg_ID s -> saga_key s' = saga_key s.

Lemma stored_names_one `{UUIDLib} d s : saga_inv d -> s ∈ sagas d -> names_one d s.
Proof. intros (Hid & _) Hs s' Hs' He. f_equal. by apply (unique_on_eq sg_ID (sagas d)). Qed.

(** Only the compensated saga is over. *)
Lemma open_compensated `{UUIDLib} d s k :
  saga_inv d -> names_one d s -> open_saga (abs_sagas (sagas d)) k = true ->
  open_saga (advance_id (sg_ID s) StateCompensated (abs_sagas (sagas d))) k = true \/
  saga_key s = (SagaTypeSubscribe, fst k, snd k).
Proof.
  intros (_ & Hk & _) Hn. unfold open_saga, advance_id. rewrite lookup_fmap.
  destruct (abs_sagas (sagas d) !! _) as [[id st]|] eqn:Hl; [|done]. simpl. intros Hst. case_bool_decide as He; [|by left].
  right. apply abs_sagas_lookup in Hl as (s' & Hs' & <- & [= Hid' _]); [|done]. symmetry. apply Hn; [done|congruence].
Qed.

(** ** Commands *)

(** The message orders the rollback of the subscription. *)
Definition command_for `{Validators} (k : string * string) (m : Msg) : Prop :=
  fst m = SubjectSagaCompensate /\
  exists ev, Unmarshal (T := SagaCompensate) (snd m) = Ok ev /\ (sgc_Email ev, sgc_RepoName ev) = k.

(** PostgreSQL stores text in UTF-8 only. *)
Definition saga_text (s : Saga) : Prop :=
  valid_utf8 (sg_Type s) = true /\ valid_utf8 (sg_Email s) = true /\ valid_utf8 (sg_RepoName s) = true.
Definition utf8_sagas (d : SagaDB) : Prop := forall s, s ∈ sagas d -> saga_text s.

Lemma compensated_commands `{UUIDLib} d s d' :
  saga_wf s -> saga_text s -> compensated s d d' ->
  exists row, exists_where (key_is om_id (om_id row)) (saga_outbox d) = false /\
    saga_outbox d' = saga_outbox d ++ [row] /\ command_for (sg_Email s, sg_RepoName s) (wire row).
Proof.
  intros [Hid Hv] (? & ? & ?) (now & id & at_ & Hf & ->). eexists. split_and!; [|reflexivity|]; [exact Hf|]. split; [done|].
  exists (compensate_event s). split; [|done]. apply Unmarshal_encode; [done|]. unfold encodable. simpl.
  pose proof (uuid_String_json (sg_ID s) Hid) as Hj. simpl in Hj. rewrite Hj. by rewrite !andb_true_iff.
Qed.

(** ** The system *)

(** The order of the ids of announcements.  A confirmation and an expiry have
    written the subscription's row, so that a request which later creates the
    row anew waits for their commit before it takes an id.  Nothing orders the
    announcement of a pending subscription that was there before. *)
Definition saga_order `{Validators} (d d' : SubDB) : Prop :=
  forall old row e r, old ∈ sub_outbox d -> row ∈ sub_outbox d' -> row ∉ sub_outbox d ->
    opens (wire old) = Some ((e, r), false) -> opens (wire row) = Some ((e, r), true) ->
    sub_at d e r <> sub_at d' e r -> om_id old < om_id row.

Lemma saga_order_none `{Validators} (d d' : SubDB) : sub_outbox d' = sub_outbox d -> saga_order d d'.
Proof. intros Ho old row e r _ Hin Hn. by rewrite Ho in Hin. Qed.

(** The two stores, the announcements the orchestrator has still to handle, in
    stream order, the commands the subscription service has still to carry out,
    and the messages of both kinds that the bus gave up delivering. *)
Record SagaSys := {
  y_sub : SubDB;
  y_saga : SagaDB;
  y_todo : list Msg;
  y_commands : list Msg;
  y_lost : list Msg;
}.

Definition set_y_sub (d : SubDB) (s : SagaSys) : SagaSys :=
  {| y_sub := d; y_saga := y_saga s; y_todo := y_todo s; y_commands := y_commands s; y_lost := y_lost s |}.
Definition set_y_saga (d : SagaDB) (todo : list Msg) (s : SagaSys) : SagaSys :=
  {| y_sub := y_sub s; y_saga := d; y_todo := todo; y_commands := y_commands s; y_lost := y_lost s |}.
Definition give_up_event (m : Msg) (todo : list Msg) (s : SagaSys) : SagaSys :=
  {| y_sub := y_sub s; y_saga := y_saga s; y_todo := todo; y_commands := y_commands s; y_lost := m :: y_lost s |}.
Definition give_up_command (m : Msg) (commands : list Msg) (s : SagaSys) : SagaSys :=
  {| y_sub := y_sub s; y_saga := y_saga s; y_todo := y_todo s; y_commands := commands; y_lost := m :: y_lost s |}.

Section System.
Context {V : Validators} {U : UUIDLib} {P : PgxLib} {J : JwtLib}.

(** One step.  As in [Convergence.v], a Subscribe request that others interleave
    with is its two writing parts; each step has surroundings of its own.  The
    orchestrator's consumers run side by side: [SagaCompensation] is the second
    part of [OnConfirmationDead] ([OnConfirmationDead_parts]), for a saga that was
    read when the table was [d0] and may be completed, replaced or gone by now; an
    id, drawn at random, names the saga of one subscription only. *)
Inductive saga_step (tr : Transport) (s : SagaSys) : SagaSys -> Prop :=
| SagaRequest (E : Env) {G : RepoChecker SubDB} {PV : ProtoValidator Request} tokens url apiKey header ctx req r w w' :
    at_rest (y_sub s) ctx w ->
    NewConnectHandler tokens url apiKey header ctx req w = (r, w') ->
    utf8_subs (w_db w') -> saga_order (y_sub s) (w_db w') -> valid_utf8 url = true ->
    saga_step tr s (set_y_sub (w_db w') s)
| SagaSubscribeRepo (E : Env) ctx repo r w w' :
    at_rest (y_sub s) ctx w -> GetOrCreate ctx repo w = (r, w') ->
    saga_step tr s (set_y_sub (w_db w') s)
| SagaSubscribeEmit (E : Env) tokens url ctx email rp isNew r w w' :
    at_rest (y_sub s) ctx w -> rp ∈ repositories (y_sub s) ->
    emitPending tokens url ctx email (repo_Name rp) (repo_ID rp) isNew w = (r, w') ->
    utf8_subs (w_db w') -> saga_order (y_sub s) (w_db w') -> valid_utf8 url = true ->
    valid_utf8 email = true -> valid_utf8 (repo_Name rp) = true ->
    saga_step tr s (set_y_sub (w_db w') s)
| SagaCommand (E : Env) pre m post spec ctx a heard w w' :
    y_commands s = pre ++ m :: post -> spec ∈ subscription_startConsumers -> cs_Subject spec = fst m ->
    at_rest (y_sub s) ctx w -> dispatch ctx (cs_Handler spec) (snd m) w = (Ok a, w') ->
    saga_step tr s
      {| y_sub := w_db w'; y_saga := y_saga s; y_todo := y_todo s;
         y_commands := remaining a heard (y_commands s) (pre ++ post); y_lost := y_lost s |}
| SagaCommandGivenUp pre m post :
    y_commands s = pre ++ m :: post -> saga_step tr s (give_up_command m (pre ++ post) s)
| SagaCompensateCall (E : Env) {PC : ProtoValidator CompensateRequest} ctx req r w w' :
    at_rest (y_sub s) ctx w -> Server_handle ctx req w = (r, w') ->
    saga_step tr s (set_y_sub (w_db w') s)
| SagaCleanup (E : Env) maxAge signals ctx r w w' :
    at_rest (y_sub s) ctx w -> runCleanup maxAge signals ctx w = (r, w') ->
    saga_step tr s (set_y_sub (w_db w') s)
| SagaRelayEvents (E : Env) {BP : BusPublisher SubDB} batchSize ctx l r w w' :
    at_rest (y_sub s) ctx w -> w_trace w = [] -> (forall n id, env_locked n id = false) ->
    flushBatch batchSize ctx w = (r, w') -> stored (w_trace w') l ->
    saga_step tr s
      {| y_sub := w_db w'; y_saga := y_saga s; y_todo := y_todo s ++ List.filter (listens saga_subjects) l;
         y_commands := y_commands s; y_lost := y_lost s |}
| SagaRelayCommands (E : Env) {BP : BusPublisher SagaDB} batchSize ctx l r w w' :
    at_rest (y_saga s) ctx w -> w_trace w = [] -> flushBatch batchSize ctx w = (r, w') -> stored (w_trace w') l ->
    saga_step tr s
      {| y_sub := y_sub s; y_saga := w_db w'; y_todo := y_todo s;
         y_commands := y_commands s ++ List.filter (listens [SubjectSagaCompensate]) l; y_lost := y_lost s |}
| SagaEvent (E : Env) transport pre m post spec ctx a heard w w' :
    String.eqb transport transportGRPC = false -> next_message opens tr (y_todo s) pre m post ->
    spec ∈ startConsumers (C := newCoordinator transport) -> cs_Stream spec = StreamSubscriptions ->
    cs_Subject spec = fst m ->
    at_rest (y_saga s) ctx w -> dispatch ctx (cs_Handler spec) (snd m) w = (Ok a, w') -> utf8_sagas (w_db w') ->
    saga_step tr s (set_y_saga (w_db w') (remaining a heard (y_todo s) (pre ++ post)) s)
| SagaEventGivenUp pre m post :
    next_message opens AnyOrder (y_todo s) pre m post -> saga_step tr s (give_up_event m (pre ++ post) s)
| SagaNotification (E : Env) transport spec ctx data a w w' :
    String.eqb transport transportGRPC = false ->
    spec ∈ startConsumers (C := newCoordinator transport) -> cs_Stream spec = StreamNotifications ->
    at_rest (y_saga s) ctx w -> dispatch ctx (cs_Handler spec) data w = (Ok a, w') -> utf8_sagas (w_db w') ->
    saga_step tr s (set_y_saga (w_db w') (y_todo s) s)
| SagaCompensation (E : Env) transport ctx old d0 r w w' :
    String.eqb transport transportGRPC = false ->
    old ∈ sagas d0 -> saga_inv d0 -> utf8_sagas d0 -> names_one (y_saga s) old ->
    at_rest (y_saga s) ctx w -> comp_Compensate (Compensator := newCoordinator transport) ctx old w = (r, w') ->
    utf8_sagas (w_db w') ->
    saga_step tr s (set_y_saga (w_db w') (y_todo s) s).

Hypothesis uuid_utf8 : forall s, v_uuid s = true -> valid_utf8 s = true.
Hypothesis uuid_parses : forall s, v_uuid s = true -> exists u, uuid_Parse s = inr u.
Hypothesis jwt_utf8 : forall secret c tok, jwt_Sign secret c = inr tok -> valid_utf8 tok = true.

(** ** The invariant *)

(** A command for the subscription is on its way. *)
Definition commanded (s : SagaSys) (k : string * string) : Prop :=
  exists m, command_for k m /\ (m ∈ y_commands s \/ m ∈ map wire (saga_outbox (y_saga s))).

(** A message about the subscription was given up. *)
Definition given_up (s : SagaSys) (k : string * string) : Prop :=
  exists m, m ∈ y_lost s /\ (fst <$> opens m = Some k \/ command_for k m).

Definition pursued (s : SagaSys) (k : string * string) : Prop := commanded s k \/ given_up s k.

(** Whether the saga is open once every announcement is handled. *)
Definition will_open (s : SagaSys) (k : string * string) : bool :=
  written opens k (outstanding (y_todo s) (y_sub s)) (open_saga (abs_sagas (sagas (y_saga s))) k).

Definition covered (s : SagaSys) : Prop :=
  forall e r tok, sub_at (y_sub s) e r = Some (false, tok) -> will_open s (e, r) = true \/ pursued s (e, r).

Record saga_sys_inv (tr : Transport) (s : SagaSys) : Prop := {
  yi_sub : sub_inv (y_sub s);
  yi_utf8 : utf8_subs (y_sub s);
  yi_saga : saga_inv (y_saga s);
  yi_text : utf8_sagas (y_saga s);
  yi_ids : unique_on om_id (saga_outbox (y_saga s));
  yi_cover : tr <> AnyOrder -> covered s;
}.

(** *** The subscription service *)

(** A subscription that is pending after an operation is not announced as
    over, and was pending before unless the operation announces it. *)
Lemma spec_pending v op ok evs v' e r tok :
  sub_spec v op ok evs v' -> v' e r = Some (false, tok) ->
  (forall ev, ev ∈ evs -> event_opens ev <> Some ((e, r), false)) /\
  (v e r = v' e r \/ exists ev, evs = [ev] /\ event_opens ev = Some ((e, r), true)).
Proof.
  intros Hs. destruct Hs as [op m' Hm|ok e' r' tok' links link m' Hn _ Hm|ok e' r' tok' links link m' Hp _ Hm|ok e' r' links link m' _ Hm|ok e' r' tok' m' Hp Hm|
    ok e' r' m' Hnp Hm|ok e' r' b tok' m' Hp Hm|ok e' r' tok' m' Hp Hm|ok e' r' m' Hnp Hm|ok m' Hm]; rewrite Hm; unfold upd; intros Hat;
    repeat case_decide; simplify_eq; split;
    solve [intros ev ->%list_elem_of_singleton; simpl; congruence|by intros ev ?%elem_of_nil|by left|right; eexists; by split].
Qed.

(** An operation that keeps the service's contract. *)
Lemma sub_op_inv tr s op ok evs rows d' :
  saga_sys_inv tr s -> sub_inv d' -> utf8_subs d' -> saga_order (y_sub s) d' -> op_text op ->
  sub_spec (sub_at (y_sub s)) op ok evs (sub_at d') -> sub_outbox d' = sub_outbox (y_sub s) ++ rows ->
  Forall2 announces evs rows -> saga_sys_inv tr (set_y_sub d' s).
Proof.
  intros [Hi Hu Hs Ht Hids Hc] Hi' Hu' Hord Hl Hsp Ho Ha. split; simpl; try done. intros Htr e r tok Hat. simpl in Hat.
  pose proof (spec_length _ _ _ _ _ Hsp) as Hlen. rewrite (Forall2_length _ _ _ Ha) in Hlen.
  pose proof (announced_all uuid_utf8 _ _ (spec_text _ _ _ _ _ Hsp Hu Hu' Hl) Ha) as Hw.
  destruct (spec_pending _ _ _ _ _ _ _ _ Hsp Hat) as [Hover Hsame].
  assert (forall m, m ∈ map wire rows -> opens m <> Some ((e, r), false)) as Hrows.
  { intros m Hm Hop. apply (list_elem_of_fmap_2 opens) in Hm. change (opens m ∈ map opens (map wire rows)) in Hm. rewrite Hw, Hop in Hm.
    apply list_elem_of_fmap in Hm as (ev & He & Hev). by destruct (Hover ev Hev). }
  destruct (due_insert (y_sub s) d' rows Hi' Ho Hlen) as (l1 & l2 & H1 & H2 & H3).
  unfold will_open. simpl. unfold outstanding. rewrite H2, !map_app, app_assoc, !written_app.
  destruct (decide (sub_at (y_sub s) e r = sub_at d' e r)) as [Heq|Hch].
  - rewrite <- Heq in Hat. destruct (Hc Htr e r tok Hat) as [Hw'|?]; [left|by right]. unfold will_open, outstanding in Hw'.
    rewrite H1, map_app, !written_app in Hw'. eapply (written_mono opens); [|exact Hw'].
    intros Hx. rewrite Hx. by apply written_true.
  - left. destruct Hsame as [?|(ev & -> & Hev)]; [done|]. inversion Ha as [|? row ? ? Har Hnil]; subst. inversion Hnil; subst.
    simpl in Hw. injection Hw as Hw. rewrite Hev in Hw. simpl. rewrite written_cons. unfold write_at. rewrite Hw, decide_True by done.
    apply written_true. intros m (x & -> & Hx)%list_elem_of_fmap Hop. destruct (H3 x row Hx ltac:(left)) as (Hlt & Hxd & Hr & Hn).
    specialize (Hord x row e r Hxd Hr Hn Hop Hw Hch). lia.
Qed.

Lemma due_same (d d' : SubDB) : sub_outbox d' = sub_outbox d -> due d' = due d.
Proof. exact (f_equal (order_by om_id) (x := _) (y := _)). Qed.

(** A rollback; it may use up its command once it has succeeded. *)
Lemma rollback_inv {E : Env} tr s e r {A} (x : res A) (w w' : World SubDB) commands :
  saga_sys_inv tr s -> w_db w = y_sub s -> refines_op (OpCompensate e r) w x w' ->
  (forall m k, command_for k m -> m ∈ y_commands s -> m ∈ commands \/ (is_ok x = true /\ k = (e, r))) ->
  saga_sys_inv tr
    {| y_sub := w_db w'; y_saga := y_saga s; y_todo := y_todo s; y_commands := commands; y_lost := y_lost s |}.
Proof.
  intros [Hi Hu Hs Ht Hids Hc] Hdb (Hi' & Ho & Hback & _ & Hok)%compensate_effect Hcm. rewrite Hdb in *.
  split; simpl; try done; [intros e' r' b tok Hat; by apply (Hu e' r' b tok), Hback|].
  intros Htr e' r' tok Hat. unfold will_open. simpl. unfold outstanding. rewrite (due_same _ _ Ho).
  destruct (Hc Htr e' r' tok (Hback _ _ _ Hat)) as [?|[(m & Hm & Hin)|?]]; [by left| |by do 2 right]. destruct Hin as [Hin|Hin].
  - destruct (Hcm m (e', r') Hm Hin) as [?|[Hx [= -> ->]]]; [right; left; exists m; by split; [|left]|].
    by destruct (Hok Hx tok).
  - right; left. exists m. by split; [|right].
Qed.

Lemma y_sub_same tr s d' : saga_sys_inv tr s -> d' = y_sub s -> saga_sys_inv tr (set_y_sub d' s).
Proof. intros Hinv ->. by destruct s. Qed.

Lemma command_inv {E : Env} tr s pre m post spec ctx a heard (w w' : World SubDB) :
  saga_sys_inv tr s -> y_commands s = pre ++ m :: post -> spec ∈ subscription_startConsumers ->
  cs_Subject spec = fst m -> at_rest (y_sub s) ctx w -> dispatch ctx (cs_Handler spec) (snd m) w = (Ok a, w') ->
  saga_sys_inv tr
    {| y_sub := w_db w'; y_saga := y_saga s; y_todo := y_todo s;
       y_commands := remaining a heard (y_commands s) (pre ++ post); y_lost := y_lost s |}.
Proof.
  intros Hinv Hcs Hspec Hsub (Hdb & Htx & Hctx) Hrun. apply list_elem_of_singleton in Hspec as ->. cbn [cs_Handler cs_Subject] in *.
  pose proof (wp_dispatch ctx _ (snd m) _ w (HandleCompensate_refines ctx (snd m) w Hctx Htx
    ltac:(rewrite Hdb; apply Hinv))) as Hp. unfold wp in Hp. rewrite Hrun in Hp.
  destruct Hp as (x & ack & Hp & [= ->] & Hack). cbn [fst snd] in *.
  assert (forall m' k, command_for k m' -> m' ∈ y_commands s -> m' ∈ remaining ack heard (y_commands s) (pre ++ post) \/
    (ack <> Nak /\ m' = m)) as Hrem.
  { intros m' k _ Hin. unfold remaining. destruct (settles ack heard) eqn:Hset; [|by left]. rewrite Hcs in Hin.
    apply settles_final in Hset. set_solver. }
  destruct (Unmarshal (snd m)) as [ev|err] eqn:Hu.
  - destruct Hp as [Hp Hx]. eapply rollback_inv; [done..|]. intros m' k Hk Hin. destruct (Hrem m' k Hk Hin) as [?|[Hn ->]]; [by left|].
    right. split; [|destruct Hk as (_ & ev' & Hu' & <-); congruence].
    destruct Hx as [?|Hx]; [done|]. by apply Hack in Hx.
  - subst w'. rewrite Hdb. destruct Hinv as [Hi Hus Hs Ht Hids Hc]. split; simpl; try done. intros Htr e r tok Hat.
    destruct (Hc Htr e r tok Hat) as [?|[(m' & Hm & Hin)|?]]; [by left|right; left|by do 2 right]. exists m'. split; [done|]. simpl.
    destruct Hin as [Hin|Hin]; [|by right]. left. destruct (Hrem m' _ Hm Hin) as [?|[_ ->]]; [done|].
    destruct Hm as (_ & ev & Hev & _). congruence.
Qed.

Lemma relay_events_inv {E : Env} {BP : BusPublisher SubDB} tr s batchSize ctx l r (w w' : World SubDB) :
  saga_sys_inv tr s -> at_rest (y_sub s) ctx w -> w_trace w = [] -> (forall n id, env_locked n id = false) ->
  flushBatch batchSize ctx w = (r, w') -> stored (w_trace w') l ->
  saga_sys_inv tr
    {| y_sub := w_db w'; y_saga := y_saga s; y_todo := y_todo s ++ List.filter (listens saga_subjects) l;
       y_commands := y_commands s; y_lost := y_lost s |}.
Proof.
  intros [Hi Hu Hs Ht Hids Hc] (Hdb & Htx & _) Htr Hlk Hf Hst. rewrite <- Hdb in *.
  destruct (relay_batch batchSize ctx l r w w') as ([o Hd'] & Hi' & sent & refused & rest & keep & Hdue & Hl & Hdue');
    [done..|].
  assert (sub_at (w_db w') = sub_at (w_db w)) as Hat by by rewrite Hd'.
  split; simpl; try done; [intros e r' b tok; rewrite Hat; apply Hu|].
  intros Hord e r' tok Hp. simpl in Hp. rewrite Hat, Hdb in Hp.
  destruct (Hc Hord e r' tok Hp) as [Hw|Hcm]; [left|by right]. rewrite <- Hw. unfold will_open, outstanding. simpl.
  rewrite written_filter_mid by apply saga_listens. rewrite <- Hdb, Hdue, Hdue', !map_app.
  rewrite map_app in Hl. pose proof (written_relay opens (e, r') (y_todo s) (map wire sent) (map wire refused) (map wire rest) l
    keep (open_saga (abs_sagas (sagas (y_saga s))) (e, r')) Hl) as Hr.
  destruct keep; rewrite <- Hr, ?map_app; done.
Qed.

(** *** The orchestrator *)

Lemma pursued_more s s' k :
  y_lost s' = y_lost s -> (forall m, fst m = SubjectSagaCompensate -> m ∈ y_commands s \/ m ∈ map wire (saga_outbox (y_saga s)) ->
     m ∈ y_commands s' \/ m ∈ map wire (saga_outbox (y_saga s'))) ->
  pursued s k -> pursued s' k.
Proof.
  intros Hl Hm [(m & Hk & Hin)|Hg]; [left|right; unfold given_up; by rewrite Hl]. exists m. split; [done|]. apply Hm; [apply Hk|done].
Qed.

Lemma relay_commands_inv {E : Env} {BP : BusPublisher SagaDB} tr s batchSize ctx l r (w w' : World SagaDB) :
  saga_sys_inv tr s -> at_rest (y_saga s) ctx w -> w_trace w = [] ->
  flushBatch batchSize ctx w = (r, w') -> stored (w_trace w') l ->
  saga_sys_inv tr
    {| y_sub := y_sub s; y_saga := w_db w'; y_todo := y_todo s;
       y_commands := y_commands s ++ List.filter (listens [SubjectSagaCompensate]) l; y_lost := y_lost s |}.
Proof.
  intros [Hi Hu Hs Ht Hids Hc] (Hdb & Htx & _) Htr Hf Hst. rewrite <- Hdb in *.
  pose proof (flushBatch_spec batchSize ctx w Htx) as Hb. unfold wp in Hb. rewrite Hf in Hb. cbn [fst snd] in Hb.
  pose proof (fun row => batch_keeps batchSize w r w' row Hids Htr Hb) as Hkeep.
  apply batch_relayed in Hb as Hb'; [|done]. destruct Hb' as (_ & _ & Hids').
  assert (sagas (w_db w') = sagas (w_db w)) as Hsg.
  { destruct Hb as (_ & _ & locked & sent & refused & _ & _ & _ & [[-> _]|(-> & _)]); done. }
  split; simpl; try done; [by eapply saga_inv_sagas|by unfold utf8_sagas; rewrite Hsg|].
  intros Hord e r' tok Hp. unfold will_open. simpl. rewrite Hsg.
  destruct (Hc Hord e r' tok Hp) as [Hw|Hcm]; [left|right]; [by rewrite <- Hw; unfold will_open; rewrite <- Hdb|].
  eapply (pursued_more s); [done| |exact Hcm]. simpl. intros m Hm [Hin|Hin]; [left; set_solver|].
  rewrite <- Hdb in Hin. apply list_elem_of_fmap in Hin as (row & -> & Hrow). destruct (Hkeep row Hrow) as [Hin|Hin].
  - right. by apply list_elem_of_fmap_2.
  - left. apply elem_of_app. right. apply list_elem_of_In, List.filter_In. split.
    + apply list_elem_of_In. destruct Hst as [->| ->]; [done|].
      revert Hin. clear. unfold accepted, attempted. rewrite !list_elem_of_omap. intros (x & Hx & He). exists x. split; [done|].
      by destruct x as [? ? []| | | |].
    + unfold listens. apply bool_decide_eq_true. rewrite Hm. by left.
Qed.

(** A saga's step that only adds to the outbox and closes no saga without
    announcing it. *)
Lemma saga_store_inv tr s d' todo :
  saga_sys_inv tr s -> saga_inv d' -> utf8_sagas d' -> outbox_grows (y_saga s) d' ->
  (tr <> AnyOrder -> forall k,
     written opens k (outstanding (y_todo s) (y_sub s)) (open_saga (abs_sagas (sagas (y_saga s))) k) = true ->
     written opens k (outstanding todo (y_sub s)) (open_saga (abs_sagas (sagas d')) k) = true \/
     exists row, row ∈ saga_outbox d' /\ command_for k (wire row)) ->
  saga_sys_inv tr (set_y_saga d' todo s).
Proof.
  intros [Hi Hu Hs Ht Hids Hc] Hs' Ht' Hg Hk.
  assert (forall row, row ∈ saga_outbox (y_saga s) -> row ∈ saga_outbox d') as Hmore
    by (intros row Hin; destruct Hg as [->|(x & _ & ->)]; set_solver).
  split; simpl; try done; [destruct Hg as [->|(row & Hf & ->)]; [done|by apply unique_on_insert]|].
  intros Hord e r tok Hat. destruct (Hc Hord e r tok Hat) as [Hw|Hcm].
  - destruct (Hk Hord (e, r) Hw) as [?|(row & Hrow & Hcmd)]; [by left|right; left]. exists (wire row). split; [done|right].
    by apply list_elem_of_fmap_2.
  - right. eapply (pursued_more s); [done| |exact Hcm]. simpl. intros m _ [?|Hin]; [by left|right].
    apply list_elem_of_fmap in Hin as (row & -> & Hrow). apply list_elem_of_fmap_2. by apply Hmore.
Qed.

(** An announcement's effect on the sagas is the write it stands for. *)
Lemma opens_spec m t k :
  fst m ∈ saga_subjects -> open_saga (spec_of (decode_msg (fst m) (snd m)) t) k = write_at opens k m (open_saga t k).
Proof.
  intros Hm. unfold write_at, opens. unfold saga_subjects in Hm.
  repeat (apply elem_of_cons in Hm as [->|Hm]); [..|by apply elem_of_nil in Hm]; unfold decode_msg; simpl;
    (destruct (Unmarshal (snd m)) as [ev|e] eqn:Hu; [|done]); simpl; [|by apply open_over..].
  destruct (uuid_parses (sp_SagaID ev)) as [id ->]; [|by apply open_started].
  apply Unmarshal_valid in Hu. destruct ev. unfold validate in Hu. simpl in *. rewrite !andb_true_iff in Hu. tauto.
Qed.

Lemma dispatched {E : Env} {C : Compensator} {CS : CompensatorSpec C} spec ctx data a (w w' : World SagaDB) :
  spec ∈ startConsumers -> at_rest (w_db w) ctx w -> saga_inv (w_db w) ->
  dispatch ctx (cs_Handler spec) data w = (Ok a, w') ->
  saga_inv (w_db w') /\ outbox_grows (w_db w) (w_db w') /\
  ((a = Nak /\ abs_sagas (sagas (w_db w')) = abs_sagas (sagas (w_db w))) \/
   abs_sagas (sagas (w_db w')) = spec_of (decode_msg (cs_Subject spec) data) (abs_sagas (sagas (w_db w)))).
Proof.
  intros Hs (_ & Htx & Hctx) Hi Hd.
  pose proof (wp_dispatch ctx _ data _ w (consumers_refine spec ctx data w Hs Hctx Htx Hi)) as Hp.
  unfold wp in Hp. rewrite Hd in Hp. destruct Hp as (r & ack & (_ & Hi' & Hg & Hp) & [= ->] & Hnak). split_and!; [done..|].
  destruct Hp as [[Hr Hret]|Hr]; [left|by right]. split; [by apply Hnak|done].
Qed.

Lemma stream_subjects {E : Env} {C : Compensator} spec :
  spec ∈ startConsumers ->
  (cs_Stream spec = StreamSubscriptions -> cs_Subject spec ∈ saga_subjects) /\
  (cs_Stream spec = StreamNotifications ->
     cs_Subject spec = SubjectNotificationConfirmationSent \/ cs_Handler spec = HandleConfirmationDead).
Proof.
  unfold startConsumers, saga_subjects. intros Hs.
  repeat (apply elem_of_cons in Hs as [->|Hs]); [..|by apply elem_of_nil in Hs]; split; try done; intros _; simpl;
    rewrite ?elem_of_cons; auto.
Qed.

(** A message that is given up leaves the subscription it is about to no one. *)
Lemma event_given_up_inv tr s pre m post :
  saga_sys_inv tr s -> next_message opens AnyOrder (y_todo s) pre m post -> saga_sys_inv tr (give_up_event m (pre ++ post) s).
Proof.
  intros [Hi Hu Hs Ht Hids Hc] (Htodo & _). split; simpl; try done. intros Htr e r tok Hat.
  destruct (decide (fst <$> opens m = Some (e, r))) as [Hm|Hm]; [right; right; exists m; split; [left|by left]|].
  destruct (Hc Htr e r tok Hat) as [Hw|[?|(m' & ? & ?)]]; [left|by right; left|right; right; exists m'; by split; [right|]].
  rewrite <- Hw. unfold will_open, outstanding. simpl. rewrite Htodo, <- !app_assoc. by apply written_skip.
Qed.

Lemma command_given_up_inv tr s pre m post :
  saga_sys_inv tr s -> y_commands s = pre ++ m :: post -> saga_sys_inv tr (give_up_command m (pre ++ post) s).
Proof.
  intros [Hi Hu Hs Ht Hids Hc] Hcs. split; simpl; try done. intros Htr e r tok Hat.
  destruct (Hc Htr e r tok Hat) as [Hw|[(m' & Hm & Hin)|(m' & ? & ?)]]; [by left|right|right; right; exists m'; by split; [right|]].
  destruct Hin as [Hin|Hin]; [|left; exists m'; by split; [|right]]. rewrite Hcs in Hin.
  apply elem_of_app in Hin as [Hin|[->|Hin]%elem_of_cons]; [left; exists m'; split; [done|left; simpl; set_solver]| |left; exists m'; split; [done|left; simpl; set_solver]].
  right. exists m. split; [left|by right].
Qed.

Lemma event_inv {E : Env} {C : Compensator} {CS : CompensatorSpec C} tr s pre m post spec ctx a heard (w w' : World SagaDB) :
  saga_sys_inv tr s -> next_message opens tr (y_todo s) pre m post -> spec ∈ startConsumers ->
  cs_Stream spec = StreamSubscriptions -> cs_Subject spec = fst m -> at_rest (y_saga s) ctx w ->
  dispatch ctx (cs_Handler spec) (snd m) w = (Ok a, w') -> utf8_sagas (w_db w') ->
  saga_sys_inv tr (set_y_saga (w_db w') (remaining a heard (y_todo s) (pre ++ post)) s).
Proof.
  intros Hinv Hn Hs Hst Hsub Hw Hd Ht. pose proof (yi_saga _ _ Hinv) as Hi. pose proof Hw as (Hdb & _).
  apply dispatched in Hd as (Hi' & Hg & Hr); [|done|by rewrite Hdb|by rewrite Hdb]. rewrite Hdb in *.
  apply saga_store_inv; [done..|]. intros Htr k Hk. left. rewrite <- Hk. unfold outstanding.
  rewrite !written_app. f_equal. unfold remaining. destruct Hr as [[-> ->]| ->]; [by rewrite settles_nak|].
  rewrite Hsub, opens_spec by (rewrite <- Hsub; by apply stream_subjects).
  destruct (settles a heard); [by eapply written_next|by eapply written_kept].
Qed.

(** A saga that is compensated with its command enqueued. *)
Lemma compensated_inv tr s old d' :
  saga_sys_inv tr s -> saga_inv d' -> utf8_sagas d' -> saga_wf old -> saga_text old -> names_one (y_saga s) old ->
  compensated old (y_saga s) d' -> saga_sys_inv tr (set_y_saga d' (y_todo s) s).
Proof.
  intros Hinv Hi' Ht Hwf Htext Hn Hcmp. destruct (compensated_commands _ _ _ Hwf Htext Hcmp) as (row & Hf & Ho & Hcm).
  apply saga_store_inv; [done..|right; by exists row|]. intros _ k Hk.
  destruct Hcmp as (now & id & at_ & _ & Hd'). rewrite Hd' at 1. simpl. rewrite abs_transition_id.
  unfold written in *. destruct (last_write opens k _) as [b|]; [by left|]. simpl in *.
  destruct (open_compensated _ old k (yi_saga _ _ Hinv) Hn Hk) as [?|Hkey]; [by left|right]. exists row.
  rewrite Ho. split; [set_solver|]. unfold saga_key in Hkey. injection Hkey as _ He Hr'. by rewrite He, Hr', <- surjective_pairing in Hcm.
Qed.

Lemma compensation_inv {E : Env} tr s transport ctx old d0 r (w w' : World SagaDB) :
  String.eqb transport transportGRPC = false -> saga_sys_inv tr s ->
  old ∈ sagas d0 -> saga_inv d0 -> utf8_sagas d0 -> names_one (y_saga s) old ->
  at_rest (y_saga s) ctx w -> comp_Compensate (Compensator := newCoordinator transport) ctx old w = (r, w') ->
  utf8_sagas (w_db w') -> saga_sys_inv tr (set_y_saga (w_db w') (y_todo s) s).
Proof.
  intros Hgrpc Hinv Hold (_ & _ & Hwf) Hu0 Hn (Hdb & Htx & Hctx) Hrun Ht. unfold newCoordinator in Hrun. rewrite Hgrpc in Hrun.
  rewrite Forall_forall in Hwf. specialize (Hwf old Hold). pose proof (yi_saga _ _ Hinv) as Hi.
  pose proof (NATSCompensator_atomic ctx old w Hctx Htx (proj2 Hwf)) as Hp. unfold wp in Hp. simpl in Hrun. rewrite Hrun in Hp.
  destruct Hp as (_ & _ & [[Hsame _]|Hcmp] & _); simpl in *; rewrite Hdb in *.
  - rewrite Hsame. by destruct s.
  - eapply compensated_inv; [done| |done|done|by apply Hu0|done|done]. destruct Hcmp as (now & id & at_ & _ & ->).
    eapply saga_inv_sagas; [apply (saga_inv_transition (key_is sg_ID (sg_ID old)) StateCompensated now _ Hi)|done].
Qed.

Lemma notification_inv {E : Env} tr s transport spec ctx data a (w w' : World SagaDB) :
  String.eqb transport transportGRPC = false -> saga_sys_inv tr s ->
  spec ∈ startConsumers (C := newCoordinator transport) -> cs_Stream spec = StreamNotifications ->
  at_rest (y_saga s) ctx w -> dispatch ctx (cs_Handler spec) data w = (Ok a, w') -> utf8_sagas (w_db w') ->
  saga_sys_inv tr (set_y_saga (w_db w') (y_todo s) s).
Proof.
  intros Hgrpc Hinv Hs Hst Hw Hd Ht. pose proof (yi_saga _ _ Hinv) as Hi. pose proof Hw as (Hdb & Htx & Hctx).
  pose proof (proj2 (stream_subjects spec Hs) Hst) as Hcase.
  pose proof (dispatched spec ctx data a w w' Hs) as Hdis. destruct Hdis as (Hi' & Hg & Hr); [by rewrite Hdb..|done|].
  rewrite Hdb in *. destruct Hcase as [Hsub|Hh].
  - apply saga_store_inv; [done..|]. intros _ k Hk.
    left. rewrite <- Hk. f_equal. destruct Hr as [[_ ->]| ->]; [done|]. rewrite Hsub. unfold decode_msg. simpl.
    destruct (Unmarshal data); [|done]. simpl. destruct (uuid_Parse _); [done|apply open_sent].
  - rewrite Hh in Hd. unfold newCoordinator in Hd. rewrite Hgrpc in Hd.
    assert (w_db w' = w_db w \/ exists s', s' ∈ sagas (w_db w) /\ terminal (sg_State s') = false /\
      compensated s' (w_db w) (w_db w')) as [Hsame|(s' & Hs' & _ & Hcmp)].
    { cut (wp (HandleConfirmationDead (C := NATSCompensator) ctx data) (fun _ w' => w_db w' = w_db w \/ exists s',
        s' ∈ sagas (w_db w) /\ terminal (sg_State s') = false /\ compensated s' (w_db w) (w_db w')) w).
      { intros Hp%(wp_dispatch ctx _ data). unfold wp in Hp. rewrite Hd in Hp. by destruct Hp as (_ & _ & ? & _). }
      unfold HandleConfirmationDead. apply wp_decoded; [by left|]. intros ev _ _. apply OnConfirmationDead_nats; [done..|by rewrite Hdb]. }
    + rewrite Hsame, Hdb. by destruct s.
    + rewrite Hdb in *. pose proof Hi as (_ & _ & Hwf). rewrite Forall_forall in Hwf.
      eapply compensated_inv; [done..|by apply Hwf|by apply (yi_text _ _ Hinv)|by apply stored_names_one|done].
Qed.

(** *** Runs *)

Lemma saga_step_inv tr s s' : saga_step tr s s' -> saga_sys_inv tr s -> saga_sys_inv tr s'.
Proof.
  intros Hstep Hinv. pose proof (yi_sub _ _ Hinv) as Hi.
  destruct Hstep as [E G PV tokens url apiKey header ctx req r w w' (Hdb & Htx & Hctx) Hrun Hu Hids Hurl|
    E ctx repo r w w' (Hdb & Htx & Hctx) Hrun|E tokens url ctx email rp isNew r w w' (Hdb & Htx & Hctx) Hrp Hrun Hu Hids Hurl Hem Hrn|
    E pre m post spec ctx a heard w w' Hcs Hspec Hsub Hw Hrun|pre m post Hcs|E PC ctx req r w w' (Hdb & Htx & Hctx) Hrun|
    E maxAge signals ctx r w w' (Hdb & Htx & Hctx) Hrun|E BP batchSize ctx l r w w' Hw Ht Hlk Hrun Hst|
    E BP batchSize ctx l r w w' Hw Ht Hrun Hst|E transport pre m post spec ctx a heard w w' _ Hnext Hspec Hst Hsub Hw Hrun Ht|
    pre m post Hnext|E transport spec ctx data a w w' Hgrpc Hspec Hst Hw Hrun Ht|E transport ctx old d0 r w w' Hgrpc Hold Hi0 Hu0 Hn Hw Hrun Ht].
  - pose proof (handler_refines tokens url apiKey header ctx req w Hctx Htx ltac:(by rewrite Hdb)) as Hp.
    unfold wp in Hp. rewrite Hrun in Hp. destruct Hp as (_ & Hi' & _ & _ & evs & rows & Hs & Ho & Ha). simpl in *.
    rewrite Hdb in Hs, Ho. eapply sub_op_inv; [done..| |exact Hs|exact Ho|exact Ha].
    destruct req; simpl; [|by destruct (jwt_Parse _ _ _)|done..]. intros link. by apply confirm_link_utf8.
  - apply GetOrCreate_quiet in Hrun as (Hi' & Hv & Ho); [|done|by rewrite Hdb]. rewrite Hdb in *.
    eapply (sub_op_inv tr s OpOther true [] []); [done..| | |done|by apply spec_other|by rewrite app_nil_r|constructor].
    + intros e r' b tok. rewrite Hv. apply Hinv.
    + by apply saga_order_none.
  - pose proof (emitPending_late tokens url ctx email rp isNew w Hctx Htx ltac:(by rewrite Hdb) ltac:(by rewrite Hdb)) as Hp.
    unfold wp in Hp. rewrite Hrun in Hp. destruct Hp as (_ & Hi' & _ & _ & evs & rows & Hs & Ho & Ha). simpl in *.
    rewrite Hdb in Hs, Ho. eapply sub_op_inv; [done..| |exact Hs|exact Ho|exact Ha].
    assert (forall link, confirm_link tokens url email (repo_Name rp) link -> valid_utf8 link = true) as Hl
      by (intros link; by apply confirm_link_utf8). by destruct isNew.
  - by eapply command_inv.
  - by apply command_given_up_inv.
  - apply Server_handle_refines in Hrun as [->|[x Hp]]; [by apply y_sub_same| |done|done|by rewrite Hdb].
    eapply rollback_inv; [done..|]. by left.
  - pose proof (runCleanup_spec maxAge signals ctx w Hctx Htx ltac:(by rewrite Hdb)) as Hp. unfold wp in Hp.
    rewrite Hrun in Hp. apply y_sub_same; simpl in *; congruence.
  - by eapply relay_events_inv.
  - by eapply relay_commands_inv.
  - by eapply (event_inv (C := newCoordinator transport)).
  - by apply event_given_up_inv.
  - by eapply notification_inv.
  - by eapply compensation_inv.
Qed.

Lemma saga_run_inv tr s s' : rtc (saga_step tr) s s' -> saga_sys_inv tr s -> saga_sys_inv tr s'.
Proof. induction 1; eauto using saga_step_inv. Qed.

(** Nothing is in flight or lost, and every pending subscription has an open saga. *)
Record settled (s : SagaSys) : Prop := {
  se_sub : sub_inv (y_sub s);
  se_utf8 : utf8_subs (y_sub s);
  se_saga : saga_inv (y_saga s);
  se_text : utf8_sagas (y_saga s);
  se_outbox : saga_outbox (y_saga s) = [];
  se_lost : y_lost s = [];
  se_events : outstanding (y_todo s) (y_sub s) = [];
  se_open : forall e r tok, sub_at (y_sub s) e r = Some (false, tok) -> open_saga (abs_sagas (sagas (y_saga s))) (e, r) = true;
}.

Lemma settled_inv tr s : settled s -> saga_sys_inv tr s.
Proof.
  intros []. split; try done; [rewrite se_outbox0; apply NoDup_nil_2|]. intros _ e r tok Hat. left. unfold will_open.
  rewrite se_events0. by eapply se_open0.
Qed.

(** An announcement about the subscription is still to be handled. *)
Definition announced (s : SagaSys) (k : string * string) : Prop :=
  exists m b, m ∈ outstanding (y_todo s) (y_sub s) /\ opens m = Some (k, b).

Lemma last_opens s k b :
  last_write opens k (outstanding (y_todo s) (y_sub s)) = Some b -> announced s k.
Proof.
  unfold announced. induction (outstanding _ _) as [|m l IH]; simpl; [done|].
  destruct (last_write opens k l) as [b'|]; [intros Hb; destruct (IH Hb) as (m' & b0 & ? & ?); exists m', b0; split; [by right|done]|].
  destruct (opens m) as [[k' b']|] eqn:Hm; [|done]. case_decide; [|done]. subst. intros _. exists m, b'. by split; [left|].
Qed.

(** C7: A saga leaves no orphan behind.  Over any
    interleaving of API requests, rollbacks by message or by call, cleanups,
    relay batches of both outboxes, consumed events and confirmation
    notifications of any content, also between the parts of a request or of a
    compensation, with any faults of the databases and the bus, messages given up
    included:
    if the announcements about one subscription are handled in stream order
    and compensation goes over the bus, then at any moment a pending
    subscription either is announced in a message still to be handled, or has a
    saga that is not over, or the command to roll it back is on its way, or the bus
    gave up delivering an announcement or a command about it. *)
Theorem saga_leaves_no_orphan tr s0 s e r tok :
  settled s0 -> rtc (saga_step tr) s0 s -> tr <> AnyOrder ->
  sub_at (y_sub s) e r = Some (false, tok) ->
  announced s (e, r) \/
  (exists id st, abs_sagas (sagas (y_saga s)) !! (SagaTypeSubscribe, e, r) = Some (id, st) /\ terminal st = false) \/
  commanded s (e, r) \/ given_up s (e, r).
Proof.
  intros Hs0 Hrun Htr Hat. pose proof (saga_run_inv tr s0 s Hrun (settled_inv tr s0 Hs0)) as Hinv.
  destruct (yi_cover _ _ Hinv Htr e r tok Hat) as [Hw|?]; [|by do 2 right]. unfold will_open, written in Hw.
  destruct (last_write opens (e, r) _) as [b|] eqn:Hl; [left; by eapply last_opens|right; left]. simpl in Hw.
  unfold open_saga in Hw. simpl in Hw. destruct (_ !! _) as [[id st]|]; [|done]. exists id, st. split; [done|]. by destruct st.
Qed.

(** *** Progress *)

(** A batch of the orchestrator's relay, in surroundings where nothing fails,
    and what it leaves. *)
Definition published (w : World SagaDB) (s : SagaSys) : SagaSys :=
  {| y_sub := y_sub s; y_saga := w_db w; y_todo := y_todo s;
     y_commands := y_commands s ++ List.filter (listens [SubjectSagaCompensate]) (accepted (w_trace w)); y_lost := y_lost s |}.
Definition batch_published (n : Z) (s s' : SagaSys) : Prop :=
  exists r w, flushBatch (E := quiet_env) (BP := Conn_BusPublisher (H := quiet_env)) n Background (world_of (y_saga s)) = (r, w) /\
    s' = published w s.

(** What a command that was carried out leaves, [rest] being the other commands. *)
Definition carried_out (w : World SubDB) (rest : list Msg) (s : SagaSys) : SagaSys :=
  {| y_sub := w_db w; y_saga := y_saga s; y_todo := y_todo s; y_commands := rest; y_lost := y_lost s |}.

Lemma batch_step tr n s s' : batch_published n s s' -> saga_step tr s s'.
Proof.
  intros (r & w & Hf & ->). exact (SagaRelayCommands tr s quiet_env (BP := Conn_BusPublisher (H := quiet_env)) n Background _ r
    (world_of (y_saga s)) w (conj eq_refl (conj eq_refl eq_refl)) eq_refl Hf (or_introl eq_refl)).
Qed.

(** Batch by batch the relay empties the outbox, in order. *)
Lemma batches_published n s :
  0 < n -> unique_on om_id (saga_outbox (y_saga s)) ->
  exists s', rtc (batch_published n) s s' /\ y_sub s' = y_sub s /\ saga_outbox (y_saga s') = [] /\
    y_commands s' = y_commands s ++ List.filter (listens [SubjectSagaCompensate]) (map wire (due (y_saga s))).
Proof.
  intros Hn. remember (length (saga_outbox (y_saga s))) as k eqn:Hk. revert s Hk.
  induction (lt_wf k) as [k _ IH]. intros s Hk Hu.
  assert (length (due (y_saga s)) = length (saga_outbox (y_saga s))) as Hlen by (unfold due; by rewrite order_by_perm).
  destruct (saga_outbox (y_saga s)) as [|row rows] eqn:Hob.
  { exists s. assert (due (y_saga s) = []) as -> by (by apply nil_length_inv). simpl. rewrite app_nil_r. by split_and!. }
  pose proof (flushBatch_up (E := quiet_env) (BP := Conn_BusPublisher (H := quiet_env)) n (fun _ => eq_refl)
    (fun _ _ => eq_refl) (fun _ _ _ _ => eq_refl) ltac:(lia) Background (world_of (y_saga s)) eq_refl) as Hf. unfold wp in Hf.
  destruct (flushBatch (E := quiet_env) n Background (world_of (y_saga s))) as [r w] eqn:Hrun. cbn [fst snd w_db world_of] in Hf.
  destruct Hf as (_ & _ & Hdb & Htr). set (b := take (Z.to_nat n) (due (y_saga s))) in *.
  rewrite <- Hob in Hu. pose proof (due_without (Z.to_nat n) (y_saga s) Hu) as Hdue. fold b in Hdue. rewrite <- Hdb in Hdue.
  assert (length (due (w_db w)) = length (saga_outbox (w_db w))) as Hlen' by (unfold due; by rewrite order_by_perm).
  destruct (IH (length (saga_outbox (w_db w)))) with (s := published w s) as (s' & Hrtc & Hsub & Hemp & Hcm); [|done| |].
  - rewrite <- Hlen', Hdue, length_drop, Hlen, Hk. simpl. lia.
  - simpl. rewrite Hdb. apply (unique_on_delete om_id). exact Hu.
  - exists s'. split_and!; [|done|done|].
    + eapply rtc_l; [|exact Hrtc]. by exists r, w.
    + rewrite Hcm. simpl. rewrite Hdue, Htr, <- app_assoc. f_equal. simpl. rewrite accepted_pub, <- List.filter_app, <- map_app.
      unfold b. by rewrite take_drop.
Qed.

(** The consumer carries a command out, whatever the store holds. *)
Lemma command_carried_out tr s e r m pre post :
  sub_inv (y_sub s) -> command_for (e, r) m -> y_commands s = pre ++ m :: post ->
  exists w, dispatch Background (HandleCompensate (E := quiet_env)) (snd m) (world_of (y_sub s)) = (Ok Ack, w) /\
    saga_step tr s (carried_out w (pre ++ post) s) /\ sub_outbox (w_db w) = sub_outbox (y_sub s) /\
    not_pending (sub_at (w_db w)) e r /\
    forall e' r', (e', r') <> (e, r) -> sub_at (w_db w) e' r' = sub_at (y_sub s) e' r'.
Proof.
  intros Hi (Hsub & ev & Hu & [= <- <-]) Hcs.
  assert (exists w, HandleCompensate (E := quiet_env) Background (snd m) (world_of (y_sub s)) = (Ok tt, w)) as [w Hrun].
  { eexists. unfold HandleCompensate, decoded. rewrite Hu. reflexivity. }
  pose proof (HandleCompensate_refines (E := quiet_env) Background (snd m) (world_of (y_sub s)) eq_refl eq_refl Hi) as Hp.
  unfold wp in Hp. rewrite Hrun, Hu in Hp. destruct Hp as [(_ & Ho & Hback & Hkeep & Hok)%compensate_effect _].
  assert (dispatch Background (HandleCompensate (E := quiet_env)) (snd m) (world_of (y_sub s)) = (Ok Ack, w)) as Hd
    by (unfold dispatch, mbind, M_bind, attempt; by rewrite Hrun).
  exists w. split; [exact Hd|]. split; [|split_and!; [exact Ho|by apply Hok|]].
  - refine (SagaCommand tr s quiet_env pre m post _ Background Ack true (world_of (y_sub s)) w Hcs (list_elem_of_here _ _) _ _ _);
      [by rewrite Hsub|done|exact Hd].
  - intros e' r' Hne. apply option_eq. intros v. split; [apply Hback|]. intros Hat. apply (Hkeep _ _ _ Hat). by left.
Qed.

(** C16: A rollback that was commanded can be completed as long as the bus
    has not given its command up.  In every state a run reaches, whatever failed on
    the way, in which the command to roll a subscription back is still in the
    orchestrator's outbox or on its way: batches of the orchestrator's relay, of any
    size, empty its outbox and leave the command on its way; and then, when the
    subscription service's consumer is handed it while nothing fails, it
    acknowledges, and the subscription is not pending any more, every other
    subscription is as it was and nothing is announced. *)
Theorem saga_rollback_completes tr s0 s e r m n :
  settled s0 -> rtc (saga_step tr) s0 s -> 0 < n ->
  command_for (e, r) m -> m ∈ y_commands s \/ m ∈ map wire (saga_outbox (y_saga s)) ->
  exists s1, rtc (batch_published n) s s1 /\ saga_outbox (y_saga s1) = [] /\ y_sub s1 = y_sub s /\ m ∈ y_commands s1 /\
    forall pre post, y_commands s1 = pre ++ m :: post ->
      exists w, dispatch Background (HandleCompensate (E := quiet_env)) (snd m) (world_of (y_sub s1)) = (Ok Ack, w) /\
        rtc (saga_step tr) s (carried_out w (pre ++ post) s1) /\ sub_outbox (w_db w) = sub_outbox (y_sub s) /\
        not_pending (sub_at (w_db w)) e r /\
        forall e' r', (e', r') <> (e, r) -> sub_at (w_db w) e' r' = sub_at (y_sub s) e' r'.
Proof.
  intros Hs0 Hrun Hn Hk Hin. pose proof (saga_run_inv tr s0 s Hrun (settled_inv tr s0 Hs0)) as [Hi _ _ _ Hids _].
  destruct (batches_published n s Hn Hids) as (s1 & Hb & Hsub & Hemp & Hcm). exists s1. split_and!; [done..| |].
  - rewrite Hcm. apply elem_of_app. destruct Hin as [Hin|(row & -> & Hrow)%list_elem_of_fmap]; [by left|right].
    apply list_elem_of_In, List.filter_In. split.
    + apply list_elem_of_In, list_elem_of_fmap_2. unfold due. by rewrite order_by_perm.
    + unfold listens. apply bool_decide_eq_true. destruct Hk as [-> _]. by left.
  - intros pre post Hcs. rewrite <- Hsub in Hi |- *. destruct (command_carried_out tr s1 e r m pre post Hi Hk Hcs) as (w & Hd & Hst & Hrest).
    exists w. split; [done|]. split; [|exact Hrest]. eapply rtc_r; [|exact Hst].
    clear -Hb. induction Hb; [done|]. eapply rtc_l; [|done]. by eapply batch_step.
Qed.

End System.

(** ** Witnesses *)

(** Ann's subscription is pending, and so is its saga. *)
Definition saga_begin : SagaSys :=
  {| y_sub := ann_pending; y_saga := demo_sagas StatePending; y_todo := []; y_commands := []; y_lost := [] |}.

Lemma saga_begin_settled : settled saga_begin.
Proof.
  split; simpl; try done.
  - apply ann_pending_inv.
  - apply utf8_rows_subs; [apply ann_pending_inv|by vm_compute].
  - apply demo_saga_inv.
  - intros s ->%list_elem_of_singleton. by vm_compute.
  - intros e r tok (s & Hs & (<- & rp & Hrp & _ & <-) & _)%sub_at_Some; [|apply ann_pending_inv].
    apply list_elem_of_singleton in Hs as ->. apply list_elem_of_singleton in Hrp as ->. by vm_compute.
Qed.

(** A check of [utf8_sagas] on the rows. *)
Definition utf8_saga_rows (d : SagaDB) : bool :=
  forallb (fun s => valid_utf8 (sg_Type s) && valid_utf8 (sg_Email s) && valid_utf8 (sg_RepoName s)) (sagas d).

Lemma utf8_rows_sagas d : utf8_saga_rows d = true -> utf8_sagas d.
Proof.
  unfold utf8_saga_rows. rewrite forallb_forall. intros Hd s Hs%list_elem_of_In%Hd. rewrite !andb_true_iff in Hs. unfold saga_text; tauto.
Qed.

(** The steps in quiet surroundings. *)
Definition orchestrated (spec : ConsumerSpec SagaDB) (data : string) (d : SagaDB) : res AckKind * World SagaDB :=
  dispatch Background (cs_Handler spec) data (world_of d).
Definition quiet_dead : ConsumerSpec SagaDB := dead_consumer (E := quiet_env) (C := newCoordinator (E := quiet_env) "nats").
Definition quiet_pending : ConsumerSpec SagaDB :=
  {| cs_Stream := StreamSubscriptions; cs_Durable := "saga-subscription-pending";
     cs_Subject := SubjectSubscriptionPending; cs_Handler := HandlePending (E := quiet_env) |}.
Definition relay_commands (w : World SagaDB) : World SagaDB :=
  snd (flushBatch (E := quiet_env) (BP := Conn_BusPublisher (H := quiet_env)) 10 Background w).

(** Ann's confirmation mail is dead: the orchestrator decides to roll back. *)
Definition mail_dead : SagaSys :=
  set_y_saga (w_db (snd (orchestrated quiet_dead dead_data (demo_sagas StatePending)))) [] saga_begin.

Lemma mail_dead_step tr : saga_step tr saga_begin mail_dead.
Proof.
  refine (SagaNotification tr saga_begin quiet_env "nats" quiet_dead Background dead_data Ack (world_of (demo_sagas StatePending)) _
    eq_refl _ eq_refl (conj eq_refl (conj eq_refl eq_refl)) (ack_pair _ _ _) _).
  - apply dead_consumer_started.
  - by vm_compute.
  - apply utf8_rows_sagas. by vm_compute.
Qed.

Lemma saga_leaves_no_orphan_witness : commanded mail_dead ("ann@example.test", "golang/go").
Proof.
  destruct (saga_leaves_no_orphan (J := simple_jwt) simple_uuid_utf8 simple_uuid_parses simple_Sign_utf8 PerSubscription saga_begin mail_dead
    "ann@example.test" "golang/go" "aa" saga_begin_settled (rtc_once _ _ (mail_dead_step _)) ltac:(discriminate)
    ltac:(vm_compute; reflexivity)) as [(m & b & Hm & _)|[(id & st & Hl & Hst)|[Hc|(m & Hm & _)]]]; [| |exact Hc|by apply elem_of_nil in Hm].
  - exfalso. by apply elem_of_nil in Hm.
  - exfalso. vm_compute in Hl. injection Hl as _ <-. discriminate Hst.
Defined.

Definition dead_command : Msg := match map wire (saga_outbox (y_saga mail_dead)) with m :: _ => m | [] => ("", "") end.

Lemma dead_command_for : command_for ("ann@example.test", "golang/go") dead_command.
Proof. split; [by vm_compute|]. exists (compensate_event (demo_saga StatePending)). split; by vm_compute. Qed.

Lemma saga_rollback_completes_witness :
  exists s1 w, rtc (batch_published 1) mail_dead s1 /\ saga_outbox (y_saga s1) = [] /\ dead_command ∈ y_commands s1 /\
    dispatch Background (HandleCompensate (E := quiet_env)) (snd dead_command) (world_of (y_sub s1)) = (Ok Ack, w) /\
    sub_at (y_sub mail_dead) "ann@example.test" "golang/go" = Some (false, "aa") /\
    not_pending (sub_at (w_db w)) "ann@example.test" "golang/go".
Proof.
  destruct (saga_rollback_completes (J := simple_jwt) simple_uuid_utf8 simple_uuid_parses simple_Sign_utf8 PerSubscription saga_begin mail_dead
    "ann@example.test" "golang/go" dead_command 1 saga_begin_settled (rtc_once _ _ (mail_dead_step _)) ltac:(lia) dead_command_for)
    as (s1 & Hb & Hemp & _ & Hin & Hall).
  - right. assert (map wire (saga_outbox (y_saga mail_dead)) = [dead_command]) as -> by (vm_compute; reflexivity). by left.
  - pose proof Hin as (pre & post & Hcs)%list_elem_of_split. destruct (Hall pre post Hcs) as (w & Hd & _ & _ & Hnp & _).
    exists s1, w. split_and!; [done..|by vm_compute|done].
Defined.

(** ** A rollback that comes too late *)

(** Ann asks again while the command is on its way: a new mail, a new saga. *)
#[local] Instance any_request : ProtoValidator Request := {| pv_Validate _ := None |}.

Definition ann_again : World SubDB :=
  snd (NewConnectHandler (E := quiet_env) (G := demo_checker) demo_tokens "https://notify.example.test" "key" "bearer key" Background
    (SubscribeRequest "ann@example.test" "golang/go") (world_of ann_pending)).

Definition commands_sent : SagaSys :=
  {| y_sub := ann_pending; y_saga := w_db (relay_commands (world_of (y_saga mail_dead))); y_todo := [];
     y_commands := accepted (w_trace (relay_commands (world_of (y_saga mail_dead)))); y_lost := [] |}.
Definition asked_again : SagaSys := set_y_sub (w_db ann_again) commands_sent.
Definition again_msg : Msg := match accepted (w_trace (relay_all (world_of (w_db ann_again)))) with m :: _ => m | [] => ("", "") end.
Definition again_announced : SagaSys :=
  {| y_sub := w_db (relay_all (world_of (w_db ann_again))); y_saga := y_saga commands_sent; y_todo := [again_msg];
     y_commands := y_commands commands_sent; y_lost := [] |}.
Definition saga_again : SagaSys :=
  set_y_saga (w_db (snd (orchestrated quiet_pending (snd again_msg) (y_saga again_announced)))) [] again_announced.
Definition old_command : Msg := match y_commands commands_sent with m :: _ => m | [] => ("", "") end.
Definition carry_out (m : Msg) (d : SubDB) : res AckKind * World SubDB :=
  dispatch Background (HandleCompensate (E := quiet_env)) (snd m) (world_of d).
Definition too_late : SagaSys :=
  {| y_sub := w_db (snd (carry_out old_command (y_sub saga_again))); y_saga := y_saga saga_again; y_todo := y_todo saga_again; y_commands := []; y_lost := [] |}.

Lemma relay_events_to tr s s' :
  s' = {| y_sub := w_db (relay_all (world_of (y_sub s))); y_saga := y_saga s;
          y_todo := y_todo s ++ List.filter (listens saga_subjects) (accepted (w_trace (relay_all (world_of (y_sub s)))));
          y_commands := y_commands s; y_lost := y_lost s |} ->
  saga_step tr s s'.
Proof.
  intros ->. exact (SagaRelayEvents tr s quiet_env (BP := Conn_BusPublisher (H := quiet_env)) 10 Background _ _
    (world_of (y_sub s)) (relay_all (world_of (y_sub s))) (conj eq_refl (conj eq_refl eq_refl)) eq_refl
    (fun _ _ => eq_refl) (surjective_pairing _) (or_introl eq_refl)).
Qed.

Lemma relay_commands_to tr s s' :
  s' = {| y_sub := y_sub s; y_saga := w_db (relay_commands (world_of (y_saga s))); y_todo := y_todo s;
          y_commands := y_commands s ++
            List.filter (listens [SubjectSagaCompensate]) (accepted (w_trace (relay_commands (world_of (y_saga s))))); y_lost := y_lost s |} ->
  saga_step tr s s'.
Proof.
  intros ->. exact (SagaRelayCommands tr s quiet_env (BP := Conn_BusPublisher (H := quiet_env)) 10 Background _ _
    (world_of (y_saga s)) (relay_commands (world_of (y_saga s))) (conj eq_refl (conj eq_refl eq_refl)) eq_refl
    (surjective_pairing _) (or_introl eq_refl)).
Qed.

Lemma pending_to tr s m :
  y_todo s = [m] -> fst m = SubjectSubscriptionPending -> fst (orchestrated quiet_pending (snd m) (y_saga s)) = Ok Ack ->
  utf8_saga_rows (w_db (snd (orchestrated quiet_pending (snd m) (y_saga s)))) = true ->
  saga_step tr s (set_y_saga (w_db (snd (orchestrated quiet_pending (snd m) (y_saga s)))) [] s).
Proof.
  intros Ht Hm Hack Hu.
  exact (SagaEvent tr s quiet_env "nats" [] m [] quiet_pending Background Ack true (world_of (y_saga s)) _
    eq_refl (conj Ht (conj (Forall_nil_2 _) (fun _ => Forall_nil_2 _))) (list_elem_of_here _ _) eq_refl (eq_sym Hm)
    (conj eq_refl (conj eq_refl eq_refl)) (ack_pair _ _ Hack) (utf8_rows_sagas _ Hu)).
Qed.

Lemma command_to tr s m :
  y_commands s = [m] -> fst m = SubjectSagaCompensate -> fst (carry_out m (y_sub s)) = Ok Ack ->
  saga_step tr s
    {| y_sub := w_db (snd (carry_out m (y_sub s))); y_saga := y_saga s; y_todo := y_todo s; y_commands := []; y_lost := y_lost s |}.
Proof.
  intros Hc Hm Hack.
  exact (SagaCommand tr s quiet_env [] m [] _ Background Ack true (world_of (y_sub s)) _ Hc
    (list_elem_of_here _ _) (eq_sym Hm) (conj eq_refl (conj eq_refl eq_refl)) (ack_pair _ _ Hack)).
Qed.

(** A command names an e-mail and a repository, not the saga it ends.  When Ann
    asks again before it arrives, it removes the subscription the second
    confirmation mail is about: nothing is left to do, Ann's new link confirms
    nothing, and the new saga stays open for good. *)
Theorem late_rollback_removes_new_subscription :
  rtc (saga_step PerSubscription) saga_begin too_late /\
  sub_outbox (y_sub too_late) = [] /\ saga_outbox (y_saga too_late) = [] /\ y_todo too_late = [] /\ y_commands too_late = [] /\
  sub_at (y_sub too_late) "ann@example.test" "golang/go" = None /\
  open_saga (abs_sagas (sagas (y_saga too_late))) ("ann@example.test", "golang/go") = true.
Proof.
  split; [|split_and!; by vm_compute].
  apply (rtc_l _ _ mail_dead); [apply mail_dead_step|]. apply (rtc_l _ _ commands_sent).
  { apply relay_commands_to. by vm_compute. }
  apply (rtc_l _ _ asked_again).
  { refine (SagaRequest _ commands_sent quiet_env (G := demo_checker) demo_tokens
      "https://notify.example.test" "key" "bearer key" Background (SubscribeRequest "ann@example.test" "golang/go") _ (world_of ann_pending) ann_again
      (conj eq_refl (conj eq_refl eq_refl)) (surjective_pairing _) _ _ _).
    - apply utf8_rows_subs; [|by vm_compute]. pose proof (handler_refines (E := quiet_env) (G := demo_checker) demo_tokens "https://notify.example.test" "key" "bearer key" Background
        (SubscribeRequest "ann@example.test" "golang/go") (world_of ann_pending) eq_refl eq_refl ann_pending_inv) as (_ & Hi & _).
      exact Hi.
    - intros old row e r Hold. by apply elem_of_nil in Hold.
    - by vm_compute. }
  apply (rtc_l _ _ again_announced).
  { apply relay_events_to. by vm_compute. }
  apply (rtc_l _ _ saga_again).
  { apply (pending_to _ again_announced again_msg); [reflexivity|by vm_compute..]. }
  apply rtc_once, (command_to _ saga_again old_command); by vm_compute.
Qed.
