(* ===== verification/Redelivery.v ===== *)
(** * Redelivered and undelivered messages

    The consumers of the notifier and of the orchestrator under the deliveries of
    [Delivery.v]: repeating a message repeats nothing, and a message that the bus
    gives up is lost for good, which is what happens to a confirmation when the
    notifier's database is down for five deliveries. *)

From S2P Require Import Prelude GoErrors Effects Wp Sql Json JsonFacts Events Uuid Libs Broker Delivery Outbox OutboxFacts Consumers.
From S2P Require Import Saga SagaFacts Subscription SubscriptionFacts Mailer Notifier NotifierFacts NotifierTheorems Scanner ScannerFacts.
From S2P Require Import Replicas Convergence Quiet Concrete.

Open Scope string_scope.
Open Scope list_scope.
Open Scope Z_scope.

(** The configuration of a service's consumer. *)
Definition config_of {D} (spec : ConsumerSpec D) : ConsumerConfig := consumer_config (cs_Durable spec) (cs_Subject spec).

(** What has become of the messages of a consumer: each was handed over at most
    five times, and given up only after five; [taken] are those that took effect. *)
Definition accounted (msgs : list string) (os : list Outcome) (taken : list bool) : Prop :=
  length os = length msgs /\ Forall (within_limit (Z.to_nat maxDeliver)) os /\ Forall2 (fun o t => oc_settled o = true -> t = true) os taken.

Section Redelivery.
Context {V : Validators} {U : UUIDLib} {P : PgxLib} {E : Env} (heard : nat -> bool).

(** ** The read model *)

Lemma read_spec_idem subject data rm : read_spec subject data (read_spec subject data rm) = read_spec subject data rm.
Proof. exact (replay_twice [] (subject, data) [] rm). Qed.

(** C9: Redelivery repeats nothing.  A consumer of the
    notifier that works through any messages of its subject, with any behaviour
    of the database and of SMTP and with acknowledgements that get lost, hands each to
    its handler at most five times and gives it up only after five; the read model
    ends as the messages make it, in order and once each, except that some of those
    given up have had no effect. *)
Theorem redelivered_once {RS : ReleaseSender NotDB} {CS : ConfirmationSender NotDB} baseURL spec ctx msgs w :
  spec ∈ notifier_startConsumers baseURL -> at_rest (w_db w) ctx w -> not_inv (w_db w) ->
  let '(r, w') := consume heard (config_of spec) ctx (cs_Handler spec) msgs w in
  not_inv (w_db w') /\ exists os taken, r = Ok os /\ accounted msgs os taken /\
    abs_read (w_db w') = replay (map (fun data => (cs_Subject spec, data)) (chosen taken msgs)) (abs_read (w_db w)).
Proof.
  intros Hs (_ & Htx & Hctx) Hi.
  assert (forall data w, w_tx w = None -> not_inv (w_db w) -> wp (cs_Handler spec ctx data) (fun r w' =>
    w_tx w' = None /\ not_inv (w_db w') /\ ((abs_read (w_db w') = abs_read (w_db w) /\ retryable r = true) \/
      abs_read (w_db w') = read_spec (cs_Subject spec) data (abs_read (w_db w)))) w) as Hh.
  { intros data w1 Htx1 Hi1. eapply wp_mono; [|by apply (consumer_projects baseURL)]. by intros r w' (? & ? & _ & ?). }
  pose proof (consume_once heard not_inv abs_read (read_spec (cs_Subject spec)) ctx _ Hh (read_spec_idem _) (config_of spec) msgs w Htx Hi)
    as Hc. unfold wp in Hc. destruct (consume _ _ _ _ _ _) as [r w']. cbn [fst snd] in Hc. destruct Hc as (os & taken & -> & _ & Hi' & ? & ? & ? & Hv).
  split; [done|]. exists os, taken. split_and!; [done..|]. simpl in Hv. rewrite Hv. unfold replay. generalize (chosen taken msgs). clear.
  intros l. generalize (abs_read (w_db w)). induction l as [|d l IH]; intros rm; simpl; [done|]. apply IH.
Qed.

(** ** The sagas *)

Lemma advance_idem to v : advance to (advance to v) = advance to v.
Proof. unfold advance. destruct v as [id st]. by destruct st, to. Qed.

Lemma advance_id_idem id to t : advance_id id to (advance_id id to t) = advance_id id to t.
Proof.
  apply map_eq. intros k. unfold advance_id. rewrite !lookup_fmap. destruct (t !! k) as [v|]; [|done]. simpl. f_equal.
  destruct (bool_decide (fst v = id)) eqn:He; [|by rewrite He]. clear He. rewrite advance_idem. by destruct (bool_decide _).
Qed.

Lemma alter_advance_idem (to : State) (k : SagaKey) (t : SagaMap) : alter (advance to) k (alter (advance to) k t) = alter (advance to) k t.
Proof.
  apply map_eq. intros k'. destruct (decide (k = k')) as [->|Hne]; [|by rewrite !lookup_alter_ne].
  rewrite !lookup_alter_eq. destruct (t !! k') as [v|]; [|done]. simpl. by rewrite advance_idem.
Qed.

Lemma spec_of_idem m t : spec_of m (spec_of m t) = spec_of m t.
Proof.
  destruct m as [[id e r|id|id|e r|e r]|]; simpl; try (destruct (uuid_Parse id); [done|]); try done.
  - by rewrite insert_insert_eq.
  - apply advance_id_idem.
  - apply advance_id_idem.
  - apply alter_advance_idem.
  - apply alter_advance_idem.
Qed.

(** The sagas end as the messages make them, in order and once each, but for some
    that were given up. *)
Theorem sagas_redelivered_once {C : Compensator} {CS : CompensatorSpec C} spec ctx msgs w :
  spec ∈ SagaConsumer.startConsumers -> at_rest (w_db w) ctx w -> saga_inv (w_db w) ->
  let '(r, w') := consume heard (config_of spec) ctx (cs_Handler spec) msgs w in
  saga_inv (w_db w') /\ exists os taken, r = Ok os /\ accounted msgs os taken /\
    abs_sagas (sagas (w_db w')) =
      foldl (fun t data => spec_of (decode_msg (cs_Subject spec) data) t) (abs_sagas (sagas (w_db w))) (chosen taken msgs).
Proof.
  intros Hs (_ & Htx & Hctx) Hi.
  assert (forall data w, w_tx w = None -> saga_inv (w_db w) -> wp (cs_Handler spec ctx data) (fun r w' =>
    w_tx w' = None /\ saga_inv (w_db w') /\
    ((abs_sagas (sagas (w_db w')) = abs_sagas (sagas (w_db w)) /\ retryable r = true) \/
      abs_sagas (sagas (w_db w')) = spec_of (decode_msg (cs_Subject spec) data) (abs_sagas (sagas (w_db w))))) w) as Hh.
  { intros data w1 Htx1 Hi1. eapply wp_mono; [|by apply consumers_refine]. by intros r w' (? & ? & _ & ?). }
  pose proof (consume_once heard saga_inv (fun d => abs_sagas (sagas d)) (fun data => spec_of (decode_msg (cs_Subject spec) data))
    ctx _ Hh (fun _ => spec_of_idem _) (config_of spec) msgs w Htx Hi) as Hc.
  unfold wp in Hc. destruct (consume _ _ _ _ _ _) as [r w']. cbn [fst snd] in Hc.
  destruct Hc as (os & taken & -> & _ & Hi' & ? & ? & ? & Hv). split; [done|]. by exists os, taken.
Qed.
End Redelivery.

(** ** What the bus gives up *)

#[local] Instance down_RS : ReleaseSender NotDB := demo_RS down_env.
#[local] Instance down_CS : ConfirmationSender NotDB := demo_CS down_env.

(** The notifier's consumer of confirmations while its database is down. *)
Definition down_confirmed : ConsumerSpec NotDB :=
  {| cs_Stream := StreamSubscriptions; cs_Durable := "notifier-subscription-confirmed";
     cs_Subject := SubjectSubscriptionConfirmed; cs_Handler := Notifier_HandleConfirmed (E := down_env) |}.

Definition given_up : Sys := set_lost confirmed_msg [] after_relay.
Definition never_told : Sys := set_scan (w_db (snd (counted scan_confirmed_spec confirmed_msg no_repos))) [] given_up.

Lemma down_delivery tr : sys_step tr after_relay after_relay.
Proof.
  refine (SysNotifier tr after_relay down_env demo_base [] confirmed_msg [] down_confirmed Background Nak true
    (world_of no_subscribers) _ _ _ _ (conj eq_refl (conj eq_refl eq_refl)) (ack_pair _ _ _)).
  - by split_and!.
  - right. left.
  - by vm_compute.
  - by vm_compute.
Qed.

(** A message that is not acknowledged is delivered again at once, so that a
    database that is down for an instant uses up the five deliveries of a
    confirmation.  Nothing keeps it then: Ann stays confirmed, the scanner counts
    her, nothing is left to publish or to handle, and the notifier never mails her. *)
Theorem confirmation_given_up :
  fst (consume (fun _ => true) (config_of down_confirmed) Background (cs_Handler down_confirmed)
    [snd confirmed_msg] (world_of no_subscribers)) = Ok [{| oc_deliveries := 5; oc_settled := false |}] /\
  rtc (sys_step PerSubscription) demo_start after_relay /\
  nsteps (sys_step PerSubscription) 5 after_relay after_relay /\
  rtc (sys_step PerSubscription) after_relay never_told /\
  sub_outbox (s_sub never_told) = [] /\ s_not_todo never_told = [] /\ s_scan_todo never_told = [] /\
  sub_at (s_sub never_told) "ann@example.test" "golang/go" = Some (true, "aa") /\
  subscriber_count (abs_watch (s_scan never_told)) "golang/go" = 1 /\
  abs_read (s_not never_told) !! ("ann@example.test", "golang/go") = None.
Proof.
  split; [by vm_compute|]. split; [|split; [|split; [|split_and!; by vm_compute]]].
  - apply (rtc_l _ _ after_confirm); [apply confirm_step|apply rtc_once, publish_step].
  - do 5 (econstructor; [apply down_delivery|]). constructor.
  - apply (rtc_l _ _ given_up).
    { apply (SysNotifierGivesUp _ after_relay [] confirmed_msg []). by split_and!. }
    apply rtc_once, (demo_scanner_step _ given_up [] confirmed_msg [] scan_confirmed_spec);
      [reflexivity|left|by vm_compute|constructor|constructor|by vm_compute].
Qed.

(** ** Witness *)

(** The first two acknowledgements are lost, and the second message is poison. *)
Definition late_heard (n : nat) : bool := bool_decide (5 <= n)%nat.

Lemma redelivered_once_witness :
  let w' := snd (consume late_heard (config_of not_confirmed_spec) Background (cs_Handler not_confirmed_spec)
    [snd confirmed_msg; "poison"] (world_of no_subscribers)) in
  abs_read (w_db w') !! ("ann@example.test", "golang/go") = Some "aa".
Proof.
  pose proof (redelivered_once (E := quiet_env) late_heard (RS := demo_RS quiet_env) (CS := demo_CS quiet_env)
    demo_base not_confirmed_spec Background [snd confirmed_msg; "poison"] (world_of no_subscribers)
    ltac:(right; left) (conj eq_refl (conj eq_refl eq_refl)) (co_not _ demo_start_consistent)) as H.
  assert (fst (consume late_heard (config_of not_confirmed_spec) Background (cs_Handler not_confirmed_spec)
    [snd confirmed_msg; "poison"] (world_of no_subscribers)) =
    Ok [{| oc_deliveries := 3; oc_settled := true |}; {| oc_deliveries := 1; oc_settled := true |}]) as Ho by (vm_compute; reflexivity).
  destruct (consume _ _ _ _ _ _) as [r w']. destruct H as (_ & os & taken & -> & (_ & _ & Ht) & Hv). injection Ho as ->.
  simpl. rewrite Hv. inversion Ht as [|? t1 ? ? H1 Ht1]; subst. inversion Ht1 as [|? t2 ? ? H2 Ht2]; subst. inversion Ht2; subst.
  rewrite (H1 eq_refl), (H2 eq_refl). vm_compute. reflexivity.
Defined.
