(* ===== verification/System.v ===== *)
(** * The system: four services on one bus

    What holds across components: the event wire format, the wiring of streams,
    subjects and consumers, poison messages, and the limits of the lost-batch
    guarantee.  That the services' stores converge is in [Convergence]. *)

From S2P Require Import Prelude GoErrors Effects Wp Sql Json JsonFacts RepoName Events Uuid Libs Broker Outbox.
From S2P Require Import Consumers Saga GitHub Subscription SubscriptionUse SubscriptionApi Mailer Notifier.
From S2P Require Import NotifierFacts RetryFacts NotifierTheorems Scanner ScannerFacts ScannerTheorems Quiet Concrete.

Open Scope string_scope.
Open Scope list_scope.
Open Scope Z_scope.

(** ** Messages *)

(** C37: The wire format is faithful: an event is put on the wire exactly when it is
    valid, what is put on the wire is read back as the same event whenever its
    strings are valid UTF-8, and whatever is read is valid. *)
Theorem event_wire_roundtrip `{Validators} {T} `{Event T} (ev : T) :
  (is_ok (Marshal ev) = true <-> validate ev = true) /\
  (encodable ev = true -> forall data, Marshal ev = Ok data -> Unmarshal data = Ok ev) /\
  (forall data ev', Unmarshal (T := T) data = Ok ev' -> validate ev' = true).
Proof.
  split_and!.
  - unfold Marshal. by destruct (validate ev).
  - intros Henc data. by apply Marshal_Unmarshal.
  - apply Unmarshal_valid.
Qed.

(** A repository name is split exactly when it is owner/name with both parts
    non-empty and of letters, digits, dots, dashes and underscores; the parts
    are returned; anything else is ErrInvalidRepo, never an index out of range. *)
Theorem ParseRepo_correct repo :
  (forall owner name, ParseRepo repo = Ok (owner, name) <->
     repo = owner +:+ String slash name /\ class_plus owner = true /\ class_plus name = true) /\
  (forall e, ParseRepo repo = Err e -> e = Sentinel ErrInvalidRepo).
Proof.
  split; [intros owner name; apply ParseRepo_iff|]. intros e He. by apply ParseRepo_error in He as [? _].
Qed.

(** ** Wiring *)

Section Wiring.
Context {E : Env} {V : Validators} {U : UUIDLib} {P : PgxLib} {J : JwtLib} {C : Compensator}
  {RS : ReleaseSender NotDB} {CS : ConfirmationSender NotDB}.
Variable baseURL : string.

(** Stream, durable name and subject of every consumer of the system. *)
Definition wiring {D} (specs : list (ConsumerSpec D)) : list (string * string * string) :=
  map (fun s => (cs_Stream s, cs_Durable s, cs_Subject s)) specs.

Definition system_wiring : list (string * string * string) :=
  wiring SagaConsumer.startConsumers ++ wiring subscription_startConsumers ++
  wiring (notifier_startConsumers baseURL) ++ wiring scanner_startConsumers.

(** The bus is wired up: every consumer of every service reads a stream that all
    services ensure, on a subject of that stream, under a durable name of its
    own; the subjects of different streams are disjoint; and every subject
    that a service acts on has a consumer. *)
Theorem wiring_complete :
  Forall (fun '(stream, _, subject) => exists subjects, (stream, subjects) ∈ event_streams /\ subject ∈ subjects)
    system_wiring /\
  NoDup (map (fun '(_, durable, _) => durable) system_wiring) /\
  NoDup (map fst event_streams) /\ NoDup (concat (map snd event_streams)) /\
  Forall (fun subject => subject ∈ map snd system_wiring)
    (SubjectsSubscriptions ++ SubjectsReleases ++ SubjectsSagas ++
     [SubjectNotificationConfirmationSent; SubjectNotificationConfirmationDead]).
Proof.
  split_and!.
  - unfold system_wiring. simpl.
    repeat (apply Forall_cons; split; [eexists; split; [|]|]); try apply Forall_nil;
      try (unfold event_streams; by repeat (left || right)); done.
  - apply (bool_decide_unpack (NoDup _)). vm_compute. done.
  - apply (bool_decide_unpack (NoDup _)). vm_compute. done.
  - apply (bool_decide_unpack (NoDup _)). vm_compute. done.
  - apply (bool_decide_unpack (Forall _ _)). vm_compute. done.
Qed.

(** ** Poison messages *)

(** Whether a message on a subject decodes to that subject's event. *)
Definition decodes (subject data : string) : bool :=
  if String.eqb subject SubjectSubscriptionPending then is_ok (Unmarshal (T := SubscriptionPending) data)
  else if String.eqb subject SubjectSubscriptionConfirmed then is_ok (Unmarshal (T := SubscriptionConfirmed) data)
  else if String.eqb subject SubjectSubscriptionRemoved then is_ok (Unmarshal (T := SubscriptionRemoved) data)
  else if String.eqb subject SubjectSubscriptionExpired then is_ok (Unmarshal (T := SubscriptionExpired) data)
  else if String.eqb subject SubjectReleaseDetected then is_ok (Unmarshal (T := ReleaseDetected) data)
  else if String.eqb subject SubjectReleaseNotified then is_ok (Unmarshal (T := ReleaseNotified) data)
  else if String.eqb subject SubjectNotificationConfirmationSent
    then is_ok (Unmarshal (T := NotificationConfirmationSent) data)
  else if String.eqb subject SubjectNotificationConfirmationDead
    then is_ok (Unmarshal (T := NotificationConfirmationDead) data)
  else if String.eqb subject SubjectSagaCompensate then is_ok (Unmarshal (T := SagaCompensate) data)
  else true.

Definition terminates_poison {D} (specs : list (ConsumerSpec D)) : Prop :=
  Forall (fun s => forall ctx data (w : World D),
    decodes (cs_Subject s) data = false -> dispatch ctx (cs_Handler s) data w = (Ok Term, w)) specs.

Lemma poison_handler {D T} `{Event T} (h : Handler D) ctx data k (w : World D) :
  h ctx data = decoded (T := T) data k -> is_ok (Unmarshal (T := T) data) = false ->
  dispatch ctx h data w = (Ok Term, w).
Proof. intros Hh Hp. eapply decoded_garbage; [exact Hh|]. intros ev Hu. by rewrite Hu in Hp. Qed.

(** C38: Poison messages are dropped without effect: when a message does not decode to
    a valid event of its subject, every consumer of every service terminates
    it, so it is never redelivered, and changes nothing at all. *)
Theorem poison_terminated :
  terminates_poison SagaConsumer.startConsumers /\ terminates_poison subscription_startConsumers /\
  terminates_poison (notifier_startConsumers baseURL) /\ terminates_poison scanner_startConsumers.
Proof.
  unfold terminates_poison, SagaConsumer.startConsumers, subscription_startConsumers, notifier_startConsumers,
    scanner_startConsumers.
  split_and!; repeat (apply List.Forall_cons || apply List.Forall_nil); intros ctx data w Hd;
    unfold decodes in Hd; simpl in Hd; exact (poison_handler _ _ _ _ _ eq_refl Hd).
Qed.
End Wiring.

(** ** The limits of the lost-batch guarantee *)

(** Once a release is marked as processed, nothing the notifier does tells the
    scanner about it again: a re-detection mails nothing, changes nothing and
    enqueues nothing, and a retrier run, even when it delivers the failed
    messages, enqueues no releases.notified.  A release none of whose first
    messages was accepted therefore never advances the scanner's tag while the
    mark is kept. *)
Theorem processed_release_stuck {E : Env} `{Validators} {P : PgxLib} {RS : ReleaseSender NotDB}
    baseURL cfg ctx inp (w : World NotDB) :
  txFromContext ctx = false -> w_tx w = None -> not_inv (w_db w) -> is_processed inp (w_db w) = true ->
  (let '(_, w') := NotifyRelease_Execute baseURL ctx inp w in w_db w' = w_db w /\ w_trace w' = w_trace w) /\
  (let '(_, w') := Retrier_Releases baseURL cfg ctx w in
   is_processed inp (w_db w') = true /\
   forall row, row ∈ not_outbox (w_db w') -> row ∉ not_outbox (w_db w) -> om_subject row <> SubjectReleaseNotified).
Proof.
  intros Hctx Htx Hinv Hp. split.
  - pose proof (NotifyRelease_outcome baseURL ctx inp w Hctx Htx Hinv) as Ho. unfold wp in Ho.
    destruct (NotifyRelease_Execute baseURL ctx inp w) as [r w']. destruct Ho as [_ Ho]. by rewrite Hp in Ho.
  - pose proof (Retrier_Releases_spec baseURL cfg ctx w Hctx (conj Htx Hinv)) as Ho. unfold wp in Ho.
    destruct (Retrier_Releases baseURL cfg ctx w) as [r w']. cbn [fst snd] in Ho.
    destruct Ho as (_ & [(_ & _ & Hd & _)|(_ & fate & ls & _ & (msgs & Hm & Hd) & _)]); rewrite Hd; [by split|].
    split; [done|]. simpl. intros row [Hrow|Hrow]%elem_of_app Hnew; [done|]. clear -Hm Hrow.
    induction Hm as [|fn m fns msgs Hm _ IH]; simpl in Hrow; [by apply elem_of_nil in Hrow|].
    apply elem_of_app in Hrow as [Hrow|Hrow]; [|by apply IH].
    destruct (fate (item_id fn)); simpl in Hm; try (subst m; by apply elem_of_nil in Hrow);
      destruct Hm as (row' & -> & id & at_ & ->); apply list_elem_of_singleton in Hrow as ->; done.
Qed.

(** ** Witnesses *)

(** The release of [demo_not] is already processed; SMTP works again. *)
Definition processed_not : NotDB :=
  set_processed [{| pr_repo_name := "golang/go"; pr_tag := "v2.0"; pr_processed_at := 3 |}] demo_not.

Lemma processed_not_inv : not_inv processed_not.
Proof. destruct demo_not_inv. split; try done. apply NoDup_singleton. Qed.

Lemma processed_release_stuck_witness :
  let '(_, w') := NotifyRelease_Execute (E := quiet_env) (RS := demo_RS quiet_env) demo_base Background demo_input
    (world_of processed_not) in
  w_db w' = processed_not /\ w_trace w' = [].
Proof.
  refine (proj1 (processed_release_stuck (E := quiet_env) (RS := demo_RS quiet_env) demo_base demo_retry Background
    demo_input (world_of processed_not) eq_refl eq_refl processed_not_inv _)).
  vm_compute. reflexivity.
Defined.
